(** * The binary log and its two-phase-commit coordinator (sql/log.cc)

    A shallow embedding of the parts of [sql/log.cc] that decide the
    properties stated about the per-session transaction cache, the
    cache-to-log copy, the group-commit tickets, the 2PC interface, the
    recovery scan, log rotation and the memory-mapped coordinator.

    Conventions.  Unsigned machine integers are [Z] with the wrap-around
    written out ([my_off_t] and [ulonglong] modulo [2^64], [uint] modulo
    [2^32]).  Bytes are [Z] in [0, 256).  Every function that mutates an
    object in the source takes the object and returns the new one. *)

From Stdlib Require Import String.
From Stdlib Require Import ZArith List Bool Lia.
Import ListNotations.
Open Scope Z_scope.

(* ================================================================== *)
(** * Machine integers and raw bytes *)

Definition byte := Z.

Definition uint_modulus : Z := 2 ^ 32.
Definition ulonglong_modulus : Z := 2 ^ 64.

(** [ulong] on the LP64 platforms the server is built for. *)
Definition ulong_modulus : Z := 2 ^ 64.

(** [#define MY_OFF_T_UNDEF (~(my_off_t)0UL)] *)
Definition MY_OFF_T_UNDEF : Z := ulonglong_modulus - 1.

(** Offset of the flags byte of the format description event:
    [BIN_LOG_HEADER_SIZE + FLAGS_OFFSET], the 4 magic bytes and the 17
    header bytes before the flags field. *)
Definition IN_USE_FLAG_OFFSET : nat := 4 + 17.

(** [my_pwrite(file, &flags, 1, offset)] with [flags = 0]; writing past
    the end of the file extends it. *)
Definition clear_in_use_flag (image : list byte) : list byte :=
  firstn IN_USE_FLAG_OFFSET image
  ++ repeat 0 (IN_USE_FLAG_OFFSET - length image)
  ++ [0] ++ skipn (S IN_USE_FLAG_OFFSET) image.

(* ================================================================== *)
(** * The per-session transaction cache: [class binlog_trx_data] *)

Module Cache.

(** The pending rows event ([Rows_log_event *m_pending]): the rows
    accumulated so far, the event's [get_cache_stmt()] flag and its
    [STMT_END_F] flag. *)
Record Rows_log_event := {
  rows_image : list byte;
  rows_cache_stmt : bool;
  rows_stmt_end_f : bool
}.

(** [IO_CACHE trans_log] used as a write cache: the bytes written so far
    and the [end_of_file] limit.  [my_b_tell] of a write cache is the
    number of bytes in it. *)
Record IO_CACHE := {
  contents : list byte;
  end_of_file : Z
}.

Definition my_b_tell (c : IO_CACHE) : Z := Z.of_nat (length (contents c)).

(** [reinit_io_cache(&trans_log, WRITE_CACHE, pos, 0, 0)]: the write
    position becomes [pos].  Bytes before [pos] are kept; seeking past the
    end leaves a hole, which reads back as zero bytes. *)
Definition reinit_write_cache (c : IO_CACHE) (pos : Z) : IO_CACHE :=
  let n := Z.to_nat pos in
  {| contents := firstn n (contents c) ++ repeat 0 (n - length (contents c));
     end_of_file := end_of_file c |}.

Record binlog_trx_data := {
  trans_log : IO_CACHE;
  at_least_one_stmt_committed : bool;
  incident : bool;
  m_pending : option Rows_log_event;
  before_stmt_pos : Z
}.

Definition pending (d : binlog_trx_data) : option Rows_log_event := m_pending d.

Definition set_pending (p : option Rows_log_event) (d : binlog_trx_data)
  : binlog_trx_data :=
  {| trans_log := trans_log d;
     at_least_one_stmt_committed := at_least_one_stmt_committed d;
     incident := incident d;
     m_pending := p;
     before_stmt_pos := before_stmt_pos d |}.

Definition position (d : binlog_trx_data) : Z := my_b_tell (trans_log d).

Definition empty (d : binlog_trx_data) : bool :=
  match pending d with
  | None => position d =? 0
  | Some _ => false
  end.

Definition set_incident (d : binlog_trx_data) : binlog_trx_data :=
  {| trans_log := trans_log d;
     at_least_one_stmt_committed := at_least_one_stmt_committed d;
     incident := true;
     m_pending := m_pending d;
     before_stmt_pos := before_stmt_pos d |}.

Definition has_incident (d : binlog_trx_data) : bool := incident d.

Section WithLimit.

(** The global [max_binlog_cache_size]. *)
Variable max_binlog_cache_size : Z.

(** The constructor: [binlog_trx_data()] on a freshly opened cache. *)
Definition new_trx_data : binlog_trx_data :=
  {| trans_log := {| contents := []; end_of_file := max_binlog_cache_size |};
     at_least_one_stmt_committed := false;
     incident := false;
     m_pending := None;
     before_stmt_pos := MY_OFF_T_UNDEF |}.

(** [void truncate(my_off_t pos)] *)
Definition truncate (pos : Z) (d : binlog_trx_data) : binlog_trx_data :=
  (* if (pending()) delete pending();  set_pending(0); *)
  let d1 := set_pending None d in
  (* reinit_io_cache(&trans_log, WRITE_CACHE, pos, 0, 0);
     trans_log.end_of_file= max_binlog_cache_size; *)
  let log := {| contents := contents (reinit_write_cache (trans_log d1) pos);
                end_of_file := max_binlog_cache_size |} in
  {| trans_log := log;
     (* at_least_one_stmt_committed= (pos > 0); *)
     at_least_one_stmt_committed := 0 <? pos;
     incident := incident d1;
     m_pending := m_pending d1;
     (* if (pos < before_stmt_pos) before_stmt_pos= MY_OFF_T_UNDEF; *)
     before_stmt_pos := if pos <? before_stmt_pos d1
                        then MY_OFF_T_UNDEF else before_stmt_pos d1 |}.

(** [void reset()] *)
Definition reset (d : binlog_trx_data) : binlog_trx_data :=
  let d1 := if negb (empty d) then truncate 0 d else d in
  {| trans_log := {| contents := contents (trans_log d1);
                     end_of_file := max_binlog_cache_size |};
     at_least_one_stmt_committed := at_least_one_stmt_committed d1;
     incident := false;
     m_pending := m_pending d1;
     before_stmt_pos := MY_OFF_T_UNDEF |}.

End WithLimit.

End Cache.

(* ================================================================== *)
(** * The binary log object and the session: data *)

Module Binlog.
Import Cache.

(** The error numbers [check_write_error] and [query_error_code] test
    for; every other number is [ER_OTHER]. *)
Inductive sql_errno_t :=
| ER_TRANS_CACHE_FULL
| ER_ERROR_ON_WRITE
| ER_BINLOG_LOGGING_IMPOSSIBLE
| ER_SERVER_SHUTDOWN
| ER_QUERY_INTERRUPTED
| ER_OTHER (code : Z).

(** [THD::killed] *)
Inductive killed_state := NOT_KILLED | KILL_BAD_DATA | KILL_OTHER.

(** [thd->lex->sql_command], as far as [MYSQL_BIN_LOG::write] looks. *)
Inductive enum_sql_command :=
| SQLCOM_SAVEPOINT
| SQLCOM_ROLLBACK_TO_SAVEPOINT
| SQLCOM_OTHER.

(** The events this file constructs.  [errcode = None] is error code 0. *)
Inductive Log_event :=
| Query_log_event (query : String.string) (using_trans suppress_use : bool)
                  (errcode : option sql_errno_t)
| Xid_log_event (xid : Z)
| Incident_log_event (message : String.string)
| Rotate_log_event (new_log_ident : String.string)
| Run_environment_event (image : list byte)
| Rows_event (r : Rows_log_event).

Inductive Log_event_type :=
| QUERY_EVENT | XID_EVENT | INCIDENT_EVENT | ROTATE_EVENT
| ENVIRONMENT_EVENT | ROWS_EVENT.

Definition get_type_code (e : Log_event) : Log_event_type :=
  match e with
  | Query_log_event _ _ _ _ => QUERY_EVENT
  | Xid_log_event _ => XID_EVENT
  | Incident_log_event _ => INCIDENT_EVENT
  | Rotate_log_event _ => ROTATE_EVENT
  | Run_environment_event _ => ENVIRONMENT_EVENT
  | Rows_event _ => ROWS_EVENT
  end.

Definition is_xid_event (e : Log_event) : bool :=
  match e with Xid_log_event _ => true | _ => false end.

(** [Log_event::get_cache_stmt()]: the [using_trans] argument the event
    was built with. *)
Definition get_cache_stmt (e : Log_event) : bool :=
  match e with
  | Query_log_event _ using_trans _ _ => using_trans
  | Rows_event r => rows_cache_stmt r
  | _ => false
  end.

(** One entry of [thd->transaction.stmt.ha_list]. *)
Record Ha_trx_info := {
  is_started : bool;
  is_trx_read_write : bool;
  ht_is_binlog_hton : bool
}.

(** The statement context, which the functions below only read. *)
Record stmt_context := {
  (* thd->options *)
  OPTION_BIN_LOG : bool;
  OPTION_KEEP_LOG : bool;
  OPTION_BEGIN : bool;
  OPTION_NOT_AUTOCOMMIT : bool;
  (* thd->transaction *)
  all_modified_non_trans_table : bool;
  stmt_modified_non_trans_table : bool;
  stmt_ha_list : list Ha_trx_info;
  (* the rest *)
  killed : killed_state;
  killed_errno : option sql_errno_t;
  lex_sql_command : enum_sql_command;
  lex_ident : String.string;
  lex_requires_prelocking : bool;
  prelocked_mode : bool;
  db_ok : bool;                         (* binlog_filter->db_ok(local_db) *)
  binlog_direct_non_trans_update : bool;
  current_stmt_binlog_row_based : bool;
  run_environment : list Log_event;     (* Intvar, Rand and User_var events *)
  my_errno_is_EFBIG : bool              (* my_errno == EFBIG after a failed write *)
}.

Record THD := {
  ctx : stmt_context;
  (* thd->binlog_evt_union *)
  do_union : bool;
  unioned_events : bool;
  unioned_events_trans : bool;
  (* thd->main_da *)
  da_is_error : bool;
  da_sql_errno : sql_errno_t;
  (* thd_get_ha_data(thd, binlog_hton) *)
  ha_data : option binlog_trx_data;
  (* thd->ticket, ulonglong *)
  ticket : Z
}.

(** [MYSQL_LOG::log_state] *)
Inductive enum_log_state := LOG_OPENED | LOG_CLOSED | LOG_TO_BE_OPENED.

(** The condition variables of the log object; [broadcasts] below records
    every [pthread_cond_broadcast] and [signal_update] in program order. *)
Inductive cond_var :=
| COND_prep_xids | COND_stop_xids | update_cond | binlog_cond
| binlog_commit_cond (slot : Z).

(** What the operating system and the other threads decide. *)
Record Env := {
  flush_io_cache_fails : bool;    (* flush_io_cache(&log_file) *)
  my_sync_fails : bool;           (* my_sync(fd) *)
  other_session_synced : bool;    (* binlog_fsync_count moved during the wait *)
  trylock_LOCK_log_fails : bool;  (* pthread_mutex_trylock(&LOCK_log) *)
  generate_new_name_error : Z;
  open_index_file_error : Z;
  open_error : Z;
  cache_read_error : bool;        (* cache->error after the copy *)
  alloc_fails : bool;             (* my_malloc, String::append *)
  is_ordered_commit : bool;       (* ht->is_ordered_commit(ht, thd) *)
  my_time : Z;                    (* my_time(0), a time_t *)
  expired_logs : Z -> nat         (* the closed files that
                                     purge_logs_before_date(purge_time)
                                     deletes *)
}.

(** Process-wide settings the functions below only read. *)
Record sys_vars := {
  max_binlog_cache_size : Z;
  max_size : Z;
  no_auto_events : bool;
  log_type_is_LOG_BIN : bool;
  io_cache_type_is_WRITE_CACHE : bool;  (* the type [open] gives [log_file] *)
  expire_logs_days : Z;                 (* ulong *)
  opt_using_transactions : bool;
  force_binlog_order : bool;
  sync_binlog_period : Z;
  group_commit_min_size : Z;
  group_commit_hang_disable_usecs : Z;  (* group_commit_hang_disable_secs *)
  NUM_BINLOG_COMMIT_COND : Z;
  new_log_name : String.string;         (* the name generate_new_name yields *)
  new_log_header : list byte            (* magic and format description *)
}.

Record MYSQL_BIN_LOG := {
  log_file : IO_CACHE;
  log_state : enum_log_state;
  write_error : bool;
  prepared_xids : Z;                    (* ulong *)
  stop_new_xids : bool;
  closed_logs : list (list byte);       (* the files rotated away, oldest first,
                                           each as [close] left it *)
  purged_logs : nat;                    (* how many of them, from the oldest on,
                                           the purge of expired logs has deleted *)
  group_commit_allowed : bool;
  current_ticket : Z;                   (* ulonglong *)
  next_ticket : Z;                      (* ulonglong *)
  sync_binlog_counter : Z;
  waiting : Z;                          (* the static [waiting] of flush_and_sync *)
  (* status counters *)
  binlog_fsync_count : Z;
  binlog_fsync_notry : Z;
  binlog_fsync_wait : Z;
  binlog_fsync_nowait : Z;
  binlog_fsync_groupsync : Z;
  binlog_fsync_grouped : Z;
  binlog_fsync_reallylongwait : Z;
  (* trace of wake-ups and of error-log lines, in program order *)
  broadcasts : list cond_var;
  error_log : list String.string
}.

(** The closed files that are still there: all but the purged ones. *)
Definition remaining_logs (l : MYSQL_BIN_LOG) : list (list byte) :=
  skipn (purged_logs l) (closed_logs l).

(** Field updates. *)
Definition upd_log_file (v : IO_CACHE) (l : MYSQL_BIN_LOG) : MYSQL_BIN_LOG :=
  {| log_file := v;
     log_state := log_state l;
     write_error := write_error l;
     prepared_xids := prepared_xids l;
     stop_new_xids := stop_new_xids l;
     closed_logs := closed_logs l;
     purged_logs := purged_logs l;
     group_commit_allowed := group_commit_allowed l;
     current_ticket := current_ticket l;
     next_ticket := next_ticket l;
     sync_binlog_counter := sync_binlog_counter l;
     waiting := waiting l;
     binlog_fsync_count := binlog_fsync_count l;
     binlog_fsync_notry := binlog_fsync_notry l;
     binlog_fsync_wait := binlog_fsync_wait l;
     binlog_fsync_nowait := binlog_fsync_nowait l;
     binlog_fsync_groupsync := binlog_fsync_groupsync l;
     binlog_fsync_grouped := binlog_fsync_grouped l;
     binlog_fsync_reallylongwait := binlog_fsync_reallylongwait l;
     broadcasts := broadcasts l;
     error_log := error_log l |}.

Definition upd_log_state (v : enum_log_state) (l : MYSQL_BIN_LOG) : MYSQL_BIN_LOG :=
  {| log_file := log_file l;
     log_state := v;
     write_error := write_error l;
     prepared_xids := prepared_xids l;
     stop_new_xids := stop_new_xids l;
     closed_logs := closed_logs l;
     purged_logs := purged_logs l;
     group_commit_allowed := group_commit_allowed l;
     current_ticket := current_ticket l;
     next_ticket := next_ticket l;
     sync_binlog_counter := sync_binlog_counter l;
     waiting := waiting l;
     binlog_fsync_count := binlog_fsync_count l;
     binlog_fsync_notry := binlog_fsync_notry l;
     binlog_fsync_wait := binlog_fsync_wait l;
     binlog_fsync_nowait := binlog_fsync_nowait l;
     binlog_fsync_groupsync := binlog_fsync_groupsync l;
     binlog_fsync_grouped := binlog_fsync_grouped l;
     binlog_fsync_reallylongwait := binlog_fsync_reallylongwait l;
     broadcasts := broadcasts l;
     error_log := error_log l |}.

Definition upd_write_error (v : bool) (l : MYSQL_BIN_LOG) : MYSQL_BIN_LOG :=
  {| log_file := log_file l;
     log_state := log_state l;
     write_error := v;
     prepared_xids := prepared_xids l;
     stop_new_xids := stop_new_xids l;
     closed_logs := closed_logs l;
     purged_logs := purged_logs l;
     group_commit_allowed := group_commit_allowed l;
     current_ticket := current_ticket l;
     next_ticket := next_ticket l;
     sync_binlog_counter := sync_binlog_counter l;
     waiting := waiting l;
     binlog_fsync_count := binlog_fsync_count l;
     binlog_fsync_notry := binlog_fsync_notry l;
     binlog_fsync_wait := binlog_fsync_wait l;
     binlog_fsync_nowait := binlog_fsync_nowait l;
     binlog_fsync_groupsync := binlog_fsync_groupsync l;
     binlog_fsync_grouped := binlog_fsync_grouped l;
     binlog_fsync_reallylongwait := binlog_fsync_reallylongwait l;
     broadcasts := broadcasts l;
     error_log := error_log l |}.

Definition upd_prepared_xids (v : Z) (l : MYSQL_BIN_LOG) : MYSQL_BIN_LOG :=
  {| log_file := log_file l;
     log_state := log_state l;
     write_error := write_error l;
     prepared_xids := v;
     stop_new_xids := stop_new_xids l;
     closed_logs := closed_logs l;
     purged_logs := purged_logs l;
     group_commit_allowed := group_commit_allowed l;
     current_ticket := current_ticket l;
     next_ticket := next_ticket l;
     sync_binlog_counter := sync_binlog_counter l;
     waiting := waiting l;
     binlog_fsync_count := binlog_fsync_count l;
     binlog_fsync_notry := binlog_fsync_notry l;
     binlog_fsync_wait := binlog_fsync_wait l;
     binlog_fsync_nowait := binlog_fsync_nowait l;
     binlog_fsync_groupsync := binlog_fsync_groupsync l;
     binlog_fsync_grouped := binlog_fsync_grouped l;
     binlog_fsync_reallylongwait := binlog_fsync_reallylongwait l;
     broadcasts := broadcasts l;
     error_log := error_log l |}.

Definition upd_stop_new_xids (v : bool) (l : MYSQL_BIN_LOG) : MYSQL_BIN_LOG :=
  {| log_file := log_file l;
     log_state := log_state l;
     write_error := write_error l;
     prepared_xids := prepared_xids l;
     stop_new_xids := v;
     closed_logs := closed_logs l;
     purged_logs := purged_logs l;
     group_commit_allowed := group_commit_allowed l;
     current_ticket := current_ticket l;
     next_ticket := next_ticket l;
     sync_binlog_counter := sync_binlog_counter l;
     waiting := waiting l;
     binlog_fsync_count := binlog_fsync_count l;
     binlog_fsync_notry := binlog_fsync_notry l;
     binlog_fsync_wait := binlog_fsync_wait l;
     binlog_fsync_nowait := binlog_fsync_nowait l;
     binlog_fsync_groupsync := binlog_fsync_groupsync l;
     binlog_fsync_grouped := binlog_fsync_grouped l;
     binlog_fsync_reallylongwait := binlog_fsync_reallylongwait l;
     broadcasts := broadcasts l;
     error_log := error_log l |}.

Definition upd_closed_logs (v : list (list byte)) (l : MYSQL_BIN_LOG) : MYSQL_BIN_LOG :=
  {| log_file := log_file l;
     log_state := log_state l;
     write_error := write_error l;
     prepared_xids := prepared_xids l;
     stop_new_xids := stop_new_xids l;
     closed_logs := v;
     purged_logs := purged_logs l;
     group_commit_allowed := group_commit_allowed l;
     current_ticket := current_ticket l;
     next_ticket := next_ticket l;
     sync_binlog_counter := sync_binlog_counter l;
     waiting := waiting l;
     binlog_fsync_count := binlog_fsync_count l;
     binlog_fsync_notry := binlog_fsync_notry l;
     binlog_fsync_wait := binlog_fsync_wait l;
     binlog_fsync_nowait := binlog_fsync_nowait l;
     binlog_fsync_groupsync := binlog_fsync_groupsync l;
     binlog_fsync_grouped := binlog_fsync_grouped l;
     binlog_fsync_reallylongwait := binlog_fsync_reallylongwait l;
     broadcasts := broadcasts l;
     error_log := error_log l |}.

Definition upd_purged_logs (v : nat) (l : MYSQL_BIN_LOG) : MYSQL_BIN_LOG :=
  {| log_file := log_file l;
     log_state := log_state l;
     write_error := write_error l;
     prepared_xids := prepared_xids l;
     stop_new_xids := stop_new_xids l;
     closed_logs := closed_logs l;
     purged_logs := v;
     group_commit_allowed := group_commit_allowed l;
     current_ticket := current_ticket l;
     next_ticket := next_ticket l;
     sync_binlog_counter := sync_binlog_counter l;
     waiting := waiting l;
     binlog_fsync_count := binlog_fsync_count l;
     binlog_fsync_notry := binlog_fsync_notry l;
     binlog_fsync_wait := binlog_fsync_wait l;
     binlog_fsync_nowait := binlog_fsync_nowait l;
     binlog_fsync_groupsync := binlog_fsync_groupsync l;
     binlog_fsync_grouped := binlog_fsync_grouped l;
     binlog_fsync_reallylongwait := binlog_fsync_reallylongwait l;
     broadcasts := broadcasts l;
     error_log := error_log l |}.

Definition upd_group_commit_allowed (v : bool) (l : MYSQL_BIN_LOG) : MYSQL_BIN_LOG :=
  {| log_file := log_file l;
     log_state := log_state l;
     write_error := write_error l;
     prepared_xids := prepared_xids l;
     stop_new_xids := stop_new_xids l;
     closed_logs := closed_logs l;
     purged_logs := purged_logs l;
     group_commit_allowed := v;
     current_ticket := current_ticket l;
     next_ticket := next_ticket l;
     sync_binlog_counter := sync_binlog_counter l;
     waiting := waiting l;
     binlog_fsync_count := binlog_fsync_count l;
     binlog_fsync_notry := binlog_fsync_notry l;
     binlog_fsync_wait := binlog_fsync_wait l;
     binlog_fsync_nowait := binlog_fsync_nowait l;
     binlog_fsync_groupsync := binlog_fsync_groupsync l;
     binlog_fsync_grouped := binlog_fsync_grouped l;
     binlog_fsync_reallylongwait := binlog_fsync_reallylongwait l;
     broadcasts := broadcasts l;
     error_log := error_log l |}.

Definition upd_current_ticket (v : Z) (l : MYSQL_BIN_LOG) : MYSQL_BIN_LOG :=
  {| log_file := log_file l;
     log_state := log_state l;
     write_error := write_error l;
     prepared_xids := prepared_xids l;
     stop_new_xids := stop_new_xids l;
     closed_logs := closed_logs l;
     purged_logs := purged_logs l;
     group_commit_allowed := group_commit_allowed l;
     current_ticket := v;
     next_ticket := next_ticket l;
     sync_binlog_counter := sync_binlog_counter l;
     waiting := waiting l;
     binlog_fsync_count := binlog_fsync_count l;
     binlog_fsync_notry := binlog_fsync_notry l;
     binlog_fsync_wait := binlog_fsync_wait l;
     binlog_fsync_nowait := binlog_fsync_nowait l;
     binlog_fsync_groupsync := binlog_fsync_groupsync l;
     binlog_fsync_grouped := binlog_fsync_grouped l;
     binlog_fsync_reallylongwait := binlog_fsync_reallylongwait l;
     broadcasts := broadcasts l;
     error_log := error_log l |}.

Definition upd_next_ticket (v : Z) (l : MYSQL_BIN_LOG) : MYSQL_BIN_LOG :=
  {| log_file := log_file l;
     log_state := log_state l;
     write_error := write_error l;
     prepared_xids := prepared_xids l;
     stop_new_xids := stop_new_xids l;
     closed_logs := closed_logs l;
     purged_logs := purged_logs l;
     group_commit_allowed := group_commit_allowed l;
     current_ticket := current_ticket l;
     next_ticket := v;
     sync_binlog_counter := sync_binlog_counter l;
     waiting := waiting l;
     binlog_fsync_count := binlog_fsync_count l;
     binlog_fsync_notry := binlog_fsync_notry l;
     binlog_fsync_wait := binlog_fsync_wait l;
     binlog_fsync_nowait := binlog_fsync_nowait l;
     binlog_fsync_groupsync := binlog_fsync_groupsync l;
     binlog_fsync_grouped := binlog_fsync_grouped l;
     binlog_fsync_reallylongwait := binlog_fsync_reallylongwait l;
     broadcasts := broadcasts l;
     error_log := error_log l |}.

Definition upd_sync_binlog_counter (v : Z) (l : MYSQL_BIN_LOG) : MYSQL_BIN_LOG :=
  {| log_file := log_file l;
     log_state := log_state l;
     write_error := write_error l;
     prepared_xids := prepared_xids l;
     stop_new_xids := stop_new_xids l;
     closed_logs := closed_logs l;
     purged_logs := purged_logs l;
     group_commit_allowed := group_commit_allowed l;
     current_ticket := current_ticket l;
     next_ticket := next_ticket l;
     sync_binlog_counter := v;
     waiting := waiting l;
     binlog_fsync_count := binlog_fsync_count l;
     binlog_fsync_notry := binlog_fsync_notry l;
     binlog_fsync_wait := binlog_fsync_wait l;
     binlog_fsync_nowait := binlog_fsync_nowait l;
     binlog_fsync_groupsync := binlog_fsync_groupsync l;
     binlog_fsync_grouped := binlog_fsync_grouped l;
     binlog_fsync_reallylongwait := binlog_fsync_reallylongwait l;
     broadcasts := broadcasts l;
     error_log := error_log l |}.

Definition upd_waiting (v : Z) (l : MYSQL_BIN_LOG) : MYSQL_BIN_LOG :=
  {| log_file := log_file l;
     log_state := log_state l;
     write_error := write_error l;
     prepared_xids := prepared_xids l;
     stop_new_xids := stop_new_xids l;
     closed_logs := closed_logs l;
     purged_logs := purged_logs l;
     group_commit_allowed := group_commit_allowed l;
     current_ticket := current_ticket l;
     next_ticket := next_ticket l;
     sync_binlog_counter := sync_binlog_counter l;
     waiting := v;
     binlog_fsync_count := binlog_fsync_count l;
     binlog_fsync_notry := binlog_fsync_notry l;
     binlog_fsync_wait := binlog_fsync_wait l;
     binlog_fsync_nowait := binlog_fsync_nowait l;
     binlog_fsync_groupsync := binlog_fsync_groupsync l;
     binlog_fsync_grouped := binlog_fsync_grouped l;
     binlog_fsync_reallylongwait := binlog_fsync_reallylongwait l;
     broadcasts := broadcasts l;
     error_log := error_log l |}.

Definition upd_binlog_fsync_count (v : Z) (l : MYSQL_BIN_LOG) : MYSQL_BIN_LOG :=
  {| log_file := log_file l;
     log_state := log_state l;
     write_error := write_error l;
     prepared_xids := prepared_xids l;
     stop_new_xids := stop_new_xids l;
     closed_logs := closed_logs l;
     purged_logs := purged_logs l;
     group_commit_allowed := group_commit_allowed l;
     current_ticket := current_ticket l;
     next_ticket := next_ticket l;
     sync_binlog_counter := sync_binlog_counter l;
     waiting := waiting l;
     binlog_fsync_count := v;
     binlog_fsync_notry := binlog_fsync_notry l;
     binlog_fsync_wait := binlog_fsync_wait l;
     binlog_fsync_nowait := binlog_fsync_nowait l;
     binlog_fsync_groupsync := binlog_fsync_groupsync l;
     binlog_fsync_grouped := binlog_fsync_grouped l;
     binlog_fsync_reallylongwait := binlog_fsync_reallylongwait l;
     broadcasts := broadcasts l;
     error_log := error_log l |}.

Definition upd_binlog_fsync_notry (v : Z) (l : MYSQL_BIN_LOG) : MYSQL_BIN_LOG :=
  {| log_file := log_file l;
     log_state := log_state l;
     write_error := write_error l;
     prepared_xids := prepared_xids l;
     stop_new_xids := stop_new_xids l;
     closed_logs := closed_logs l;
     purged_logs := purged_logs l;
     group_commit_allowed := group_commit_allowed l;
     current_ticket := current_ticket l;
     next_ticket := next_ticket l;
     sync_binlog_counter := sync_binlog_counter l;
     waiting := waiting l;
     binlog_fsync_count := binlog_fsync_count l;
     binlog_fsync_notry := v;
     binlog_fsync_wait := binlog_fsync_wait l;
     binlog_fsync_nowait := binlog_fsync_nowait l;
     binlog_fsync_groupsync := binlog_fsync_groupsync l;
     binlog_fsync_grouped := binlog_fsync_grouped l;
     binlog_fsync_reallylongwait := binlog_fsync_reallylongwait l;
     broadcasts := broadcasts l;
     error_log := error_log l |}.

Definition upd_binlog_fsync_wait (v : Z) (l : MYSQL_BIN_LOG) : MYSQL_BIN_LOG :=
  {| log_file := log_file l;
     log_state := log_state l;
     write_error := write_error l;
     prepared_xids := prepared_xids l;
     stop_new_xids := stop_new_xids l;
     closed_logs := closed_logs l;
     purged_logs := purged_logs l;
     group_commit_allowed := group_commit_allowed l;
     current_ticket := current_ticket l;
     next_ticket := next_ticket l;
     sync_binlog_counter := sync_binlog_counter l;
     waiting := waiting l;
     binlog_fsync_count := binlog_fsync_count l;
     binlog_fsync_notry := binlog_fsync_notry l;
     binlog_fsync_wait := v;
     binlog_fsync_nowait := binlog_fsync_nowait l;
     binlog_fsync_groupsync := binlog_fsync_groupsync l;
     binlog_fsync_grouped := binlog_fsync_grouped l;
     binlog_fsync_reallylongwait := binlog_fsync_reallylongwait l;
     broadcasts := broadcasts l;
     error_log := error_log l |}.

Definition upd_binlog_fsync_nowait (v : Z) (l : MYSQL_BIN_LOG) : MYSQL_BIN_LOG :=
  {| log_file := log_file l;
     log_state := log_state l;
     write_error := write_error l;
     prepared_xids := prepared_xids l;
     stop_new_xids := stop_new_xids l;
     closed_logs := closed_logs l;
     purged_logs := purged_logs l;
     group_commit_allowed := group_commit_allowed l;
     current_ticket := current_ticket l;
     next_ticket := next_ticket l;
     sync_binlog_counter := sync_binlog_counter l;
     waiting := waiting l;
     binlog_fsync_count := binlog_fsync_count l;
     binlog_fsync_notry := binlog_fsync_notry l;
     binlog_fsync_wait := binlog_fsync_wait l;
     binlog_fsync_nowait := v;
     binlog_fsync_groupsync := binlog_fsync_groupsync l;
     binlog_fsync_grouped := binlog_fsync_grouped l;
     binlog_fsync_reallylongwait := binlog_fsync_reallylongwait l;
     broadcasts := broadcasts l;
     error_log := error_log l |}.

Definition upd_binlog_fsync_groupsync (v : Z) (l : MYSQL_BIN_LOG) : MYSQL_BIN_LOG :=
  {| log_file := log_file l;
     log_state := log_state l;
     write_error := write_error l;
     prepared_xids := prepared_xids l;
     stop_new_xids := stop_new_xids l;
     closed_logs := closed_logs l;
     purged_logs := purged_logs l;
     group_commit_allowed := group_commit_allowed l;
     current_ticket := current_ticket l;
     next_ticket := next_ticket l;
     sync_binlog_counter := sync_binlog_counter l;
     waiting := waiting l;
     binlog_fsync_count := binlog_fsync_count l;
     binlog_fsync_notry := binlog_fsync_notry l;
     binlog_fsync_wait := binlog_fsync_wait l;
     binlog_fsync_nowait := binlog_fsync_nowait l;
     binlog_fsync_groupsync := v;
     binlog_fsync_grouped := binlog_fsync_grouped l;
     binlog_fsync_reallylongwait := binlog_fsync_reallylongwait l;
     broadcasts := broadcasts l;
     error_log := error_log l |}.

Definition upd_binlog_fsync_grouped (v : Z) (l : MYSQL_BIN_LOG) : MYSQL_BIN_LOG :=
  {| log_file := log_file l;
     log_state := log_state l;
     write_error := write_error l;
     prepared_xids := prepared_xids l;
     stop_new_xids := stop_new_xids l;
     closed_logs := closed_logs l;
     purged_logs := purged_logs l;
     group_commit_allowed := group_commit_allowed l;
     current_ticket := current_ticket l;
     next_ticket := next_ticket l;
     sync_binlog_counter := sync_binlog_counter l;
     waiting := waiting l;
     binlog_fsync_count := binlog_fsync_count l;
     binlog_fsync_notry := binlog_fsync_notry l;
     binlog_fsync_wait := binlog_fsync_wait l;
     binlog_fsync_nowait := binlog_fsync_nowait l;
     binlog_fsync_groupsync := binlog_fsync_groupsync l;
     binlog_fsync_grouped := v;
     binlog_fsync_reallylongwait := binlog_fsync_reallylongwait l;
     broadcasts := broadcasts l;
     error_log := error_log l |}.

Definition upd_binlog_fsync_reallylongwait (v : Z) (l : MYSQL_BIN_LOG) : MYSQL_BIN_LOG :=
  {| log_file := log_file l;
     log_state := log_state l;
     write_error := write_error l;
     prepared_xids := prepared_xids l;
     stop_new_xids := stop_new_xids l;
     closed_logs := closed_logs l;
     purged_logs := purged_logs l;
     group_commit_allowed := group_commit_allowed l;
     current_ticket := current_ticket l;
     next_ticket := next_ticket l;
     sync_binlog_counter := sync_binlog_counter l;
     waiting := waiting l;
     binlog_fsync_count := binlog_fsync_count l;
     binlog_fsync_notry := binlog_fsync_notry l;
     binlog_fsync_wait := binlog_fsync_wait l;
     binlog_fsync_nowait := binlog_fsync_nowait l;
     binlog_fsync_groupsync := binlog_fsync_groupsync l;
     binlog_fsync_grouped := binlog_fsync_grouped l;
     binlog_fsync_reallylongwait := v;
     broadcasts := broadcasts l;
     error_log := error_log l |}.

Definition upd_broadcasts (v : list cond_var) (l : MYSQL_BIN_LOG) : MYSQL_BIN_LOG :=
  {| log_file := log_file l;
     log_state := log_state l;
     write_error := write_error l;
     prepared_xids := prepared_xids l;
     stop_new_xids := stop_new_xids l;
     closed_logs := closed_logs l;
     purged_logs := purged_logs l;
     group_commit_allowed := group_commit_allowed l;
     current_ticket := current_ticket l;
     next_ticket := next_ticket l;
     sync_binlog_counter := sync_binlog_counter l;
     waiting := waiting l;
     binlog_fsync_count := binlog_fsync_count l;
     binlog_fsync_notry := binlog_fsync_notry l;
     binlog_fsync_wait := binlog_fsync_wait l;
     binlog_fsync_nowait := binlog_fsync_nowait l;
     binlog_fsync_groupsync := binlog_fsync_groupsync l;
     binlog_fsync_grouped := binlog_fsync_grouped l;
     binlog_fsync_reallylongwait := binlog_fsync_reallylongwait l;
     broadcasts := v;
     error_log := error_log l |}.

Definition upd_error_log (v : list String.string) (l : MYSQL_BIN_LOG) : MYSQL_BIN_LOG :=
  {| log_file := log_file l;
     log_state := log_state l;
     write_error := write_error l;
     prepared_xids := prepared_xids l;
     stop_new_xids := stop_new_xids l;
     closed_logs := closed_logs l;
     purged_logs := purged_logs l;
     group_commit_allowed := group_commit_allowed l;
     current_ticket := current_ticket l;
     next_ticket := next_ticket l;
     sync_binlog_counter := sync_binlog_counter l;
     waiting := waiting l;
     binlog_fsync_count := binlog_fsync_count l;
     binlog_fsync_notry := binlog_fsync_notry l;
     binlog_fsync_wait := binlog_fsync_wait l;
     binlog_fsync_nowait := binlog_fsync_nowait l;
     binlog_fsync_groupsync := binlog_fsync_groupsync l;
     binlog_fsync_grouped := binlog_fsync_grouped l;
     binlog_fsync_reallylongwait := binlog_fsync_reallylongwait l;
     broadcasts := broadcasts l;
     error_log := v |}.

Definition upd_do_union (v : bool) (t : THD) : THD :=
  {| ctx := ctx t;
     do_union := v;
     unioned_events := unioned_events t;
     unioned_events_trans := unioned_events_trans t;
     da_is_error := da_is_error t;
     da_sql_errno := da_sql_errno t;
     ha_data := ha_data t;
     ticket := ticket t |}.

Definition upd_unioned_events (v : bool) (t : THD) : THD :=
  {| ctx := ctx t;
     do_union := do_union t;
     unioned_events := v;
     unioned_events_trans := unioned_events_trans t;
     da_is_error := da_is_error t;
     da_sql_errno := da_sql_errno t;
     ha_data := ha_data t;
     ticket := ticket t |}.

Definition upd_unioned_events_trans (v : bool) (t : THD) : THD :=
  {| ctx := ctx t;
     do_union := do_union t;
     unioned_events := unioned_events t;
     unioned_events_trans := v;
     da_is_error := da_is_error t;
     da_sql_errno := da_sql_errno t;
     ha_data := ha_data t;
     ticket := ticket t |}.

Definition upd_da_is_error (v : bool) (t : THD) : THD :=
  {| ctx := ctx t;
     do_union := do_union t;
     unioned_events := unioned_events t;
     unioned_events_trans := unioned_events_trans t;
     da_is_error := v;
     da_sql_errno := da_sql_errno t;
     ha_data := ha_data t;
     ticket := ticket t |}.

Definition upd_da_sql_errno (v : sql_errno_t) (t : THD) : THD :=
  {| ctx := ctx t;
     do_union := do_union t;
     unioned_events := unioned_events t;
     unioned_events_trans := unioned_events_trans t;
     da_is_error := da_is_error t;
     da_sql_errno := v;
     ha_data := ha_data t;
     ticket := ticket t |}.

Definition upd_ha_data (v : option binlog_trx_data) (t : THD) : THD :=
  {| ctx := ctx t;
     do_union := do_union t;
     unioned_events := unioned_events t;
     unioned_events_trans := unioned_events_trans t;
     da_is_error := da_is_error t;
     da_sql_errno := da_sql_errno t;
     ha_data := v;
     ticket := ticket t |}.

Definition upd_ticket (v : Z) (t : THD) : THD :=
  {| ctx := ctx t;
     do_union := do_union t;
     unioned_events := unioned_events t;
     unioned_events_trans := unioned_events_trans t;
     da_is_error := da_is_error t;
     da_sql_errno := da_sql_errno t;
     ha_data := ha_data t;
     ticket := v |}.

(** [MYSQL_LOG::is_open()]: [log_state != LOG_CLOSED]. *)
Definition is_open (l : MYSQL_BIN_LOG) : bool :=
  match log_state l with LOG_CLOSED => false | _ => true end.

(** How a call ends in this sequential model: it returns, it goes to
    sleep in [pthread_cond_wait] on a condition that only another thread
    can signal (the log object is given as it is at that moment), or it
    dereferences a null [trx_data]. *)
Inductive result (A : Type) :=
| Ret (a : A)
| Wait (c : cond_var) (l : MYSQL_BIN_LOG)
| Fault.
Arguments Ret {A} a.
Arguments Wait {A} c l.
Arguments Fault {A}.

Definition bind {A B : Type} (r : result A) (k : A -> result B) : result B :=
  match r with
  | Ret a => k a
  | Wait c l => Wait c l
  | Fault => Fault
  end.

Notation "'do' x <- r ; k" := (bind r (fun x => k))
  (at level 10, x pattern, r at level 100, k at level 200).

(** [rotate_and_purge] flags *)
Record rp_flags := {
  RP_LOCK_LOG_IS_ALREADY_LOCKED : bool;
  RP_FORCE_ROTATE : bool
}.

Section Code.

Variable cfg : sys_vars.
Variable env : Env.

(** The serialised form of an event written at a given file offset
    ([Log_event::write] lives in log_event.cc). *)
Variable event_image : Log_event -> Z -> list byte.

(** The byte-level copy of a cache into the log file, developed on its own
    in [WriteCache] below; the functions here only look at its return code
    and pass the log file on. *)
Variable write_cache : IO_CACHE -> IO_CACHE -> Z * IO_CACHE.

(** Modelled from the spec: [Log_event::write] on an [IO_CACHE] and the
    [my_b_write] under it are not in this file.  The event is appended when
    it fits below [end_of_file]; a write that would pass the limit fails
    and appends nothing.  The result is [(error, file)]. *)
Definition Log_event_write (e : Log_event) (file : IO_CACHE) : bool * IO_CACHE :=
  let image := event_image e (my_b_tell file) in
  if end_of_file file <? my_b_tell file + Z.of_nat (length image)
  then (true, file)
  else (false, {| contents := contents file ++ image;
                  end_of_file := end_of_file file |}).

Definition sql_print_error (msg : String.string) (l : MYSQL_BIN_LOG) :=
  upd_error_log (error_log l ++ [msg]) l.

Definition pthread_cond_broadcast (c : cond_var) (l : MYSQL_BIN_LOG) :=
  upd_broadcasts (broadcasts l ++ [c]) l.

Definition signal_update : MYSQL_BIN_LOG -> MYSQL_BIN_LOG :=
  pthread_cond_broadcast update_cond.

(** [static bool stmt_has_updated_trans_table(THD *thd)] *)
Fixpoint ha_list_has_updated_trans_table (ha_list : list Ha_trx_info) : bool :=
  match ha_list with
  | [] => false
  | ha_info :: next =>
      if is_started ha_info
      then if is_trx_read_write ha_info && negb (ht_is_binlog_hton ha_info)
           then true
           else ha_list_has_updated_trans_table next
      else false
  end.

Definition stmt_has_updated_trans_table (thd : THD) : bool :=
  ha_list_has_updated_trans_table (stmt_ha_list (ctx thd)).

(** [bool ending_trans(const THD* thd, const bool all)] *)
Definition ending_trans (thd : THD) (all : bool) : bool :=
  all || (negb all &&
          negb (OPTION_BEGIN (ctx thd) || OPTION_NOT_AUTOCOMMIT (ctx thd))).

Definition trans_has_updated_non_trans_table (thd : THD) : bool :=
  all_modified_non_trans_table (ctx thd) || stmt_modified_non_trans_table (ctx thd).

Definition stmt_has_updated_non_trans_table (thd : THD) : bool :=
  stmt_modified_non_trans_table (ctx thd).

(** [bool trans_has_no_stmt_committed(const THD* thd, bool all)] *)
Definition trans_has_no_stmt_committed (thd : THD) (all : bool) : result bool :=
  match ha_data thd with
  | None => Fault
  | Some trx_data => Ret (negb all && negb (at_least_one_stmt_committed trx_data))
  end.

(** [bool MYSQL_BIN_LOG::check_write_error(THD *thd)] *)
Definition check_write_error (thd : THD) : bool :=
  if negb (da_is_error thd) then false
  else match da_sql_errno thd with
       | ER_TRANS_CACHE_FULL
       | ER_ERROR_ON_WRITE
       | ER_BINLOG_LOGGING_IMPOSSIBLE => true
       | _ => false
       end.

(** [my_message] / [my_error]: the error is put into the diagnostics
    area unless one is there already. *)
Definition my_error (e : sql_errno_t) (thd : THD) : THD :=
  if da_is_error thd then thd
  else upd_da_sql_errno e (upd_da_is_error true thd).

(** [void MYSQL_BIN_LOG::set_write_error(THD *thd)] *)
Definition set_write_error (l : MYSQL_BIN_LOG) (thd : THD) : MYSQL_BIN_LOG * THD :=
  let l := upd_write_error true l in
  if check_write_error thd then (l, thd)
  else if my_errno_is_EFBIG (ctx thd)
       then (l, my_error ER_TRANS_CACHE_FULL thd)
       else (l, my_error ER_ERROR_ON_WRITE thd).

(** [int query_error_code(THD *thd, bool not_killed)] *)
Definition query_error_code (thd : THD) (not_killed : bool) : option sql_errno_t :=
  if not_killed || match killed (ctx thd) with KILL_BAD_DATA => true | _ => false end
  then
    let error := if da_is_error thd then Some (da_sql_errno thd) else None in
    match error with
    | Some ER_SERVER_SHUTDOWN | Some ER_QUERY_INTERRUPTED => None
    | _ => error
    end
  else killed_errno (ctx thd).

(** [int THD::binlog_setup_trx_data()] *)
Definition binlog_setup_trx_data (thd : THD) : Z * THD :=
  match ha_data thd with
  | Some _ => (0, thd)
  | None =>
      if alloc_fails env then (1, thd)
      else (0, upd_ha_data (Some (new_trx_data (max_binlog_cache_size cfg))) thd)
  end.

(** [binlog_trans_log_savepos(THD *thd, my_off_t *pos)]: the position
    stored into [*pos], and the session. *)
Definition binlog_trans_log_savepos (thd : THD) : result (Z * THD) :=
  let thd := match ha_data thd with
             | None => snd (binlog_setup_trx_data thd)
             | Some _ => thd
             end in
  match ha_data thd with
  | None => Fault
  | Some trx_data => Ret (position trx_data, thd)
  end.

(** [binlog_trans_log_truncate(THD *thd, my_off_t pos)] *)
Definition binlog_trans_log_truncate (thd : THD) (pos : Z) : result THD :=
  match ha_data thd with
  | None => Fault
  | Some trx_data =>
      Ret (upd_ha_data (Some (truncate (max_binlog_cache_size cfg) pos trx_data)) thd)
  end.

(** [void THD::binlog_set_stmt_begin()] *)
Definition binlog_set_stmt_begin (thd : THD) : result THD :=
  do (pos, thd) <- binlog_trans_log_savepos thd;
  match ha_data thd with
  | None => Fault
  | Some trx_data =>
      Ret (upd_ha_data (Some {| trans_log := trans_log trx_data;
                                at_least_one_stmt_committed :=
                                  at_least_one_stmt_committed trx_data;
                                incident := incident trx_data;
                                m_pending := m_pending trx_data;
                                before_stmt_pos := pos |}) thd)
  end.

(** [void THD::binlog_start_trans_and_stmt()].  [trans_register_ha] adds
    the binlog handlerton to the session's engine lists; the functions
    modelled here skip that entry ([ht() != binlog_hton]), so the lists are
    left as they are. *)
Definition binlog_start_trans_and_stmt (thd : THD) : result THD :=
  match ha_data thd with
  | None => binlog_set_stmt_begin thd
  | Some trx_data =>
      if before_stmt_pos trx_data =? MY_OFF_T_UNDEF
      then binlog_set_stmt_begin thd
      else Ret thd
  end.

(** [void MYSQL_BIN_LOG::disable_group_commit(THD *thd, const char* msg)] *)
Definition disable_group_commit (l : MYSQL_BIN_LOG) (msg : String.string)
  : MYSQL_BIN_LOG :=
  sql_print_error msg (upd_group_commit_allowed false l).

(** [int MYSQL_BIN_LOG::order_for_group_commit(THD *thd, handlerton *ht)];
    [ht] is [true] for a non-null handlerton. *)
Definition order_for_group_commit (l : MYSQL_BIN_LOG) (thd : THD) (ht : bool)
  : Z * MYSQL_BIN_LOG * THD :=
  if negb (ticket thd =? 0)
  then (1, disable_group_commit l "ticket already set"%string, thd)
  else if negb (group_commit_allowed l) || negb (force_binlog_order cfg)
          || negb ht || negb (is_ordered_commit env)
  then (1, l, thd)
  else
    (* thd->ticket = next_ticket++; *)
    let thd := upd_ticket (next_ticket l) thd in
    let l := upd_next_ticket ((next_ticket l + 1) mod ulonglong_modulus) l in
    if (ticket thd + 1) mod ulonglong_modulus =? 0
    then (1, disable_group_commit l "ticket rolled over"%string, thd)
    else (0, l, thd).

(** [void MYSQL_BIN_LOG::increment_group_commit_ticket(THD* thd)] *)
Definition increment_group_commit_ticket (l : MYSQL_BIN_LOG) (thd : THD)
  : MYSQL_BIN_LOG * THD :=
  if ticket thd =? 0 then (l, thd)
  else
    let slot := ((1 + ticket thd) mod ulonglong_modulus) mod NUM_BINLOG_COMMIT_COND cfg in
    let l := if negb (ticket thd =? current_ticket l)
             then disable_group_commit l "ticket != current on increment"%string
             else l in
    let l := upd_current_ticket ((current_ticket l + 1) mod ulonglong_modulus) l in
    let l := pthread_cond_broadcast (binlog_commit_cond slot) l in
    (l, upd_ticket 0 thd).

(** [bool MYSQL_BIN_LOG::flush_and_sync(THD *thd, bool async,
    handlerton *ht, int32 pending)].  The timed wait on [binlog_cond]
    returns by itself; [other_session_synced] says whether
    [binlog_fsync_count] moved while this session slept. *)
Definition flush_and_sync (l : MYSQL_BIN_LOG) (thd : THD) (async ht : bool)
  (pending : Z) : bool * MYSQL_BIN_LOG * THD :=
  if flush_io_cache_fails env then (true, l, thd)
  else if async then (false, l, thd)
  else
    (* ++sync_binlog_counter >= sync_period && sync_period *)
    let l := upd_sync_binlog_counter
               ((sync_binlog_counter l + 1) mod ulong_modulus) l in
    if (sync_binlog_period cfg <=? sync_binlog_counter l)
       && negb (sync_binlog_period cfg =? 0)
    then
      let '(r, l, thd) := order_for_group_commit l thd ht in
      let group_commit_on := r =? 0 in
      let l := if group_commit_on then l
               else upd_binlog_fsync_notry (binlog_fsync_notry l + 1) l in
      let enough_pending := group_commit_min_size cfg <=? pending in
      let not_too_many_waiting :=
        enough_pending && (waiting l <? Z.quot pending 2) in
      if group_commit_on && enough_pending && not_too_many_waiting
      then
        let l := upd_binlog_fsync_wait (binlog_fsync_wait l + 1) l in
        let l := upd_waiting (waiting l + 1) l in
        (* pthread_cond_timedwait(&binlog_cond, &LOCK_log, ...); err = 0; *)
        if other_session_synced env
        then
          let l := upd_binlog_fsync_count (binlog_fsync_count l + 1) l in
          (false, upd_binlog_fsync_grouped (binlog_fsync_grouped l + 1) l, thd)
        else
          let l := upd_sync_binlog_counter 0 l in
          let err := my_sync_fails env in
          let l := pthread_cond_broadcast binlog_cond l in
          let l := upd_binlog_fsync_groupsync (binlog_fsync_groupsync l + 1) l in
          let l := upd_binlog_fsync_count (binlog_fsync_count l + 1) l in
          (err, l, thd)
      else
        let l := upd_waiting 0 l in
        let l := upd_sync_binlog_counter 0 l in
        let err := my_sync_fails env in
        let l := if force_binlog_order cfg
                 then pthread_cond_broadcast binlog_cond l else l in
        let l := upd_binlog_fsync_nowait (binlog_fsync_nowait l + 1) l in
        let l := upd_binlog_fsync_count (binlog_fsync_count l + 1) l in
        (err, l, thd)
    else (false, l, thd).

(** One wake-up of a session sleeping in [wait_for_group_commit_order]:
    whether the timed wait timed out, the time waited so far, and the
    value other sessions have moved [current_ticket] to. *)
Record wakeup := {
  err_ETIMEDOUT : bool;
  wait_usecs : Z;
  ticket_now : Z
}.

Fixpoint wait_loop (wakeups : list wakeup) (l : MYSQL_BIN_LOG) (thd : THD)
  : result MYSQL_BIN_LOG :=
  if group_commit_allowed l && (current_ticket l <? ticket thd)
  then match wakeups with
       | [] => Wait (binlog_commit_cond (ticket thd mod NUM_BINLOG_COMMIT_COND cfg)) l
       | w :: wakeups =>
           let l := upd_current_ticket (ticket_now w) l in
           let l := if err_ETIMEDOUT w
                       && (group_commit_hang_disable_usecs cfg <? wait_usecs w)
                    then upd_binlog_fsync_reallylongwait
                           (binlog_fsync_reallylongwait l + 1)
                           (disable_group_commit l "waited too long for ticket")
                    else l in
           wait_loop wakeups l thd
       end
  else Ret l.

(** [void MYSQL_BIN_LOG::wait_for_group_commit_order(THD *thd)]; the
    lines it prints about long waits are left out. *)
Definition wait_for_group_commit_order (wakeups : list wakeup)
  (l : MYSQL_BIN_LOG) (thd : THD) : result MYSQL_BIN_LOG :=
  if ticket thd =? 0
  then Ret (disable_group_commit l
              "ticket not set before wait_for_group_commit_order")
  else wait_loop wakeups l thd.

(** [write_incident(thd, FALSE, log_was_full)]: the function up to its
    [if (lock)] part. *)
Definition write_incident_unlocked (l : MYSQL_BIN_LOG) : bool * MYSQL_BIN_LOG :=
  if negb (is_open l) then (false, l)
  else
    let '(error, f) :=
      Log_event_write (Incident_log_event "error writing to the binary log")
                      (log_file l) in
    (error, upd_log_file f l).

(** What [MYSQL_BIN_LOG::close] leaves of the file it closes.  Under
    [log_file.type == WRITE_CACHE && log_type == LOG_BIN] it overwrites
    the flags byte of the first event with 0 (one [my_pwrite] at
    [BIN_LOG_HEADER_SIZE + FLAGS_OFFSET]), which clears
    [LOG_EVENT_BINLOG_IN_USE_F]; any other log is closed as it stands. *)
Definition closed_file (image : list byte) : list byte :=
  if io_cache_type_is_WRITE_CACHE cfg && log_type_is_LOG_BIN cfg
  then clear_in_use_flag image
  else image.

(** [void MYSQL_BIN_LOG::close(uint exiting)], for the two ways
    [new_file_impl] calls it (neither with [LOG_CLOSE_STOP_EVENT]); an
    opened file is finished and kept among [closed_logs]. *)
Definition close (LOG_CLOSE_TO_BE_OPENED : bool) (l : MYSQL_BIN_LOG)
  : MYSQL_BIN_LOG :=
  let l := match log_state l with
           | LOG_OPENED =>
               upd_closed_logs
                 (closed_logs l ++ [closed_file (contents (log_file l))]) l
           | _ => l
           end in
  upd_log_state (if LOG_CLOSE_TO_BE_OPENED then LOG_TO_BE_OPENED else LOG_CLOSED) l.

(** [open_index_file] and [MYSQL_BIN_LOG::open] as [new_file_impl] uses
    them: the environment decides whether they fail; on success the new
    file holds the magic number and the format description. *)
Definition reopen (l : MYSQL_BIN_LOG) : Z * MYSQL_BIN_LOG :=
  if negb (open_index_file_error env =? 0)
  then (open_index_file_error env, l)
  else if negb (open_error env =? 0)
  then (open_error env, upd_log_state LOG_CLOSED l)
  else (0, upd_log_state LOG_OPENED
             (upd_log_file {| contents := new_log_header cfg;
                              end_of_file := end_of_file (log_file l) |} l)).

(** [int MYSQL_BIN_LOG::new_file_impl(bool need_lock)].  Mutexes are not
    part of this sequential model; the two [pthread_cond_wait] loops are
    the [Wait] results. *)
Definition new_file_impl (l : MYSQL_BIN_LOG) : result (Z * MYSQL_BIN_LOG) :=
  if negb (is_open l) then Ret (0, l)
  else if stop_new_xids l
  then Wait COND_stop_xids (sql_print_error "new_file_impl called concurrently" l)
  else
    let l := upd_stop_new_xids true l in
    if negb (prepared_xids l =? 0) then Wait COND_prep_xids l
    else
      let finish (error : Z) (close_on_error : bool) (l : MYSQL_BIN_LOG) :=
        (* end: *)
        let l := upd_stop_new_xids false l in
        let l := pthread_cond_broadcast COND_stop_xids l in
        let l := if negb (error =? 0) && close_on_error
                 then sql_print_error "Could not open log file for logging"
                        (close false l)
                 else l in
        Ret (error, l) in
      if negb (generate_new_name_error env =? 0)
      then finish (generate_new_name_error env) false l
      else
        let '(error, l) :=
          if log_type_is_LOG_BIN cfg
          then
            if negb (no_auto_events cfg)
            then
              let '(e, f) := Log_event_write (Rotate_log_event (new_log_name cfg))
                                             (log_file l) in
              if e then (1, l) else (0, signal_update (upd_log_file f l))
            else (0, signal_update l)
          else (0, l) in
        if negb (error =? 0) then finish error true l
        else
          let l := close true l in
          let '(error, l) := reopen l in
          finish error (negb (error =? 0)) l.

(** [time_t purge_time= my_time(0) - expire_logs_days*24*60*60;]: the
    product and the difference are taken in [ulong]; the result is read as
    a [time_t], 64 bits in two's complement. *)
Definition purge_time : Z :=
  let seconds := (expire_logs_days cfg * 24 * 60 * 60) mod ulong_modulus in
  let difference := (my_time env - seconds) mod ulong_modulus in
  if difference <? 2 ^ 63 then difference else difference - ulong_modulus.

(** [int MYSQL_BIN_LOG::purge_logs_before_date(time_t purge_time)], as
    far as the closed files go.  It walks the index file from its first
    entry, stops at the current file, at a file a session reads, or at
    the first file not modified before [purge_time], and has [purge_logs]
    delete the files before that.  The index file, the modification times
    and the readers are not part of this model: the environment says how
    many of the closed files that are still there get deleted.  The oldest
    go first, and a closed file is deleted, never rewritten; the lines
    [purge_logs] prints when it fails are not traced. *)
Definition purge_logs_before_date (purge_time : Z) (l : MYSQL_BIN_LOG)
  : MYSQL_BIN_LOG :=
  let remaining := (length (closed_logs l) - purged_logs l)%nat in
  upd_purged_logs
    (purged_logs l + Nat.min (expired_logs env purge_time) remaining) l.

(** [int MYSQL_BIN_LOG::rotate_and_purge(THD *thd, uint flags,
    bool log_maybe_full)], with [HAVE_REPLICATION].  The value of
    [purge_logs_before_date] is dropped, as in the source. *)
Definition rotate_and_purge (l : MYSQL_BIN_LOG) (thd : THD) (flags : rp_flags)
  (log_maybe_full : bool) : result (Z * MYSQL_BIN_LOG * THD) :=
  if negb (RP_LOCK_LOG_IS_ALREADY_LOCKED flags) && negb log_maybe_full
     && trylock_LOCK_log_fails env
  then Ret (0, l, thd)
  else if stop_new_xids l then Wait COND_stop_xids l
  else if RP_FORCE_ROTATE flags || (max_size cfg <=? my_b_tell (log_file l))
  then
    do (error, l) <- new_file_impl l;
    if negb (error =? 0)
    then
      let '(e, l) := write_incident_unlocked l in
      if negb e
      then let '(_, l, thd) := flush_and_sync l thd false false 0 in
           Ret (error, l, thd)
      else Ret (error, l, thd)
    else
      (* check_purge= true;
         if (!error && check_purge && expire_logs_days)
           if (purge_time >= 0) purge_logs_before_date(purge_time); *)
      if negb (expire_logs_days cfg =? 0) && (0 <=? purge_time)
      then Ret (error, purge_logs_before_date purge_time l, thd)
      else Ret (error, l, thd)
  else Ret (0, l, thd).

Definition already_locked : rp_flags :=
  {| RP_LOCK_LOG_IS_ALREADY_LOCKED := true; RP_FORCE_ROTATE := false |}.

Definition no_flags : rp_flags :=
  {| RP_LOCK_LOG_IS_ALREADY_LOCKED := false; RP_FORCE_ROTATE := false |}.

(** [bool MYSQL_BIN_LOG::write_incident(THD *thd, bool lock,
    bool *log_was_full)] *)
Definition write_incident (l : MYSQL_BIN_LOG) (thd : THD) (lock : bool)
  : result (Z * MYSQL_BIN_LOG * THD) :=
  if negb (is_open l) then Ret (0, l, thd)
  else
    let '(error, l) := write_incident_unlocked l in
    if lock
    then
      if negb error
      then
        let '(e, l, thd) := flush_and_sync l thd false false 0 in
        if negb e
        then rotate_and_purge (signal_update l) thd already_locked true
        else Ret (1, l, thd)
      else Ret (1, l, thd)
    else Ret (if error then 1 else 0, l, thd).

(** [void THD::binlog_set_pending_rows_event(Rows_log_event* ev)] *)
Definition binlog_set_pending_rows_event (thd : THD) (ev : option Rows_log_event)
  : result THD :=
  let thd := match ha_data thd with
             | None => snd (binlog_setup_trx_data thd)
             | Some _ => thd
             end in
  match ha_data thd with
  | None => Fault
  | Some trx_data => Ret (upd_ha_data (Some (set_pending ev trx_data)) thd)
  end.

Definition upd_trans_log (f : IO_CACHE) (d : binlog_trx_data) : binlog_trx_data :=
  {| trans_log := f;
     at_least_one_stmt_committed := at_least_one_stmt_committed d;
     incident := incident d;
     m_pending := m_pending d;
     before_stmt_pos := before_stmt_pos d |}.

Definition upd_before_stmt_pos (pos : Z) (d : binlog_trx_data) : binlog_trx_data :=
  {| trans_log := trans_log d;
     at_least_one_stmt_committed := at_least_one_stmt_committed d;
     incident := incident d;
     m_pending := m_pending d;
     before_stmt_pos := pos |}.

(** [int MYSQL_BIN_LOG::flush_and_set_pending_rows_event(THD *thd,
    Rows_log_event* event)] *)
Definition flush_and_set_pending_rows_event (l : MYSQL_BIN_LOG) (thd : THD)
  (event : option Rows_log_event) : result (Z * MYSQL_BIN_LOG * THD) :=
  match ha_data thd with
  | None => Fault
  | Some trx_data =>
      match pending trx_data with
      | Some pending_ev =>
          if rows_cache_stmt pending_ev
             || negb (my_b_tell (trans_log trx_data) =? 0)
          then
            (* file= &trx_data->trans_log; *)
            let '(e, f) := Log_event_write (Rows_event pending_ev)
                                           (trans_log trx_data) in
            if e
            then let '(l, thd) := set_write_error l thd in Ret (1, l, thd)
            else
              let thd := upd_ha_data (Some (upd_trans_log f trx_data)) thd in
              do thd <- binlog_set_pending_rows_event thd event;
              Ret (0, l, thd)
          else
            (* file= &log_file; *)
            let '(e, f) := Log_event_write (Rows_event pending_ev) (log_file l) in
            if e
            then let '(l, thd) := set_write_error l thd in Ret (1, l, thd)
            else
              let l := upd_log_file f l in
              let '(e, l, thd) := flush_and_sync l thd false false 0 in
              do (error, l, thd) <-
                 (if negb e
                  then rotate_and_purge (signal_update l) thd already_locked true
                  else Ret (1, l, thd));
              do thd <- binlog_set_pending_rows_event thd event;
              Ret (error, l, thd)
      | None =>
          do thd <- binlog_set_pending_rows_event thd event;
          Ret (0, l, thd)
      end
  end.

(** Modelled from the spec: [THD::binlog_flush_pending_rows_event] is in
    sql_class.cc, which is absent here.  "Flushing any buffered
    pending_rows_event first": with the log open, a pending rows event is
    marked as ending the statement when asked to, and written out by
    [flush_and_set_pending_rows_event]. *)
Definition binlog_flush_pending_rows_event (l : MYSQL_BIN_LOG) (thd : THD)
  (stmt_end : bool) : result (Z * MYSQL_BIN_LOG * THD) :=
  if negb (is_open l) then Ret (0, l, thd)
  else
    match ha_data thd with
    | None => Ret (0, l, thd)
    | Some trx_data =>
        match pending trx_data with
        | None => Ret (0, l, thd)
        | Some pending_ev =>
            let pending_ev :=
              if stmt_end
              then {| rows_image := rows_image pending_ev;
                      rows_cache_stmt := rows_cache_stmt pending_ev;
                      rows_stmt_end_f := true |}
              else pending_ev in
            let thd := upd_ha_data (Some (set_pending (Some pending_ev) trx_data)) thd in
            flush_and_set_pending_rows_event l thd None
        end
    end.

(** Modelled from the spec: [THD::binlog_remove_pending_rows_event] is in
    sql_class.cc, which is absent here.  "Discard any pending rows event":
    with the log open, [MYSQL_BIN_LOG::remove_pending_rows_event] drops
    the session's pending rows event. *)
Definition binlog_remove_pending_rows_event (l : MYSQL_BIN_LOG) (thd : THD)
  : result THD :=
  if negb (is_open l) then Ret thd
  else
    match ha_data thd with
    | None => Fault
    | Some trx_data => Ret (upd_ha_data (Some (set_pending None trx_data)) thd)
    end.

(** Where [MYSQL_BIN_LOG::write] of one event sends its output. *)
Inductive target := To_log_file | To_trans_log.

(** [ev.write(file)] for either target. *)
Definition write_to (file : target) (ev : Log_event) (l : MYSQL_BIN_LOG)
  (thd : THD) : result (bool * MYSQL_BIN_LOG * THD) :=
  match file with
  | To_log_file =>
      let '(e, f) := Log_event_write ev (log_file l) in
      Ret (e, upd_log_file f l, thd)
  | To_trans_log =>
      match ha_data thd with
      | None => Fault
      | Some trx_data =>
          let '(e, f) := Log_event_write ev (trans_log trx_data) in
          Ret (e, l, upd_ha_data (Some (upd_trans_log f trx_data)) thd)
      end
  end.

(** The events describing the run environment, written in order up to
    the first failure. *)
Fixpoint write_all_to (file : target) (evs : list Log_event)
  (l : MYSQL_BIN_LOG) (thd : THD) : result (bool * MYSQL_BIN_LOG * THD) :=
  match evs with
  | [] => Ret (false, l, thd)
  | e :: evs =>
      do (err, l, thd) <- write_to file e l thd;
      if err then Ret (true, l, thd) else write_all_to file evs l thd
  end.

(** The block of [MYSQL_BIN_LOG::write] under [USING_TRANSACTIONS]:
    should we write to the binlog cache or to the binlog on disk?  The
    flag is set when [binlog_setup_trx_data] fails ([goto err]). *)
Definition cache_or_disk (thd : THD) (event_info : Log_event)
  : result (bool * target * THD) :=
  if opt_using_transactions cfg
  then
    let '(e, thd) := binlog_setup_trx_data thd in
    if negb (e =? 0) then Ret (true, To_log_file, thd)
    else
      match ha_data thd with
      | None => Fault
      | Some trx_data =>
          let trans_log_pos := my_b_tell (trans_log trx_data) in
          if get_cache_stmt event_info
             || stmt_has_updated_trans_table thd
             || (negb (binlog_direct_non_trans_update (ctx thd))
                 && negb (trans_log_pos =? 0))
          then
            do thd <- binlog_start_trans_and_stmt thd;
            Ret (false, To_trans_log, thd)
          else Ret (false, To_log_file, thd)
      end
  else Ret (false, To_log_file, thd).

(** [bool MYSQL_BIN_LOG::write(Log_event *event_info)] *)
Definition write (l : MYSQL_BIN_LOG) (thd : THD) (event_info : Log_event)
  : result (bool * MYSQL_BIN_LOG * THD) :=
  if do_union thd
  then
    Ret (false, l,
         upd_unioned_events_trans
           (unioned_events_trans thd || get_cache_stmt event_info)
           (upd_unioned_events true thd))
  else
    let end_stmt := prelocked_mode (ctx thd) && lex_requires_prelocking (ctx thd) in
    do (e, l, thd) <- binlog_flush_pending_rows_event l thd end_stmt;
    if negb (e =? 0) then Ret (true, l, thd)
    else if negb (is_open l) then Ret (true, l, thd)
    else if negb (OPTION_BIN_LOG (ctx thd))
            || (match lex_sql_command (ctx thd) with
                | SQLCOM_OTHER => true
                | _ => false
                end && negb (db_ok (ctx thd)))
    then Ret (false, l, thd)
    else
      (* err: if (error) set_write_error(thd); *)
      let fail (l : MYSQL_BIN_LOG) (thd : THD) :=
        let '(l, thd) := set_write_error l thd in Ret (true, l, thd) in
      do (setup_failed, file, thd) <- cache_or_disk thd event_info;
      if (setup_failed : bool) then fail l thd
      else
        do (e, l, thd) <-
           (if negb (current_stmt_binlog_row_based (ctx thd))
            then write_all_to file (run_environment (ctx thd)) l thd
            else Ret (false, l, thd));
        if (e : bool) then fail l thd
        else
          do (e, l, thd) <- write_to file event_info l thd;
          if (e : bool) then fail l thd
          else
            match file with
            | To_trans_log => Ret (false, l, thd)
            | To_log_file =>
                let '(e, l, thd) := flush_and_sync l thd false false 0 in
                if e then fail l thd
                else
                  do (error, l, thd) <-
                     rotate_and_purge (signal_update l) thd already_locked true;
                  if negb (error =? 0) then fail l thd
                  else Ret (false, l, thd)
            end.

(** [bool MYSQL_BIN_LOG::write(THD *thd, IO_CACHE *cache,
    Log_event *commit_event, bool incident, bool async, handlerton *ht,
    int32 pending, bool *log_was_full)]: the overload that copies a
    transaction cache to the log.  Byte counters for statistics and the
    [log_was_full] out-parameter are left out. *)
Definition write_cached (l : MYSQL_BIN_LOG) (thd : THD) (cache : IO_CACHE)
  (commit_event : option Log_event) (incident async ht : bool) (pending : Z)
  : result (bool * MYSQL_BIN_LOG * THD) :=
  let commit_is_xid :=
    match commit_event with Some e => is_xid_event e | None => false end in
  if is_open l && (0 <? my_b_tell cache) && commit_is_xid && stop_new_xids l
  then (* while (stop_new_xids) pthread_cond_wait(&COND_stop_xids, &LOCK_log); *)
    Wait COND_stop_xids l
  else if is_open l
  then
    (* err: *)
    let err (l : MYSQL_BIN_LOG) (thd : THD) :=
      let l := if write_error l then l
               else sql_print_error "Error writing file" (upd_write_error true l) in
      Ret (true, l, thd) in
    do (failed, l, thd) <-
       (if 0 <? my_b_tell cache
        then
          let '(e, f) := Log_event_write (Query_log_event "BEGIN" true true None)
                                         (log_file l) in
          if e then Ret (true, l, thd)
          else
            let l := upd_log_file f l in
            (* if ((write_error= write_cache(cache, false))) goto err; *)
            let '(code, f) := write_cache cache (log_file l) in
            let l := upd_write_error (negb (code =? 0)) (upd_log_file f l) in
            if negb (code =? 0) then Ret (true, l, thd)
            else
              let '(e, f) := match commit_event with
                             | Some ev => Log_event_write ev (log_file l)
                             | None => (false, log_file l)
                             end in
              if e then Ret (true, l, thd)
              else
                let l := upd_log_file f l in
                let '(e, l) := if incident then write_incident_unlocked l
                               else (false, l) in
                if e then Ret (true, l, thd)
                else
                  let '(e, l, thd) := flush_and_sync l thd async ht pending in
                  if e then Ret (true, l, thd)
                  else if cache_read_error env
                  then Ret (true, sql_print_error "Error reading file"
                                    (upd_write_error true l), thd)
                  else Ret (false, signal_update l, thd)
        else Ret (false, l, thd));
    if (failed : bool) then err l thd
    else if commit_is_xid
    then
      (* prepared_xids++; *)
      Ret (false,
           upd_prepared_xids ((prepared_xids l + 1) mod ulong_modulus) l, thd)
    else
      do (error, l, thd) <- rotate_and_purge l thd already_locked true;
      if negb (error =? 0) then err l thd else Ret (false, l, thd)
  else Ret (false, l, thd).

(** [static int binlog_end_trans(THD *thd, binlog_trx_data *trx_data,
    Log_event *end_ev, bool all, bool async, handlerton *ht,
    int32 pending, bool *log_was_full)]; [trx_data] is the session's
    [ha_data]. *)
Definition binlog_end_trans (l : MYSQL_BIN_LOG) (thd : THD)
  (end_ev : option Log_event) (all async ht : bool) (pending : Z)
  : result (Z * MYSQL_BIN_LOG * THD) :=
  match end_ev with
  | Some _ =>
      do (e, l, thd) <- binlog_flush_pending_rows_event l thd true;
      if negb (e =? 0) then Ret (1, l, thd)
      else
        match ha_data thd with
        | None => Fault
        | Some trx_data =>
            do (error, l, thd) <-
               write_cached l thd (trans_log trx_data) end_ev
                            (has_incident trx_data) async ht pending;
            match ha_data thd with
            | None => Fault
            | Some trx_data =>
                Ret (if (error : bool) then 1 else 0, l,
                     upd_ha_data
                       (Some (reset (max_binlog_cache_size cfg) trx_data)) thd)
            end
        end
  | None =>
      do thd <- binlog_remove_pending_rows_event l thd;
      match ha_data thd with
      | None => Fault
      | Some trx_data =>
          if all || negb (OPTION_BEGIN (ctx thd) || OPTION_NOT_AUTOCOMMIT (ctx thd))
          then
            do (error, l, thd) <-
               (if has_incident trx_data then write_incident l thd true
                else Ret (0, l, thd));
            match ha_data thd with
            | None => Fault
            | Some trx_data =>
                Ret (error, l,
                     upd_ha_data
                       (Some (reset (max_binlog_cache_size cfg) trx_data)) thd)
            end
          else
            Ret (0, l,
                 upd_ha_data
                   (Some (truncate (max_binlog_cache_size cfg)
                                   (before_stmt_pos trx_data) trx_data)) thd)
      end
  end.

(** The condition of the inner [if] of [binlog_rollback], inside the
    branch taken when [check_write_error(thd)] holds. *)
Definition rollback_sets_incident (thd : THD) : bool :=
  (stmt_has_updated_non_trans_table thd || OPTION_KEEP_LOG (ctx thd))
  && check_write_error thd.

(** [static int binlog_rollback(handlerton *hton, THD *thd, bool all)] *)
Definition binlog_rollback (l : MYSQL_BIN_LOG) (thd : THD) (all : bool)
  : result (Z * MYSQL_BIN_LOG * THD) :=
  match ha_data thd with
  | None => Fault
  | Some trx_data =>
      if empty trx_data
      then Ret (0, l, upd_ha_data
                        (Some (reset (max_binlog_cache_size cfg) trx_data)) thd)
      else
        do (error, l, thd) <-
           (if check_write_error thd
            then
              let thd := if rollback_sets_incident thd
                         then upd_ha_data (Some (set_incident trx_data)) thd
                         else thd in
              binlog_end_trans l thd None all false false 0
            else
              do no_stmt_committed <- trans_has_no_stmt_committed thd all;
              if (ending_trans thd all
                  && (trans_has_updated_non_trans_table thd
                      || OPTION_KEEP_LOG (ctx thd)))
                 || (no_stmt_committed
                     && stmt_has_updated_non_trans_table thd
                     && current_stmt_binlog_row_based (ctx thd))
              then
                binlog_end_trans l thd
                  (Some (Query_log_event "ROLLBACK" true true None))
                  all false false 0
              else if ending_trans thd all
                      || (negb (OPTION_KEEP_LOG (ctx thd))
                          && negb (stmt_has_updated_non_trans_table thd))
              then binlog_end_trans l thd None all false false 0
              else Ret (0, l, thd));
        if negb all
        then match ha_data thd with
             | None => Fault
             | Some trx_data =>
                 Ret (error, l,
                      upd_ha_data
                        (Some (upd_before_stmt_pos MY_OFF_T_UNDEF trx_data)) thd)
             end
        else Ret (error, l, thd)
  end.

(** The statement text both savepoint hooks build. *)
Definition savepoint_query (verb : String.string) (thd : THD) : String.string :=
  (verb ++ "`" ++ lex_ident (ctx thd) ++ "`")%string.

(** [static int binlog_savepoint_set(handlerton *hton, THD *thd,
    void *sv)]: the return code, the offset stored in [*sv], and the
    state. *)
Definition binlog_savepoint_set (l : MYSQL_BIN_LOG) (thd : THD)
  : result (Z * Z * MYSQL_BIN_LOG * THD) :=
  do (sv, thd) <- binlog_trans_log_savepos thd;
  if alloc_fails env then Ret (1, sv, l, thd)
  else
    let errcode :=
      query_error_code thd
        match killed (ctx thd) with NOT_KILLED => true | _ => false end in
    let qinfo := Query_log_event (savepoint_query "SAVEPOINT " thd)
                                 true true errcode in
    do (e, l, thd) <- write l thd qinfo;
    Ret (if (e : bool) then 1 else 0, sv, l, thd).

(** [static int binlog_savepoint_rollback(handlerton *hton, THD *thd,
    void *sv)] *)
Definition binlog_savepoint_rollback (l : MYSQL_BIN_LOG) (thd : THD) (sv : Z)
  : result (Z * MYSQL_BIN_LOG * THD) :=
  if trans_has_updated_non_trans_table thd || OPTION_KEEP_LOG (ctx thd)
  then
    if alloc_fails env then Ret (1, l, thd)
    else
      let errcode :=
        query_error_code thd
          match killed (ctx thd) with NOT_KILLED => true | _ => false end in
      let qinfo := Query_log_event (savepoint_query "ROLLBACK TO " thd)
                                   true true errcode in
      do (e, l, thd) <- write l thd qinfo;
      Ret (if (e : bool) then 1 else 0, l, thd)
  else
    do thd <- binlog_trans_log_truncate thd sv;
    Ret (0, l, thd).

(** [int TC_LOG_BINLOG::log_xid(THD *thd, my_xid xid, bool async,
    handlerton *ht, int32 pending, bool *full)]: 1 is success, 0 is
    error. *)
Definition log_xid (l : MYSQL_BIN_LOG) (thd : THD) (xid : Z)
  (async ht : bool) (pending : Z) : result (Z * MYSQL_BIN_LOG * THD) :=
  do (error, l, thd) <-
     binlog_end_trans l thd (Some (Xid_log_event xid)) true async ht pending;
  Ret (if error =? 0 then 1 else 0, l, thd).

(** The first half of [TC_LOG_BINLOG::unlog], under [LOCK_prep_xids]. *)
Definition unlog_prepared_xid (l : MYSQL_BIN_LOG) : MYSQL_BIN_LOG :=
  (* if (--prepared_xids == 0) pthread_cond_broadcast(&COND_prep_xids); *)
  let l := upd_prepared_xids ((prepared_xids l - 1) mod ulong_modulus) l in
  if prepared_xids l =? 0 then pthread_cond_broadcast COND_prep_xids l else l.

(** [int TC_LOG_BINLOG::unlog(THD *thd, ulong cookie, my_xid xid,
    bool log_was_full)] *)
Definition unlog (l : MYSQL_BIN_LOG) (thd : THD) (log_was_full : bool)
  : result (Z * MYSQL_BIN_LOG * THD) :=
  rotate_and_purge (unlog_prepared_xid l) thd no_flags log_was_full.

(** The log object a call leaves behind, whether it returned or went to
    sleep. *)
Definition log_after {A : Type} (r : result (A * MYSQL_BIN_LOG * THD))
  : option MYSQL_BIN_LOG :=
  match r with
  | Ret (_, l, _) => Some l
  | Wait _ l => Some l
  | Fault => None
  end.

End Code.


(** How often [COND_prep_xids] was broadcast so far. *)
Definition is_COND_prep_xids (c : cond_var) : bool :=
  match c with COND_prep_xids => true | _ => false end.

Definition prep_xids_broadcasts (l : MYSQL_BIN_LOG) : nat :=
  length (filter is_COND_prep_xids (broadcasts l)).

(** The bytes of the session's transaction cache. *)
Definition cache_bytes (thd : THD) : list byte :=
  match ha_data thd with
  | Some trx_data => contents (trans_log trx_data)
  | None => []
  end.


(** ** Calls on the log object, one after the other

    A later call of one of the functions above, with the session and the
    environment it runs in; [perform] gives the log object it leaves
    behind (a call that faults ends the process and leaves the object as
    it was). *)
Inductive call :=
| Call_order_for_group_commit (env : Env) (thd : THD) (ht : bool)
| Call_increment_group_commit_ticket (thd : THD)
| Call_wait_for_group_commit_order (wakeups : list wakeup) (thd : THD)
| Call_disable_group_commit (msg : String.string)
| Call_flush_and_sync (env : Env) (thd : THD) (async ht : bool) (pending : Z)
| Call_rotate_and_purge (env : Env) (thd : THD) (flags : rp_flags)
                        (log_maybe_full : bool)
| Call_write (env : Env) (thd : THD) (event_info : Log_event)
| Call_log_xid (env : Env) (thd : THD) (xid : Z) (async ht : bool) (pending : Z)
| Call_unlog (env : Env) (thd : THD) (log_was_full : bool)
| Call_binlog_rollback (env : Env) (thd : THD) (all : bool)
| Call_binlog_savepoint_set (env : Env) (thd : THD)
| Call_binlog_savepoint_rollback (env : Env) (thd : THD) (sv : Z).

Section Calls.

Variable cfg : sys_vars.
Variable event_image : Log_event -> Z -> list byte.
Variable write_cache : IO_CACHE -> IO_CACHE -> Z * IO_CACHE.

Definition or_else (l : MYSQL_BIN_LOG) (after : option MYSQL_BIN_LOG)
  : MYSQL_BIN_LOG :=
  match after with Some l' => l' | None => l end.

Definition perform (c : call) (l : MYSQL_BIN_LOG) : MYSQL_BIN_LOG :=
  match c with
  | Call_order_for_group_commit env thd ht =>
      snd (fst (order_for_group_commit cfg env l thd ht))
  | Call_increment_group_commit_ticket thd =>
      fst (increment_group_commit_ticket cfg l thd)
  | Call_wait_for_group_commit_order wakeups thd =>
      match wait_for_group_commit_order cfg wakeups l thd with
      | Ret l' => l'
      | Wait _ l' => l'
      | Fault => l
      end
  | Call_disable_group_commit msg => disable_group_commit l msg
  | Call_flush_and_sync env thd async ht pending =>
      snd (fst (flush_and_sync cfg env l thd async ht pending))
  | Call_rotate_and_purge env thd flags log_maybe_full =>
      or_else l (log_after (rotate_and_purge cfg env event_image l thd flags
                                             log_maybe_full))
  | Call_write env thd event_info =>
      or_else l (log_after (write cfg env event_image l thd event_info))
  | Call_log_xid env thd xid async ht pending =>
      or_else l (log_after (log_xid cfg env event_image write_cache l thd xid
                                    async ht pending))
  | Call_unlog env thd log_was_full =>
      or_else l (log_after (unlog cfg env event_image l thd log_was_full))
  | Call_binlog_rollback env thd all =>
      or_else l (log_after (binlog_rollback cfg env event_image write_cache
                                            l thd all))
  | Call_binlog_savepoint_set env thd =>
      match binlog_savepoint_set cfg env event_image l thd with
      | Ret (_, _, l', _) => l'
      | Wait _ l' => l'
      | Fault => l
      end
  | Call_binlog_savepoint_rollback env thd sv =>
      or_else l (log_after (binlog_savepoint_rollback cfg env event_image
                                                      l thd sv))
  end.

Fixpoint perform_all (calls : list call) (l : MYSQL_BIN_LOG) : MYSQL_BIN_LOG :=
  match calls with
  | [] => l
  | c :: calls => perform_all calls (perform c l)
  end.

End Calls.


(** ** What a call leaves alone

    [frame l l']: between [l] and [l'] the prepared-xid counter did not
    move, group commit was not switched back on, and nobody broadcast
    [COND_prep_xids]. *)
Record frame (l l' : MYSQL_BIN_LOG) : Prop := {
  frame_prepared_xids : prepared_xids l' = prepared_xids l;
  frame_group_commit :
    group_commit_allowed l = false -> group_commit_allowed l' = false;
  frame_broadcasts : prep_xids_broadcasts l' = prep_xids_broadcasts l
}.

(** [kept thd thd']: the bytes of the session's cache in [thd] are still
    there, at the start of the cache in [thd']. *)
Definition kept (thd thd' : THD) : Prop :=
  exists extra, cache_bytes thd' = cache_bytes thd ++ extra.

(** What a call that may sleep or fault leaves alone. *)
Definition rspec {A : Type} (l : MYSQL_BIN_LOG) (thd : THD)
  (r : result (A * MYSQL_BIN_LOG * THD)) : Prop :=
  match r with
  | Ret (_, l', thd') => frame l l' /\ kept thd thd'
  | Wait _ l' => frame l l'
  | Fault => True
  end.

Definition rspec_log {A : Type} (l : MYSQL_BIN_LOG)
  (r : result (A * MYSQL_BIN_LOG)) : Prop :=
  match r with
  | Ret (_, l') => frame l l'
  | Wait _ l' => frame l l'
  | Fault => True
  end.

Definition rspec_thd (thd : THD) (r : result THD) : Prop :=
  match r with
  | Ret thd' => kept thd thd'
  | Wait _ _ => False
  | Fault => True
  end.

(** Group commit is not switched back on between [l] and [l']. *)
Definition gc_off (l l' : MYSQL_BIN_LOG) : Prop :=
  group_commit_allowed l = false -> group_commit_allowed l' = false.

Definition rgc {A : Type} (l : MYSQL_BIN_LOG)
  (r : result (A * MYSQL_BIN_LOG * THD)) : Prop :=
  match r with
  | Ret (_, l', _) => gc_off l l'
  | Wait _ l' => gc_off l l'
  | Fault => True
  end.

End Binlog.

(* ================================================================== *)
(** * Crash recovery of the last binary log: [TC_LOG_BINLOG::recover]
      and the trimming in [TC_LOG_BINLOG::open] *)

Module Recovery.

(** An event as the scan tells events apart. *)
Inductive Log_event :=
| Format_description_log_event (LOG_EVENT_BINLOG_IN_USE_F : bool)
| Query_log_event (query : String.string)
| Xid_log_event (xid : Z)
| Other_log_event.

(** What one call of [Log_event::read_log_event(log, 0, fdle, NULL)]
    leaves behind: the event and its [is_valid()], the offset
    [my_b_tell(log)] just past it, the cache's [log->error], and whether
    remembering an xid ([memdup_root], [my_hash_insert]) fails. *)
Record read := {
  ev : Log_event;
  is_valid : bool;
  tell_after : Z;
  log_error : Z;
  insert_fails : bool
}.

(** The locals of [recover]: [in_transaction], the [xids] hash and the
    caller's [*valid_pos]. *)
Record scan := {
  in_transaction : bool;
  xids : list Z;
  valid_pos : Z
}.

Definition is_query (e : Log_event) (text : String.string) : bool :=
  match e with
  | Query_log_event query => String.eqb query text
  | _ => false
  end.

(** The body of the [while] loop of [recover]; [None] is [goto err2]. *)
Definition recover_event (r : read) (s : scan) : option scan :=
  (* if (QUERY_EVENT && !strcmp(query, "BEGIN")) in_transaction= TRUE; *)
  let in_trans := if is_query (ev r) "BEGIN" then true else in_transaction s in
  let after_event :=
    if is_query (ev r) "COMMIT"
    then Some (false, xids s)
    else match ev r with
         | Xid_log_event x =>
             if insert_fails r then None else Some (false, xids s ++ [x])
         | _ => Some (in_trans, xids s)
         end in
  match after_event with
  | None => None
  | Some (in_trans, xs) =>
      (* if (!log->error && !in_transaction) *valid_pos= my_b_tell(log); *)
      Some {| in_transaction := in_trans;
              xids := xs;
              valid_pos := if (log_error r =? 0) && negb in_trans
                           then tell_after r else valid_pos s |}
  end.

(** [while ((ev= read_log_event(...)) && ev->is_valid())]: the reads are
    consumed up to the end of the stream or the first invalid event.  The
    flag is set when the loop is left by [goto err2]; the offsets found
    until then stay in [*valid_pos]. *)
Fixpoint recover_loop (reads : list read) (s : scan) : bool * scan :=
  match reads with
  | [] => (false, s)
  | r :: reads =>
      if is_valid r
      then match recover_event r s with
           | None => (true, s)
           | Some s => recover_loop reads s
           end
      else (false, s)
  end.

(** What the environment decides during recovery. *)
Record Env := {
  fdle_is_valid : bool;
  hash_init_fails : bool;
  ha_recover_fails : bool;
  my_open_fails : bool;
  my_chsize_fails : bool;
  my_pwrite_fails : bool
}.

(** [int TC_LOG_BINLOG::recover(IO_CACHE *log,
    Format_description_log_event *fdle, my_off_t *valid_pos)]: the return
    code and the final [*valid_pos]. *)
Definition recover (env : Env) (reads : list read) (valid_pos0 : Z) : Z * Z :=
  if negb (fdle_is_valid env) || hash_init_fails env then (1, valid_pos0)
  else
    let '(err2, s) :=
      recover_loop reads
        {| in_transaction := false; xids := []; valid_pos := valid_pos0 |} in
    if err2 then (1, valid_pos s)
    else if ha_recover_fails env then (1, valid_pos s)
    else (0, valid_pos s).

(** The part of [int TC_LOG_BINLOG::open(const char *opt_name)] that
    works on the last log file, from [my_stat] on: [image] is the file,
    [first] the first event read from it, [reads] the events after it.
    The result is the return code, [valid_pos], and the file. *)
Definition open (env : Env) (image : list byte) (first : option read)
  (reads : list read) : Z * Z * list byte :=
  let binlog_size := Z.of_nat (length image) in
  let '(error, valid_pos) :=
    match first with
    | Some r =>
        match ev r with
        | Format_description_log_event true =>
            (* valid_pos= my_b_tell(&log); error= recover(...); *)
            recover env reads (tell_after r)
        | _ => (0, 0)
        end
    | None => (0, 0)
    end in
  if negb (error =? 0) then (error, valid_pos, image)
  else if 0 <? valid_pos
  then
    if my_open_fails env then (-1, valid_pos, image)
    else
      (* if (valid_pos < binlog_size) my_chsize(file, valid_pos, 0, ...) *)
      let trimmed :=
        if valid_pos <? binlog_size
        then if my_chsize_fails env then None
             else Some (firstn (Z.to_nat valid_pos) image)
        else Some image in
      match trimmed with
      | None => (-1, valid_pos, image)
      | Some image =>
          if my_pwrite_fails env then (-1, valid_pos, image)
          else (0, valid_pos, clear_in_use_flag image)
      end
  else (error, valid_pos, image).

End Recovery.

(* ================================================================== *)
(** * The memory-mapped coordinator: [class TC_LOG_MMAP] *)

Module Mmap.

(** [typedef ulonglong my_xid] *)
Definition sizeof_my_xid : Z := 8.

(** [static const char tc_log_magic[]={(char) 254, 0x23, 0x05, 0x74}] *)
Definition tc_log_magic : list byte := [254; 35; 5; 116].

(** [#define TC_LOG_HEADER_SIZE (sizeof(tc_log_magic)+1)] *)
Definition TC_LOG_HEADER_SIZE : Z := Z.of_nat (length tc_log_magic) + 1.

Inductive PAGE_STATE := POOL | ERROR | DIRTY.

(** A pointer is an address; the null pointer is address 0.  A [PAGE] of
    the [pages] array; the pool's [next] links are kept as the list [pool]
    of the coordinator below. *)
Record PAGE := {
  start : Z;              (* my_xid *start *)
  end_ : Z;               (* my_xid *end *)
  ptr : Z;                (* my_xid *ptr *)
  size : Z;
  free : Z;
  waiters : Z;
  state : PAGE_STATE
}.

Record TC_LOG_MMAP := {
  data : Z;                       (* uchar *data, the address of the mapping *)
  file_length : Z;
  tc_log_page_size : Z;
  mapped : list Z;                (* the mapping, as 8-byte words *)
  pages : list PAGE;
  active : option nat;            (* PAGE *active, an index into pages *)
  pool : list nat;                (* pool ... pool_last *)
  syncing : option nat;
  tc_log_cur_pages_used : Z;
  tc_log_max_pages_used : Z;
  tc_log_page_waits : Z
}.

Definition upd_pages (v : list PAGE) (t : TC_LOG_MMAP) : TC_LOG_MMAP :=
  {| data := data t; file_length := file_length t;
     tc_log_page_size := tc_log_page_size t; mapped := mapped t;
     pages := v; active := active t; pool := pool t; syncing := syncing t;
     tc_log_cur_pages_used := tc_log_cur_pages_used t;
     tc_log_max_pages_used := tc_log_max_pages_used t;
     tc_log_page_waits := tc_log_page_waits t |}.

Definition upd_mapped (v : list Z) (t : TC_LOG_MMAP) : TC_LOG_MMAP :=
  {| data := data t; file_length := file_length t;
     tc_log_page_size := tc_log_page_size t; mapped := v;
     pages := pages t; active := active t; pool := pool t; syncing := syncing t;
     tc_log_cur_pages_used := tc_log_cur_pages_used t;
     tc_log_max_pages_used := tc_log_max_pages_used t;
     tc_log_page_waits := tc_log_page_waits t |}.

Definition upd_active (v : option nat) (t : TC_LOG_MMAP) : TC_LOG_MMAP :=
  {| data := data t; file_length := file_length t;
     tc_log_page_size := tc_log_page_size t; mapped := mapped t;
     pages := pages t; active := v; pool := pool t; syncing := syncing t;
     tc_log_cur_pages_used := tc_log_cur_pages_used t;
     tc_log_max_pages_used := tc_log_max_pages_used t;
     tc_log_page_waits := tc_log_page_waits t |}.

Definition upd_pool (v : list nat) (t : TC_LOG_MMAP) : TC_LOG_MMAP :=
  {| data := data t; file_length := file_length t;
     tc_log_page_size := tc_log_page_size t; mapped := mapped t;
     pages := pages t; active := active t; pool := v; syncing := syncing t;
     tc_log_cur_pages_used := tc_log_cur_pages_used t;
     tc_log_max_pages_used := tc_log_max_pages_used t;
     tc_log_page_waits := tc_log_page_waits t |}.

Definition upd_syncing (v : option nat) (t : TC_LOG_MMAP) : TC_LOG_MMAP :=
  {| data := data t; file_length := file_length t;
     tc_log_page_size := tc_log_page_size t; mapped := mapped t;
     pages := pages t; active := active t; pool := pool t; syncing := v;
     tc_log_cur_pages_used := tc_log_cur_pages_used t;
     tc_log_max_pages_used := tc_log_max_pages_used t;
     tc_log_page_waits := tc_log_page_waits t |}.

Definition upd_pages_used (cur : Z) (t : TC_LOG_MMAP) : TC_LOG_MMAP :=
  {| data := data t; file_length := file_length t;
     tc_log_page_size := tc_log_page_size t; mapped := mapped t;
     pages := pages t; active := active t; pool := pool t; syncing := syncing t;
     tc_log_cur_pages_used := cur;
     (* set_if_bigger(tc_log_max_pages_used, tc_log_cur_pages_used) *)
     tc_log_max_pages_used := Z.max (tc_log_max_pages_used t) cur;
     tc_log_page_waits := tc_log_page_waits t |}.

Definition upd_page_waits (v : Z) (t : TC_LOG_MMAP) : TC_LOG_MMAP :=
  {| data := data t; file_length := file_length t;
     tc_log_page_size := tc_log_page_size t; mapped := mapped t;
     pages := pages t; active := active t; pool := pool t; syncing := syncing t;
     tc_log_cur_pages_used := tc_log_cur_pages_used t;
     tc_log_max_pages_used := tc_log_max_pages_used t;
     tc_log_page_waits := v |}.

(** Replace element [i] of a list; out of range, nothing changes. *)
Fixpoint set_nth {A : Type} (i : nat) (x : A) (l : list A) : list A :=
  match l, i with
  | [], _ => []
  | _ :: tl, O => x :: tl
  | hd :: tl, S i => hd :: set_nth i x tl
  end.

(** Reading and writing a [my_xid] through a pointer: the address has to
    lie in the mapping, on one of its 8-byte words. *)
Definition word_of (t : TC_LOG_MMAP) (addr : Z) : option nat :=
  let off := addr - data t in
  if (0 <=? off) && (off + sizeof_my_xid <=? file_length t)
     && (off mod sizeof_my_xid =? 0)
  then Some (Z.to_nat (off / sizeof_my_xid))
  else None.

Definition load (t : TC_LOG_MMAP) (addr : Z) : option Z :=
  match word_of t addr with
  | Some w => nth_error (mapped t) w
  | None => None
  end.

Definition store (t : TC_LOG_MMAP) (addr : Z) (x : Z) : option TC_LOG_MMAP :=
  match word_of t addr with
  | Some w => if (w <? length (mapped t))%nat
              then Some (upd_mapped (set_nth w x (mapped t)) t)
              else None
  | None => None
  end.

(** The page set up by the loop of [open] for index [i].  The array comes
    from [my_malloc(..., MY_ZEROFILL)] and the loop does not assign [ptr],
    so [ptr] is the null pointer.  [pg->start + tc_log_page_size] is
    arithmetic on a [my_xid*]: it advances by that many xids. *)
Definition init_page (data page_size : Z) (i : nat) : PAGE :=
  let start := data + Z.of_nat i * page_size in
  {| start := start;
     end_ := start + page_size * sizeof_my_xid;
     ptr := 0;
     size := page_size / sizeof_my_xid;
     free := page_size / sizeof_my_xid;
     waiters := 0;
     state := POOL |}.

(** [pages[0].size=pages[0].free=(tc_log_page_size-TC_LOG_HEADER_SIZE)
    /sizeof(my_xid); pages[0].start=pages[0].end-pages[0].size;] *)
Definition first_page (pg : PAGE) (page_size : Z) : PAGE :=
  let n := (page_size - TC_LOG_HEADER_SIZE) / sizeof_my_xid in
  {| start := end_ pg - n * sizeof_my_xid;
     end_ := end_ pg;
     ptr := ptr pg;
     size := n;
     free := n;
     waiters := waiters pg;
     state := state pg |}.

(** The first word of the mapping once the magic number and the engine
    count are stored in its first five bytes (little-endian host). *)
Definition header_word (total_ha_2pc : Z) : Z :=
  254 + Z.shiftl 35 8 + Z.shiftl 5 16 + Z.shiftl 116 24
  + Z.shiftl (total_ha_2pc mod 256) 32.

(** [MAP_FAILED], the error value of [my_mmap]. *)
Definition MAP_FAILED : Z := ulonglong_modulus - 1.

(** [int TC_LOG_MMAP::open(const char *opt_name)] on the path where no
    log file exists yet: the file is created with [opt_tc_log_size] bytes
    and mapped at [data]; [None] is the [goto err] exit.  The source
    asserts [npages >= 3]; there is no result here when the file holds
    no page at all. *)
Definition open (data opt_tc_log_size page_size total_ha_2pc : Z)
  : option TC_LOG_MMAP :=
  if data =? MAP_FAILED then None
  else
    (* npages=(uint)file_length/tc_log_page_size; *)
    let npages := Z.to_nat ((opt_tc_log_size mod uint_modulus) / page_size) in
    let pgs := map (init_page data page_size) (seq 0 npages) in
    match pgs with
    | [] => None
    | pg0 :: rest =>
        Some {| data := data;
                file_length := opt_tc_log_size;
                tc_log_page_size := page_size;
                mapped := set_nth 0 (header_word total_ha_2pc)
                            (repeat 0 (Z.to_nat (opt_tc_log_size / sizeof_my_xid)));
                pages := first_page pg0 page_size :: rest;
                (* active=pages; pool=pages+1; pool_last=pages+npages-1; *)
                active := Some 0%nat;
                pool := seq 1 (npages - 1);
                syncing := None;
                tc_log_cur_pages_used := 0;
                tc_log_max_pages_used := 0;
                tc_log_page_waits := 0 |}
    end.

(** How a call ends: it returns, it sleeps in [pthread_cond_wait] for
    another thread, or it goes through an invalid pointer. *)
Inductive outcome (A : Type) :=
| Returns (a : A) (t : TC_LOG_MMAP)
| Sleeps (t : TC_LOG_MMAP)
| Crashes.
Arguments Returns {A} a t.
Arguments Sleeps {A} t.
Arguments Crashes {A}.

(** The second strategy of [get_active_from_pool]: among the pages
    after the first, the first one with no waiters and the most free
    slots; [best] carries [(best_free, position in the pool)]. *)
Fixpoint best_in_pool (pgs : list PAGE) (pool : list nat) (pos : nat)
  (best : Z * option nat) : option (Z * option nat) :=
  match pool with
  | [] => Some best
  | i :: pool =>
      match nth_error pgs i with
      | None => None
      | Some pg =>
          if (waiters pg =? 0) && (fst best <? free pg)
          then best_in_pool pgs pool (S pos) (free pg, Some pos)
          else best_in_pool pgs pool (S pos) best
      end
  end.

(** The page at position [pos] is taken out of the pool when it has a
    successor; when it is the last page the source only assigns
    [pool_last] and the links stay as they are. *)
Definition unlink (pos : nat) (pool : list nat) : list nat :=
  if (S pos <? length pool)%nat
  then firstn pos pool ++ skipn (S pos) pool
  else pool.

(** [void TC_LOG_MMAP::get_active_from_pool()] *)
Definition get_active_from_pool (t : TC_LOG_MMAP) : outcome unit :=
  match pool t with
  | [] => Crashes
  | first :: others =>
      match nth_error (pages t) first with
      | None => Crashes
      | Some pg =>
          let choice :=
            if waiters pg =? 0 then Some (1, Some 0%nat)
            else best_in_pool (pages t) others 1 (0, None) in
          match choice with
          | None => Crashes
          | Some (_, None) | Some (0, _) =>
              (* overflow(): tc_log_page_waits++; wait on COND_pool *)
              Sleeps (upd_page_waits (tc_log_page_waits t + 1) t)
          | Some (_, Some pos) =>
              match nth_error (pool t) pos with
              | None => Crashes
              | Some i =>
                  match nth_error (pages t) i with
                  | None => Crashes
                  | Some best =>
                      let t := upd_active (Some i) t in
                      let t := if free best =? size best
                               then upd_pages_used (tc_log_cur_pages_used t + 1) t
                               else t in
                      Returns tt (upd_pool (unlink pos (pool t)) t)
                  end
              end
          end
      end
  end.

(** [while ( *p->ptr) p->ptr++;]: the address of the first empty slot at
    or after [ptr]. *)
Fixpoint find_empty_slot (fuel : nat) (t : TC_LOG_MMAP) (ptr : Z) : option Z :=
  match fuel with
  | O => None
  | S fuel =>
      match load t ptr with
      | None => None
      | Some x => if x =? 0 then Some ptr
                  else find_empty_slot fuel t (ptr + sizeof_my_xid)
      end
  end.

Definition upd_page (i : nat) (pg : PAGE) (t : TC_LOG_MMAP) : TC_LOG_MMAP :=
  upd_pages (set_nth i pg (pages t)) t.

(** [int TC_LOG_MMAP::sync()] *)
Definition sync (msync_fails : bool) (t : TC_LOG_MMAP) : outcome Z :=
  match syncing t with
  | None => Crashes
  | Some s =>
      match nth_error (pages t) s with
      | None => Crashes
      | Some pg =>
          let err := if msync_fails then 1 else 0 in
          (* pool_last->next=syncing; pool_last=syncing; syncing->next=0; *)
          let t := upd_pool (pool t ++ [s]) t in
          let t := upd_page s {| start := start pg; end_ := end_ pg;
                                 ptr := ptr pg; size := size pg;
                                 free := free pg; waiters := waiters pg;
                                 state := if msync_fails then ERROR else POOL |} t in
          let t := upd_syncing None t in
          (* pthread_cond_signal(&active->cond); *)
          match active t with
          | None => Crashes
          | Some _ => Returns err t
          end
      end
  end.

(** The conversion of the [ulong] cookie to the [int] the function
    returns. *)
Definition to_int (z : Z) : Z := (z + 2 ^ 31) mod 2 ^ 32 - 2 ^ 31.

(** [int TC_LOG_MMAP::log_xid(THD *thd, my_xid xid, bool async,
    handlerton *ht, int32 pending, bool *full)] *)
Definition log_xid (msync_fails : bool) (t : TC_LOG_MMAP) (xid : Z) : outcome Z :=
  (* while (unlikely(active && active->free == 0)) pthread_cond_wait(...) *)
  let full :=
    match active t with
    | Some a => match nth_error (pages t) a with
                | Some pg => free pg =? 0
                | None => false
                end
    | None => false
    end in
  if full then Sleeps t
  else
    (* if (active == 0) get_active_from_pool(); *)
    let chosen := match active t with
                  | None => get_active_from_pool t
                  | Some _ => Returns tt t
                  end in
    match chosen with
    | Crashes => Crashes
    | Sleeps t => Sleeps t
    | Returns _ t =>
        match active t with
        | None => Crashes
        | Some p =>
            match nth_error (pages t) p with
            | None => Crashes
            | Some pg =>
                match find_empty_slot (S (length (mapped t))) t (ptr pg) with
                | None => Crashes
                | Some slot =>
                    (* cookie= (ulong)((uchar * )p->ptr - data); *)
                    let cookie := (slot - data t) mod ulong_modulus in
                    (* *p->ptr++= xid; p->free--; p->state= DIRTY; *)
                    match store t slot xid with
                    | None => Crashes
                    | Some t =>
                        let pg := {| start := start pg; end_ := end_ pg;
                                     ptr := slot + sizeof_my_xid;
                                     size := size pg; free := free pg - 1;
                                     waiters := waiters pg; state := DIRTY |} in
                        let t := upd_page p pg t in
                        match syncing t with
                        | Some _ =>
                            (* somebody's syncing. let's wait *)
                            Sleeps (upd_page p
                                      {| start := start pg; end_ := end_ pg;
                                         ptr := ptr pg; size := size pg;
                                         free := free pg;
                                         waiters := waiters pg + 1;
                                         state := state pg |} t)
                        | None =>
                            (* syncing=p; active=0; err= sync(); *)
                            let t := upd_active None (upd_syncing (Some p) t) in
                            match sync msync_fails t with
                            | Crashes => Crashes
                            | Sleeps t => Sleeps t
                            | Returns err t =>
                                Returns (if err =? 0 then to_int cookie else 0) t
                            end
                        end
                    end
                end
            end
        end
    end.

End Mmap.

(* ================================================================== *)
(** * Rotation against concurrent commits: the threads of
      [new_file_impl], [MYSQL_BIN_LOG::write] and [TC_LOG_BINLOG::unlog] *)

Module Rotation.

(** Three sessions: one commits a transaction with an XID event and a
    non-empty cache, one rotates the log, one unlogs an earlier
    transaction. *)
Inductive thread := Writer | Rotator | Unlogger.

Definition thread_eqb (a b : thread) : bool :=
  match a, b with
  | Writer, Writer | Rotator, Rotator | Unlogger, Unlogger => true
  | _, _ => false
  end.

(** Program points of the [MYSQL_BIN_LOG::write] that copies a cache,
    for an XID commit event, an open log and a non-empty cache. *)
Inductive writer_pc :=
| W_lock_log        (* pthread_mutex_lock(&LOCK_log) *)
| W_check_stop      (* while (stop_new_xids) pthread_cond_wait(&COND_stop_xids, &LOCK_log) *)
| W_wait_stop       (* asleep in that wait *)
| W_write           (* qinfo.write; write_cache; commit_event->write *)
| W_flush_and_sync  (* flush_and_sync(thd, async, ht, pending) *)
| W_timedwait       (* asleep in pthread_cond_timedwait(&binlog_cond, &LOCK_log, ...) *)
| W_lock_prep       (* pthread_mutex_lock(&LOCK_prep_xids) *)
| W_increment       (* prepared_xids++; pthread_mutex_unlock(&LOCK_prep_xids) *)
| W_unlock_log      (* pthread_mutex_unlock(&LOCK_log) *)
| W_done.

(** Program points of [new_file_impl(1)]. *)
Inductive rotator_pc :=
| R_lock_log        (* pthread_mutex_lock(&LOCK_log) *)
| R_lock_index      (* pthread_mutex_lock(&LOCK_index) *)
| R_check_stop      (* if (stop_new_xids) ... wait for the other rotation *)
| R_set_stop        (* stop_new_xids= TRUE *)
| R_check_prep      (* if (prepared_xids) *)
| R_lock_prep       (* tc_log_page_waits++; pthread_mutex_lock(&LOCK_prep_xids) *)
| R_release         (* pthread_mutex_unlock(&LOCK_index); pthread_mutex_unlock(&LOCK_log) *)
| R_wait_loop       (* while (prepared_xids) pthread_cond_wait(&COND_prep_xids, &LOCK_prep_xids) *)
| R_asleep          (* asleep in that wait *)
| R_unlock_prep     (* pthread_mutex_unlock(&LOCK_prep_xids) *)
| R_relock_log      (* pthread_mutex_lock(&LOCK_log) *)
| R_relock_index    (* pthread_mutex_lock(&LOCK_index); DBUG_ASSERT(!prepared_xids) *)
| R_rotate_event    (* generate_new_name; r.write(&log_file); signal_update() *)
| R_close_and_open  (* close(LOG_CLOSE_TO_BE_OPENED | LOG_CLOSE_INDEX); open(...) *)
| R_finish          (* stop_new_xids= FALSE; broadcast COND_stop_xids; unlock *)
| R_done.

(** Program points of [TC_LOG_BINLOG::unlog]; the [rotate_and_purge] at
    its end finds the log below [max_size] and returns. *)
Inductive unlogger_pc :=
| U_lock_prep       (* pthread_mutex_lock(&LOCK_prep_xids) *)
| U_decrement       (* if (--prepared_xids == 0) broadcast; unlock *)
| U_done.

Record state := {
  LOCK_log : option thread;
  LOCK_index : option thread;
  LOCK_prep_xids : option thread;
  stop_new_xids : bool;
  prepared_xids : Z;
  pc_writer : writer_pc;
  pc_rotator : rotator_pc;
  pc_unlogger : unlogger_pc;
  (* a broadcast on COND_stop_xids reached the sleeping writer *)
  writer_signalled : bool;
  (* a broadcast on COND_prep_xids reached the sleeping rotator *)
  rotator_signalled : bool;
  (* the writer's flush_and_sync takes the batched path and sleeps *)
  writer_batches : bool;
  (* the number of the active log file, and the file the writer's XID
     event went to *)
  active_log : nat;
  xid_written_to : option nat
}.

Definition free (m : option thread) : bool :=
  match m with None => true | Some _ => false end.

Definition held_by (t : thread) (m : option thread) : bool :=
  match m with Some o => thread_eqb o t | None => false end.

(** One step of the writer; [None] when it cannot move. *)
Definition step_writer (s : state) : option state :=
  let upd pc log prep stop_sig n xid :=
    {| LOCK_log := log; LOCK_index := LOCK_index s; LOCK_prep_xids := prep;
       stop_new_xids := stop_new_xids s; prepared_xids := n;
       pc_writer := pc; pc_rotator := pc_rotator s;
       pc_unlogger := pc_unlogger s;
       writer_signalled := stop_sig;
       rotator_signalled := rotator_signalled s;
       writer_batches := writer_batches s;
       active_log := active_log s; xid_written_to := xid |} in
  let same pc log := upd pc log (LOCK_prep_xids s) (writer_signalled s)
                         (prepared_xids s) (xid_written_to s) in
  match pc_writer s with
  | W_lock_log =>
      if free (LOCK_log s) then Some (same W_check_stop (Some Writer)) else None
  | W_check_stop =>
      if stop_new_xids s
      then Some (upd W_wait_stop None (LOCK_prep_xids s) false
                     (prepared_xids s) (xid_written_to s))
      else Some (same W_write (LOCK_log s))
  | W_wait_stop =>
      if writer_signalled s && free (LOCK_log s)
      then Some (same W_check_stop (Some Writer)) else None
  | W_write =>
      Some (upd W_flush_and_sync (LOCK_log s) (LOCK_prep_xids s)
                (writer_signalled s) (prepared_xids s) (Some (active_log s)))
  | W_flush_and_sync =>
      if writer_batches s
      then Some (same W_timedwait None)
      else Some (same W_lock_prep (LOCK_log s))
  | W_timedwait =>
      (* the timeout ends the wait; the mutex is taken again *)
      if free (LOCK_log s) then Some (same W_lock_prep (Some Writer)) else None
  | W_lock_prep =>
      if free (LOCK_prep_xids s)
      then Some (upd W_increment (LOCK_log s) (Some Writer) (writer_signalled s)
                     (prepared_xids s) (xid_written_to s))
      else None
  | W_increment =>
      Some (upd W_unlock_log (LOCK_log s) None (writer_signalled s)
                (prepared_xids s + 1) (xid_written_to s))
  | W_unlock_log => Some (same W_done None)
  | W_done => None
  end.

(** One step of the rotating thread. *)
Definition step_rotator (s : state) : option state :=
  let upd pc log index prep stop w_sig r_sig file :=
    {| LOCK_log := log; LOCK_index := index; LOCK_prep_xids := prep;
       stop_new_xids := stop; prepared_xids := prepared_xids s;
       pc_writer := pc_writer s; pc_rotator := pc;
       pc_unlogger := pc_unlogger s;
       writer_signalled := w_sig; rotator_signalled := r_sig;
       writer_batches := writer_batches s;
       active_log := file; xid_written_to := xid_written_to s |} in
  let locks pc log index prep :=
    upd pc log index prep (stop_new_xids s) (writer_signalled s)
        (rotator_signalled s) (active_log s) in
  let goto pc := locks pc (LOCK_log s) (LOCK_index s) (LOCK_prep_xids s) in
  match pc_rotator s with
  | R_lock_log =>
      if free (LOCK_log s)
      then Some (locks R_lock_index (Some Rotator) (LOCK_index s) (LOCK_prep_xids s))
      else None
  | R_lock_index =>
      if free (LOCK_index s)
      then Some (locks R_check_stop (LOCK_log s) (Some Rotator) (LOCK_prep_xids s))
      else None
  | R_check_stop =>
      if stop_new_xids s then None else Some (goto R_set_stop)
  | R_set_stop =>
      Some (upd R_check_prep (LOCK_log s) (LOCK_index s) (LOCK_prep_xids s) true
                (writer_signalled s) (rotator_signalled s) (active_log s))
  | R_check_prep =>
      if prepared_xids s =? 0 then Some (goto R_rotate_event)
      else Some (goto R_lock_prep)
  | R_lock_prep =>
      if free (LOCK_prep_xids s)
      then Some (locks R_release (LOCK_log s) (LOCK_index s) (Some Rotator))
      else None
  | R_release => Some (locks R_wait_loop None None (LOCK_prep_xids s))
  | R_wait_loop =>
      if prepared_xids s =? 0 then Some (goto R_unlock_prep)
      else Some (upd R_asleep (LOCK_log s) (LOCK_index s) None (stop_new_xids s)
                     (writer_signalled s) false (active_log s))
  | R_asleep =>
      if rotator_signalled s && free (LOCK_prep_xids s)
      then Some (locks R_wait_loop (LOCK_log s) (LOCK_index s) (Some Rotator))
      else None
  | R_unlock_prep => Some (locks R_relock_log (LOCK_log s) (LOCK_index s) None)
  | R_relock_log =>
      if free (LOCK_log s)
      then Some (locks R_relock_index (Some Rotator) (LOCK_index s) (LOCK_prep_xids s))
      else None
  | R_relock_index =>
      if free (LOCK_index s)
      then Some (locks R_rotate_event (LOCK_log s) (Some Rotator) (LOCK_prep_xids s))
      else None
  | R_rotate_event => Some (goto R_close_and_open)
  | R_close_and_open =>
      Some (upd R_finish (LOCK_log s) (LOCK_index s) (LOCK_prep_xids s)
                (stop_new_xids s) (writer_signalled s) (rotator_signalled s)
                (S (active_log s)))
  | R_finish =>
      Some (upd R_done None None (LOCK_prep_xids s) false true
                (rotator_signalled s) (active_log s))
  | R_done => None
  end.

(** One step of the unlogging session. *)
Definition step_unlogger (s : state) : option state :=
  let upd pc prep n r_sig :=
    {| LOCK_log := LOCK_log s; LOCK_index := LOCK_index s;
       LOCK_prep_xids := prep;
       stop_new_xids := stop_new_xids s; prepared_xids := n;
       pc_writer := pc_writer s; pc_rotator := pc_rotator s;
       pc_unlogger := pc;
       writer_signalled := writer_signalled s; rotator_signalled := r_sig;
       writer_batches := writer_batches s;
       active_log := active_log s; xid_written_to := xid_written_to s |} in
  match pc_unlogger s with
  | U_lock_prep =>
      if free (LOCK_prep_xids s)
      then Some (upd U_decrement (Some Unlogger) (prepared_xids s)
                     (rotator_signalled s))
      else None
  | U_decrement =>
      let n := (prepared_xids s - 1) mod ulong_modulus in
      Some (upd U_done None n
                (if n =? 0 then true else rotator_signalled s))
  | U_done => None
  end.

Definition step (t : thread) (s : state) : option state :=
  match t with
  | Writer => step_writer s
  | Rotator => step_rotator s
  | Unlogger => step_unlogger s
  end.

(** Run a schedule: the threads take one step each in the given order. *)
Fixpoint run (schedule : list thread) (s : state) : option state :=
  match schedule with
  | [] => Some s
  | t :: schedule =>
      match step t s with
      | Some s => run schedule s
      | None => None
      end
  end.

(** One transaction is prepared and not yet unlogged; nobody holds a
    lock. *)
Definition initial (batches : bool) : state :=
  {| LOCK_log := None; LOCK_index := None; LOCK_prep_xids := None;
     stop_new_xids := false; prepared_xids := 1;
     pc_writer := W_lock_log; pc_rotator := R_lock_log;
     pc_unlogger := U_lock_prep;
     writer_signalled := false; rotator_signalled := false;
     writer_batches := batches;
     active_log := 0%nat; xid_written_to := None |}.

(** The interleaving followed below: the writer goes to sleep in the
    batched [flush_and_sync]; the rotation sets [stop_new_xids] and waits
    for the prepared transaction; the writer wakes up with [LOCK_log];
    the earlier transaction is unlogged; the rotation sees the counter at
    0 and leaves its wait; the writer counts its XID and lets go of
    [LOCK_log]; the rotation takes the locks back and writes its rotate
    event. *)
Definition race : list thread :=
  [Writer; Writer; Writer; Writer;
   Rotator; Rotator; Rotator; Rotator; Rotator; Rotator; Rotator; Rotator;
   Writer;
   Unlogger; Unlogger;
   Rotator; Rotator; Rotator;
   Writer; Writer; Writer;
   Rotator; Rotator; Rotator].

(** ** Every interleaving *)









End Rotation.

(* ================================================================== *)
(** * Copying a transaction cache to the log:
      [MYSQL_BIN_LOG::write_cache] *)

Module WriteCache.
Import Cache.

(** Layout of the event header (log_event.h): 19 bytes, the total event
    length at offset 9 and [end_log_pos] at offset 13, four bytes each. *)
Definition LOG_EVENT_HEADER_LEN : Z := 19.
Definition EVENT_LEN_OFFSET : Z := 9.
Definition LOG_POS_OFFSET : Z := 13.

(** [uint4korr(A)] and [int4store(T, A)]: four bytes, least significant
    first. *)
Definition uint4korr (A : list byte) : Z :=
  nth 0 A 0 + Z.shiftl (nth 1 A 0) 8 + Z.shiftl (nth 2 A 0) 16
  + Z.shiftl (nth 3 A 0) 24.

Definition int4store (A : Z) : list byte :=
  [Z.land A 255; Z.land (Z.shiftr A 8) 255; Z.land (Z.shiftr A 16) 255;
   Z.land (Z.shiftr A 24) 255].

(** [n] bytes of [buf] from offset [off] on. *)
Definition bytes_at (buf : list byte) (off n : Z) : list byte :=
  firstn (Z.to_nat n) (skipn (Z.to_nat off) buf).

(** [memcpy(dst + off, src, length src)] *)
Definition memcpy (dst : list byte) (off : Z) (src : list byte) : list byte :=
  firstn (Z.to_nat off) dst ++ src
  ++ skipn (Z.to_nat off + length src) dst.

(** [my_b_write(&log_file, buf, n)]: [None] when the write fails. *)
Definition my_b_write (f : IO_CACHE) (buf : list byte) : option IO_CACHE :=
  if end_of_file f <? my_b_tell f + Z.of_nat (length buf) then None
  else Some {| contents := contents f ++ buf; end_of_file := end_of_file f |}.

Inductive status := OK | ER_ERROR_ON_WRITE.

(** The locals that live across the iterations of the [do] loop. *)
Record locals := {
  hdr_offs : Z;             (* uint *)
  carry : Z;                (* uint *)
  header : list byte;       (* uchar header[LOG_EVENT_HEADER_LEN] *)
  log_file : IO_CACHE
}.

(** The [while (hdr_offs < length)] loop over the headers in the read
    buffer.  It returns the buffer, [length], [hdr_offs], [carry] and
    [header]; [None] when a header would be read past the bytes delivered,
    or when [fuel] iterations have not ended the loop. *)
Fixpoint fix_headers (fuel : nat) (group : Z) (buf : list byte)
  (length hdr_offs carry : Z) (header : list byte)
  : option (list byte * Z * Z * Z * list byte) :=
  match fuel with
  | O => None
  | S fuel =>
      if hdr_offs <? length
      then
        if length <? (hdr_offs + LOG_EVENT_HEADER_LEN) mod uint_modulus
        then
          (* partial header only: save what we can get *)
          let carry := length - hdr_offs in
          let header := memcpy header 0 (bytes_at buf hdr_offs carry) in
          let length := hdr_offs in
          fix_headers fuel group buf length hdr_offs carry header
        else if Z.of_nat (List.length buf) <? hdr_offs + LOG_EVENT_HEADER_LEN
        then None
        else
          (* a full event-header, and it came in one piece *)
          let log_pos := hdr_offs + LOG_POS_OFFSET in
          let val := (uint4korr (bytes_at buf log_pos 4) + group) mod uint_modulus in
          let buf := memcpy buf log_pos (int4store val) in
          let log_pos := hdr_offs + EVENT_LEN_OFFSET in
          let hdr_offs :=
            (hdr_offs + uint4korr (bytes_at buf log_pos 4)) mod uint_modulus in
          fix_headers fuel group buf length hdr_offs carry header
      else Some (buf, length, hdr_offs, carry, header)
  end.

(** The second part of an iteration of the [do] loop: the headers in
    the buffer are fixed and [length] bytes of it are written.  [None]:
    the model is left (see [fix_headers]). *)
Definition write_segment (group : Z) (f : IO_CACHE) (buf : list byte)
  (length hdr_offs carry : Z) (header : list byte)
  : option (status * locals) :=
  (* if (likely(length > 0)) *)
  let scanned :=
    if 0 <? length
    then
      match fix_headers (S (S (List.length buf))) group buf length
                        hdr_offs carry header with
      | None => None
      | Some (buf, length, hdr_offs, carry, header) =>
          (* hdr_offs -= length; *)
          Some (buf, length, (hdr_offs - length) mod uint_modulus,
                carry, header)
      end
    else Some (buf, length, hdr_offs, carry, header) in
  match scanned with
  | None => None
  | Some (buf, length, hdr_offs, carry, header) =>
      (* Write data to the binary log file *)
      match my_b_write f (bytes_at buf 0 length) with
      | None =>
          Some (ER_ERROR_ON_WRITE,
                {| hdr_offs := hdr_offs; carry := carry; header := header;
                   log_file := f |})
      | Some f =>
          Some (OK, {| hdr_offs := hdr_offs; carry := carry;
                       header := header; log_file := f |})
      end
  end.

(** One iteration of the [do] loop, on the read buffer [buf] of
    [my_b_bytes_in_cache] or [my_b_fill] bytes.  [None]: the model is
    left (see [fix_headers], and the [memcpy] of a split header that would
    read past the buffer). *)
Definition copy_segment (group : Z) (buf : list byte) (st : locals)
  : option (status * locals) :=
  let length := Z.of_nat (List.length buf) mod uint_modulus in
  (* if (unlikely(carry > 0)) *)
  let after_carry :=
    if 0 <? carry st
    then
      if Z.of_nat (List.length buf) <? LOG_EVENT_HEADER_LEN - carry st
      then None
      else
        (* assemble both halves *)
        let header := memcpy (header st) (carry st)
                        (bytes_at buf 0 (LOG_EVENT_HEADER_LEN - carry st)) in
        (* fix end_log_pos *)
        let val := (uint4korr (bytes_at header LOG_POS_OFFSET 4) + group)
                   mod uint_modulus in
        let header := memcpy header LOG_POS_OFFSET (int4store val) in
        (* write the first half of the split header *)
        let written := my_b_write (log_file st) (bytes_at header 0 (carry st)) in
        (* copy fixed second half of header to cache *)
        let buf := memcpy buf 0
                     (bytes_at header (carry st)
                               (LOG_EVENT_HEADER_LEN - carry st)) in
        (* next event header at ... *)
        let hdr_offs := (uint4korr (bytes_at header EVENT_LEN_OFFSET 4)
                         - carry st) mod uint_modulus in
        Some (written, buf, hdr_offs, 0, header)
    else Some (Some (log_file st), buf, hdr_offs st, carry st, header st) in
  match after_carry with
  | None => None
  | Some (None, _, _, _, header) =>
      (* return ER_ERROR_ON_WRITE; *)
      Some (ER_ERROR_ON_WRITE,
            {| hdr_offs := hdr_offs st; carry := carry st; header := header;
               log_file := log_file st |})
  | Some (Some f, buf, hdr_offs, carry, header) =>
      write_segment group f buf length hdr_offs carry header
  end.

(** [do { ... } while ((length= my_b_fill(cache)));]: [buf] is the
    buffer in hand, [fills] what the next calls of [my_b_fill] deliver;
    the loop ends when there is nothing more, or [my_b_fill] brings no
    byte. *)
Fixpoint copy_loop (group : Z) (buf : list byte) (fills : list (list byte))
  (st : locals) : option (status * locals) :=
  match copy_segment group buf st with
  | None => None
  | Some (ER_ERROR_ON_WRITE, st) => Some (ER_ERROR_ON_WRITE, st)
  | Some (OK, st) =>
      match fills with
      | [] => Some (OK, st)
      | next :: fills =>
          match next with
          | [] => Some (OK, st)
          | _ => copy_loop group next fills st
          end
      end
  end.

(** [int MYSQL_BIN_LOG::write_cache(IO_CACHE *cache, bool lock_log)].
    The cache is given by what reading it delivers: [in_cache], the bytes
    in its buffer after [reinit_io_cache(cache, READ_CACHE, 0, 0, 0)], and
    [fills] for the calls of [my_b_fill]; [reinit_fails] and [cache_error]
    are the failures of [reinit_io_cache] and of the reads
    ([cache->error]). *)
Definition write_cache (reinit_fails cache_error : bool)
  (in_cache : list byte) (fills : list (list byte)) (log : IO_CACHE)
  : option (status * IO_CACHE) :=
  if reinit_fails then Some (ER_ERROR_ON_WRITE, log)
  else
    (* group= (uint)my_b_tell(&log_file); hdr_offs= carry= 0; *)
    let group := my_b_tell log mod uint_modulus in
    let st := {| hdr_offs := 0; carry := 0;
                 header := repeat 0 (Z.to_nat LOG_EVENT_HEADER_LEN);
                 log_file := log |} in
    match copy_loop group in_cache fills st with
    | None => None
    | Some (ER_ERROR_ON_WRITE, st) => Some (ER_ERROR_ON_WRITE, log_file st)
    | Some (OK, st) =>
        (* return cache->error ? ER_ERROR_ON_WRITE : 0; *)
        Some (if cache_error then ER_ERROR_ON_WRITE else OK, log_file st)
    end.

(** ** Every read of the cache

    [write_cache] above is the function on the reads [my_b_fill] is
    meant to deliver: it gives [None] where the source would look at
    [cache->read_pos] past the bytes delivered, and it bounds the header
    loop by the size of the buffer.  The same function follows without
    the two limits.  A segment is then the bytes delivered together with
    what the read buffer holds behind them (left there by earlier reads;
    the buffer itself belongs to mf_iocache.c, which is absent), and the
    header loop runs for as long as [fuel] lasts.  [None] is left for a
    read or a write outside the read buffer, and for a header loop that
    outlasts [fuel]. *)

(** The second part of an iteration of the [do] loop; [buf] is the read
    buffer, of which [length] bytes were delivered. *)
Definition write_segment_in (fuel : nat) (group : Z) (f : IO_CACHE)
  (buf : list byte) (length hdr_offs carry : Z) (header : list byte)
  : option (status * locals) :=
  (* if (likely(length > 0)) *)
  let scanned :=
    if 0 <? length
    then
      match fix_headers fuel group buf length hdr_offs carry header with
      | None => None
      | Some (buf, length, hdr_offs, carry, header) =>
          (* hdr_offs -= length; *)
          Some (buf, length, (hdr_offs - length) mod uint_modulus,
                carry, header)
      end
    else Some (buf, length, hdr_offs, carry, header) in
  match scanned with
  | None => None
  | Some (buf, length, hdr_offs, carry, header) =>
      (* Write data to the binary log file *)
      match my_b_write f (bytes_at buf 0 length) with
      | None =>
          Some (ER_ERROR_ON_WRITE,
                {| hdr_offs := hdr_offs; carry := carry; header := header;
                   log_file := f |})
      | Some f =>
          Some (OK, {| hdr_offs := hdr_offs; carry := carry;
                       header := header; log_file := f |})
      end
  end.

(** One iteration of the [do] loop on a segment: [fst segment] are the
    bytes delivered, [snd segment] the bytes behind them in the read
    buffer. *)
Definition copy_segment_in (fuel : nat) (group : Z)
  (segment : list byte * list byte) (st : locals)
  : option (status * locals) :=
  let length := Z.of_nat (List.length (fst segment)) mod uint_modulus in
  let buf := fst segment ++ snd segment in
  (* if (unlikely(carry > 0)) *)
  let after_carry :=
    if 0 <? carry st
    then
      if Z.of_nat (List.length buf) <? LOG_EVENT_HEADER_LEN - carry st
      then None
      else
        (* assemble both halves *)
        let header := memcpy (header st) (carry st)
                        (bytes_at buf 0 (LOG_EVENT_HEADER_LEN - carry st)) in
        (* fix end_log_pos *)
        let val := (uint4korr (bytes_at header LOG_POS_OFFSET 4) + group)
                   mod uint_modulus in
        let header := memcpy header LOG_POS_OFFSET (int4store val) in
        (* write the first half of the split header *)
        let written := my_b_write (log_file st) (bytes_at header 0 (carry st)) in
        (* copy fixed second half of header to cache *)
        let buf := memcpy buf 0
                     (bytes_at header (carry st)
                               (LOG_EVENT_HEADER_LEN - carry st)) in
        (* next event header at ... *)
        let hdr_offs := (uint4korr (bytes_at header EVENT_LEN_OFFSET 4)
                         - carry st) mod uint_modulus in
        Some (written, buf, hdr_offs, 0, header)
    else Some (Some (log_file st), buf, hdr_offs st, carry st, header st) in
  match after_carry with
  | None => None
  | Some (None, _, _, _, header) =>
      (* return ER_ERROR_ON_WRITE; *)
      Some (ER_ERROR_ON_WRITE,
            {| hdr_offs := hdr_offs st; carry := carry st; header := header;
               log_file := log_file st |})
  | Some (Some f, buf, hdr_offs, carry, header) =>
      write_segment_in fuel group f buf length hdr_offs carry header
  end.

(** [do { ... } while ((length= my_b_fill(cache)));] *)
Fixpoint copy_loop_in (fuel : nat) (group : Z)
  (segment : list byte * list byte) (fills : list (list byte * list byte))
  (st : locals) : option (status * locals) :=
  match copy_segment_in fuel group segment st with
  | None => None
  | Some (ER_ERROR_ON_WRITE, st) => Some (ER_ERROR_ON_WRITE, st)
  | Some (OK, st) =>
      match fills with
      | [] => Some (OK, st)
      | next :: fills =>
          match fst next with
          | [] => Some (OK, st)
          | _ => copy_loop_in fuel group next fills st
          end
      end
  end.

(** [int MYSQL_BIN_LOG::write_cache(IO_CACHE *cache, bool lock_log)] on
    any read of the cache. *)
Definition write_cache_in (fuel : nat) (reinit_fails cache_error : bool)
  (in_cache : list byte * list byte) (fills : list (list byte * list byte))
  (log : IO_CACHE) : option (status * IO_CACHE) :=
  if reinit_fails then Some (ER_ERROR_ON_WRITE, log)
  else
    (* group= (uint)my_b_tell(&log_file); hdr_offs= carry= 0; *)
    let group := my_b_tell log mod uint_modulus in
    let st := {| hdr_offs := 0; carry := 0;
                 header := repeat 0 (Z.to_nat LOG_EVENT_HEADER_LEN);
                 log_file := log |} in
    match copy_loop_in fuel group in_cache fills st with
    | None => None
    | Some (ER_ERROR_ON_WRITE, st) => Some (ER_ERROR_ON_WRITE, log_file st)
    | Some (OK, st) =>
        (* return cache->error ? ER_ERROR_ON_WRITE : 0; *)
        Some (if cache_error then ER_ERROR_ON_WRITE else OK, log_file st)
    end.

(** A read with nothing behind the bytes delivered. *)
Definition delivered_only (buf : list byte) : list byte * list byte :=
  (buf, []).

(** ** What the copy is meant to produce *)

(** An event of the cache: at least a header, and the length field of the
    header is the length of the event. *)
Definition well_formed (e : list byte) : Prop :=
  LOG_EVENT_HEADER_LEN <= Z.of_nat (length e)
  /\ uint4korr (bytes_at e EVENT_LEN_OFFSET 4) = Z.of_nat (length e).

(** The event with [group] added to its [end_log_pos] field. *)
Definition relocate (group : Z) (e : list byte) : list byte :=
  firstn (Z.to_nat LOG_POS_OFFSET) e
  ++ int4store ((uint4korr (bytes_at e LOG_POS_OFFSET 4) + group) mod uint_modulus)
  ++ skipn (Z.to_nat LOG_POS_OFFSET + 4) e.

(** Every buffer that [my_b_fill] delivers before the last one holds at
    least [LOG_EVENT_HEADER_LEN - 1] bytes, and none is empty. *)
Fixpoint fills_ok (fills : list (list byte)) : Prop :=
  match fills with
  | [] => True
  | [last] => last <> []
  | f :: fills => LOG_EVENT_HEADER_LEN - 1 <= Z.of_nat (length f) /\ fills_ok fills
  end.

(** An event that the [uint] offsets of [write_cache] can address. *)
Definition event (e : list byte) : Prop :=
  well_formed e /\ Z.of_nat (length e) < 2 ^ 31.

(** Where the copy stands between two iterations of the [do] loop, with
    [stream] the bytes the cache has not delivered yet and [target] the
    log file wanted at the end.  Either no header is split: the next
    [hdr_offs] bytes belong to an event whose header is done, and whole
    events follow.  Or the first [carry] bytes of an event [e] are saved in
    [header] and nothing of [e] is written yet. *)
Definition between_segments (group : Z) (target stream : list byte)
  (st : locals) : Prop :=
  length (header st) = Z.to_nat LOG_EVENT_HEADER_LEN
  /\ Z.of_nat (length target) <= end_of_file (log_file st)
  /\ ((carry st = 0
       /\ 0 <= hdr_offs st < 2 ^ 31
       /\ exists tail evs,
           stream = tail ++ concat evs
           /\ Z.of_nat (length tail) = hdr_offs st
           /\ Forall event evs
           /\ target = contents (log_file st) ++ tail
                       ++ concat (map (relocate group) evs))
      \/ (0 < carry st < LOG_EVENT_HEADER_LEN
          /\ exists e evs,
              event e /\ Forall event evs
              /\ firstn (Z.to_nat (carry st)) (header st)
                 = firstn (Z.to_nat (carry st)) e
              /\ stream = skipn (Z.to_nat (carry st)) e ++ concat evs
              /\ target = contents (log_file st) ++ relocate group e
                          ++ concat (map (relocate group) evs))).

(** Every buffer is shorter than 2^31 bytes. *)
Definition short (buf : list byte) : Prop := Z.of_nat (length buf) < 2 ^ 31.

(** [f'] is [f] with bytes added at its end, within the same limit. *)
Definition appended (f f' : IO_CACHE) : Prop :=
  end_of_file f' = end_of_file f
  /\ (exists extra, contents f' = contents f ++ extra)
  /\ (my_b_tell f <= end_of_file f -> my_b_tell f' <= end_of_file f).

End WriteCache.

(* ================================================================== *)
(** * Concrete sessions and logs *)

Module Examples.
Import Cache Binlog.

(** The type codes of log_event.h for the events used here. *)
Definition type_code (e : Log_event) : Z :=
  match e with
  | Query_log_event _ _ _ _ => 2
  | Rotate_log_event _ => 4
  | Run_environment_event _ => 5
  | Xid_log_event _ => 16
  | Rows_event _ => 23
  | Incident_log_event _ => 26
  end.

Definition bytes_of_string (s : String.string) : list byte :=
  map (fun a => Z.of_N (Ascii.N_of_ascii a)) (String.list_ascii_of_string s).

Definition payload (e : Log_event) : list byte :=
  match e with
  | Query_log_event query _ _ _ => bytes_of_string query
  | Rotate_log_event name => bytes_of_string name
  | Run_environment_event image => image
  | Xid_log_event xid =>
      WriteCache.int4store xid ++ WriteCache.int4store (Z.shiftr xid 32)
  | Rows_event r => rows_image r
  | Incident_log_event message => bytes_of_string message
  end.

(** A serialiser with the 19-byte header: timestamp, type, server id,
    total length, [end_log_pos], flags; then the payload. *)
Definition image (e : Log_event) (pos : Z) : list byte :=
  let len := 19 + Z.of_nat (length (payload e)) in
  [0; 0; 0; 0] ++ [type_code e] ++ [1; 0; 0; 0]
  ++ WriteCache.int4store len ++ WriteCache.int4store (pos + len)
  ++ [0; 0] ++ payload e.

(** The copy of a cache that sits in memory in one piece. *)
Definition copy (cache log : IO_CACHE) : Z * IO_CACHE :=
  match WriteCache.write_cache false false (contents cache) [] log with
  | Some (WriteCache.OK, f) => (0, f)
  | Some (WriteCache.ER_ERROR_ON_WRITE, f) => (1, f)
  | None => (1, log)
  end.

Definition cfg : sys_vars :=
  {| max_binlog_cache_size := 4096;
     max_size := 1000;
     no_auto_events := false;
     log_type_is_LOG_BIN := true;
     io_cache_type_is_WRITE_CACHE := true;
     expire_logs_days := 0;
     opt_using_transactions := true;
     force_binlog_order := true;
     sync_binlog_period := 1;
     group_commit_min_size := 2;
     group_commit_hang_disable_usecs := 10000000;
     NUM_BINLOG_COMMIT_COND := 4;
     new_log_name := "binlog.000002";
     new_log_header := [254; 98; 105; 110] |}.

(** Nothing fails, and the engine asks for ordered commits. *)
Definition env : Env :=
  {| flush_io_cache_fails := false;
     my_sync_fails := false;
     other_session_synced := false;
     trylock_LOCK_log_fails := false;
     generate_new_name_error := 0;
     open_index_file_error := 0;
     open_error := 0;
     cache_read_error := false;
     alloc_fails := false;
     is_ordered_commit := true;
     my_time := 1300000000;
     expired_logs := fun _ => 0%nat |}.

(** An open log holding its header, no transaction prepared. *)
Definition open_log : MYSQL_BIN_LOG :=
  {| log_file := {| contents := [254; 98; 105; 110];
                    end_of_file := ulonglong_modulus - 1 |};
     log_state := LOG_OPENED;
     write_error := false;
     prepared_xids := 0;
     stop_new_xids := false;
     closed_logs := [];
     purged_logs := 0;
     group_commit_allowed := true;
     current_ticket := 1;
     next_ticket := 1;
     sync_binlog_counter := 0;
     waiting := 0;
     binlog_fsync_count := 0;
     binlog_fsync_notry := 0;
     binlog_fsync_wait := 0;
     binlog_fsync_nowait := 0;
     binlog_fsync_groupsync := 0;
     binlog_fsync_grouped := 0;
     binlog_fsync_reallylongwait := 0;
     broadcasts := [];
     error_log := [] |}.

(** The same log after a failed rotation closed it. *)
Definition closed_log : MYSQL_BIN_LOG := upd_log_state LOG_CLOSED open_log.

(** The log when the last ticket is about to be handed out. *)
Definition last_ticket_log : MYSQL_BIN_LOG :=
  upd_current_ticket (ulonglong_modulus - 1)
    (upd_next_ticket (ulonglong_modulus - 1) open_log).

(** A statement inside a transaction ([OPTION_BEGIN]) that updated a
    non-transactional table. *)
Definition in_transaction_ctx (non_trans : bool) : stmt_context :=
  {| OPTION_BIN_LOG := true;
     OPTION_KEEP_LOG := false;
     OPTION_BEGIN := true;
     OPTION_NOT_AUTOCOMMIT := false;
     all_modified_non_trans_table := false;
     stmt_modified_non_trans_table := non_trans;
     stmt_ha_list := [];
     killed := NOT_KILLED;
     killed_errno := None;
     lex_sql_command := SQLCOM_ROLLBACK_TO_SAVEPOINT;
     lex_ident := "s1";
     lex_requires_prelocking := false;
     prelocked_mode := false;
     db_ok := true;
     binlog_direct_non_trans_update := false;
     current_stmt_binlog_row_based := true;
     run_environment := [];
     my_errno_is_EFBIG := false |}.

(** The cache after one INSERT statement of the transaction. *)
Definition one_insert : binlog_trx_data :=
  {| trans_log :=
       {| contents := image (Query_log_event "INSERT INTO t VALUES (1)"
                                             true false None) 0;
          end_of_file := 4096 |};
     at_least_one_stmt_committed := true;
     incident := false;
     m_pending := None;
     before_stmt_pos := MY_OFF_T_UNDEF |}.

Definition session (non_trans is_error : bool) (d : binlog_trx_data) : THD :=
  {| ctx := in_transaction_ctx non_trans;
     do_union := false;
     unioned_events := false;
     unioned_events_trans := false;
     da_is_error := is_error;
     da_sql_errno := ER_ERROR_ON_WRITE;
     ha_data := Some d;
     ticket := 0 |}.

(** A session in a transaction that has updated a non-transactional
    table, with the options, the statement and the filter's verdict
    given. *)
Definition savepoint_session (bin_log : bool) (command : enum_sql_command)
  (filter_ok : bool) : THD :=
  {| ctx := {| OPTION_BIN_LOG := bin_log;
               OPTION_KEEP_LOG := false;
               OPTION_BEGIN := true;
               OPTION_NOT_AUTOCOMMIT := false;
               all_modified_non_trans_table := true;
               stmt_modified_non_trans_table := false;
               stmt_ha_list := [];
               killed := NOT_KILLED;
               killed_errno := None;
               lex_sql_command := command;
               lex_ident := "s1";
               lex_requires_prelocking := false;
               prelocked_mode := false;
               db_ok := filter_ok;
               binlog_direct_non_trans_update := false;
               current_stmt_binlog_row_based := true;
               run_environment := [];
               my_errno_is_EFBIG := false |};
     do_union := false;
     unioned_events := false;
     unioned_events_trans := false;
     da_is_error := false;
     da_sql_errno := ER_ERROR_ON_WRITE;
     ha_data := Some one_insert;
     ticket := 0 |}.

(** Allocations fail; nothing else does. *)
Definition no_memory : Env :=
  {| flush_io_cache_fails := false;
     my_sync_fails := false;
     other_session_synced := false;
     trylock_LOCK_log_fails := false;
     generate_new_name_error := 0;
     open_index_file_error := 0;
     open_error := 0;
     cache_read_error := false;
     alloc_fails := true;
     is_ordered_commit := true;
     my_time := 1300000000;
     expired_logs := fun _ => 0%nat |}.

(** A session whose statement failed with a write error after it had
    updated a non-transactional table; the statement began at offset 0 of
    a cache that holds 43 bytes. *)
Definition failed_statement : THD :=
  session true true (upd_before_stmt_pos 0 one_insert).


(** The session commits: [log_xid] for xid 42 on the open log. *)
Definition committed : result (Z * MYSQL_BIN_LOG * THD) :=
  log_xid cfg env image copy open_log (session false false one_insert)
          42 false true 1.

Definition log_after_commit : MYSQL_BIN_LOG :=
  match committed with Ret (_, l, _) => l | _ => open_log end.

Definition session_after_commit : THD :=
  match committed with
  | Ret (_, _, thd) => thd
  | _ => session false false one_insert
  end.

End Examples.

(** A read during recovery that delivered a valid event past which the
    cache reports an error, met outside a transaction with [valid_pos] at
    offset 100; and the same read without the error. *)
Module RecoveryExamples.
Import Recovery.

Definition read_with_error : read :=
  {| ev := Other_log_event; is_valid := true; tell_after := 200;
     log_error := -1; insert_fails := false |}.

Definition clean_read : read :=
  {| ev := Other_log_event; is_valid := true; tell_after := 200;
     log_error := 0; insert_fails := false |}.

Definition outside_transaction : scan :=
  {| in_transaction := false; xids := []; valid_pos := 100 |}.

End RecoveryExamples.

(* ================================================================== *)
(** * A transaction cache read in two segments *)

Module WriteCacheExamples.
Import Cache WriteCache.

(** A 19-byte header with type code [t], length [len] and end position
    [pos], followed by [body]. *)
Definition an_event (t len pos : Z) (body : list byte) : list byte :=
  [0; 0; 0; 0; t; 1; 0; 0; 0] ++ int4store len ++ int4store pos ++ [0; 0]
  ++ body.

(** A query event of 21 bytes and an XID event of 20 bytes, with end
    positions counted from the start of the cache. *)
Definition first_event : list byte := an_event 2 21 21 [66; 69].
Definition second_event : list byte := an_event 16 20 41 [42].
Definition events : list (list byte) := [first_event; second_event].

(** The cache delivers 25 bytes, then the other 16: the header of the
    second event is cut after its fourth byte. *)
Definition in_cache : list byte := firstn 25 (concat events).
Definition fills : list (list byte) := [skipn 25 (concat events)].

(** A log file that holds 300 bytes so far. *)
Definition log : IO_CACHE :=
  {| contents := repeat 7 300; end_of_file := 1000000 |}.

(** The same cache read badly: after the 25 bytes, [my_b_fill] brings
    3 bytes, fewer than the 15 the split header still needs, with the
    old content of the read buffer behind them; then the last 13. *)
Definition short_fills : list (list byte * list byte) :=
  [(firstn 3 (skipn 25 (concat events)), skipn 3 (firstn 25 (concat events)));
   (skipn 28 (concat events), [])].

End WriteCacheExamples.

(* ================================================================== *)
(** * The HyperLogLog sketch with time stamps (mysys/hyperloglog.c) *)

Module HyperLogLog.

(** [const uint8_t bit_parts[] = {16,8,4,2,1};] *)
Definition bit_parts : list Z := [16; 8; 4; 2; 1].

(** [const uint8_t default_data_size_log2 = 10;] *)
Definition default_data_size_log2 : Z := 10.

(** One round of the [for] loop of [find_first_set_bit_after_index] on
    [(num, pos)]; [pos] is a [uint8_t]. *)
Definition skip_zero_part (st : Z * Z) (part : Z) : Z * Z :=
  let '(num, pos) := st in
  if Z.land num (Z.shiftl 1 part - 1) =? 0
  then (Z.shiftr num part, (pos + part) mod 256)
  else (num, pos).

(** [uint8_t find_first_set_bit_after_index(uint32_t hash,
    uint8_t start_bit)] *)
Definition find_first_set_bit_after_index (hash start_bit : Z) : Z :=
  let num := Z.shiftr hash start_bit in
  if num =? 0 then (32 - start_bit) mod 256
  else snd (fold_left skip_zero_part bit_parts (num, 0)).

(** [struct hyperloglog]; [data] is the array of [data_size *
    max_bit_position] time stamps. *)
Record hyperloglog := {
  data_size_log2 : Z;         (* uint8_t *)
  data_size : Z;              (* uint32_t *)
  max_bit_position : Z;       (* uint8_t *)
  data : list Z               (* time_t* *)
}.

(** The number of elements in [data_size * max_bit_position *
    sizeof(time_t)] bytes: the product of the [uint32_t] and the [uint8_t]
    is taken in 32 bits before it is widened for [sizeof]. *)
Definition elements (data_size max_bit_position : Z) : nat :=
  Z.to_nat ((data_size * max_bit_position) mod uint_modulus).

(** [memset(hll->data, 0, data_size * max_bit_position * sizeof(time_t))]
    on the array [my_malloc] gave for that size. *)
Definition cleared (data_size max_bit_position : Z) : list Z :=
  repeat 0 (elements data_size max_bit_position).

(** [void hyperloglog_init(struct hyperloglog* hll)], when [my_malloc]
    gives the array. *)
Definition hyperloglog_init : hyperloglog :=
  let log2 := default_data_size_log2 in
  let size := Z.shiftl 1 log2 in
  let max_bit := (32 - log2 + 1) mod 256 in
  {| data_size_log2 := log2;
     data_size := size;
     max_bit_position := max_bit;
     data := cleared size max_bit |}.

(** [void hyperloglog_reset(struct hyperloglog* hll)]; [None] when the
    [memset] would run past the array. *)
Definition hyperloglog_reset (hll : hyperloglog) : option hyperloglog :=
  let n := elements (data_size hll) (max_bit_position hll) in
  if (n <=? length (data hll))%nat
  then Some {| data_size_log2 := data_size_log2 hll;
               data_size := data_size hll;
               max_bit_position := max_bit_position hll;
               data := repeat 0 n ++ skipn n (data hll) |}
  else None.

(** [a[i] = x] on an array of [length a] elements: [None] when [i] is
    outside of it. *)
Definition store {A : Type} (a : list A) (i : Z) (x : A) : option (list A) :=
  if (0 <=? i) && (i <? Z.of_nat (length a))
  then Some (firstn (Z.to_nat i) a ++ x :: skipn (S (Z.to_nat i)) a)
  else None.

(** [void hyperloglog_insert(struct hyperloglog* hll, uint32_t hash,
    time_t current_time)]; [None] is a write outside the array. *)
Definition hyperloglog_insert (hll : hyperloglog) (hash current_time : Z)
  : option hyperloglog :=
  let index := Z.land hash ((data_size hll - 1) mod uint_modulus) in
  let first_set_bit :=
    find_first_set_bit_after_index hash (data_size_log2 hll) in
  match store (data hll)
              ((index * max_bit_position hll + first_set_bit) mod uint_modulus)
              current_time with
  | Some d => Some {| data_size_log2 := data_size_log2 hll;
                      data_size := data_size hll;
                      max_bit_position := max_bit_position hll;
                      data := d |}
  | None => None
  end.

(** The inner loop of [hyperloglog_query] for register [i]:
    [for (j = max_bit_position; j >= 1; j--)], with [max_valid_index]
    starting at 32; [None] is a read outside the array. *)
Fixpoint scan_register (d : list Z) (i max_bit_position : Z) (j : nat)
  (since_time : Z) : option Z :=
  match j with
  | O => Some 32
  | S j' =>
      match nth_error d (Z.to_nat ((i * max_bit_position + Z.of_nat j - 1)
                                   mod uint_modulus)) with
      | None => None
      | Some seen =>
          if since_time <? seen then Some (Z.of_nat j)
          else scan_register d i max_bit_position j' since_time
      end
  end.

Definition max_valid_index (hll : hyperloglog) (i since_time : Z) : option Z :=
  scan_register (data hll) i (max_bit_position hll)
                (Z.to_nat (max_bit_position hll)) since_time.

(** The outer loop of [hyperloglog_query] as far as it counts:
    [count_zero_elements] after the registers [0 .. n-1]. *)
Fixpoint count_zero_registers (hll : hyperloglog) (n : nat) (since_time : Z)
  : option Z :=
  match n with
  | O => Some 0
  | S n' =>
      match count_zero_registers hll n' since_time,
            max_valid_index hll (Z.of_nat n') since_time with
      | Some count, Some m =>
          Some (if m =? 32 then (count + 1) mod uint_modulus else count)
      | _, _ => None
      end
  end.

Definition count_zero_elements (hll : hyperloglog) (since_time : Z) : option Z :=
  count_zero_registers hll (Z.to_nat (data_size hll)) since_time.

(** A sketch as [hyperloglog_init] lays it out, for any number of index
    bits. *)
Definition laid_out (hll : hyperloglog) : Prop :=
  0 <= data_size_log2 hll < 32
  /\ data_size hll = 2 ^ data_size_log2 hll
  /\ max_bit_position hll = 32 - data_size_log2 hll + 1
  /\ Z.of_nat (length (data hll)) = data_size hll * max_bit_position hll.

(** Where [hyperloglog_insert] writes: register [hash mod data_size],
    rank [find_first_set_bit_after_index]. *)
Definition cell (hll : hyperloglog) (hash : Z) : Z :=
  (hash mod data_size hll) * max_bit_position hll
  + find_first_set_bit_after_index hash (data_size_log2 hll).

(** A sketch of four registers (two index bits, 31 ranks each) that is
    empty, for examples. *)
Definition four_registers : hyperloglog :=
  {| data_size_log2 := 2; data_size := 4; max_bit_position := 31;
     data := repeat 0 124 |}.

End HyperLogLog.

(* ================================================================== *)
(** * Numbered log file names: [test_if_number], [find_uniq_filename] *)

Module LogName.

(** A C string is the list of its characters before the terminating 0;
    [deref] is what [*str] reads. *)
Definition deref (str : list Z) : Z :=
  match str with [] => 0 | c :: _ => c end.

Section Parse.

(** [my_isdigit(files_charset_info, c)], a look-up in the character set's
    type table, and the globals [wild_many] and [wild_one] of mysys. *)
Variable my_isdigit : Z -> bool.
Variable wild_many wild_one : Z.

(** [atol] of the C library. *)
Variable atol : list Z -> Z.

(** The condition of both digit loops. *)
Definition numeric (allow_wildcards : bool) (c : Z) : bool :=
  my_isdigit c || (allow_wildcards && ((c =? wild_many) || (c =? wild_one))).

(** [while ( *str++ == ' ') ;] followed by [*--str]: [str] is left at the
    first character that is not a space. *)
Fixpoint skip_spaces (str : list Z) : list Z :=
  match str with
  | c :: rest => if c =? 32 then skip_spaces rest else str
  | [] => []
  end.

(** [while (numeric( *str)) { flag=1; str++; }]; [None] when the loop
    runs past the terminating 0. *)
Fixpoint skip_numeric (allow_wildcards : bool) (str : list Z) (flag : bool)
  : option (list Z * bool) :=
  match str with
  | c :: rest => if numeric allow_wildcards c
                 then skip_numeric allow_wildcards rest true
                 else Some (str, flag)
  | [] => if numeric allow_wildcards 0 then None else Some ([], flag)
  end.

(** [static bool test_if_number(const char *str, long *res,
    bool allow_wildcards)], called with a non-null [res]: [Some (Some n)]
    is the return value 1 with [n] stored in [*res], [Some None] the
    return value 0. *)
Definition test_if_number (allow_wildcards : bool) (str : list Z)
  : option (option Z) :=
  let start := str in
  let str := skip_spaces str in
  (* if ( *--str == '-' || *str == '+') str++; *)
  let str := if (deref str =? 45) || (deref str =? 43) then tl str else str in
  match skip_numeric allow_wildcards str false with
  | None => None
  | Some (str, flag) =>
      let after_dot :=
        if deref str =? 46 then skip_numeric allow_wildcards (tl str) flag
        else Some (str, flag) in
      match after_dot with
      | None => None
      | Some (str, flag) =>
          if negb (deref str =? 0) || negb flag then Some None
          else Some (Some (atol start))
      end
  end.

(** What the function accepts: spaces, a sign, digits, and a dot with
    digits, with a digit somewhere. *)
Definition number_syntax (allow_wildcards : bool) (str : list Z) : Prop :=
  exists spaces sign int frac,
    str = spaces ++ sign ++ int ++ frac
    /\ Forall (fun c => c = 32) spaces
    /\ (sign = [] \/ sign = [45] \/ sign = [43])
    /\ Forall (fun c => numeric allow_wildcards c = true) int
    /\ (frac = []
        \/ exists f, frac = 46 :: f
                     /\ Forall (fun c => numeric allow_wildcards c = true) f)
    /\ (int <> [] \/ exists c f, frac = 46 :: c :: f).

(** [sprintf(end, "%06ld", n)] of the C library: its return value and
    the characters it writes. *)
Variable sprintf_06ld : Z -> Z * list Z.

(** [memcmp(name, start, length) == 0] for a [start] of [length]
    characters, none of them 0: [name] begins with [start]. *)
Fixpoint starts_with (start name : list Z) : bool :=
  match start, name with
  | [], _ => true
  | c :: start, d :: name => (c =? d) && starts_with start name
  | _ :: _, [] => false
  end.

(** The conversion of an [unsigned long] to the [long] that [%ld]
    prints. *)
Definition to_long (n : Z) : Z :=
  (n + 2 ^ 63) mod ulong_modulus - 2 ^ 63.

(** The loop of [find_uniq_filename] over the directory entries, with
    [start] already extended by the dot; [None] as for
    [test_if_number]. *)
Fixpoint largest_number (start : list Z) (entries : list (list Z))
  (max_found : Z) : option Z :=
  match entries with
  | [] => Some max_found
  | name :: entries =>
      if starts_with start name
      then match test_if_number false (skipn (length start) name) with
           | None => None
           | Some (Some number) =>
               (* set_if_bigger(max_found,(ulong) number); *)
               largest_number start entries
                 (Z.max max_found (number mod ulong_modulus))
           | Some None => largest_number start entries max_found
           end
      else largest_number start entries max_found
  end.

(** [static int find_uniq_filename(char *name)]: [start] is the file
    part of [name], [dir] what [my_dir] finds in its directory ([None]
    when it fails); the result is the return value and the file part of
    [name] afterwards. *)
Definition find_uniq_filename (start : list Z) (dir : option (list (list Z)))
  : option (Z * list Z) :=
  match dir with
  | None => Some (1, start ++ [46; 49])
  | Some entries =>
      match largest_number (start ++ [46]) entries 0 with
      | None => None
      | Some max_found =>
          let '(written, text) :=
            sprintf_06ld (to_long ((max_found + 1) mod ulong_modulus)) in
          Some (if written <? 0 then 1 else 0, start ++ [46] ++ text)
      end
  end.

End Parse.

Definition nonempty (s : list Z) : bool :=
  match s with [] => false | _ => true end.

(** The digits of ASCII. *)
Definition ascii_digit (c : Z) : bool := (48 <=? c) && (c <=? 57).

(** A reading of [atol] for the examples: spaces, a sign, and the
    decimal digits up to the first other character. *)
Fixpoint digits_value (acc : Z) (str : list Z) : Z :=
  match str with
  | c :: rest => if ascii_digit c then digits_value (10 * acc + (c - 48)) rest
                 else acc
  | [] => acc
  end.

Definition decimal_atol (str : list Z) : Z :=
  match skip_spaces str with
  | 45 :: rest => - digits_value 0 rest
  | 43 :: rest => digits_value 0 rest
  | rest => digits_value 0 rest
  end.

(** A reading of [sprintf("%06ld")] for the examples: the decimal
    digits, with zeros in front up to six characters. *)
Fixpoint decimal (fuel : nat) (n : Z) (acc : list Z) : list Z :=
  match fuel with
  | O => acc
  | S fuel => if n <? 10 then (48 + n) :: acc
              else decimal fuel (n / 10) ((48 + n mod 10) :: acc)
  end.

Definition print_06ld (n : Z) : Z * list Z :=
  let text :=
    if n <? 0
    then let digits := decimal 20 (- n) [] in
         45 :: repeat 48 (5 - length digits) ++ digits
    else let digits := decimal 20 n [] in
         repeat 48 (6 - length digits) ++ digits in
  (Z.of_nat (length text), text).

(** The directory of the log [bin]: [bin.000012], [bin.index],
    [bin.000003] and [other.000099]. *)
Definition bin : list Z := [98; 105; 110].
Definition directory : list (list Z) :=
  [ bin ++ [46; 48; 48; 48; 48; 49; 50];
    bin ++ [46; 105; 110; 100; 101; 120];
    bin ++ [46; 48; 48; 48; 48; 48; 51];
    [111; 116; 104; 101; 114; 46; 48; 48; 48; 48; 57; 57] ].

(** The extension [000012] of a log file name. *)
Definition extension_000012 : list Z := [48; 48; 48; 48; 49; 50].

End LogName.

(* ================================================================== *)
(** * What the recovery scan collects *)

Module RecoveryScan.
Import Recovery.

(** The xid of an XID event. *)
Definition xid_of (r : read) : list Z :=
  match ev r with
  | Xid_log_event x => [x]
  | _ => []
  end.

(** An event inside a transaction that does not end it. *)
Definition inside_transaction (r : read) : Prop :=
  is_valid r = true
  /\ is_query (ev r) "COMMIT" = false
  /\ xid_of r = [].

(** A log with the events [BEGIN], [COMMIT], [BEGIN] and a row change:
    the second transaction is not finished. *)
Definition a_read (e : Log_event) (pos : Z) : read :=
  {| ev := e; is_valid := true; tell_after := pos; log_error := 0;
     insert_fails := false |}.

Definition finished : list read :=
  [a_read (Query_log_event "BEGIN") 170; a_read (Xid_log_event 42) 200].

Definition start_of_scan : scan :=
  {| in_transaction := false; xids := []; valid_pos := 107 |}.

End RecoveryScan.

(* ================================================================== *)
(** * The commit hook, unioned events, and the files of the log *)

Module BinlogHooks.
Import Cache Binlog.

Section Code.

Variable cfg : sys_vars.
Variable env : Env.
Variable event_image : Log_event -> Z -> list byte.
Variable write_cache : IO_CACHE -> IO_CACHE -> Z * IO_CACHE.

(** [static int binlog_commit(handlerton *hton, THD *thd, bool all,
    bool async)] *)
Definition binlog_commit (l : MYSQL_BIN_LOG) (thd : THD) (all : bool)
  : result (Z * MYSQL_BIN_LOG * THD) :=
  match ha_data thd with
  | None => Fault
  | Some trx_data =>
      if empty trx_data
      then Ret (0, l, upd_ha_data
                        (Some (reset (max_binlog_cache_size cfg) trx_data)) thd)
      else
        do flush <-
           (if ending_trans thd all then Ret true
            else
              do no_stmt_committed <- trans_has_no_stmt_committed thd all;
              Ret (no_stmt_committed
                   && negb (stmt_has_updated_trans_table thd)
                   && stmt_has_updated_non_trans_table thd));
        do (error, l, thd) <-
           (if (flush : bool)
            then
              binlog_end_trans cfg env event_image write_cache l thd
                (Some (Query_log_event "COMMIT" true true None))
                all false false 0
            else Ret (0, l, thd));
        match ha_data thd with
        | None => Fault
        | Some trx_data =>
            (* trx_data->at_least_one_stmt_committed =
                 my_b_tell(&trx_data->trans_log) > 0;
               if (!all) trx_data->before_stmt_pos = MY_OFF_T_UNDEF; *)
            Ret (error, l,
                 upd_ha_data
                   (Some {| trans_log := trans_log trx_data;
                            at_least_one_stmt_committed :=
                              0 <? my_b_tell (trans_log trx_data);
                            incident := incident trx_data;
                            m_pending := m_pending trx_data;
                            before_stmt_pos :=
                              if negb all then MY_OFF_T_UNDEF
                              else before_stmt_pos trx_data |}) thd)
        end
  end.

(** The two hooks that end a transaction or a statement. *)
Inductive hook := Commit | Rollback.

Definition end_hook (h : hook) (l : MYSQL_BIN_LOG) (thd : THD) (all : bool)
  : result (Z * MYSQL_BIN_LOG * THD) :=
  match h with
  | Commit => binlog_commit l thd all
  | Rollback => binlog_rollback cfg env event_image write_cache l thd all
  end.

(** The cache as [reset] leaves it when it empties it. *)
Definition emptied (d : binlog_trx_data) : Prop :=
  contents (trans_log d) = []
  /\ end_of_file (trans_log d) = max_binlog_cache_size cfg
  /\ pending d = None
  /\ has_incident d = false
  /\ before_stmt_pos d = MY_OFF_T_UNDEF.

(** [void MYSQL_BIN_LOG::start_union_events(THD *thd,
    query_id_t query_id_param)]; [first_query_id] is read by
    [is_query_in_union] only and is left out. *)
Definition start_union_events (thd : THD) : THD :=
  upd_unioned_events_trans false (upd_unioned_events false (upd_do_union true thd)).

(** [void MYSQL_BIN_LOG::stop_union_events(THD *thd)] *)
Definition stop_union_events (thd : THD) : THD := upd_do_union false thd.

(** The statements of a stored function writing their events one after the
    other; a failed [write] ends the sequence. *)
Fixpoint write_each (evs : list Log_event) (l : MYSQL_BIN_LOG) (thd : THD)
  : result (bool * MYSQL_BIN_LOG * THD) :=
  match evs with
  | [] => Ret (false, l, thd)
  | e :: evs =>
      do (err, l, thd) <- write cfg env event_image l thd e;
      if (err : bool) then Ret (true, l, thd) else write_each evs l thd
  end.

End Code.

(** ** The files of the log between two moments *)

(** Nothing happened to the files. *)
Definition same_files (l l' : MYSQL_BIN_LOG) : Prop :=
  log_file l' = log_file l
  /\ log_state l' = log_state l
  /\ closed_logs l' = closed_logs l
  /\ purged_logs l' = purged_logs l.

(** The current file got bytes added at its end. *)
Definition added (l l' : MYSQL_BIN_LOG) : Prop :=
  log_state l' = log_state l
  /\ closed_logs l' = closed_logs l
  /\ exists extra, contents (log_file l') = contents (log_file l) ++ extra.

(** The same, and no closed file was deleted. *)
Definition extended (l l' : MYSQL_BIN_LOG) : Prop :=
  purged_logs l' = purged_logs l /\ added l l'.

(** The current file of [l] was finished, perhaps after more bytes were
    added to it, and put behind the closed files of [l]. *)
Definition rotated (cfg : sys_vars) (l l' : MYSQL_BIN_LOG) : Prop :=
  log_state l' <> LOG_TO_BE_OPENED
  /\ exists extra later,
       closed_logs l'
       = closed_logs l
         ++ closed_file cfg (contents (log_file l) ++ extra) :: later.

(** The closed files of [l] are the first closed files of [l'], as they
    were; the purge has only gone forward, and has deleted no file that
    was not closed. *)
Definition purged_more (l l' : MYSQL_BIN_LOG) : Prop :=
  (exists more, closed_logs l' = closed_logs l ++ more)
  /\ (purged_logs l <= purged_logs l')%nat
  /\ ((purged_logs l <= length (closed_logs l))%nat ->
      (purged_logs l' <= length (closed_logs l'))%nat).

Definition grown (cfg : sys_vars) (l l' : MYSQL_BIN_LOG) : Prop :=
  match log_state l with
  | LOG_OPENED => added l l' \/ rotated cfg l l'
  | LOG_CLOSED =>
      log_file l' = log_file l
      /\ log_state l' = log_state l
      /\ closed_logs l' = closed_logs l
  | LOG_TO_BE_OPENED => True
  end
  /\ purged_more l l'.

Definition rgrown {A : Type} (cfg : sys_vars) (l : MYSQL_BIN_LOG)
  (r : result (A * MYSQL_BIN_LOG * THD)) : Prop :=
  match r with
  | Ret (_, l', _) => grown cfg l l'
  | Wait _ l' => grown cfg l l'
  | Fault => True
  end.

Definition rgrown_log {A : Type} (cfg : sys_vars) (l : MYSQL_BIN_LOG)
  (r : result (A * MYSQL_BIN_LOG)) : Prop :=
  match r with
  | Ret (_, l') => grown cfg l l'
  | Wait _ l' => grown cfg l l'
  | Fault => True
  end.

(** The log has a file, the current one or one it has closed, that
    starts with the given bytes; a closed file is as [close] left it. *)
Definition file_starts_with (cfg : sys_vars) (l : MYSQL_BIN_LOG)
  (bytes : list byte) : Prop :=
  (exists after, contents (log_file l) = bytes ++ after)
  \/ (exists after, In (closed_file cfg (bytes ++ after)) (closed_logs l)).

(** ** Concrete calls *)

(** A session outside a multi-statement transaction, with the cache it
    has or none. *)
Definition autocommit_ctx : stmt_context :=
  {| OPTION_BIN_LOG := true;
     OPTION_KEEP_LOG := false;
     OPTION_BEGIN := false;
     OPTION_NOT_AUTOCOMMIT := false;
     all_modified_non_trans_table := false;
     stmt_modified_non_trans_table := false;
     stmt_ha_list := [];
     killed := NOT_KILLED;
     killed_errno := None;
     lex_sql_command := SQLCOM_OTHER;
     lex_ident := "";
     lex_requires_prelocking := false;
     prelocked_mode := false;
     db_ok := true;
     binlog_direct_non_trans_update := false;
     current_stmt_binlog_row_based := true;
     run_environment := [];
     my_errno_is_EFBIG := false |}.

Definition autocommit_session (d : option binlog_trx_data) (t : Z) : THD :=
  {| ctx := autocommit_ctx;
     do_union := false;
     unioned_events := false;
     unioned_events_trans := false;
     da_is_error := false;
     da_sql_errno := ER_OTHER 0;
     ha_data := d;
     ticket := t |}.

(** An insert, a commit of the session's transaction, a forced rotation,
    and one more commit. *)
Definition calls_with_rotation : list call :=
  [Call_write Examples.env (autocommit_session None 0)
     (Query_log_event "CREATE TABLE t (a INT)" false false None);
   Call_log_xid Examples.env (Examples.session false false Examples.one_insert)
     42 false true 1;
   Call_unlog Examples.env (Examples.session false false Examples.one_insert)
     false;
   Call_rotate_and_purge Examples.env (autocommit_session None 0)
     {| RP_LOCK_LOG_IS_ALREADY_LOCKED := false; RP_FORCE_ROTATE := true |}
     false;
   Call_log_xid Examples.env (Examples.session false false Examples.one_insert)
     43 false true 1].

End BinlogHooks.

(* ================================================================== *)
(** * Looking up the index file: [find_log_pos], [find_next_log] *)

Module IndexFile.

(** [LOG_INFO], as far as the two functions use it. *)
Record LOG_INFO := {
  log_file_name : list byte;
  index_file_offset : Z;
  index_file_start_offset : Z
}.

Fixpoint bytes_eqb (a b : list byte) : bool :=
  match a, b with
  | [], [] => true
  | x :: a, y :: b => (x =? y) && bytes_eqb a b
  | _, _ => false
  end.

Section Index.

(** The return codes of log.h. *)
Variable LOG_INFO_EOF LOG_INFO_IO : Z.

(** [my_b_gets(&index_file, fname, FN_REFLEN)] with the read position at
    the given offset: the bytes put into [fname] before the terminating
    zero, [my_b_tell(&index_file)] after the call, and whether
    [index_file.error] is set then. *)
Variable my_b_gets : Z -> list byte * Z * bool.

(** The test of [find_log_pos] for an entry read into [fname]; the null
    name matches every entry. *)
Definition entry_matches (log_name : option (list byte)) (fname : list byte)
  (length : Z) : bool :=
  match log_name with
  | None => true
  | Some name =>
      (* uint log_name_len= (uint) strlen(log_name) *)
      let log_name_len := Z.of_nat (Datatypes.length name) mod uint_modulus in
      (log_name_len =? (length - 1) mod uint_modulus)
      && (nth (Z.to_nat log_name_len) fname 0 =? 10)
      && bytes_eqb (firstn (Z.to_nat log_name_len) fname)
                   (firstn (Z.to_nat log_name_len) name)
  end.

(** The [for (;;)] loop of [find_log_pos] with the read position at
    [offset]; [None] when the fuel runs out before the loop is left. *)
Fixpoint find_log_pos_loop (fuel : nat) (linfo : LOG_INFO)
  (log_name : option (list byte)) (offset : Z) : option (Z * LOG_INFO) :=
  match fuel with
  | O => None
  | S fuel =>
      let '(fname, tell, error) := my_b_gets offset in
      let length := Z.of_nat (Datatypes.length fname) mod uint_modulus in
      let linfo := {| log_file_name := fname;
                      index_file_offset := index_file_offset linfo;
                      index_file_start_offset := index_file_start_offset linfo |} in
      if length <=? 1
      then Some (if error then LOG_INFO_IO else LOG_INFO_EOF, linfo)
      else if entry_matches log_name fname length
      then
        (* fname[length-1]=0; *)
        Some (0, {| log_file_name := firstn (Z.to_nat (length - 1)) fname;
                    index_file_offset := tell;
                    index_file_start_offset := offset |})
      else find_log_pos_loop fuel linfo log_name tell
  end.

(** [int MYSQL_BIN_LOG::find_log_pos(LOG_INFO *linfo, const char *log_name,
    bool need_lock)]: the index file is read from its start. *)
Definition find_log_pos (fuel : nat) (linfo : LOG_INFO)
  (log_name : option (list byte)) : option (Z * LOG_INFO) :=
  find_log_pos_loop fuel linfo log_name 0.

(** [int MYSQL_BIN_LOG::find_next_log(LOG_INFO* linfo, bool need_lock)] *)
Definition find_next_log (linfo : LOG_INFO) : Z * LOG_INFO :=
  let '(fname, tell, error) := my_b_gets (index_file_offset linfo) in
  let length := Z.of_nat (Datatypes.length fname) mod uint_modulus in
  if length <=? 1
  then (if error then LOG_INFO_IO else LOG_INFO_EOF,
        {| log_file_name := fname;
           index_file_offset := index_file_offset linfo;
           index_file_start_offset := index_file_offset linfo |})
  else (0, {| log_file_name := firstn (Z.to_nat (length - 1)) fname;
              index_file_offset := tell;
              index_file_start_offset := index_file_offset linfo |}).

(** The index file holds the given entries from [offset] on, one to a
    line, and nothing after them: each read delivers the next entry with
    its line feed and moves the position past it, and the read after the
    last entry delivers nothing and sets no error. *)
Fixpoint holds_entries (entries : list (list byte)) (offset : Z) : Prop :=
  match entries with
  | [] =>
      fst (fst (my_b_gets offset)) = [] /\ snd (my_b_gets offset) = false
  | entry :: entries =>
      entry <> []
      /\ Z.of_nat (length entry) + 1 < uint_modulus
      /\ my_b_gets offset
         = (entry ++ [10], offset + Z.of_nat (length entry) + 1, false)
      /\ holds_entries entries (offset + Z.of_nat (length entry) + 1)
  end.

End Index.

(** The bytes the entries take in the file. *)
Definition size_of (entries : list (list byte)) : Z :=
  fold_right (fun entry n => Z.of_nat (length entry) + 1 + n) 0 entries.

(** Reading a line from a file held in memory: the bytes from [offset] up
    to and with the next line feed. *)
Fixpoint line_at (file : list byte) : list byte :=
  match file with
  | [] => []
  | c :: file => if c =? 10 then [c] else c :: line_at file
  end.

Definition gets_from (file : list byte) (offset : Z) : list byte * Z * bool :=
  let line := line_at (skipn (Z.to_nat offset) file) in
  (line, offset + Z.of_nat (length line), false).

Definition two_entries : list (list byte) := [[97; 46; 49]; [97; 46; 50]].

(** The index file with the lines [a.1] and [a.2]. *)
Definition index_of_two : list byte := [97; 46; 49; 10; 97; 46; 50; 10].

Definition no_info : LOG_INFO :=
  {| log_file_name := []; index_file_offset := 0;
     index_file_start_offset := 0 |}.

End IndexFile.

(* ================================================================== *)
(** * The handlers of the error, slow and general logs: [class LOGGER] *)

Module Logger.

(** The two [Log_event_handler] objects of the logger. *)
Inductive Log_event_handler := file_log_handler | table_log_handler.

(** The three null-terminated handler arrays, as lists. *)
Record LOGGER := {
  is_log_tables_initialized : bool;
  error_log_handler_list : list Log_event_handler;
  slow_log_handler_list : list Log_event_handler;
  general_log_handler_list : list Log_event_handler;
  printed : list String.string            (* sql_print_error *)
}.

Section Flags.

(** The log event handler flags of log.h, each a bit of a [uint]. *)
Variable LOG_NONE LOG_FILE LOG_TABLE : Z.

(** [void LOGGER::init_error_log(uint error_log_printer)]; the cases
    [LOG_TABLE] and [LOG_TABLE|LOG_FILE] are [DBUG_ASSERT(0); break;]. *)
Definition init_error_log (error_log_printer : Z) (lg : LOGGER) : LOGGER :=
  let set l := {| is_log_tables_initialized := is_log_tables_initialized lg;
                  error_log_handler_list := l;
                  slow_log_handler_list := slow_log_handler_list lg;
                  general_log_handler_list := general_log_handler_list lg;
                  printed := printed lg |} in
  if negb (Z.land error_log_printer LOG_NONE =? 0) then set []
  else if error_log_printer =? LOG_FILE then set [file_log_handler]
  else lg.

(** [void LOGGER::init_slow_log(uint slow_log_printer)] *)
Definition init_slow_log (slow_log_printer : Z) (lg : LOGGER) : LOGGER :=
  let set l := {| is_log_tables_initialized := is_log_tables_initialized lg;
                  error_log_handler_list := error_log_handler_list lg;
                  slow_log_handler_list := l;
                  general_log_handler_list := general_log_handler_list lg;
                  printed := printed lg |} in
  if negb (Z.land slow_log_printer LOG_NONE =? 0) then set []
  else if slow_log_printer =? LOG_FILE then set [file_log_handler]
  else if slow_log_printer =? LOG_TABLE then set [table_log_handler]
  else if slow_log_printer =? Z.lor LOG_TABLE LOG_FILE
  then set [file_log_handler; table_log_handler]
  else lg.

(** [void LOGGER::init_general_log(uint general_log_printer)] *)
Definition init_general_log (general_log_printer : Z) (lg : LOGGER) : LOGGER :=
  let set l := {| is_log_tables_initialized := is_log_tables_initialized lg;
                  error_log_handler_list := error_log_handler_list lg;
                  slow_log_handler_list := slow_log_handler_list lg;
                  general_log_handler_list := l;
                  printed := printed lg |} in
  if negb (Z.land general_log_printer LOG_NONE =? 0) then set []
  else if general_log_printer =? LOG_FILE then set [file_log_handler]
  else if general_log_printer =? LOG_TABLE then set [table_log_handler]
  else if general_log_printer =? Z.lor LOG_TABLE LOG_FILE
  then set [file_log_handler; table_log_handler]
  else lg.

(** [(printer & ~LOG_TABLE) | LOG_FILE] on a [uint]: for a value of that
    type nothing wraps. *)
Definition file_instead_of_table (printer : Z) : Z :=
  Z.lor (Z.land printer (Z.lnot LOG_TABLE)) LOG_FILE.

(** [int LOGGER::set_handlers(uint error_log_printer,
    uint slow_log_printer, uint general_log_printer)] *)
Definition set_handlers (error_log_printer slow_log_printer
                         general_log_printer : Z) (lg : LOGGER) : LOGGER :=
  let fall_back :=
    (negb (Z.land slow_log_printer LOG_TABLE =? 0)
     || negb (Z.land general_log_printer LOG_TABLE =? 0))
    && negb (is_log_tables_initialized lg) in
  let slow_log_printer :=
    if fall_back then file_instead_of_table slow_log_printer
    else slow_log_printer in
  let general_log_printer :=
    if fall_back then file_instead_of_table general_log_printer
    else general_log_printer in
  let lg :=
    if fall_back
    then {| is_log_tables_initialized := is_log_tables_initialized lg;
            error_log_handler_list := error_log_handler_list lg;
            slow_log_handler_list := slow_log_handler_list lg;
            general_log_handler_list := general_log_handler_list lg;
            printed := printed lg
                       ++ ["Failed to initialize log tables. Falling back to the old-fashioned logs"%string] |}
    else lg in
  init_general_log general_log_printer
    (init_slow_log slow_log_printer
       (init_error_log error_log_printer lg)).

End Flags.

(** [error= ( *current_handler++)->log_...(...) || error] over a handler
    array: every handler is called, in order; the result is the error flag
    and the handlers called. *)
Fixpoint call_handlers (log : Log_event_handler -> bool)
  (handlers : list Log_event_handler) (error : bool)
  : bool * list Log_event_handler :=
  match handlers with
  | [] => (error, [])
  | h :: handlers =>
      let error := log h || error in
      let '(error, called) := call_handlers log handlers error in
      (error, h :: called)
  end.

(** [bool LOGGER::error_log_print(enum loglevel level, const char *format,
    va_list args)] *)
Definition error_log_print (log_error : Log_event_handler -> bool)
  (lg : LOGGER) : bool * list Log_event_handler :=
  call_handlers log_error (error_log_handler_list lg) false.

(** [bool LOGGER::slow_log_print(THD *thd, const char *query,
    uint query_length, ulonglong current_utime, ...)]; what the handlers
    are given to print is left out. *)
Definition slow_log_print (slave_thread opt_log_slow_slave_statements
                           opt_slow_log : bool)
  (log_slow : Log_event_handler -> bool) (lg : LOGGER)
  : bool * list Log_event_handler :=
  match slow_log_handler_list lg with
  | [] => (false, [])
  | _ :: _ =>
      if slave_thread && negb opt_log_slow_slave_statements then (false, [])
      else if negb opt_slow_log then (false, [])
      else call_handlers log_slow (slow_log_handler_list lg) false
  end.

(** [bool LOGGER::general_log_write(THD *thd,
    enum enum_server_command command, const char *query,
    uint query_length)] *)
Definition general_log_write (opt_log : bool)
  (log_general : Log_event_handler -> bool) (lg : LOGGER)
  : bool * list Log_event_handler :=
  if negb opt_log then (false, [])
  else call_handlers log_general (general_log_handler_list lg) false.

(** The printers a configuration can ask for: no log, the file, the
    table, or both. *)
Definition printer_ok (LOG_NONE LOG_FILE LOG_TABLE printer : Z) : Prop :=
  Z.land printer LOG_NONE <> 0
  \/ printer = LOG_FILE
  \/ printer = LOG_TABLE
  \/ printer = Z.lor LOG_TABLE LOG_FILE.

(** A logger before [init_log_tables] has succeeded. *)
Definition early_logger : LOGGER :=
  {| is_log_tables_initialized := false;
     error_log_handler_list := [file_log_handler];
     slow_log_handler_list := [];
     general_log_handler_list := [];
     printed := [] |}.

End Logger.

(* ================================================================== *)
(** * Properties of the transaction cache *)

Module CacheFacts.
Import Cache.

Lemma reinit_write_cache_tell (c : IO_CACHE) (pos : Z) :
  0 <= pos -> my_b_tell (reinit_write_cache c pos) = pos.
Proof.
  intros Hpos. unfold my_b_tell, reinit_write_cache. cbn [contents].
  rewrite length_app, length_firstn, repeat_length. lia.
Qed.

Lemma reinit_write_cache_prefix (c : IO_CACHE) (pos : Z) :
  pos <= my_b_tell c ->
  contents (reinit_write_cache c pos) = firstn (Z.to_nat pos) (contents c).
Proof.
  unfold my_b_tell, reinit_write_cache. intros H. cbn [contents].
  replace (Z.to_nat pos - length (contents c))%nat with 0%nat by lia.
  cbn [repeat]. apply app_nil_r.
Qed.

(** C5.  For every position [pos] (an unsigned offset) and every cache
    state, [truncate(pos)] leaves no pending rows event, puts the write
    position of the buffer at [pos], replaces [before_stmt_pos] by the
    undefined sentinel exactly when [pos < before_stmt_pos] (and leaves it
    alone otherwise), and sets [at_least_one_stmt_committed] to
    [pos > 0]. *)
Theorem truncate_sets_cache_state (max_binlog_cache_size pos : Z)
  (d : binlog_trx_data) :
  0 <= pos ->
  pending (truncate max_binlog_cache_size pos d) = None
  /\ position (truncate max_binlog_cache_size pos d) = pos
  /\ (pos < before_stmt_pos d ->
      before_stmt_pos (truncate max_binlog_cache_size pos d) = MY_OFF_T_UNDEF)
  /\ (~ pos < before_stmt_pos d ->
      before_stmt_pos (truncate max_binlog_cache_size pos d) = before_stmt_pos d)
  /\ at_least_one_stmt_committed (truncate max_binlog_cache_size pos d)
     = (0 <? pos).
Proof.
  intros Hpos. unfold truncate, pending, position.
  cbn [m_pending trans_log before_stmt_pos at_least_one_stmt_committed set_pending].
  repeat split.
  - change (my_b_tell (reinit_write_cache (trans_log d) pos) = pos).
    now apply reinit_write_cache_tell.
  - intros Hlt. apply Z.ltb_lt in Hlt. now rewrite Hlt.
  - intros Hge. destruct (pos <? before_stmt_pos d) eqn:E; [|reflexivity].
    apply Z.ltb_lt in E. contradiction.
Qed.

(** Cutting the 43-byte cache of the example back to offset 3. *)
Lemma truncate_witness :
  pending (truncate 4096 3 Examples.one_insert) = None
  /\ position (truncate 4096 3 Examples.one_insert) = 3
  /\ (3 < before_stmt_pos Examples.one_insert ->
      before_stmt_pos (truncate 4096 3 Examples.one_insert) = MY_OFF_T_UNDEF)
  /\ (~ 3 < before_stmt_pos Examples.one_insert ->
      before_stmt_pos (truncate 4096 3 Examples.one_insert)
      = before_stmt_pos Examples.one_insert)
  /\ at_least_one_stmt_committed (truncate 4096 3 Examples.one_insert)
     = (0 <? 3).
Proof.
  apply (truncate_sets_cache_state 4096 3 Examples.one_insert). lia.
Defined.

Lemma empty_after_truncate_0 (m : Z) (d : binlog_trx_data) :
  empty (truncate m 0 d) = true.
Proof. reflexivity. Qed.

(** C9.  Cache reset is idempotent: resetting a cache that has just been
    reset gives the same cache, field by field (buffer, pending event,
    [before_stmt_pos], [incident], [at_least_one_stmt_committed]). *)
Theorem reset_idempotent (max_binlog_cache_size : Z) (d : binlog_trx_data) :
  reset max_binlog_cache_size (reset max_binlog_cache_size d)
  = reset max_binlog_cache_size d.
Proof.
  unfold reset at 2 3.
  destruct (empty d) eqn:He; cbn [negb].
  - unfold reset, empty, pending, position, my_b_tell in *.
    cbn [trans_log m_pending contents at_least_one_stmt_committed].
    destruct (m_pending d); [discriminate|]. rewrite He. reflexivity.
  - reflexivity.
Qed.

End CacheFacts.

(* ================================================================== *)
(** * Properties of the log object and of the 2PC hooks *)

Module BinlogFacts.
Import Cache Binlog.

Lemma frame_refl l : frame l l.
Proof. constructor; auto. Qed.

Lemma frame_trans l1 l2 l3 : frame l1 l2 -> frame l2 l3 -> frame l1 l3.
Proof.
  intros [a b c] [a' b' c']. constructor.
  - congruence.
  - auto.
  - congruence.
Qed.

Lemma prep_xids_broadcasts_other c l :
  is_COND_prep_xids c = false ->
  prep_xids_broadcasts (pthread_cond_broadcast c l) = prep_xids_broadcasts l.
Proof.
  intros Hc. unfold prep_xids_broadcasts, pthread_cond_broadcast.
  cbn. rewrite filter_app. cbn. rewrite Hc. now rewrite app_nil_r.
Qed.

Lemma frame_broadcast c l :
  is_COND_prep_xids c = false -> frame l (pthread_cond_broadcast c l).
Proof.
  intros Hc. constructor; auto using prep_xids_broadcasts_other.
Qed.

Lemma frame_signal_update l : frame l (signal_update l).
Proof. now apply frame_broadcast. Qed.

Lemma frame_sql_print_error msg l : frame l (sql_print_error msg l).
Proof. constructor; auto. Qed.

Lemma frame_disable_group_commit l msg : frame l (disable_group_commit l msg).
Proof. constructor; auto. Qed.

Ltac frame_step :=
  match goal with
  | |- frame ?l ?l => apply frame_refl
  | |- frame _ (pthread_cond_broadcast _ _) =>
      eapply frame_trans; [|apply frame_broadcast; reflexivity]
  | |- frame _ (signal_update _) =>
      eapply frame_trans; [|apply frame_signal_update]
  | |- frame _ (sql_print_error _ _) =>
      eapply frame_trans; [|apply frame_sql_print_error]
  | |- frame _ (disable_group_commit _ _) =>
      eapply frame_trans; [|apply frame_disable_group_commit]
  | |- frame _ (if ?b then _ else _) => destruct b
  end.

(** An update of a field the frame does not look at. *)
Ltac frame_field :=
  match goal with
  | |- frame ?l (?f ?v ?l') =>
      apply frame_trans with l'; [|constructor; reflexivity || (cbn; auto)]
  end.

Ltac frame_auto := repeat (frame_step || frame_field).

(** Closes a goal whose hypothesis says that a failed call succeeded. *)
Ltac now_fails :=
  cbn;
  repeat match goal with
         | |- context [if ?b then _ else _] => destruct b
         end;
  discriminate.

Section Frames.

Variable cfg : sys_vars.
Variable env : Env.
Variable event_image : Log_event -> Z -> list byte.
Variable write_cache : IO_CACHE -> IO_CACHE -> Z * IO_CACHE.

Lemma frame_order_for_group_commit l thd ht :
  frame l (snd (fst (order_for_group_commit cfg env l thd ht))).
Proof.
  unfold order_for_group_commit.
  repeat match goal with
         | |- context [if ?b then _ else _] => destruct b
         end; cbn [fst snd]; frame_auto.
Qed.

Lemma frame_flush_and_sync l thd async ht pending :
  frame l (snd (fst (flush_and_sync cfg env l thd async ht pending))).
Proof.
  unfold flush_and_sync.
  destruct (flush_io_cache_fails env); [apply frame_refl|].
  destruct async; [apply frame_refl|].
  set (l0 := upd_sync_binlog_counter _ l).
  assert (H0 : frame l l0) by (constructor; reflexivity || (cbn; auto)).
  destruct (_ && _); [|exact H0].
  pose proof (frame_order_for_group_commit l0 thd ht) as Ho.
  destruct (order_for_group_commit cfg env l0 thd ht) as [[r l1] thd1].
  cbn [fst snd] in Ho.
  assert (Hl : frame l l1) by (eapply frame_trans; eauto).
  clear H0 Ho. clearbody l0.
  repeat match goal with
         | |- context [if ?b then _ else _] => destruct b
         end; cbn [fst snd]; (eapply frame_trans; [apply Hl|]); frame_auto.
Qed.

Lemma kept_refl thd : kept thd thd.
Proof. exists []. now rewrite app_nil_r. Qed.

Lemma kept_trans t1 t2 t3 : kept t1 t2 -> kept t2 t3 -> kept t1 t3.
Proof.
  intros [a Ha] [b Hb]. exists (a ++ b). now rewrite Hb, Ha, app_assoc.
Qed.

Lemma kept_same thd thd' : cache_bytes thd' = cache_bytes thd -> kept thd thd'.
Proof. intros H. exists []. now rewrite app_nil_r. Qed.

Lemma Log_event_write_appends e f :
  exists extra,
    contents (snd (Log_event_write event_image e f)) = contents f ++ extra.
Proof.
  unfold Log_event_write. destruct (_ <? _); cbn.
  - exists []. now rewrite app_nil_r.
  - eauto.
Qed.

Lemma rspec_weaken {A} l thd l1 thd1 (r : result (A * MYSQL_BIN_LOG * THD)) :
  frame l l1 -> kept thd thd1 -> rspec l1 thd1 r -> rspec l thd r.
Proof.
  intros Hf Hk. destruct r as [[[a l'] thd']| |]; cbn; auto.
  - intros [? ?]. split; eauto using frame_trans, kept_trans.
  - eauto using frame_trans.
Qed.

Lemma rspec_bind {A B} l thd (r : result (A * MYSQL_BIN_LOG * THD))
  (k : A * MYSQL_BIN_LOG * THD -> result (B * MYSQL_BIN_LOG * THD)) :
  rspec l thd r ->
  (forall a l1 thd1, r = Ret (a, l1, thd1) -> rspec l1 thd1 (k (a, l1, thd1))) ->
  rspec l thd (bind r k).
Proof.
  intros Hr Hk. destruct r as [[[a l1] thd1]| |]; cbn in *; auto.
  destruct Hr. eapply rspec_weaken; eauto.
Qed.

Lemma rspec_bind_thd {B} l thd (r : result THD)
  (k : THD -> result (B * MYSQL_BIN_LOG * THD)) :
  rspec_thd thd r ->
  (forall thd1, r = Ret thd1 -> rspec l thd1 (k thd1)) ->
  rspec l thd (bind r k).
Proof.
  intros Hr Hk. destruct r as [thd1| |]; cbn in *; auto; [|tauto].
  eapply rspec_weaken; eauto using frame_refl.
Qed.

Lemma rspec_bind_log {A B} l thd (r : result (A * MYSQL_BIN_LOG))
  (k : A * MYSQL_BIN_LOG -> result (B * MYSQL_BIN_LOG * THD)) :
  rspec_log l r ->
  (forall a l1, r = Ret (a, l1) -> rspec l1 thd (k (a, l1))) ->
  rspec l thd (bind r k).
Proof.
  intros Hr Hk. destruct r as [[a l1]| |]; cbn in *; auto.
  eapply rspec_weaken; eauto using kept_refl.
Qed.

Lemma kept_setup thd :
  kept thd (snd (binlog_setup_trx_data cfg env thd)).
Proof.
  unfold binlog_setup_trx_data. destruct (ha_data thd) eqn:E; cbn.
  - apply kept_refl.
  - destruct (alloc_fails env); cbn; [apply kept_refl|].
    unfold kept, cache_bytes. rewrite E. cbn. eauto.
Qed.

Lemma kept_update thd d d' :
  ha_data thd = Some d ->
  (exists extra, contents (trans_log d') = contents (trans_log d) ++ extra) ->
  kept thd (upd_ha_data (Some d') thd).
Proof.
  intros E [extra H]. exists extra. unfold cache_bytes. rewrite E. cbn. exact H.
Qed.

Lemma kept_update_same thd d d' :
  ha_data thd = Some d ->
  contents (trans_log d') = contents (trans_log d) ->
  kept thd (upd_ha_data (Some d') thd).
Proof.
  intros E H. eapply kept_update; eauto. exists []. now rewrite app_nil_r.
Qed.

Lemma rspec_thd_savepos thd :
  match binlog_trans_log_savepos cfg env thd with
  | Ret (_, thd') => kept thd thd'
  | Wait _ _ => False
  | Fault => True
  end.
Proof.
  unfold binlog_trans_log_savepos.
  destruct (ha_data thd) eqn:E.
  - rewrite E. apply kept_refl.
  - pose proof (kept_setup thd) as H.
    destruct (ha_data (snd (binlog_setup_trx_data cfg env thd))); auto.
Qed.

Lemma rspec_thd_set_stmt_begin thd :
  rspec_thd thd (binlog_set_stmt_begin cfg env thd).
Proof.
  unfold binlog_set_stmt_begin.
  pose proof (rspec_thd_savepos thd) as H.
  destruct (binlog_trans_log_savepos cfg env thd) as [[pos thd1]| |];
    cbn in *; auto.
  destruct (ha_data thd1) eqn:E; cbn; auto.
  eapply kept_trans; [exact H|]. eapply kept_update_same; eauto.
Qed.

Lemma rspec_thd_start_trans_and_stmt thd :
  rspec_thd thd (binlog_start_trans_and_stmt cfg env thd).
Proof.
  unfold binlog_start_trans_and_stmt.
  destruct (ha_data thd); [destruct (_ =? _)|];
    auto using rspec_thd_set_stmt_begin. cbn. apply kept_refl.
Qed.

Lemma rspec_thd_set_pending thd ev :
  rspec_thd thd (binlog_set_pending_rows_event cfg env thd ev).
Proof.
  unfold binlog_set_pending_rows_event.
  destruct (ha_data thd) eqn:E.
  - rewrite E. cbn. eapply kept_update_same; eauto.
  - pose proof (kept_setup thd) as H.
    destruct (ha_data (snd (binlog_setup_trx_data cfg env thd))) eqn:E'; cbn; auto.
    eapply kept_trans; [exact H|]. eapply kept_update_same; eauto.
Qed.

Lemma kept_my_error e thd : kept thd (my_error e thd).
Proof.
  unfold my_error. destruct (da_is_error thd); [apply kept_refl|].
  now apply kept_same.
Qed.

Lemma spec_set_write_error l thd :
  frame l (fst (set_write_error l thd))
  /\ kept thd (snd (set_write_error l thd)).
Proof.
  unfold set_write_error.
  destruct (check_write_error thd); [|destruct (my_errno_is_EFBIG _)]; cbn;
    split; try apply kept_refl; try apply kept_my_error;
    constructor; reflexivity || (cbn; auto).
Qed.

Lemma frame_write_incident_unlocked l :
  frame l (snd (write_incident_unlocked event_image l)).
Proof.
  unfold write_incident_unlocked.
  destruct (negb (is_open l)); [apply frame_refl|].
  destruct (Log_event_write _ _ _). cbn. frame_auto.
Qed.

Lemma frame_close b l : frame l (close cfg b l).
Proof.
  unfold close. destruct (log_state l); frame_auto.
Qed.

Lemma frame_reopen l : frame l (snd (reopen cfg env l)).
Proof.
  unfold reopen. repeat (destruct (negb _)); cbn; frame_auto.
Qed.

Lemma rspec_new_file_impl l :
  rspec_log l (new_file_impl cfg env event_image l).
Proof.
  unfold new_file_impl.
  destruct (negb (is_open l)); [apply frame_refl|].
  destruct (stop_new_xids l); [cbn; apply frame_sql_print_error|].
  set (l0 := upd_stop_new_xids true l).
  assert (H0 : frame l l0) by (constructor; reflexivity || (cbn; auto)).
  clearbody l0.
  destruct (negb (prepared_xids l0 =? 0)); [exact H0|].
  assert (Hfin : forall (b : bool) l1, frame l0 l1 ->
            frame l
              (if b
               then sql_print_error "Could not open log file for logging"
                      (close cfg false
                         (pthread_cond_broadcast COND_stop_xids
                            (upd_stop_new_xids false l1)))
               else pthread_cond_broadcast COND_stop_xids
                      (upd_stop_new_xids false l1))).
  { intros b l1 H1.
    eapply frame_trans; [exact H0|]. eapply frame_trans; [exact H1|].
    destruct b.
    - eapply frame_trans; [|apply frame_sql_print_error].
      eapply frame_trans; [|apply frame_close]. frame_auto.
    - frame_auto. }
  destruct (negb (generate_new_name_error env =? 0)).
  { unfold rspec_log; cbv beta zeta; apply Hfin. apply frame_refl. }
  destruct (log_type_is_LOG_BIN cfg).
  - destruct (negb (no_auto_events cfg)).
    + destruct (Log_event_write _ _ _) as [e f]. destruct e; cbn [negb Z.eqb].
      * unfold rspec_log; cbv beta zeta; apply Hfin. apply frame_refl.
      * change (negb (0 =? 0)) with false. cbv iota.
        pose proof (frame_reopen (close cfg true (signal_update (upd_log_file f l0)))) as Hr.
        destruct (reopen _ _ _) as [err l5]. cbn [snd] in Hr.
        unfold rspec_log; cbv beta zeta; apply Hfin. eapply frame_trans; [|exact Hr].
        eapply frame_trans; [|apply frame_close]. frame_auto.
    + change (negb (0 =? 0)) with false. cbv iota.
      pose proof (frame_reopen (close cfg true (signal_update l0))) as Hr.
      destruct (reopen _ _ _) as [err l5]. cbn [snd] in Hr.
      unfold rspec_log; cbv beta zeta; apply Hfin. eapply frame_trans; [|exact Hr].
      eapply frame_trans; [|apply frame_close]. frame_auto.
  - change (negb (0 =? 0)) with false. cbv iota.
    pose proof (frame_reopen (close cfg true l0)) as Hr.
    destruct (reopen _ _ _) as [err l5]. cbn [snd] in Hr.
    unfold rspec_log; cbv beta zeta; apply Hfin. eapply frame_trans; [|exact Hr]. apply frame_close.
Qed.

Lemma cache_order_for_group_commit l thd ht :
  cache_bytes (snd (order_for_group_commit cfg env l thd ht)) = cache_bytes thd.
Proof.
  unfold order_for_group_commit.
  repeat match goal with
         | |- context [if ?b then _ else _] => destruct b
         end; reflexivity.
Qed.

Lemma cache_flush_and_sync l thd async ht pending :
  cache_bytes (snd (flush_and_sync cfg env l thd async ht pending))
  = cache_bytes thd.
Proof.
  unfold flush_and_sync.
  destruct (flush_io_cache_fails env); [reflexivity|].
  destruct async; [reflexivity|].
  set (l0 := upd_sync_binlog_counter _ l). clearbody l0.
  destruct (_ && _); [|reflexivity].
  pose proof (cache_order_for_group_commit l0 thd ht) as Ho.
  destruct (order_for_group_commit cfg env l0 thd ht) as [[r l1] thd1].
  cbn [snd] in Ho.
  repeat match goal with
         | |- context [if ?b then _ else _] => destruct b
         end; exact Ho.
Qed.

Lemma spec_flush_and_sync l thd async ht pending e l' thd' :
  flush_and_sync cfg env l thd async ht pending = (e, l', thd') ->
  frame l l' /\ kept thd thd'.
Proof.
  intros H.
  pose proof (frame_flush_and_sync l thd async ht pending) as Hf.
  pose proof (cache_flush_and_sync l thd async ht pending) as Hc.
  rewrite H in Hf, Hc. cbn in Hf, Hc. auto using kept_same.
Qed.

Lemma frame_purge_logs_before_date t l :
  frame l (purge_logs_before_date env t l).
Proof. unfold purge_logs_before_date. frame_auto. Qed.

Lemma rspec_rotate_and_purge l thd flags log_maybe_full :
  rspec l thd (rotate_and_purge cfg env event_image l thd flags log_maybe_full).
Proof.
  unfold rotate_and_purge.
  destruct (_ && _); [split; [apply frame_refl|apply kept_refl]|].
  destruct (stop_new_xids l); [apply frame_refl|].
  destruct (_ || _); [|split; [apply frame_refl|apply kept_refl]].
  eapply rspec_bind_log; [apply rspec_new_file_impl|].
  intros error l1 _.
  destruct (negb (error =? 0));
    [|destruct (_ && _);
      (split; [apply frame_purge_logs_before_date || apply frame_refl
              |apply kept_refl])].
  pose proof (frame_write_incident_unlocked l1) as Hi.
  destruct (write_incident_unlocked event_image l1) as [e l2]. cbn [snd] in Hi.
  destruct (negb e); [|split; [exact Hi|apply kept_refl]].
  destruct (flush_and_sync cfg env l2 thd false false 0) as [[e' l3] thd3] eqn:Ef.
  apply spec_flush_and_sync in Ef. destruct Ef.
  split; eauto using frame_trans.
Qed.

Lemma rspec_write_incident l thd lock :
  rspec l thd (write_incident cfg env event_image l thd lock).
Proof.
  unfold write_incident.
  destruct (negb (is_open l)); [split; [apply frame_refl|apply kept_refl]|].
  pose proof (frame_write_incident_unlocked l) as Hi.
  destruct (write_incident_unlocked event_image l) as [e l2]. cbn [snd] in Hi.
  destruct lock; [|split; [exact Hi|apply kept_refl]].
  destruct (negb e); [|split; [exact Hi|apply kept_refl]].
  destruct (flush_and_sync cfg env l2 thd false false 0) as [[e' l3] thd3] eqn:Ef.
  apply spec_flush_and_sync in Ef. destruct Ef as [Hf Hk].
  destruct (negb e').
  - eapply rspec_weaken; [| exact Hk | apply rspec_rotate_and_purge].
    eapply frame_trans; [exact Hi|]. eapply frame_trans; [exact Hf|].
    apply frame_signal_update.
  - split; eauto using frame_trans.
Qed.

Lemma rspec_flush_and_set_pending_rows_event l thd event :
  rspec l thd
    (flush_and_set_pending_rows_event cfg env event_image l thd event).
Proof.
  unfold flush_and_set_pending_rows_event.
  destruct (ha_data thd) as [trx_data|] eqn:E; [|exact I].
  destruct (pending trx_data) as [pending_ev|].
  - destruct (_ || _).
    + pose proof (Log_event_write_appends (Rows_event pending_ev)
                    (trans_log trx_data)) as Hw.
      destruct (Log_event_write _ _ _) as [e f]. cbn [snd] in Hw.
      destruct e.
      * pose proof (spec_set_write_error l thd) as [Hf Hk].
        destruct (set_write_error l thd). split; assumption.
      * eapply rspec_weaken
          with (l1 := l)
               (thd1 := upd_ha_data (Some (upd_trans_log f trx_data)) thd);
          [apply frame_refl | eapply kept_update; eauto |].
        eapply rspec_bind_thd; [apply rspec_thd_set_pending|].
        intros thd1 _. split; [apply frame_refl|apply kept_refl].
    + destruct (Log_event_write _ _ _) as [e f].
      destruct e.
      * pose proof (spec_set_write_error l thd) as [Hf Hk].
        destruct (set_write_error l thd). split; assumption.
      * destruct (flush_and_sync cfg env (upd_log_file f l) thd false false 0)
          as [[e' l3] thd3] eqn:Ef.
        apply spec_flush_and_sync in Ef. destruct Ef as [Hf Hk].
        assert (Hl : frame l l3).
        { eapply frame_trans; [|exact Hf]. constructor; reflexivity || (cbn; auto). }
        eapply rspec_weaken; [exact Hl | exact Hk |].
        eapply rspec_bind.
        -- destruct (negb e').
           ++ eapply rspec_weaken;
                [apply frame_signal_update | apply kept_refl
                | apply rspec_rotate_and_purge].
           ++ split; [apply frame_refl|apply kept_refl].
        -- intros error l4 thd4 _. cbn beta iota.
           eapply rspec_bind_thd; [apply rspec_thd_set_pending|].
           intros thd5 _. split; [apply frame_refl|apply kept_refl].
  - eapply rspec_bind_thd; [apply rspec_thd_set_pending|].
    intros thd1 _. split; [apply frame_refl|apply kept_refl].
Qed.

Lemma rspec_binlog_flush_pending_rows_event l thd stmt_end :
  rspec l thd
    (binlog_flush_pending_rows_event cfg env event_image l thd stmt_end).
Proof.
  unfold binlog_flush_pending_rows_event.
  destruct (negb (is_open l)); [split; [apply frame_refl|apply kept_refl]|].
  destruct (ha_data thd) as [trx_data|] eqn:E;
    [|split; [apply frame_refl|apply kept_refl]].
  destruct (pending trx_data) as [pending_ev|];
    [|split; [apply frame_refl|apply kept_refl]].
  eapply rspec_weaken;
    [apply frame_refl | | apply rspec_flush_and_set_pending_rows_event].
  eapply kept_update_same; eauto.
Qed.

Lemma rspec_write_to file ev l thd :
  rspec l thd (write_to event_image file ev l thd).
Proof.
  unfold write_to. destruct file.
  - destruct (Log_event_write _ _ _) as [e f]. split; [|apply kept_refl].
    constructor; reflexivity || (cbn; auto).
  - destruct (ha_data thd) as [trx_data|] eqn:E; [|exact I].
    pose proof (Log_event_write_appends ev (trans_log trx_data)) as Hw.
    destruct (Log_event_write _ _ _) as [e f]. cbn [snd] in Hw.
    split; [apply frame_refl|]. eapply kept_update; eauto.
Qed.

Lemma rspec_write_all_to file evs : forall l thd,
  rspec l thd (write_all_to event_image file evs l thd).
Proof.
  induction evs as [|e evs IH]; intros l thd; cbn [write_all_to].
  - split; [apply frame_refl|apply kept_refl].
  - eapply rspec_bind; [apply rspec_write_to|].
    intros err l1 thd1 _. cbn beta iota.
    destruct err; [split; [apply frame_refl|apply kept_refl]|apply IH].
Qed.

Lemma rspec_fail l thd :
  rspec (A := bool) l thd
    (let '(l, thd) := set_write_error l thd in Ret (true, l, thd)).
Proof.
  pose proof (spec_set_write_error l thd) as [Hf Hk].
  destruct (set_write_error l thd). split; assumption.
Qed.

Lemma kept_cache_or_disk thd event_info :
  match cache_or_disk cfg env thd event_info with
  | Ret (_, _, thd') => kept thd thd'
  | Wait _ _ => False
  | Fault => True
  end.
Proof.
  unfold cache_or_disk.
  destruct (opt_using_transactions cfg); [|apply kept_refl].
  pose proof (kept_setup thd) as Hs.
  destruct (binlog_setup_trx_data cfg env thd) as [e2 thd2]. cbn [snd] in Hs.
  destruct (negb (e2 =? 0)); [exact Hs|].
  destruct (ha_data thd2) eqn:E2; [|exact I].
  destruct (_ || _); [|exact Hs].
  pose proof (rspec_thd_start_trans_and_stmt thd2) as Hb.
  destruct (binlog_start_trans_and_stmt cfg env thd2); cbn in *;
    eauto using kept_trans.
Qed.

Lemma rspec_write l thd event_info :
  rspec l thd (write cfg env event_image l thd event_info).
Proof.
  unfold write.
  destruct (do_union thd).
  { split; [apply frame_refl|]. now apply kept_same. }
  eapply rspec_bind; [apply rspec_binlog_flush_pending_rows_event|].
  intros e l1 thd1 _. cbn beta iota.
  destruct (negb (e =? 0)); [split; [apply frame_refl|apply kept_refl]|].
  destruct (negb (is_open l1)); [split; [apply frame_refl|apply kept_refl]|].
  destruct (_ || _); [split; [apply frame_refl|apply kept_refl]|].
  pose proof (kept_cache_or_disk thd1 event_info) as Hc.
  destruct (cache_or_disk cfg env thd1 event_info)
    as [[[setup_failed file] thd3]| |]; cbn [bind]; [|tauto|exact I].
  eapply rspec_weaken; [apply frame_refl | exact Hc |].
  destruct setup_failed; [apply rspec_fail|].
  eapply rspec_bind.
  { destruct (negb _); [apply rspec_write_all_to|].
    split; [apply frame_refl|apply kept_refl]. }
  intros e4 l4 thd4 _. cbn beta iota.
  destruct e4; [apply rspec_fail|].
  eapply rspec_bind; [apply rspec_write_to|].
  intros e5 l5 thd5 _. cbn beta iota.
  destruct e5; [apply rspec_fail|].
  destruct file; [|split; [apply frame_refl|apply kept_refl]].
  destruct (flush_and_sync cfg env l5 thd5 false false 0)
    as [[e6 l6] thd6] eqn:Ef.
  apply spec_flush_and_sync in Ef. destruct Ef as [Hf Hk].
  eapply rspec_weaken; [exact Hf | exact Hk |].
  destruct e6; [apply rspec_fail|].
  eapply rspec_bind.
  { eapply rspec_weaken;
      [apply frame_signal_update | apply kept_refl
      | apply rspec_rotate_and_purge]. }
  intros e7 l7 thd7 _. cbn beta iota.
  destruct (negb (e7 =? 0)); [apply rspec_fail|].
  split; [apply frame_refl|apply kept_refl].
Qed.

(** ** The prepared-xid counter *)

Lemma log_state_order_for_group_commit l thd ht :
  log_state (snd (fst (order_for_group_commit cfg env l thd ht))) = log_state l.
Proof.
  unfold order_for_group_commit.
  repeat match goal with
         | |- context [if ?b then _ else _] => destruct b
         end; reflexivity.
Qed.

Lemma log_state_flush_and_sync l thd async ht pending :
  log_state (snd (fst (flush_and_sync cfg env l thd async ht pending)))
  = log_state l.
Proof.
  unfold flush_and_sync.
  destruct (flush_io_cache_fails env); [reflexivity|].
  destruct async; [reflexivity|].
  set (l0 := upd_sync_binlog_counter _ l).
  assert (H0 : log_state l0 = log_state l) by reflexivity. clearbody l0.
  destruct (_ && _); [|exact H0].
  pose proof (log_state_order_for_group_commit l0 thd ht) as Ho.
  destruct (order_for_group_commit cfg env l0 thd ht) as [[r l1] thd1].
  cbn [fst snd] in Ho. rewrite <- H0, <- Ho.
  repeat match goal with
         | |- context [if ?b then _ else _] => destruct b
         end; reflexivity.
Qed.

Lemma log_state_write_incident_unlocked l :
  log_state (snd (write_incident_unlocked event_image l)) = log_state l.
Proof.
  unfold write_incident_unlocked.
  destruct (negb (is_open l)); [reflexivity|].
  now destruct (Log_event_write _ _ _).
Qed.

Lemma is_open_log_state l l' : log_state l' = log_state l -> is_open l' = is_open l.
Proof. unfold is_open. now intros ->. Qed.

Lemma Log_event_write_ok e f f' :
  Log_event_write event_image e f = (false, f') ->
  contents f' = contents f ++ event_image e (my_b_tell f).
Proof.
  unfold Log_event_write. destruct (_ <? _); [discriminate|].
  intros H. injection H as <-. reflexivity.
Qed.

Lemma write_incident_unlocked_appends l :
  exists extra,
    contents (log_file (snd (write_incident_unlocked event_image l)))
    = contents (log_file l) ++ extra.
Proof.
  unfold write_incident_unlocked.
  destruct (negb (is_open l)); cbn [snd];
    [exists []; now rewrite app_nil_r|].
  pose proof (Log_event_write_appends
                (Incident_log_event "error writing to the binary log")
                (log_file l)) as [extra Hx].
  destruct (Log_event_write _ _ _) as [e f]. cbn [snd] in *.
  exists extra. exact Hx.
Qed.

(** A successful copy of a cache with an XID commit event: when the log
    is open the counter goes up by one, nobody is woken on
    [COND_prep_xids], and for a non-empty cache the XID record is in the
    log file; a closed log is left as it is. *)
Lemma write_cached_xid l thd cache xid incident async ht pending l' thd' :
  write_cached cfg env event_image write_cache l thd cache
    (Some (Xid_log_event xid)) incident async ht pending
  = Ret (false, l', thd') ->
  is_open l' = is_open l
  /\ prep_xids_broadcasts l' = prep_xids_broadcasts l
  /\ (is_open l = true ->
      prepared_xids l' = (prepared_xids l + 1) mod ulong_modulus
      /\ (0 < my_b_tell cache ->
          exists before after,
            contents (log_file l')
            = before ++ event_image (Xid_log_event xid)
                          (Z.of_nat (length before)) ++ after))
  /\ (is_open l = false -> l' = l).
Proof.
  unfold write_cached. cbn [is_xid_event].
  destruct (is_open l) eqn:Hopen; cbn [andb];
    [|intros H; injection H as <- <-; repeat split; congruence].
  destruct (0 <? my_b_tell cache) eqn:Hpos; cbn [andb].
  - destruct (stop_new_xids l); [discriminate|].
    destruct (Log_event_write _ _ (log_file l)) as [e1 f1] eqn:E1.
    destruct e1; [now_fails|].
    destruct (write_cache cache _) as [code f2] eqn:E2. cbn [log_file upd_log_file].
    destruct (negb (code =? 0));
      [now_fails|].
    destruct (Log_event_write _ (Xid_log_event xid) _) as [e3 f3] eqn:E3.
    destruct e3;
      [now_fails|].
    apply Log_event_write_ok in E3. cbn [log_file upd_write_error upd_log_file] in E3.
    set (l3 := upd_log_file f3 _).
    assert (H3 : log_state l3 = log_state l /\ prepared_xids l3 = prepared_xids l
                 /\ prep_xids_broadcasts l3 = prep_xids_broadcasts l
                 /\ contents (log_file l3)
                    = contents f2 ++ event_image (Xid_log_event xid) (my_b_tell f2))
      by (repeat split; exact E3).
    clearbody l3.
    set (r4 := if incident then write_incident_unlocked event_image l3 else (false, l3)).
    assert (H4 : log_state (snd r4) = log_state l
                 /\ prepared_xids (snd r4) = prepared_xids l
                 /\ prep_xids_broadcasts (snd r4) = prep_xids_broadcasts l
                 /\ exists after, contents (log_file (snd r4))
                    = contents f2 ++ event_image (Xid_log_event xid) (my_b_tell f2)
                      ++ after).
    { destruct H3 as (Ha & Hb & Hc & Hd). subst r4. destruct incident; cbn [snd].
      - pose proof (frame_write_incident_unlocked l3) as [Fa _ Fc].
        rewrite log_state_write_incident_unlocked.
        repeat split; try congruence.
        destruct (write_incident_unlocked_appends l3) as [extra Hx].
        exists extra. rewrite Hx, Hd. now rewrite <- app_assoc.
      - repeat split; try assumption. exists []. now rewrite app_nil_r. }
    destruct r4 as [e4 l4]. cbn [snd] in H4.
    destruct e4;
      [now_fails|].
    pose proof (frame_flush_and_sync l4 thd async ht pending) as [Fa _ Fc].
    pose proof (log_state_flush_and_sync l4 thd async ht pending) as Fs.
    assert (Ff : log_file (snd (fst (flush_and_sync cfg env l4 thd async ht pending)))
                 = log_file l4).
    { clear. unfold flush_and_sync.
      destruct (flush_io_cache_fails env); [reflexivity|].
      destruct async; [reflexivity|].
      set (l0 := upd_sync_binlog_counter _ l4).
      assert (H0 : log_file l0 = log_file l4) by reflexivity. clearbody l0.
      destruct (_ && _); [|exact H0].
      assert (Ho : log_file (snd (fst (order_for_group_commit cfg env l0 thd ht)))
                   = log_file l0).
      { unfold order_for_group_commit.
        repeat match goal with
               | |- context [if ?b then _ else _] => destruct b
               end; reflexivity. }
      destruct (order_for_group_commit cfg env l0 thd ht) as [[r l1] thd1].
      cbn [fst snd] in Ho. rewrite <- H0, <- Ho.
      repeat match goal with
             | |- context [if ?b then _ else _] => destruct b
             end; reflexivity. }
    destruct (flush_and_sync cfg env l4 thd async ht pending) as [[e5 l5] thd5].
    cbn [fst snd] in *.
    destruct e5;
      [now_fails|].
    destruct (cache_read_error env); [cbn; discriminate|].
    cbn. intros H. injection H as <- <-.
    destruct H4 as (Ha & Hb & Hc & after & Hd).
    repeat split.
    + rewrite <- Hopen. apply is_open_log_state. cbn. congruence.
    + unfold prep_xids_broadcasts in *. cbn. rewrite filter_app. cbn.
      rewrite app_nil_r. congruence.
    + cbn. congruence.
    + intros _. exists (contents f2), after. cbn. rewrite Ff, Hd.
      unfold my_b_tell. reflexivity.
    + discriminate.
  - cbn. intros H. injection H as <- <-.
    split; [exact Hopen|]. split; [reflexivity|]. split; [|discriminate].
    intros _. split; [reflexivity|].
    intros Hlt. apply Z.ltb_ge in Hpos. lia.
Qed.

Lemma flush_pending_none l thd stmt_end d :
  ha_data thd = Some d -> pending d = None ->
  binlog_flush_pending_rows_event cfg env event_image l thd stmt_end
  = Ret (0, l, thd).
Proof.
  intros Hd Hp. unfold binlog_flush_pending_rows_event.
  destruct (negb (is_open l)); [reflexivity|]. now rewrite Hd, Hp.
Qed.

Lemma new_file_impl_no_fault l :
  new_file_impl cfg env event_image l <> Fault.
Proof.
  unfold new_file_impl.
  repeat match goal with
         | |- context [if ?b then _ else _] => destruct b
         | |- context [let '(_, _) := ?x in _] => destruct x
         end; discriminate.
Qed.

Lemma rotate_and_purge_no_fault l thd flags log_maybe_full :
  rotate_and_purge cfg env event_image l thd flags log_maybe_full <> Fault.
Proof.
  unfold rotate_and_purge.
  destruct (_ && _); [discriminate|].
  destruct (stop_new_xids l); [discriminate|].
  destruct (_ || _); [|discriminate].
  pose proof (new_file_impl_no_fault l) as Hn.
  destruct (new_file_impl cfg env event_image l) as [[error l1]| |];
    cbn [bind]; [|discriminate|congruence].
  repeat match goal with
         | |- context [if ?b then _ else _] => destruct b
         | |- context [let '(_, _) := ?x in _] => destruct x
         end; discriminate.
Qed.

Lemma unlog_prepared_xid_spec l :
  prepared_xids (unlog_prepared_xid l) = (prepared_xids l - 1) mod ulong_modulus
  /\ prep_xids_broadcasts (unlog_prepared_xid l)
     = (prep_xids_broadcasts l
        + if (prepared_xids (unlog_prepared_xid l) =? 0)%Z then 1 else 0)%nat
  /\ (group_commit_allowed l = false ->
      group_commit_allowed (unlog_prepared_xid l) = false).
Proof.
  unfold unlog_prepared_xid.
  set (l0 := upd_prepared_xids _ l).
  assert (H0 : prepared_xids l0 = (prepared_xids l - 1) mod ulong_modulus)
    by reflexivity.
  assert (H1 : prep_xids_broadcasts l0 = prep_xids_broadcasts l) by reflexivity.
  assert (H2 : group_commit_allowed l0 = group_commit_allowed l) by reflexivity.
  clearbody l0.
  destruct (prepared_xids l0 =? 0) eqn:E.
  - cbn [prepared_xids pthread_cond_broadcast upd_broadcasts]. rewrite E.
    repeat split; [exact H0| |cbn; congruence].
    unfold prep_xids_broadcasts in *. cbn. rewrite filter_app, length_app.
    cbn. lia.
  - rewrite E. repeat split; [exact H0|lia|congruence].
Qed.

(** C3, amended.  For every call of [log_xid] on the binary log that
    returns success (1) on an open log, [prepared_xids] has gone up by
    exactly one, with no broadcast of [COND_prep_xids], and the XID record
    is in the log file when the session's cache held bytes ([write] skips
    the record, not the count, for an empty cache).  The matching
    [unlog], which finds the counter positive because the count of its
    [log_xid] is in it, takes exactly one off [prepared_xids], whether it
    returns or sleeps in the rotation that follows, and broadcasts
    [COND_prep_xids] exactly when the counter has reached 0; called right
    after the [log_xid], it puts the counter back where it was. *)
Theorem log_xid_unlog_prepared_xids
  (l : MYSQL_BIN_LOG) (thd : THD) (xid : Z) (async ht : bool) (pending : Z)
  (l' : MYSQL_BIN_LOG) (thd' : THD) :
  log_xid cfg env event_image write_cache l thd xid async ht pending
  = Ret (1, l', thd') ->
  is_open l' = true ->
  prepared_xids l' = (prepared_xids l + 1) mod ulong_modulus
  /\ prep_xids_broadcasts l' = prep_xids_broadcasts l
  /\ (forall d, ha_data thd = Some d ->
      0 < position d ->
      exists before after,
        contents (log_file l')
        = before ++ event_image (Xid_log_event xid) (Z.of_nat (length before))
          ++ after)
  /\ (forall l2 thd2 log_was_full,
      0 < prepared_xids l2 < ulong_modulus ->
      exists l3,
        log_after (unlog cfg env event_image l2 thd2 log_was_full) = Some l3
        /\ prepared_xids l3 = prepared_xids l2 - 1
        /\ prep_xids_broadcasts l3
           = (prep_xids_broadcasts l2
              + if (prepared_xids l3 =? 0)%Z then 1 else 0)%nat)
  /\ (0 <= prepared_xids l < ulong_modulus ->
      forall thd2 log_was_full l3,
        log_after (unlog cfg env event_image l' thd2 log_was_full) = Some l3 ->
        prepared_xids l3 = prepared_xids l).
Proof.
  intros Hlog Hopen.
  assert (Hunlog : forall l2 thd2 log_was_full,
      exists l3,
        log_after (unlog cfg env event_image l2 thd2 log_was_full) = Some l3
        /\ prepared_xids l3 = (prepared_xids l2 - 1) mod ulong_modulus
        /\ prep_xids_broadcasts l3
           = (prep_xids_broadcasts l2
              + if (prepared_xids l3 =? 0)%Z then 1 else 0)%nat).
  { intros l2 thd2 full. unfold unlog.
    pose proof (rspec_rotate_and_purge (unlog_prepared_xid l2) thd2 no_flags full)
      as Hr.
    pose proof (rotate_and_purge_no_fault (unlog_prepared_xid l2) thd2 no_flags full)
      as Hnf.
    destruct (unlog_prepared_xid_spec l2) as (Hp & Hb & _).
    destruct (rotate_and_purge _ _ _ _ _ _ _) as [[[r l3] thd3]|c l3|];
      cbn in Hr; [destruct Hr as [[Fa _ Fc] _]|destruct Hr as [Fa _ Fc]|congruence];
      exists l3; cbn [log_after]; rewrite Fa, Fc; auto. }
  unfold log_xid, binlog_end_trans in Hlog.
  pose proof (rspec_binlog_flush_pending_rows_event l thd true) as Hflush.
  destruct (binlog_flush_pending_rows_event cfg env event_image l thd true)
    as [[[e l1] thd1]| |] eqn:Ef; cbn [bind] in Hlog; try discriminate.
  cbn in Hflush. destruct Hflush as [[Fa _ Fc] [extra Hkept]].
  destruct (negb (e =? 0)) eqn:Ee; [cbn in Hlog; discriminate|].
  destruct (ha_data thd1) as [d1|] eqn:Ed1; [|discriminate].
  destruct (write_cached cfg env event_image write_cache l1 thd1 (trans_log d1)
              (Some (Xid_log_event xid)) (has_incident d1) async ht pending)
    as [[[error l2] thd2]| |] eqn:Ew; cbn [bind] in Hlog; try discriminate.
  destruct (ha_data thd2); [|discriminate].
  destruct error; [cbn in Hlog; discriminate|].
  cbn in Hlog. injection Hlog as <- <-.
  apply write_cached_xid in Ew. destruct Ew as (Ho & Hb & Hinc & _).
  rewrite Hopen in Ho. symmetry in Ho. destruct (Hinc Ho) as [Hcount Hrec].
  assert (Hcount' : prepared_xids l2 = (prepared_xids l + 1) mod ulong_modulus)
    by congruence.
  split; [exact Hcount'|]. split; [congruence|]. split; [|split].
  - intros d Hd Hpos. apply Hrec.
    unfold cache_bytes in Hkept. rewrite Hd, Ed1 in Hkept.
    unfold position, my_b_tell in *. rewrite Hkept, length_app. lia.
  - intros l3 thd3 full Hrange.
    destruct (Hunlog l3 thd3 full) as (l4 & Hl4 & Hp4 & Hb4).
    exists l4. split; [exact Hl4|]. split; [|exact Hb4].
    rewrite Hp4. apply Z.mod_small. lia.
  - intros Hrange thd3 full l3 Hl3.
    destruct (Hunlog l2 thd3 full) as (l3' & Hl3' & Hp3 & _).
    rewrite Hl3 in Hl3'. injection Hl3' as <-.
    rewrite Hp3, Hcount'. unfold ulong_modulus in *.
    rewrite Zminus_mod_idemp_l. replace (prepared_xids l + 1 - 1) with (prepared_xids l) by lia.
    apply Z.mod_small. exact Hrange.
Qed.

(** ** Group commit, once disabled, stays disabled *)

Lemma gc_off_refl l : gc_off l l.
Proof. unfold gc_off; auto. Qed.

Lemma gc_off_trans l1 l2 l3 : gc_off l1 l2 -> gc_off l2 l3 -> gc_off l1 l3.
Proof. unfold gc_off; auto. Qed.

Lemma frame_gc_off l l' : frame l l' -> gc_off l l'.
Proof. now intros [_ H _]. Qed.

Lemma rspec_rgc {A} l thd (r : result (A * MYSQL_BIN_LOG * THD)) :
  rspec l thd r -> rgc l r.
Proof.
  destruct r as [[[a l1] thd1]| |]; cbn; auto using frame_gc_off.
  intros [H _]. now apply frame_gc_off.
Qed.

Lemma rgc_weaken {A} l l1 (r : result (A * MYSQL_BIN_LOG * THD)) :
  gc_off l l1 -> rgc l1 r -> rgc l r.
Proof.
  intros H. destruct r as [[[a l2] thd2]| |]; cbn; eauto using gc_off_trans.
Qed.

Lemma rgc_bind {A B} l (r : result (A * MYSQL_BIN_LOG * THD))
  (k : A * MYSQL_BIN_LOG * THD -> result (B * MYSQL_BIN_LOG * THD)) :
  rgc l r ->
  (forall a l1 thd1, rgc l1 (k (a, l1, thd1))) ->
  rgc l (bind r k).
Proof.
  intros Hr Hk. destruct r as [[[a l1] thd1]| |]; cbn in *; auto.
  eapply rgc_weaken; eauto.
Qed.

Lemma rgc_err {A} (x : A) l thd :
  rgc l (Ret (x,
              (if write_error l then l
               else sql_print_error "Error writing file" (upd_write_error true l)),
              thd)).
Proof. cbn. unfold gc_off. now destruct (write_error l). Qed.

Lemma rgc_write_cached l thd cache commit_event incident async ht pending :
  rgc l (write_cached cfg env event_image write_cache l thd cache commit_event
                      incident async ht pending).
Proof.
  unfold write_cached.
  destruct (_ && stop_new_xids l); [apply gc_off_refl|].
  destruct (is_open l); [|apply gc_off_refl].
  eapply rgc_bind.
  - destruct (0 <? my_b_tell cache); [|apply gc_off_refl].
    destruct (Log_event_write _ _ (log_file l)) as [e1 f1].
    destruct e1; [apply gc_off_refl|].
    destruct (write_cache cache _) as [code f2].
    destruct (negb (code =? 0)); [unfold rgc, gc_off; auto|].
    match goal with
    | |- context [let '(_, _) := ?x in _] => destruct x as [e3 f3]
    end.
    destruct e3; [unfold rgc, gc_off; auto|].
    set (l3 := upd_log_file f3 _).
    assert (H3 : gc_off l l3) by (unfold gc_off; auto). clearbody l3.
    assert (H4 : gc_off l (snd (if incident
                                then write_incident_unlocked event_image l3
                                else (false, l3)))).
    { destruct incident; [|exact H3].
      eapply gc_off_trans; [exact H3|].
      apply frame_gc_off, frame_write_incident_unlocked. }
    destruct (if incident then _ else _) as [e4 l4]. cbn [snd] in H4.
    destruct e4; [exact H4|].
    pose proof (frame_gc_off _ _ (frame_flush_and_sync l4 thd async ht pending))
      as H5.
    destruct (flush_and_sync cfg env l4 thd async ht pending) as [[e5 l5] thd5].
    cbn [fst snd] in H5.
    assert (H5' : gc_off l l5) by eauto using gc_off_trans.
    destruct e5; [exact H5'|].
    destruct (cache_read_error env); cbn; unfold gc_off in *; auto.
  - intros failed l1 thd1. cbn beta iota.
    destruct failed; [apply rgc_err|].
    destruct (match commit_event with Some e => is_xid_event e | None => false end).
    + unfold rgc, gc_off; auto.
    + eapply rgc_bind; [apply rspec_rgc with (thd := thd1), rspec_rotate_and_purge|].
      intros error l2 thd2. cbn beta iota.
      destruct (negb (error =? 0)); [apply rgc_err|apply gc_off_refl].
Qed.

Lemma rgc_binlog_end_trans l thd end_ev all async ht pending :
  rgc l (binlog_end_trans cfg env event_image write_cache l thd end_ev all
                          async ht pending).
Proof.
  unfold binlog_end_trans. destruct end_ev as [ev|].
  - eapply rgc_bind;
      [apply rspec_rgc with (thd := thd), rspec_binlog_flush_pending_rows_event|].
    intros e l1 thd1. cbn beta iota.
    destruct (negb (e =? 0)); [apply gc_off_refl|].
    destruct (ha_data thd1); [|exact I].
    eapply rgc_bind; [apply rgc_write_cached|].
    intros error l2 thd2. cbn beta iota.
    destruct (ha_data thd2); [apply gc_off_refl|exact I].
  - assert (Hrem : exists r, binlog_remove_pending_rows_event l thd = r
                              /\ forall c l0, r <> Wait c l0).
    { eexists; split; [reflexivity|]. unfold binlog_remove_pending_rows_event.
      destruct (negb (is_open l)); [discriminate|].
      destruct (ha_data thd); discriminate. }
    destruct Hrem as (r & -> & Hr).
    destruct r as [thd1|c l0|]; cbn [bind];
      [|now destruct (Hr c l0)|exact I].
    destruct (ha_data thd1) as [d|]; [|exact I].
    destruct (_ || _); [|apply gc_off_refl].
    eapply rgc_bind.
    + destruct (has_incident d); [|apply gc_off_refl].
      apply rspec_rgc with (thd := thd1), rspec_write_incident.
    + intros error l2 thd2. cbn beta iota.
      destruct (ha_data thd2); [apply gc_off_refl|exact I].
Qed.

Lemma rgc_binlog_rollback l thd all :
  rgc l (binlog_rollback cfg env event_image write_cache l thd all).
Proof.
  unfold binlog_rollback.
  destruct (ha_data thd) as [d|]; [|exact I].
  destruct (empty d); [apply gc_off_refl|].
  eapply rgc_bind.
  - destruct (check_write_error thd); [apply rgc_binlog_end_trans|].
    unfold trans_has_no_stmt_committed.
    destruct (ha_data thd); cbn [bind]; [|exact I].
    destruct (_ || _); [apply rgc_binlog_end_trans|].
    destruct (_ || _); [apply rgc_binlog_end_trans|apply gc_off_refl].
  - intros error l1 thd1. cbn beta iota.
    destruct (negb all); [|apply gc_off_refl].
    destruct (ha_data thd1); [apply gc_off_refl|exact I].
Qed.

Lemma rgc_log_xid l thd xid async ht pending :
  rgc l (log_xid cfg env event_image write_cache l thd xid async ht pending).
Proof.
  unfold log_xid. eapply rgc_bind; [apply rgc_binlog_end_trans|].
  intros error l1 thd1. apply gc_off_refl.
Qed.

Lemma rgc_unlog l thd log_was_full :
  rgc l (unlog cfg env event_image l thd log_was_full).
Proof.
  unfold unlog. eapply rgc_weaken.
  - destruct (unlog_prepared_xid_spec l) as (_ & _ & H). exact H.
  - apply rspec_rgc with (thd := thd), rspec_rotate_and_purge.
Qed.

Lemma rgc_binlog_savepoint_rollback l thd sv :
  rgc l (binlog_savepoint_rollback cfg env event_image l thd sv).
Proof.
  unfold binlog_savepoint_rollback.
  destruct (_ || _).
  - destruct (alloc_fails env); [apply gc_off_refl|].
    eapply rgc_bind; [apply rspec_rgc with (thd := thd), rspec_write|].
    intros e l1 thd1. apply gc_off_refl.
  - unfold binlog_trans_log_truncate.
    destruct (ha_data thd); cbn; auto using gc_off_refl.
Qed.

Lemma gc_off_binlog_savepoint_set l thd :
  match binlog_savepoint_set cfg env event_image l thd with
  | Ret (_, _, l', _) => gc_off l l'
  | Wait _ l' => gc_off l l'
  | Fault => True
  end.
Proof.
  unfold binlog_savepoint_set.
  pose proof (rspec_thd_savepos thd) as Hs.
  destruct (binlog_trans_log_savepos cfg env thd) as [[sv thd1]| |];
    cbn [bind]; [|tauto|exact I].
  destruct (alloc_fails env); [apply gc_off_refl|].
  match goal with
  | |- context [write cfg env event_image l thd1 ?q] =>
      pose proof (rspec_rgc _ _ _ (rspec_write l thd1 q)) as H;
      destruct (write cfg env event_image l thd1 q) as [[[e l1] thd2]| |]
  end; cbn in *; auto.
Qed.

Lemma gc_off_increment l thd :
  gc_off l (fst (increment_group_commit_ticket cfg l thd)).
Proof.
  unfold increment_group_commit_ticket, gc_off.
  destruct (ticket thd =? 0); [auto|].
  destruct (negb _); cbn; auto.
Qed.

Lemma gc_off_wait_loop wakeups thd : forall l,
  match wait_loop cfg wakeups l thd with
  | Ret l' => gc_off l l'
  | Wait _ l' => gc_off l l'
  | Fault => True
  end.
Proof.
  induction wakeups as [|w ws IH]; intros l; cbn [wait_loop].
  - destruct (_ && _); apply gc_off_refl.
  - destruct (_ && _) eqn:E; [|apply gc_off_refl].
    apply andb_prop in E. destruct E as [E _].
    match goal with
    | |- context [wait_loop cfg ws ?l0 thd] =>
        specialize (IH l0); destruct (wait_loop cfg ws l0 thd)
    end; unfold gc_off; auto; congruence.
Qed.

End Frames.

(** The commit of the example session: xid 42 on an open log. *)
Lemma log_xid_unlog_witness :
  prepared_xids Examples.log_after_commit
  = (prepared_xids Examples.open_log + 1) mod ulong_modulus
  /\ prep_xids_broadcasts Examples.log_after_commit
     = prep_xids_broadcasts Examples.open_log
  /\ (forall d,
      ha_data (Examples.session false false Examples.one_insert) = Some d ->
      0 < position d ->
      exists before after,
        contents (log_file Examples.log_after_commit)
        = before ++ Examples.image (Xid_log_event 42) (Z.of_nat (length before))
          ++ after)
  /\ (forall l2 thd2 log_was_full,
      0 < prepared_xids l2 < ulong_modulus ->
      exists l3,
        log_after (unlog Examples.cfg Examples.env Examples.image l2 thd2
                         log_was_full) = Some l3
        /\ prepared_xids l3 = prepared_xids l2 - 1
        /\ prep_xids_broadcasts l3
           = (prep_xids_broadcasts l2
              + if (prepared_xids l3 =? 0)%Z then 1 else 0)%nat)
  /\ (0 <= prepared_xids Examples.open_log < ulong_modulus ->
      forall thd2 log_was_full l3,
        log_after (unlog Examples.cfg Examples.env Examples.image
                         Examples.log_after_commit thd2 log_was_full) = Some l3 ->
        prepared_xids l3 = prepared_xids Examples.open_log).
Proof.
  apply (log_xid_unlog_prepared_xids Examples.cfg Examples.env Examples.image
           Examples.copy Examples.open_log
           (Examples.session false false Examples.one_insert) 42 false true 1
           Examples.log_after_commit Examples.session_after_commit);
    vm_compute; reflexivity.
Defined.

(** C3, as stated, fails in two ways.  With an empty cache [write] skips
    the XID record under [if (my_b_tell(cache) > 0)] and still counts:
    [log_xid] on the open example log reports success, [prepared_xids] is
    one more, and the log file is as it was.  On a closed log the guard
    [if (likely(is_open()))] skips both, and [log_xid] reports success
    with the counter and the file as they were. *)
Lemma log_xid_success_without_xid_record :
  (exists l' thd',
      log_xid Examples.cfg Examples.env Examples.image Examples.copy
              Examples.open_log
              (Examples.session false false
                 (reset (max_binlog_cache_size Examples.cfg)
                        Examples.one_insert))
              42 false true 1
      = Ret (1, l', thd')
      /\ prepared_xids l' = prepared_xids Examples.open_log + 1
      /\ contents (log_file l') = contents (log_file Examples.open_log))
  /\ (exists l' thd',
        log_xid Examples.cfg Examples.env Examples.image Examples.copy
                Examples.closed_log
                (Examples.session false false Examples.one_insert)
                42 false true 1
        = Ret (1, l', thd')
        /\ prepared_xids l' = prepared_xids Examples.closed_log
        /\ prepared_xids l'
           <> (prepared_xids Examples.closed_log + 1) mod ulong_modulus
        /\ contents (log_file l') = contents (log_file Examples.closed_log)).
Proof.
  split.
  - do 2 eexists. split; [vm_compute; reflexivity|].
    split; reflexivity.
  - do 2 eexists. split; [vm_compute; reflexivity|].
    split; [reflexivity|]. split; [|reflexivity].
    vm_compute. discriminate.
Qed.

(** Every later call leaves a disabled group commit disabled. *)
Lemma perform_keeps_group_commit_off cfg event_image write_cache c l :
  group_commit_allowed l = false ->
  group_commit_allowed (perform cfg event_image write_cache c l) = false.
Proof.
  intros H.
  destruct c as [env thd ht|thd|wakeups thd|msg|env thd async ht pend
                |env thd flags log_maybe_full|env thd event_info
                |env thd xid async ht pend|env thd log_was_full|env thd all
                |env thd|env thd sv]; cbn [perform].
  - now apply (frame_gc_off _ _ (frame_order_for_group_commit cfg env l thd ht)).
  - now apply gc_off_increment.
  - unfold wait_for_group_commit_order.
    destruct (ticket thd =? 0); [reflexivity|].
    pose proof (gc_off_wait_loop cfg wakeups thd l) as Hw.
    destruct (wait_loop cfg wakeups l thd); auto.
  - reflexivity.
  - now apply (frame_gc_off _ _ (frame_flush_and_sync cfg env l thd async ht pend)).
  - pose proof (rspec_rgc _ _ _
                  (rspec_rotate_and_purge cfg env event_image l thd flags
                                          log_maybe_full)) as Hr.
    destruct (rotate_and_purge _ _ _ _ _ _ _) as [[[a l1] t1]| |]; cbn in *; auto.
  - pose proof (rspec_rgc _ _ _
                  (rspec_write cfg env event_image l thd event_info)) as Hr.
    destruct (write _ _ _ _ _ _) as [[[a l1] t1]| |]; cbn in *; auto.
  - pose proof (rgc_log_xid cfg env event_image write_cache l thd xid async ht
                            pend) as Hr.
    destruct (log_xid _ _ _ _ _ _ _ _ _ _) as [[[a l1] t1]| |]; cbn in *; auto.
  - pose proof (rgc_unlog cfg env event_image l thd log_was_full) as Hr.
    destruct (unlog _ _ _ _ _ _) as [[[a l1] t1]| |]; cbn in *; auto.
  - pose proof (rgc_binlog_rollback cfg env event_image write_cache l thd all)
      as Hr.
    destruct (binlog_rollback _ _ _ _ _ _ _) as [[[a l1] t1]| |]; cbn in *; auto.
  - pose proof (gc_off_binlog_savepoint_set cfg env event_image l thd) as Hr.
    destruct (binlog_savepoint_set _ _ _ _ _) as [[[[a sv] l1] t1]| |];
      cbn in *; auto.
  - pose proof (rgc_binlog_savepoint_rollback cfg env event_image l thd sv) as Hr.
    destruct (binlog_savepoint_rollback _ _ _ _ _ _) as [[[a l1] t1]| |];
      cbn in *; auto.
Qed.

Lemma perform_all_keeps_group_commit_off cfg event_image write_cache calls :
  forall l,
    group_commit_allowed l = false ->
    group_commit_allowed (perform_all cfg event_image write_cache calls l) = false.
Proof.
  induction calls as [|c calls IH]; intros l H; cbn [perform_all]; auto.
  apply IH. now apply perform_keeps_group_commit_off.
Qed.

(** ** Ticket rollover *)

(** C8.  When [order_for_group_commit] gets as far as handing out a
    ticket and the ticket it hands out plus one is 0, it returns 1 (the
    session is not ordered), group commit is disabled and stays disabled
    through every later call, a later [wait_for_group_commit_order] of the
    session returns without sleeping, and the [flush_and_sync] that made
    the call syncs at once on the path that does not wait for a group
    ([binlog_fsync_notry] and [binlog_fsync_nowait] go up,
    [binlog_fsync_wait] does not). *)
Theorem ticket_rollover_disables_group_commit
  (cfg : sys_vars) (env : Env) (event_image : Log_event -> Z -> list byte)
  (write_cache : IO_CACHE -> IO_CACHE -> Z * IO_CACHE)
  (l : MYSQL_BIN_LOG) (thd : THD) (ht : bool) :
  ticket thd = 0 ->
  group_commit_allowed l = true ->
  force_binlog_order cfg = true ->
  ht = true ->
  is_ordered_commit env = true ->
  (next_ticket l + 1) mod ulonglong_modulus = 0 ->
  let '(r, l', thd') := order_for_group_commit cfg env l thd ht in
  r = 1
  /\ ticket thd' = next_ticket l
  /\ group_commit_allowed l' = false
  /\ (forall calls,
      group_commit_allowed (perform_all cfg event_image write_cache calls l')
      = false)
  /\ (forall wakeups,
      exists l'', wait_for_group_commit_order cfg wakeups l' thd' = Ret l'')
  /\ (forall pending,
      flush_io_cache_fails env = false ->
      (sync_binlog_period cfg <=? (sync_binlog_counter l + 1) mod ulong_modulus)
      && negb (sync_binlog_period cfg =? 0) = true ->
      let '(err, l2, _) := flush_and_sync cfg env l thd false ht pending in
      err = my_sync_fails env
      /\ group_commit_allowed l2 = false
      /\ binlog_fsync_notry l2 = binlog_fsync_notry l + 1
      /\ binlog_fsync_nowait l2 = binlog_fsync_nowait l + 1
      /\ binlog_fsync_wait l2 = binlog_fsync_wait l).
Proof.
  intros Ht Hg Hf Hht Ho Hroll. subst ht.
  assert (Hcall : forall l0, group_commit_allowed l0 = true ->
            next_ticket l0 = next_ticket l ->
            order_for_group_commit cfg env l0 thd true
            = (1, disable_group_commit
                    (upd_next_ticket ((next_ticket l0 + 1) mod ulonglong_modulus) l0)
                    "ticket rolled over",
               upd_ticket (next_ticket l0) thd)).
  { intros l0 Hg0 Hn0. unfold order_for_group_commit.
    rewrite Ht, Hg0, Hf, Ho. cbn [Z.eqb negb orb]. cbn [ticket upd_ticket].
    rewrite Hn0, Hroll. reflexivity. }
  rewrite (Hcall l Hg eq_refl).
  split; [reflexivity|]. split; [reflexivity|]. split; [reflexivity|].
  split; [|split].
  - intros calls. now apply perform_all_keeps_group_commit_off.
  - intros wakeups. unfold wait_for_group_commit_order.
    destruct (_ =? 0); [eauto|].
    destruct wakeups; cbn; eauto.
  - intros pending Hflush Hdue. unfold flush_and_sync.
    rewrite Hflush. cbn [negb].
    change (sync_binlog_counter
              (upd_sync_binlog_counter
                 ((sync_binlog_counter l + 1) mod ulong_modulus) l))
      with ((sync_binlog_counter l + 1) mod ulong_modulus).
    rewrite Hdue.
    rewrite Hcall by (cbn; auto). cbn [Z.eqb].
    rewrite Hf. cbn. repeat split.
Qed.

(** A log about to hand out the last ticket, and what the call does
    there. *)
Lemma ticket_rollover_witness :
  let '(r, l', thd') :=
    order_for_group_commit Examples.cfg Examples.env Examples.last_ticket_log
      (Examples.session false false Examples.one_insert) true in
  r = 1
  /\ ticket thd' = next_ticket Examples.last_ticket_log
  /\ group_commit_allowed l' = false
  /\ (forall calls,
      group_commit_allowed
        (perform_all Examples.cfg Examples.image Examples.copy calls l')
      = false)
  /\ (forall wakeups,
      exists l'', wait_for_group_commit_order Examples.cfg wakeups l' thd'
                  = Ret l'')
  /\ (forall pending,
      flush_io_cache_fails Examples.env = false ->
      (sync_binlog_period Examples.cfg
       <=? (sync_binlog_counter Examples.last_ticket_log + 1) mod ulong_modulus)
      && negb (sync_binlog_period Examples.cfg =? 0) = true ->
      let '(err, l2, _) :=
        flush_and_sync Examples.cfg Examples.env Examples.last_ticket_log
          (Examples.session false false Examples.one_insert) false true pending in
      err = my_sync_fails Examples.env
      /\ group_commit_allowed l2 = false
      /\ binlog_fsync_notry l2 = binlog_fsync_notry Examples.last_ticket_log + 1
      /\ binlog_fsync_nowait l2 = binlog_fsync_nowait Examples.last_ticket_log + 1
      /\ binlog_fsync_wait l2 = binlog_fsync_wait Examples.last_ticket_log).
Proof.
  apply (ticket_rollover_disables_group_commit Examples.cfg Examples.env
           Examples.image Examples.copy Examples.last_ticket_log
           (Examples.session false false Examples.one_insert) true);
    reflexivity.
Defined.

(** ** Rollback after a write error *)

(** C7, as stated, fails: in [binlog_rollback] the inner call of
    [check_write_error] repeats the outer one on an unchanged session, so
    the [set_incident()] under it is reached.  Here a statement that
    updated a non-transactional table failed with [ER_ERROR_ON_WRITE]:
    the outer test holds, the inner condition holds, and the rollback
    turns the cache's [incident] flag from false to true. *)
Lemma binlog_rollback_reaches_set_incident :
  check_write_error Examples.failed_statement = true
  /\ rollback_sets_incident Examples.failed_statement = true
  /\ option_map incident (ha_data Examples.failed_statement) = Some false
  /\ match binlog_rollback Examples.cfg Examples.env Examples.image
                           Examples.copy Examples.open_log
                           Examples.failed_statement false with
     | Ret (_, _, thd') => option_map incident (ha_data thd') = Some true
     | _ => False
     end.
Proof. vm_compute. repeat split. Qed.

(** C7, amended.  In the branch of [binlog_rollback] taken when
    [check_write_error(thd)] holds, the repeated [check_write_error(thd)]
    holds again, so the inner branch runs exactly when the statement has
    updated a non-transactional table or [OPTION_KEEP_LOG] is set, and it
    sets the incident flag: a statement rollback inside a transaction
    returns 0 with the flag set in that case (and as it was otherwise). *)
Theorem binlog_rollback_sets_incident_after_write_error
  (cfg : sys_vars) (env : Env) (event_image : Log_event -> Z -> list byte)
  (write_cache : IO_CACHE -> IO_CACHE -> Z * IO_CACHE)
  (l : MYSQL_BIN_LOG) (thd : THD) (d : binlog_trx_data) :
  ha_data thd = Some d ->
  empty d = false ->
  check_write_error thd = true ->
  rollback_sets_incident thd
  = (stmt_has_updated_non_trans_table thd || OPTION_KEEP_LOG (ctx thd))
  /\ (OPTION_BEGIN (ctx thd) || OPTION_NOT_AUTOCOMMIT (ctx thd) = true ->
      exists d',
        binlog_rollback cfg env event_image write_cache l thd false
        = Ret (0, l, upd_ha_data (Some d') thd)
        /\ incident d'
           = (stmt_has_updated_non_trans_table thd || OPTION_KEEP_LOG (ctx thd)
              || incident d)).
Proof.
  intros Hd He Hc.
  assert (Hcond : rollback_sets_incident thd
                  = (stmt_has_updated_non_trans_table thd
                     || OPTION_KEEP_LOG (ctx thd))).
  { unfold rollback_sets_incident. rewrite Hc. apply andb_true_r. }
  split; [exact Hcond|].
  intros Htrans.
  unfold binlog_rollback. rewrite Hd, He, Hc, Hcond.
  unfold binlog_end_trans, binlog_remove_pending_rows_event.
  destruct (stmt_has_updated_non_trans_table thd || OPTION_KEEP_LOG (ctx thd));
    destruct (negb (is_open l));
    cbn [bind ha_data upd_ha_data ctx orb negb]; rewrite ?Hd;
    cbn [bind ha_data upd_ha_data ctx orb negb]; rewrite Htrans;
    cbn [bind ha_data upd_ha_data ctx orb negb];
    eexists; (split; [reflexivity|]); cbn; reflexivity.
Qed.

(** The failed statement of the example meets the hypotheses. *)
Lemma binlog_rollback_sets_incident_witness :
  rollback_sets_incident Examples.failed_statement
  = (stmt_has_updated_non_trans_table Examples.failed_statement
     || OPTION_KEEP_LOG (ctx Examples.failed_statement))
  /\ (OPTION_BEGIN (ctx Examples.failed_statement)
      || OPTION_NOT_AUTOCOMMIT (ctx Examples.failed_statement) = true ->
      exists d',
        binlog_rollback Examples.cfg Examples.env Examples.image Examples.copy
                        Examples.open_log Examples.failed_statement false
        = Ret (0, Examples.open_log,
               upd_ha_data (Some d') Examples.failed_statement)
        /\ incident d'
           = (stmt_has_updated_non_trans_table Examples.failed_statement
              || OPTION_KEEP_LOG (ctx Examples.failed_statement)
              || incident (upd_before_stmt_pos 0 Examples.one_insert))).
Proof.
  apply (binlog_rollback_sets_incident_after_write_error
           Examples.cfg Examples.env Examples.image Examples.copy
           Examples.open_log Examples.failed_statement
           (upd_before_stmt_pos 0 Examples.one_insert));
    reflexivity.
Defined.

(** ** Rollback to a savepoint *)

Lemma savepoint_set_position cfg env event_image l thd d r sv l' thd' :
  ha_data thd = Some d ->
  binlog_savepoint_set cfg env event_image l thd = Ret (r, sv, l', thd') ->
  sv = position d.
Proof.
  intros Hd. unfold binlog_savepoint_set, binlog_trans_log_savepos.
  rewrite Hd. cbv iota. rewrite Hd. cbn [bind].
  destruct (alloc_fails env); [intros H; now inversion H|].
  destruct (write _ _ _ _ _ _) as [[[e l1] thd1]| |]; cbn [bind];
    [|discriminate|discriminate].
  intros H. now inversion H.
Qed.

End BinlogFacts.

(* ================================================================== *)
(** * Properties of crash recovery *)

Module RecoveryFacts.
Import Recovery.

Lemma clear_in_use_flag_length (image : list byte) :
  (length image <= length (clear_in_use_flag image))%nat.
Proof.
  unfold clear_in_use_flag, IN_USE_FLAG_OFFSET.
  rewrite !length_app, length_firstn, repeat_length, length_skipn. cbn [length].
  lia.
Qed.

(** C2, as stated, fails: after a valid event read outside a transaction
    [valid_pos] stays where it was when the log cache reports an error
    ([log->error] is not 0), because the source tests
    [!log->error && !in_transaction]. *)
Lemma valid_pos_not_advanced_after_read_error :
  exists s',
    recover_event RecoveryExamples.read_with_error
                  RecoveryExamples.outside_transaction = Some s'
    /\ in_transaction s' = false
    /\ valid_pos s' = 100
    /\ tell_after RecoveryExamples.read_with_error = 200.
Proof. eexists. repeat split. Qed.

(** C2, amended.  During recovery of the last log file [valid_pos] is
    advanced to the offset just past an event exactly when the log cache
    reports no read error and the scan is not inside a transaction after
    that event; otherwise it is left alone.  Afterwards the file gets
    shorter only when [valid_pos] is positive and strictly less than its
    size: on success it is then cut to [valid_pos] bytes and its in-use
    flag is cleared, with [valid_pos] at or past the size only the flag is
    cleared, and with [valid_pos] 0 the file is not touched. *)
Theorem recover_valid_pos_and_trim :
  (forall r s s',
      recover_event r s = Some s' ->
      valid_pos s'
      = if (log_error r =? 0) && negb (in_transaction s')
        then tell_after r else valid_pos s)
  /\ (forall env image first reads error vp image',
         open env image first reads = (error, vp, image') ->
         ((length image' < length image)%nat ->
          0 < vp < Z.of_nat (length image))
         /\ (error = 0 -> 0 < vp < Z.of_nat (length image) ->
             image' = clear_in_use_flag (firstn (Z.to_nat vp) image))
         /\ (error = 0 -> Z.of_nat (length image) <= vp -> 0 < vp ->
             image' = clear_in_use_flag image)
         /\ (error = 0 -> vp <= 0 -> image' = image)).
Proof.
  split.
  - intros r s s'. unfold recover_event.
    destruct (is_query (ev r) "COMMIT").
    + intros H. injection H as <-. reflexivity.
    + destruct (ev r); try (intros H; injection H as <-; reflexivity).
      destruct (insert_fails r); [discriminate|].
      intros H. injection H as <-. reflexivity.
  - intros env image first reads error vp image'. unfold open.
    set (found := match first with
                  | Some r =>
                      match ev r with
                      | Format_description_log_event true =>
                          recover env reads (tell_after r)
                      | _ => (0, 0)
                      end
                  | None => (0, 0)
                  end).
    destruct found as [e v].
    destruct (negb (e =? 0)) eqn:He.
    { intros H. injection H as <- <- <-.
      apply negb_true_iff, Z.eqb_neq in He.
      repeat split; intros; lia || congruence. }
    apply negb_false_iff, Z.eqb_eq in He. subst e.
    destruct (0 <? v) eqn:Hv.
    2:{ intros H. injection H as <- <- <-. apply Z.ltb_ge in Hv.
        repeat split; intros; lia || congruence. }
    apply Z.ltb_lt in Hv.
    destruct (my_open_fails env).
    { intros H. injection H as <- <- <-. repeat split; intros; lia || congruence. }
    destruct (v <? Z.of_nat (length image)) eqn:Hlt.
    + apply Z.ltb_lt in Hlt.
      destruct (my_chsize_fails env).
      { intros H. injection H as <- <- <-. repeat split; intros; lia || congruence. }
      destruct (my_pwrite_fails env); intros H; injection H as <- <- <-;
        repeat split; intros; try lia; try congruence.
    + apply Z.ltb_ge in Hlt.
      destruct (my_pwrite_fails env); intros H; injection H as <- <- <-;
        repeat split; intros; try lia; try congruence.
      pose proof (clear_in_use_flag_length image). lia.
Qed.

(** An event read without error outside a transaction moves [valid_pos]
    from 100 to the 200 where the event ends. *)
Lemma recover_valid_pos_and_trim_witness :
  exists s',
    recover_event RecoveryExamples.clean_read
                  RecoveryExamples.outside_transaction = Some s'
    /\ valid_pos s' = 200.
Proof.
  eexists. split; [reflexivity|].
  exact (proj1 recover_valid_pos_and_trim RecoveryExamples.clean_read
           RecoveryExamples.outside_transaction _ eq_refl).
Defined.

End RecoveryFacts.

(* ================================================================== *)
(** * The memory-mapped coordinator: the first [log_xid] *)

Module MmapFacts.
Import Mmap.

(** C10.  [log_xid] is written to return the offset of the slot it
    takes, never 0, or 0 when the sync fails.  On a freshly opened log it
    does neither: [open] leaves [ptr] of every page null (the array is
    zero-filled and the loop never assigns [ptr]), so the search
    [while ( *p->ptr)] of the first [log_xid] reads through the null
    pointer.  This holds for every mapping address, every page of at least
    13 bytes and every xid. *)
Theorem log_xid_after_open_reads_null
  (addr opt_tc_log_size page_size total_ha_2pc xid : Z) (msync_fails : bool)
  (t : TC_LOG_MMAP) :
  0 < addr ->
  13 <= page_size ->
  open addr opt_tc_log_size page_size total_ha_2pc = Some t ->
  (forall pg, In pg (pages t) -> ptr pg = 0)
  /\ log_xid msync_fails t xid = Crashes.
Proof.
  intros Hdata Hpage. unfold open.
  destruct (addr =? MAP_FAILED); [discriminate|].
  destruct (map _ _) as [|pg0 rest] eqn:Hmap; [discriminate|].
  intros H. injection H as <-.
  assert (Hptr : forall pg, In pg (pg0 :: rest) -> ptr pg = 0).
  { intros pg Hin. rewrite <- Hmap in Hin. apply in_map_iff in Hin.
    destruct Hin as (i & <- & _). reflexivity. }
  split.
  - cbn [pages]. intros pg [<-|Hin].
    + cbn. apply Hptr. now left.
    + apply Hptr. now right.
  - unfold log_xid. cbn [active pages nth_error].
    assert (Hfree : (free (first_page pg0 page_size) =? 0) = false).
    { cbn. apply Z.eqb_neq. unfold TC_LOG_HEADER_SIZE, sizeof_my_xid. cbn.
      intros H0. apply Z.div_small_iff in H0; lia. }
    rewrite Hfree. cbn [active pages nth_error first_page ptr].
    rewrite (Hptr pg0) by now left.
    cbn [find_empty_slot]. unfold load, word_of. cbn [data].
    destruct (0 <=? 0 - addr) eqn:E; [apply Z.leb_le in E; lia|].
    reflexivity.
Qed.

(** A 24576-byte log of 4096-byte pages mapped at address 1000000. *)
Lemma log_xid_after_open_witness :
  exists t,
    open 1000000 24576 4096 2 = Some t
    /\ (forall pg, In pg (pages t) -> ptr pg = 0)
    /\ log_xid false t 7 = Crashes.
Proof.
  eexists. split; [reflexivity|].
  apply (log_xid_after_open_reads_null 1000000 24576 4096 2 7 false);
    [lia|lia|reflexivity].
Defined.

End MmapFacts.

(* ================================================================== *)
(** * Rotation against a commit that sleeps in [flush_and_sync] *)

Module RotationFacts.
Import Rotation.

(** C4.  [new_file_impl] waits for [prepared_xids] to be 0 before it
    switches files and asserts [!prepared_xids] after its wait, and an
    interleaving gets past it: a commit that passed the [stop_new_xids]
    test and then sleeps in the timed wait of [flush_and_sync] has given up
    [LOCK_log]; it counts its XID after the rotation has seen the counter
    at 0 and before the rotation has [LOCK_log] again.  At the end of
    [race] the rotating thread holds both locks and stands before [close]
    and [open] with [prepared_xids] = 1, and its next step switches to the
    new file while the XID prepared in the old one is still counted. *)
Theorem rotation_reaches_close_with_prepared_xid :
  exists s s',
    run race (initial true) = Some s
    /\ pc_rotator s = R_close_and_open
    /\ LOCK_log s = Some Rotator
    /\ LOCK_index s = Some Rotator
    /\ stop_new_xids s = true
    /\ prepared_xids s = 1
    /\ xid_written_to s = Some (active_log s)
    /\ step Rotator s = Some s'
    /\ active_log s' = S (active_log s)
    /\ prepared_xids s' = 1.
Proof. do 2 eexists. vm_compute. repeat split. Qed.

(** ** Without the sleep in [flush_and_sync] *)






End RotationFacts.

(* ================================================================== *)
(** * [write_cache]: the end positions in the copied headers *)

Module WriteCacheFacts.
Import Cache WriteCache.

(** ** Bytes and buffers *)

Lemma skipn_length_app {A} (p r : list A) : skipn (length p) (p ++ r) = r.
Proof. induction p; cbn; auto. Qed.

Lemma firstn_length_app {A} (x s : list A) : firstn (length x) (x ++ s) = x.
Proof. induction x; cbn; congruence. Qed.

Lemma bytes_at_app (p x s : list byte) off n :
  off = Z.of_nat (length p) -> n = Z.of_nat (length x) ->
  bytes_at (p ++ x ++ s) off n = x.
Proof.
  intros -> ->. unfold bytes_at. rewrite !Nat2Z.id.
  now rewrite skipn_length_app, firstn_length_app.
Qed.

Lemma bytes_at_0 (x s : list byte) n :
  n = Z.of_nat (length x) -> bytes_at (x ++ s) 0 n = x.
Proof. intros H. apply (bytes_at_app [] x s); auto. Qed.

Lemma memcpy_app (p x s y : list byte) off :
  off = Z.of_nat (length p) -> length y = length x ->
  memcpy (p ++ x ++ s) off y = p ++ y ++ s.
Proof.
  intros -> Hy. unfold memcpy. rewrite Nat2Z.id, firstn_length_app.
  rewrite Hy, <- length_app, (app_assoc p x s), skipn_length_app. reflexivity.
Qed.

Lemma memcpy_0 (x s y : list byte) :
  length y = length x -> memcpy (x ++ s) 0 y = y ++ s.
Proof. intros H. apply (memcpy_app [] x s y); auto. Qed.

(** Two ways of cutting one list: the shorter prefix is a prefix of the
    longer one. *)
Lemma prefix_split {A} (X r Y s : list A) :
  X ++ r = Y ++ s -> (length Y <= length X)%nat ->
  exists m, X = Y ++ m /\ s = m ++ r.
Proof.
  revert X. induction Y as [|y Y IH]; intros X H Hlen.
  - exists X. auto.
  - destruct X as [|x X]; [cbn in Hlen; lia|].
    cbn in H. injection H as -> H. cbn in Hlen.
    destruct (IH X H) as (m & -> & ->); [lia|]. exists m. auto.
Qed.

Lemma length_int4store v : length (int4store v) = 4%nat.
Proof. reflexivity. Qed.

Lemma uint4korr_int4store v : uint4korr (int4store v) = v mod uint_modulus.
Proof.
  unfold uint4korr, int4store, uint_modulus. cbn [nth].
  change 255 with (Z.ones 8). rewrite !Z.land_ones by lia.
  rewrite !Z.shiftl_mul_pow2, !Z.shiftr_div_pow2 by lia.
  change (2 ^ 32) with (256 * (256 * (256 * 256))).
  change (2 ^ 8) with 256. change (2 ^ 16) with (256 * 256).
  change (2 ^ 24) with (256 * 256 * 256).
  rewrite !Z.rem_mul_r by lia.
  rewrite <- !Z.div_div by lia.
  lia.
Qed.

(** ** The fields of an event *)

(** An event cut at its two header fields. *)
Lemma event_fields e :
  well_formed e ->
  exists a len pos c,
    e = a ++ len ++ pos ++ c
    /\ length a = 9%nat /\ length len = 4%nat /\ length pos = 4%nat
    /\ (2 <= length c)%nat
    /\ uint4korr len = Z.of_nat (length e)
    /\ bytes_at e LOG_POS_OFFSET 4 = pos.
Proof.
  intros [Hlen Hfield]. unfold LOG_EVENT_HEADER_LEN in Hlen.
  exists (firstn 9 e), (bytes_at e EVENT_LEN_OFFSET 4),
         (bytes_at e LOG_POS_OFFSET 4), (skipn 17 e).
  assert (H9 : length (firstn 9 e) = 9%nat) by (rewrite length_firstn; lia).
  assert (H4 : length (bytes_at e EVENT_LEN_OFFSET 4) = 4%nat).
  { unfold bytes_at. rewrite length_firstn, length_skipn.
    unfold EVENT_LEN_OFFSET. lia. }
  assert (H4' : length (bytes_at e LOG_POS_OFFSET 4) = 4%nat).
  { unfold bytes_at. rewrite length_firstn, length_skipn.
    unfold LOG_POS_OFFSET. lia. }
  repeat split; auto.
  - unfold bytes_at, EVENT_LEN_OFFSET, LOG_POS_OFFSET.
    change (Z.to_nat 9) with 9%nat. change (Z.to_nat 13) with (4 + 9)%nat.
    change (Z.to_nat 4) with 4%nat. change 17%nat with (4 + (4 + 9))%nat.
    rewrite <- !skipn_skipn. rewrite !firstn_skipn. reflexivity.
  - rewrite length_skipn. lia.
Qed.

Lemma relocate_fields group a len pos c :
  length a = 9%nat -> length len = 4%nat -> length pos = 4%nat ->
  relocate group (a ++ len ++ pos ++ c)
  = a ++ len ++ int4store ((uint4korr pos + group) mod uint_modulus) ++ c.
Proof.
  intros Ha Hl Hp. unfold relocate.
  assert (Hal : length (a ++ len) = Z.to_nat LOG_POS_OFFSET)
    by (rewrite length_app, Ha, Hl; reflexivity).
  rewrite (app_assoc a len (pos ++ c)).
  rewrite (bytes_at_app (a ++ len) pos c)
    by (rewrite ?Hal, ?Hp; reflexivity).
  rewrite <- Hal, firstn_length_app.
  replace (length (a ++ len) + 4)%nat with (length ((a ++ len) ++ pos))
    by (rewrite (length_app (a ++ len)); lia).
  rewrite (app_assoc (a ++ len) pos c), skipn_length_app.
  now rewrite <- app_assoc.
Qed.

Lemma length_relocate group e :
  well_formed e -> length (relocate group e) = length e.
Proof.
  intros H. destruct (event_fields e H) as (a & len & pos & c & -> & Ha & Hl & Hp & _).
  rewrite relocate_fields by assumption. rewrite !length_app, length_int4store. lia.
Qed.

(** ** The loop over the headers of one buffer *)

Ltac consts :=
  unfold short, LOG_EVENT_HEADER_LEN, LOG_POS_OFFSET, EVENT_LEN_OFFSET,
    uint_modulus in *.

Lemma event_length e : event e -> 19 <= Z.of_nat (length e) < 2 ^ 31.
Proof. intros [[H _] H']. consts. lia. Qed.

Lemma fix_headers_exit fuel group buf L h carry header :
  L <= h ->
  fix_headers (S fuel) group buf L h carry header
  = Some (buf, L, h, carry, header).
Proof.
  intros H. cbn [fix_headers].
  destruct (h <? L) eqn:E; [apply Z.ltb_lt in E; lia|reflexivity].
Qed.

(** The headers that start in [buf] at or after [h] get their end
    position moved, one event after the other; the loop ends past the
    buffer, or at a header cut by the end of the buffer, whose first part
    [x] is then saved in [header]. *)
Lemma fix_headers_events group rest evs :
  forall fuel buf L pre h carry0 header0,
    Forall event evs ->
    buf ++ rest = pre ++ concat evs ->
    Z.of_nat (length pre) = h ->
    L = Z.of_nat (length buf) ->
    short buf ->
    h - L < 2 ^ 31 ->
    length header0 = 19%nat ->
    (2 <= fuel)%nat ->
    L - h + 2 <= Z.of_nat fuel ->
    (exists buf' pre' evs',
        fix_headers fuel group buf L h carry0 header0
        = Some (buf', L, Z.of_nat (length pre'), carry0, header0)
        /\ L <= Z.of_nat (length pre')
        /\ Z.of_nat (length pre') - L < 2 ^ 31
        /\ length buf' = length buf
        /\ buf' ++ rest = pre' ++ concat evs'
        /\ Forall event evs'
        /\ pre ++ concat (map (relocate group) evs)
           = pre' ++ concat (map (relocate group) evs'))
    \/ (exists pre' x e2 evs' header',
        fix_headers fuel group buf L h carry0 header0
        = Some (pre' ++ x, Z.of_nat (length pre'), Z.of_nat (length pre'),
                Z.of_nat (length x), header')
        /\ (0 < length x < 19)%nat
        /\ event (x ++ e2)
        /\ rest = e2 ++ concat evs'
        /\ Forall event evs'
        /\ firstn (length x) header' = x
        /\ length header' = 19%nat
        /\ pre ++ concat (map (relocate group) evs)
           = pre' ++ relocate group (x ++ e2)
             ++ concat (map (relocate group) evs')).
Proof.
  induction evs as [|e evs IH];
    intros fuel buf L pre h carry0 header0 Hev Hcut Hpre HL Hshort Hh Hhdr
           Hfuel2 Hfuel.
  - (* nothing starts in this buffer *)
    left. exists buf, pre, []. cbn in Hcut. rewrite app_nil_r in Hcut.
    assert (L <= h).
    { subst L h. rewrite <- Hcut, length_app. lia. }
    destruct fuel as [|fuel]; [lia|].
    rewrite fix_headers_exit by assumption. subst h.
    repeat split; auto; try lia.
    cbn. now rewrite app_nil_r.
  - destruct fuel as [|fuel]; [lia|].
    destruct (Z.le_gt_cases L h) as [Hout|Hin].
    { left. exists buf, pre, (e :: evs).
      rewrite fix_headers_exit by assumption. subst h.
      split; [reflexivity|]. split; [lia|]. split; [lia|]. auto. }
    pose proof (Forall_inv Hev) as He. pose proof (Forall_inv_tail Hev) as Hevs.
    pose proof (event_length e He) as Hlen.
    cbn [concat] in Hcut. cbn [fix_headers].
    assert (E1 : (h <? L) = true) by (apply Z.ltb_lt; lia). rewrite E1.
    assert (Hmod : (h + LOG_EVENT_HEADER_LEN) mod uint_modulus = h + 19).
    { consts. apply Z.mod_small. lia. }
    rewrite Hmod.
    destruct (L <? h + 19) eqn:E2.
    + (* the header is cut by the end of the buffer *)
      apply Z.ltb_lt in E2. right.
      destruct (prefix_split buf rest pre (e ++ concat evs) Hcut)
        as (x & Hbuf & Hx); [lia|].
      assert (Hxlen : Z.of_nat (length x) = L - h).
      { subst L h. rewrite Hbuf, length_app. lia. }
      destruct (prefix_split e (concat evs) x rest Hx) as (e2 & He2 & Hrest);
        [lia|].
      exists pre, x, e2, evs,
        (memcpy header0 0 x).
      assert (Hbytes : bytes_at buf h (L - h) = x).
      { rewrite Hbuf. rewrite <- (app_nil_r x) at 1.
        apply bytes_at_app; lia. }
      rewrite Hbytes. destruct fuel as [|fuel]; [lia|].
      rewrite fix_headers_exit by lia.
      rewrite <- Hxlen, <- Hpre, <- Hbuf.
      assert (Hmem : memcpy header0 0 x = x ++ skipn (length x) header0).
      { rewrite <- (firstn_skipn (length x) header0) at 1.
        apply memcpy_0. rewrite length_firstn. lia. }
      subst e.
      split; [reflexivity|]. split; [lia|]. split; [exact He|].
      split; [exact Hrest|]. split; [exact Hevs|].
      rewrite Hmem. split; [apply firstn_length_app|].
      split; [rewrite length_app, length_skipn; lia|reflexivity].
    + (* a whole header *)
      apply Z.ltb_ge in E2.
      assert (E3 : (Z.of_nat (length buf) <? h + LOG_EVENT_HEADER_LEN) = false).
      { apply Z.ltb_ge. consts. lia. }
      rewrite E3.
      destruct He as [Hwf Hbound].
      destruct (event_fields e Hwf)
        as (a & len & pos & c & Hfields & Ha & Hl & Hp & Hc & Hlenf & _).
      assert (Hcut' : buf ++ rest
                      = (pre ++ a ++ len ++ pos) ++ c ++ concat evs).
      { rewrite Hcut, Hfields. now rewrite <- !app_assoc. }
      destruct (prefix_split buf rest _ _ Hcut') as (m & Hbuf & Hm).
      { rewrite !length_app. lia. }
      assert (Hbuf1 : buf = (pre ++ a ++ len) ++ pos ++ m).
      { rewrite Hbuf. now rewrite <- !app_assoc. }
      assert (Hpos : bytes_at buf (h + LOG_POS_OFFSET) 4 = pos).
      { rewrite Hbuf1. apply bytes_at_app; [rewrite !length_app; consts; lia|lia]. }
      rewrite Hpos.
      set (val := (uint4korr pos + group) mod uint_modulus).
      assert (Hmem : memcpy buf (h + LOG_POS_OFFSET) (int4store val)
                     = (pre ++ a) ++ len ++ int4store val ++ m).
      { rewrite Hbuf1.
        rewrite memcpy_app;
          [now rewrite <- !app_assoc|rewrite !length_app; consts; lia
          |rewrite length_int4store; lia]. }
      rewrite Hmem.
      assert (Hlenb : bytes_at ((pre ++ a) ++ len ++ int4store val ++ m)
                               (h + EVENT_LEN_OFFSET) 4 = len).
      { apply bytes_at_app; [rewrite !length_app; consts; lia|lia]. }
      rewrite Hlenb, Hlenf.
      assert (Hmod' : (h + Z.of_nat (length e)) mod uint_modulus
                      = h + Z.of_nat (length e)).
      { consts. apply Z.mod_small. lia. }
      rewrite Hmod'.
      assert (Hrel : relocate group e = a ++ len ++ int4store val ++ c).
      { rewrite Hfields. now apply relocate_fields. }
      assert (Hlenrel : length (relocate group e) = length e)
        by now apply length_relocate.
      specialize (IH fuel ((pre ++ a) ++ len ++ int4store val ++ m) L
                     (pre ++ relocate group e) (h + Z.of_nat (length e))
                     carry0 header0 Hevs).
      destruct IH as [IH|IH].
      * rewrite Hrel, <- !app_assoc. rewrite Hm. reflexivity.
      * rewrite length_app, Hlenrel. lia.
      * rewrite HL, Hbuf. rewrite !length_app, length_int4store. lia.
      * unfold short in *. rewrite Hbuf in Hshort.
        rewrite !length_app in *. rewrite length_int4store. lia.
      * lia.
      * assumption.
      * lia.
      * lia.
      * left. destruct IH as (buf' & pre' & evs' & Hrun & H1 & H2 & H3 & H4 & H5 & H6).
        exists buf', pre', evs'. rewrite Hrun.
        split; [reflexivity|]. split; [exact H1|]. split; [exact H2|].
        split; [|split; [exact H4|split; [exact H5|]]].
        -- rewrite H3, Hbuf. rewrite !length_app, length_int4store. lia.
        -- cbn [map concat]. rewrite <- H6. now rewrite <- app_assoc.
      * right.
        destruct IH as (pre' & x & e2 & evs' & header' & Hrun & H1 & H2 & H3
                        & H4 & H5 & H6 & H7).
        exists pre', x, e2, evs', header'. rewrite Hrun.
        split; [reflexivity|]. split; [exact H1|]. split; [exact H2|].
        split; [exact H3|]. split; [exact H4|]. split; [exact H5|].
        split; [exact H6|].
        cbn [map concat]. rewrite <- H7. now rewrite <- app_assoc.
Qed.

(** ** One buffer *)

Lemma my_b_write_room f buf :
  my_b_tell f + Z.of_nat (length buf) <= end_of_file f ->
  my_b_write f buf
  = Some {| contents := contents f ++ buf; end_of_file := end_of_file f |}.
Proof.
  intros H. unfold my_b_write.
  destruct (end_of_file f <? _) eqn:E; [apply Z.ltb_lt in E; lia|reflexivity].
Qed.

(** Without a split header in hand: the buffer goes to the log file with
    the headers that start in it fixed. *)
Lemma write_segment_step group target f buf rest L h header0 tail evs :
  buf ++ rest = tail ++ concat evs ->
  Z.of_nat (length tail) = h ->
  h < 2 ^ 31 ->
  Forall event evs ->
  target = contents f ++ tail ++ concat (map (relocate group) evs) ->
  Z.of_nat (length target) <= end_of_file f ->
  short buf ->
  length header0 = 19%nat ->
  L = Z.of_nat (length buf) mod uint_modulus ->
  exists st',
    write_segment group f buf L h 0 header0 = Some (OK, st')
    /\ between_segments group target rest st'
    /\ end_of_file (log_file st') = end_of_file f.
Proof.
  intros Hcut Htail Hh Hev Htarget Hroom Hshort Hhdr HL.
  assert (HL' : L = Z.of_nat (length buf)).
  { rewrite HL. consts. apply Z.mod_small. lia. }
  clear HL. unfold write_segment.
  destruct (0 <? L) eqn:E0.
  - apply Z.ltb_lt in E0.
    destruct (fix_headers_events group rest evs (S (S (length buf))) buf L
                tail h 0 header0 Hev Hcut Htail HL' Hshort)
      as [Hfull|Hpart]; try lia; try assumption.
    + destruct Hfull as (buf' & pre' & evs' & Hrun & H1 & H2 & H3 & H4 & H5 & H6).
      rewrite Hrun.
      assert (Hmod : (Z.of_nat (length pre') - L) mod uint_modulus
                     = Z.of_nat (length pre') - L).
      { consts. apply Z.mod_small. lia. }
      rewrite Hmod.
      destruct (prefix_split pre' (concat evs') buf' rest (eq_sym H4))
        as (m & Hpre' & Hrest); [lia|].
      assert (Hwhole : bytes_at buf' 0 L = buf').
      { rewrite <- (app_nil_r buf') at 1. apply bytes_at_0. lia. }
      rewrite Hwhole.
      assert (Htarget' : target
                = (contents f ++ buf') ++ m
                  ++ concat (map (relocate group) evs')).
      { rewrite Htarget, H6, Hpre'. now rewrite <- !app_assoc. }
      rewrite my_b_write_room.
      2:{ unfold my_b_tell. rewrite Htarget' in Hroom.
          rewrite !length_app in Hroom. lia. }
      eexists. split; [reflexivity|]. split; [|reflexivity].
      unfold between_segments. cbn [header log_file carry hdr_offs contents end_of_file].
      split; [exact Hhdr|]. split; [exact Hroom|]. left.
      split; [reflexivity|]. split; [lia|].
      exists m, evs'. split; [exact Hrest|].
      split; [rewrite Hpre', length_app; lia|]. split; [exact H5|exact Htarget'].
    + destruct Hpart as (pre' & x & e2 & evs' & header' & Hrun & H1 & H2 & H3
                         & H4 & H5 & H6 & H7).
      rewrite Hrun.
      rewrite Z.sub_diag. change (0 mod uint_modulus) with 0.
      assert (Hwritten : bytes_at (pre' ++ x) 0 (Z.of_nat (length pre')) = pre').
      { apply bytes_at_0. reflexivity. }
      rewrite Hwritten.
      assert (Htarget' : target
                = (contents f ++ pre') ++ relocate group (x ++ e2)
                  ++ concat (map (relocate group) evs')).
      { rewrite Htarget, H7. now rewrite <- !app_assoc. }
      rewrite my_b_write_room.
      2:{ unfold my_b_tell. rewrite Htarget' in Hroom.
          rewrite !length_app in Hroom. lia. }
      eexists. split; [reflexivity|]. split; [|reflexivity].
      unfold between_segments. cbn [header log_file carry hdr_offs contents end_of_file].
      split; [exact H6|]. split; [exact Hroom|]. right.
      split; [consts; lia|].
      exists (x ++ e2), evs'. rewrite Nat2Z.id.
      split; [exact H2|]. split; [exact H4|].
      split; [now rewrite H5, firstn_length_app|].
      split; [now rewrite skipn_length_app|exact Htarget'].
  - (* an empty buffer *)
    apply Z.ltb_ge in E0.
    assert (Hbuf : buf = []) by (destruct buf; [reflexivity|cbn in HL'; lia]).
    subst buf. cbn [app] in Hcut.
    assert (Hnone : bytes_at [] 0 L = []) by (unfold bytes_at; now rewrite skipn_nil, firstn_nil).
    rewrite Hnone, my_b_write_room.
    2:{ unfold my_b_tell. rewrite Htarget in Hroom.
        rewrite !length_app in Hroom. cbn [length]. lia. }
    eexists. split; [reflexivity|]. split; [|reflexivity].
    unfold between_segments. cbn [header log_file carry hdr_offs contents end_of_file].
    split; [exact Hhdr|]. split; [exact Hroom|]. left.
    split; [reflexivity|]. split; [lia|].
    exists tail, evs. rewrite app_nil_r. auto.
Qed.

(** The header of an event and what follows it. *)
Lemma event_header e :
  well_formed e ->
  exists a len pos d z,
    e = (a ++ len ++ pos ++ d) ++ z
    /\ length a = 9%nat /\ length len = 4%nat /\ length pos = 4%nat
    /\ length d = 2%nat
    /\ uint4korr len = Z.of_nat (length e).
Proof.
  intros H.
  destruct (event_fields e H) as (a & len & pos & c & He & Ha & Hl & Hp & Hc & Hf & _).
  exists a, len, pos, (firstn 2 c), (skipn 2 c).
  split; [|repeat split; auto; rewrite length_firstn; lia].
  rewrite <- !app_assoc, firstn_skipn. exact He.
Qed.

(** One iteration of the [do] loop keeps the copy on its way. *)
Lemma copy_segment_step group target buf rest st :
  between_segments group target (buf ++ rest) st ->
  short buf ->
  (0 < carry st -> LOG_EVENT_HEADER_LEN - carry st <= Z.of_nat (length buf)) ->
  exists st',
    copy_segment group buf st = Some (OK, st')
    /\ between_segments group target rest st'
    /\ end_of_file (log_file st') = end_of_file (log_file st).
Proof.
  intros (Hhdr & Hroom & Hinv) Hshort Hlong. unfold copy_segment.
  destruct Hinv as [(Hc & Hh & tail & evs & Hcut & Htail & Hev & Htarget)
                   |(Hc & e & evs & He & Hev & Hsaved & Hcut & Htarget)].
  - (* no split header in hand *)
    rewrite Hc. cbn [Z.ltb Z.compare].
    apply (write_segment_step group target (log_file st) buf rest _
             (hdr_offs st) (header st) tail evs); auto; lia.
  - (* the second half of a split header *)
    assert (E0 : (0 <? carry st) = true) by (apply Z.ltb_lt; lia).
    rewrite E0. specialize (Hlong (proj1 Hc)).
    assert (E1 : (Z.of_nat (length buf) <? LOG_EVENT_HEADER_LEN - carry st)
                 = false) by (apply Z.ltb_ge; lia).
    rewrite E1.
    remember (Z.to_nat (carry st)) as cn eqn:Hcn.
    assert (Hcarry : carry st = Z.of_nat cn) by lia.
    destruct He as [Hwf Hbound].
    destruct (event_header e Hwf)
      as (a & len & pos & d & z & Hfields & Ha & Hl & Hp & Hd & Hlenf).
    set (val := (uint4korr pos + group) mod uint_modulus).
    set (hd := a ++ len ++ pos ++ d) in *.
    set (hd' := a ++ len ++ int4store val ++ d).
    assert (Hhd : length hd = 19%nat)
      by (unfold hd; rewrite !length_app; lia).
    assert (Hhd' : length hd' = 19%nat)
      by (unfold hd'; rewrite !length_app, length_int4store; lia).
    assert (Hcn19 : (0 < cn < 19)%nat) by (consts; lia).
    assert (Hlen_e : length e = (19 + length z)%nat).
    { rewrite Hfields, length_app. lia. }
    (* both headers cut where the buffer ended *)
    set (x := firstn cn hd). set (y := skipn cn hd).
    set (x' := firstn cn hd'). set (y' := skipn cn hd').
    assert (Hxy : hd = x ++ y) by (symmetry; apply firstn_skipn).
    assert (Hxy' : hd' = x' ++ y') by (symmetry; apply firstn_skipn).
    assert (Hx : length x = cn) by (unfold x; rewrite length_firstn; lia).
    assert (Hx' : length x' = cn) by (unfold x'; rewrite length_firstn; lia).
    assert (Hy : length y = (19 - cn)%nat) by (unfold y; rewrite length_skipn; lia).
    assert (Hy' : length y' = (19 - cn)%nat) by (unfold y'; rewrite length_skipn; lia).
    assert (Hfirst : firstn cn e = x).
    { rewrite Hfields, Hxy, <- app_assoc, <- Hx. apply firstn_length_app. }
    assert (Hskip : skipn cn e = y ++ z).
    { rewrite Hfields, Hxy, <- app_assoc, <- Hx. apply skipn_length_app. }
    rewrite Hfirst in Hsaved. rewrite Hskip, <- app_assoc in Hcut.
    destruct (prefix_split buf rest y (z ++ concat evs) Hcut) as (m & Hbuf & Hm).
    { consts. lia. }
    (* assemble both halves *)
    assert (Hheader : header st = x ++ skipn cn (header st) ++ []).
    { rewrite app_nil_r, <- Hsaved. symmetry. apply firstn_skipn. }
    assert (Hsecond : bytes_at buf 0 (LOG_EVENT_HEADER_LEN - carry st) = y).
    { rewrite Hbuf. apply bytes_at_0. consts. lia. }
    rewrite Hsecond.
    assert (Hassembled : memcpy (header st) (carry st) y = hd).
    { rewrite Hheader, memcpy_app;
        [now rewrite app_nil_r|lia|rewrite length_skipn; consts; lia]. }
    rewrite Hassembled.
    (* fix end_log_pos *)
    assert (Hpos : bytes_at hd LOG_POS_OFFSET 4 = pos).
    { unfold hd. rewrite (app_assoc a len).
      apply bytes_at_app; [rewrite length_app; consts; lia|lia]. }
    rewrite Hpos. fold val.
    assert (Hfixed : memcpy hd LOG_POS_OFFSET (int4store val) = hd').
    { unfold hd, hd'. rewrite (app_assoc a len), memcpy_app;
        [now rewrite <- app_assoc|rewrite length_app; consts; lia
        |rewrite length_int4store; lia]. }
    rewrite Hfixed.
    assert (Hwritten : bytes_at hd' 0 (carry st) = x').
    { rewrite Hxy'. apply bytes_at_0. lia. }
    assert (Hcopied : bytes_at hd' (carry st) (LOG_EVENT_HEADER_LEN - carry st) = y').
    { rewrite Hxy'. rewrite <- (app_nil_r y') at 1.
      apply bytes_at_app; consts; lia. }
    assert (Hlenb : bytes_at hd' EVENT_LEN_OFFSET 4 = len).
    { unfold hd'. apply bytes_at_app; consts; lia. }
    rewrite Hwritten, Hcopied, Hlenb, Hlenf.
    assert (Hbuf1 : memcpy buf 0 y' = y' ++ m).
    { rewrite Hbuf. apply memcpy_0. lia. }
    rewrite Hbuf1.
    assert (Hmod : (Z.of_nat (length e) - carry st) mod uint_modulus
                   = Z.of_nat (length e) - carry st).
    { consts. apply Z.mod_small. lia. }
    rewrite Hmod.
    assert (Hrel : relocate group e = x' ++ y' ++ z).
    { rewrite Hfields. unfold hd. rewrite <- !app_assoc.
      rewrite relocate_fields by assumption. fold val.
      rewrite (app_assoc x' y' z), <- Hxy'. unfold hd'. now rewrite <- !app_assoc. }
    assert (Htarget' : target
              = (contents (log_file st) ++ x') ++ (y' ++ z)
                ++ concat (map (relocate group) evs)).
    { rewrite Htarget, Hrel. now rewrite <- !app_assoc. }
    rewrite my_b_write_room.
    2:{ unfold my_b_tell. rewrite Htarget' in Hroom.
        rewrite !length_app in Hroom. lia. }
    destruct (write_segment_step group target
                {| contents := contents (log_file st) ++ x';
                   end_of_file := end_of_file (log_file st) |}
                (y' ++ m) rest
                (Z.of_nat (length buf) mod uint_modulus)
                (Z.of_nat (length e) - carry st) hd' (y' ++ z) evs)
      as (st' & Hrun & Hinv & Heof); auto.
    + rewrite <- !app_assoc. now rewrite Hm.
    + rewrite length_app. lia.
    + lia.
    + unfold short in *. rewrite Hbuf in Hshort.
      rewrite length_app in *. lia.
    + rewrite Hbuf, !length_app. now rewrite Hy, Hy'.
    + exists st'. auto.
Qed.

(** ** The loop over the buffers *)

Lemma split_header_fits group target buf rest st :
  between_segments group target (buf ++ rest) st ->
  carry st = 0 \/ LOG_EVENT_HEADER_LEN - 1 <= Z.of_nat (length buf) \/ rest = [] ->
  0 < carry st -> LOG_EVENT_HEADER_LEN - carry st <= Z.of_nat (length buf).
Proof.
  intros (_ & _ & Hinv) Hcase Hc.
  destruct Hcase as [H0|[H18|Hlast]]; [lia|lia|].
  destruct Hinv as [(H0 & _)|(_ & e & evs & He & _ & _ & Hcut & _)]; [lia|].
  subst rest. rewrite app_nil_r in Hcut.
  apply event_length in He. rewrite Hcut, length_app, length_skipn.
  consts. lia.
Qed.

Lemma concat_events_nil evs :
  Forall event evs -> concat evs = [] -> evs = [].
Proof.
  intros Hev H. destruct evs as [|e evs]; [reflexivity|].
  apply Forall_inv, event_length in Hev.
  cbn in H. apply (f_equal (@length byte)) in H.
  rewrite length_app in H. cbn in H. lia.
Qed.

(** When the cache has delivered everything, the log file is as wanted. *)
Lemma between_segments_end group target st :
  between_segments group target [] st -> contents (log_file st) = target.
Proof.
  intros (_ & _ & [(_ & _ & tail & evs & Hcut & _ & Hev & Htarget)
                  |(Hc & e & evs & He & _ & _ & Hcut & _)]).
  - symmetry in Hcut. apply app_eq_nil in Hcut. destruct Hcut as [-> Hnil].
    rewrite (concat_events_nil evs Hev Hnil) in Htarget.
    rewrite Htarget. cbn. now rewrite app_nil_r.
  - apply event_length in He. apply (f_equal (@length byte)) in Hcut.
    rewrite length_app, length_skipn in Hcut. cbn in Hcut. consts. lia.
Qed.

Lemma copy_loop_spec group target :
  forall fills buf st,
    between_segments group target (buf ++ concat fills) st ->
    Forall short (buf :: fills) ->
    fills_ok fills ->
    carry st = 0 \/ LOG_EVENT_HEADER_LEN - 1 <= Z.of_nat (length buf)
    \/ fills = [] ->
    exists st',
      copy_loop group buf fills st = Some (OK, st')
      /\ contents (log_file st') = target
      /\ end_of_file (log_file st') = end_of_file (log_file st).
Proof.
  induction fills as [|next fills IH]; intros buf st Hinv Hshort Hok Hcase.
  - destruct (copy_segment_step group target buf [] st) as (st' & Hrun & Hinv' & Heof).
    + exact Hinv.
    + exact (Forall_inv Hshort).
    + apply (split_header_fits group target buf [] st Hinv).
      destruct Hcase as [H|[H|H]]; auto.
    + exists st'. cbn [copy_loop]. rewrite Hrun.
      split; [reflexivity|]. split; [|exact Heof].
      now apply (between_segments_end group).
  - cbn [concat] in Hinv.
    destruct (copy_segment_step group target buf (next ++ concat fills) st)
      as (st' & Hrun & Hinv' & Heof).
    + exact Hinv.
    + exact (Forall_inv Hshort).
    + apply (split_header_fits group target buf _ st Hinv).
      destruct Hcase as [H|[H|H]]; [auto|auto|discriminate].
    + assert (Hnext : next <> [] /\ fills_ok fills
                      /\ (LOG_EVENT_HEADER_LEN - 1 <= Z.of_nat (length next)
                          \/ fills = [])).
      { destruct fills as [|f fills].
        - cbn in Hok. repeat split; auto.
        - destruct Hok as [H18 Hok]. split; [|split; [exact Hok|left; exact H18]].
          intros ->. cbn in H18. consts. lia. }
      destruct Hnext as (Hne & Hok' & Hcase').
      destruct (IH next st' Hinv' (Forall_inv_tail Hshort) Hok')
        as (st'' & Hrun' & Hcontents & Heof'); [auto|].
      exists st''. cbn [copy_loop]. rewrite Hrun.
      destruct next as [|b next]; [congruence|].
      split; [exact Hrun'|]. split; [exact Hcontents|congruence].
Qed.

(** ** The copy *)

(** What [relocate] does to an event. *)
Lemma relocate_spec group n e :
  well_formed e ->
  group = n mod uint_modulus ->
  length (relocate group e) = length e
  /\ uint4korr (bytes_at (relocate group e) LOG_POS_OFFSET 4)
     = (uint4korr (bytes_at e LOG_POS_OFFSET 4) + n) mod uint_modulus
  /\ forall i, (i < 13 \/ 17 <= i)%nat ->
               nth i (relocate group e) 0 = nth i e 0.
Proof.
  intros Hwf ->. split; [now apply length_relocate|].
  destruct (event_fields e Hwf) as (a & len & pos & c & He & Ha & Hl & Hp & Hc & _ & Hpos).
  rewrite Hpos. rewrite He, relocate_fields by assumption.
  split.
  - rewrite (app_assoc a len).
    rewrite bytes_at_app;
      [|rewrite length_app; consts; lia|rewrite length_int4store; lia].
    rewrite uint4korr_int4store, Z.mod_mod by (consts; lia).
    now rewrite Z.add_mod_idemp_r by (consts; lia).
  - intros i Hi. rewrite !(app_assoc a len).
    assert (Hal : length (a ++ len) = 13%nat) by (rewrite length_app; lia).
    destruct Hi as [Hi|Hi].
    + rewrite !(app_nth1 (a ++ len)) by lia. reflexivity.
    + rewrite !(app_nth2 (a ++ len)) by lia.
      rewrite (app_nth2 (int4store _)), (app_nth2 pos)
        by (rewrite ?length_int4store; lia).
      now rewrite length_int4store, Hp.
Qed.

(** C1.  When [write_cache] copies a cache that holds the events [evs]
    to the log file, whatever segments the cache is read in (every
    segment and every event shorter than 2^31 bytes, every segment before
    the last of at least 18 bytes, and room for the bytes in the log
    file), the log file grows by exactly the events of the cache, each with
    the write offset of the log file at the start of the copy added to its
    [end_log_pos] field (in 32 bits).  The field apart, every byte of an
    event is copied as it is: the bytes 13 to 16 of its header are the only
    ones that differ. *)
Theorem write_cache_relocates_end_log_pos
  (cache_error : bool) (in_cache : list byte) (fills : list (list byte))
  (log : IO_CACHE) (evs : list (list byte)) :
  Forall event evs ->
  in_cache ++ concat fills = concat evs ->
  Forall short (in_cache :: fills) ->
  fills_ok fills ->
  my_b_tell log + Z.of_nat (length (concat evs)) <= end_of_file log ->
  let group := my_b_tell log mod uint_modulus in
  write_cache false cache_error in_cache fills log
  = Some (if cache_error then ER_ERROR_ON_WRITE else OK,
          {| contents := contents log ++ concat (map (relocate group) evs);
             end_of_file := end_of_file log |})
  /\ Forall (fun e =>
       length (relocate group e) = length e
       /\ uint4korr (bytes_at (relocate group e) LOG_POS_OFFSET 4)
          = (uint4korr (bytes_at e LOG_POS_OFFSET 4) + my_b_tell log)
            mod uint_modulus
       /\ forall i, (i < 13 \/ 17 <= i)%nat ->
                    nth i (relocate group e) 0 = nth i e 0) evs.
Proof.
  intros Hev Hcut Hshort Hok Hroom group. split.
  - unfold write_cache. fold group.
    set (target := contents log ++ concat (map (relocate group) evs)).
    set (st := {| hdr_offs := 0; carry := 0;
                  header := repeat 0 (Z.to_nat LOG_EVENT_HEADER_LEN);
                  log_file := log |}).
    assert (Hlen : length (concat (map (relocate group) evs))
                   = length (concat evs)).
    { clear - Hev. induction Hev as [|e evs He _ IH]; [reflexivity|].
      cbn [map concat]. rewrite !length_app, IH, length_relocate;
        [reflexivity|apply He]. }
    destruct (copy_loop_spec group target fills in_cache st)
      as (st' & Hrun & Hcontents & Heof); auto.
    + split; [apply repeat_length|]. split.
      * unfold target. rewrite length_app, Hlen. unfold my_b_tell in Hroom.
        cbn [log_file st]. lia.
      * left. cbn. split; [reflexivity|]. split; [lia|].
        exists [], evs. cbn. auto.
    + rewrite Hrun. destruct st' as [h c hd f]. cbn in Hcontents, Heof.
      destruct f as [cont eof]. cbn in Hcontents, Heof. subst cont eof.
      reflexivity.
  - apply Forall_forall. intros e He.
    apply (relocate_spec group (my_b_tell log)); [|reflexivity].
    rewrite Forall_forall in Hev. apply (Hev e He).
Qed.

(** Two events read in segments of 25 and 16 bytes, the second header
    split between them, copied to a log file of 300 bytes. *)
Lemma write_cache_relocates_witness :
  let group := my_b_tell WriteCacheExamples.log mod uint_modulus in
  write_cache false false WriteCacheExamples.in_cache WriteCacheExamples.fills
              WriteCacheExamples.log
  = Some (OK,
          {| contents := contents WriteCacheExamples.log
                         ++ concat (map (relocate group) WriteCacheExamples.events);
             end_of_file := end_of_file WriteCacheExamples.log |})
  /\ Forall (fun e =>
       length (relocate group e) = length e
       /\ uint4korr (bytes_at (relocate group e) LOG_POS_OFFSET 4)
          = (uint4korr (bytes_at e LOG_POS_OFFSET 4)
             + my_b_tell WriteCacheExamples.log) mod uint_modulus
       /\ forall i, (i < 13 \/ 17 <= i)%nat ->
                    nth i (relocate group e) 0 = nth i e 0)
       WriteCacheExamples.events.
Proof.
  apply (write_cache_relocates_end_log_pos false WriteCacheExamples.in_cache
           WriteCacheExamples.fills WriteCacheExamples.log
           WriteCacheExamples.events).
  - repeat constructor; vm_compute; congruence.
  - reflexivity.
  - repeat constructor; vm_compute; reflexivity.
  - vm_compute. discriminate.
  - vm_compute. discriminate.
Defined.

End WriteCacheFacts.

(* ================================================================== *)
(** * The sketch: ranks, registers and the scan of a query *)

Module HyperLogLogFacts.
Import HyperLogLog.

(** ** The first set bit *)

Lemma land_low_bits num part :
  0 <= part -> Z.land num (Z.shiftl 1 part - 1) = num mod 2 ^ part.
Proof.
  intros H. rewrite Z.shiftl_1_l, Z.sub_1_r, <- Z.ones_equiv.
  now apply Z.land_ones.
Qed.

(** One round of the search.  [num] is what is left of [num0] above the
    [pos] zero bits found so far, and it has a set bit among its lowest
    [2 * part]; afterwards it has one among its lowest [part]. *)
Lemma skip_zero_part_step num0 num pos part :
  0 < part -> 0 <= pos -> pos + part < 256 ->
  num = num0 / 2 ^ pos ->
  num0 mod 2 ^ pos = 0 ->
  num mod 2 ^ (2 * part) <> 0 ->
  let '(num', pos') := skip_zero_part (num, pos) part in
  pos <= pos' <= pos + part
  /\ num' = num0 / 2 ^ pos'
  /\ num0 mod 2 ^ pos' = 0
  /\ num' mod 2 ^ part <> 0.
Proof.
  intros Hpart Hpos H256 Hnum Hlow Hset. unfold skip_zero_part.
  rewrite land_low_bits by lia.
  assert (Hp : 0 < 2 ^ part) by (apply Z.pow_pos_nonneg; lia).
  assert (Hq : 0 < 2 ^ pos) by (apply Z.pow_pos_nonneg; lia).
  destruct (num mod 2 ^ part =? 0) eqn:E.
  - apply Z.eqb_eq in E.
    rewrite Z.mod_small by lia. rewrite Z.shiftr_div_pow2 by lia.
    split; [lia|].
    replace (2 * part) with (part + part) in Hset by lia.
    rewrite Z.pow_add_r in Hset by lia.
    rewrite Z.rem_mul_r in Hset by lia.
    rewrite Z.pow_add_r by lia.
    split; [subst num; now rewrite Z.div_div by lia|].
    split.
    + rewrite Z.rem_mul_r by lia. rewrite Hlow, <- Hnum, E. lia.
    + intros H0. apply Hset. rewrite E, H0. lia.
  - apply Z.eqb_neq in E. repeat split; try lia; assumption.
Qed.

(** The five rounds: [pos] zero bits are skipped and the bit above them
    is set. *)
Lemma search_rounds num0 :
  0 < num0 < 2 ^ 32 ->
  let pos := snd (fold_left skip_zero_part bit_parts (num0, 0)) in
  0 <= pos <= 31 /\ num0 mod 2 ^ pos = 0 /\ (num0 / 2 ^ pos) mod 2 <> 0.
Proof.
  intros Hnum0. unfold bit_parts. cbn [fold_left].
  pose proof (skip_zero_part_step num0 num0 0 16) as S1.
  destruct (skip_zero_part (num0, 0) 16) as [n1 p1].
  destruct S1 as (B1 & N1 & L1 & T1);
    [lia|lia|lia|now rewrite Z.div_1_r|apply Z.mod_1_r
    |change (2 * 16) with 32; rewrite Z.mod_small; lia|].
  pose proof (skip_zero_part_step num0 n1 p1 8) as S2.
  destruct (skip_zero_part (n1, p1) 8) as [n2 p2].
  destruct S2 as (B2 & N2 & L2 & T2); [lia|lia|lia|assumption|assumption|assumption|].
  pose proof (skip_zero_part_step num0 n2 p2 4) as S3.
  destruct (skip_zero_part (n2, p2) 4) as [n3 p3].
  destruct S3 as (B3 & N3 & L3 & T3); [lia|lia|lia|assumption|assumption|assumption|].
  pose proof (skip_zero_part_step num0 n3 p3 2) as S4.
  destruct (skip_zero_part (n3, p3) 2) as [n4 p4].
  destruct S4 as (B4 & N4 & L4 & T4); [lia|lia|lia|assumption|assumption|assumption|].
  pose proof (skip_zero_part_step num0 n4 p4 1) as S5.
  destruct (skip_zero_part (n4, p4) 1) as [n5 p5].
  destruct S5 as (B5 & N5 & L5 & T5); [lia|lia|lia|assumption|assumption|assumption|].
  cbn [snd]. split; [lia|]. split; [assumption|].
  rewrite <- N5. exact T5.
Qed.

Lemma shifted_hash_range hash start_bit :
  0 <= hash < 2 ^ 32 -> 0 <= start_bit < 32 ->
  0 <= Z.shiftr hash start_bit < 2 ^ (32 - start_bit)
  /\ 2 ^ (32 - start_bit) <= 2 ^ 32.
Proof.
  intros Hhash Hstart. rewrite Z.shiftr_div_pow2 by lia. split; [split|].
  - apply Z.div_pos; [lia|apply Z.pow_pos_nonneg; lia].
  - apply Z.div_lt_upper_bound; [apply Z.pow_pos_nonneg; lia|].
    rewrite <- Z.pow_add_r by lia.
    replace (start_bit + (32 - start_bit)) with 32 by lia. lia.
  - apply Z.pow_le_mono_r; lia.
Qed.

(** A number below [2^n] has no bit set at [n] or above. *)
Lemma set_bit_below num pos n :
  0 <= num < 2 ^ n -> 0 <= pos -> (num / 2 ^ pos) mod 2 <> 0 -> pos < n.
Proof.
  intros Hnum Hpos Hbit.
  destruct (Z.lt_ge_cases pos n) as [|Hge]; [assumption|].
  exfalso. apply Hbit. rewrite Z.div_small; [reflexivity|].
  split; [lia|]. apply Z.lt_le_trans with (2 ^ n); [lia|].
  apply Z.pow_le_mono_r; lia.
Qed.

(** X1.  [find_first_set_bit_after_index(hash, start_bit)] is the number
    of zero bits of [hash] from bit [start_bit] up to its next set bit:
    that bit is set, every bit between is clear, and the result is below
    [32 - start_bit]; when no bit is set from [start_bit] on, the result is
    [32 - start_bit]. *)
Theorem find_first_set_bit_is_rank (hash start_bit : Z) :
  0 <= hash < 2 ^ 32 ->
  0 <= start_bit < 32 ->
  let r := find_first_set_bit_after_index hash start_bit in
  (Z.shiftr hash start_bit = 0 -> r = 32 - start_bit)
  /\ (Z.shiftr hash start_bit <> 0 ->
      0 <= r < 32 - start_bit
      /\ Z.testbit hash (start_bit + r) = true
      /\ forall j, 0 <= j < r -> Z.testbit hash (start_bit + j) = false).
Proof.
  intros Hhash Hstart r. subst r. unfold find_first_set_bit_after_index.
  pose proof (shifted_hash_range hash start_bit Hhash Hstart) as [Hnum0 H32].
  set (num0 := Z.shiftr hash start_bit) in *.
  split.
  - intros H0. rewrite H0. cbn [Z.eqb]. apply Z.mod_small. lia.
  - intros Hne. destruct (num0 =? 0) eqn:E; [apply Z.eqb_eq in E; contradiction|].
    destruct (search_rounds num0) as (Hpos & Hlow & Hset); [lia|].
    set (pos := snd (fold_left skip_zero_part bit_parts (num0, 0))) in *.
    pose proof (set_bit_below num0 pos (32 - start_bit) Hnum0 (proj1 Hpos) Hset)
      as Hbelow.
    split; [lia|]. split.
    + destruct (Z.testbit hash (start_bit + pos)) eqn:Hb; [reflexivity|].
      exfalso. apply Hset.
      pose proof (Z.testbit_spec' num0 pos ltac:(lia)) as Hs.
      unfold num0 in Hs at 1. rewrite Z.shiftr_spec in Hs by lia.
      rewrite Z.add_comm, Hb in Hs. cbn [Z.b2z] in Hs. congruence.
    + intros j Hj.
      assert (Hz : Z.testbit num0 j = false).
      { rewrite <- (Z.mod_pow2_bits_low num0 pos j) by lia.
        rewrite Hlow. apply Z.bits_0. }
      unfold num0 in Hz. rewrite Z.shiftr_spec in Hz by lia.
      now rewrite Z.add_comm.
Qed.

(** The lowest set bit of [0x00A00000] is bit 21, eleven places above the
    ten index bits. *)
Lemma find_first_set_bit_witness :
  let r := find_first_set_bit_after_index 10485760 10 in
  (Z.shiftr 10485760 10 = 0 -> r = 32 - 10)
  /\ (Z.shiftr 10485760 10 <> 0 ->
      0 <= r < 32 - 10
      /\ Z.testbit 10485760 (10 + r) = true
      /\ forall j, 0 <= j < r -> Z.testbit 10485760 (10 + j) = false).
Proof.
  apply (find_first_set_bit_is_rank 10485760 10); lia.
Defined.

(** ** Registers *)

Lemma rank_bound hash start_bit :
  0 <= hash < 2 ^ 32 -> 0 <= start_bit < 32 ->
  0 <= find_first_set_bit_after_index hash start_bit <= 32 - start_bit.
Proof.
  intros Hh Hs. unfold find_first_set_bit_after_index.
  pose proof (shifted_hash_range hash start_bit Hh Hs) as [Hnum0 H32].
  destruct (Z.shiftr hash start_bit =? 0) eqn:E.
  - rewrite Z.mod_small; lia.
  - apply Z.eqb_neq in E.
    destruct (search_rounds (Z.shiftr hash start_bit)) as (Hpos & _ & Hset); [lia|].
    pose proof (set_bit_below _ _ (32 - start_bit) Hnum0 (proj1 Hpos) Hset). lia.
Qed.

Lemma laid_out_size hll :
  laid_out hll ->
  0 < data_size hll /\ 0 < max_bit_position hll
  /\ data_size hll * max_bit_position hll <= 2 ^ 32.
Proof.
  intros (Hlog & Hsize & Hmax & _). rewrite Hsize, Hmax.
  assert (0 < 2 ^ data_size_log2 hll) by (apply Z.pow_pos_nonneg; lia).
  split; [assumption|]. split; [lia|].
  replace (2 ^ 32) with (2 ^ data_size_log2 hll * 2 ^ (32 - data_size_log2 hll)).
  - apply Z.mul_le_mono_nonneg_l; [lia|].
    pose proof (Z.pow_gt_lin_r 2 (32 - data_size_log2 hll)). lia.
  - rewrite <- Z.pow_add_r by lia. f_equal. lia.
Qed.

Lemma cell_in_register hll hash :
  laid_out hll -> 0 <= hash < 2 ^ 32 ->
  0 <= hash mod data_size hll < data_size hll
  /\ 0 <= find_first_set_bit_after_index hash (data_size_log2 hll)
       < max_bit_position hll
  /\ 0 <= cell hll hash < Z.of_nat (length (data hll))
  /\ cell hll hash < 2 ^ 32.
Proof.
  intros Hl Hh. pose proof (laid_out_size hll Hl) as (Hs & Hm & H32).
  destruct Hl as (Hlog & Hsize & Hmax & Hlen).
  pose proof (rank_bound hash (data_size_log2 hll) Hh Hlog) as Hr.
  pose proof (Z.mod_pos_bound hash (data_size hll) Hs) as Hb.
  unfold cell. rewrite Hlen. repeat split; try lia; nia.
Qed.

Lemma insert_writes_cell hll hash t :
  laid_out hll -> 0 <= hash < 2 ^ 32 ->
  hyperloglog_insert hll hash t
  = Some {| data_size_log2 := data_size_log2 hll;
            data_size := data_size hll;
            max_bit_position := max_bit_position hll;
            data := firstn (Z.to_nat (cell hll hash)) (data hll)
                    ++ t :: skipn (S (Z.to_nat (cell hll hash))) (data hll) |}.
Proof.
  intros Hl Hh. pose proof (cell_in_register hll hash Hl Hh) as (Hb & Hr & Hc & H32).
  pose proof (laid_out_size hll Hl) as (Hs & Hm & _).
  destruct Hl as (Hlog & Hsize & Hmax & Hlen).
  unfold hyperloglog_insert.
  assert (Hindex : Z.land hash ((data_size hll - 1) mod uint_modulus)
                   = hash mod data_size hll).
  { unfold uint_modulus. rewrite Z.mod_small.
    - rewrite Hsize, Z.sub_1_r, <- Z.ones_equiv. apply Z.land_ones. lia.
    - rewrite Hsize. split; [lia|].
      assert (2 ^ data_size_log2 hll <= 2 ^ 32) by (apply Z.pow_le_mono_r; lia).
      lia. }
  rewrite Hindex. fold (cell hll hash).
  unfold uint_modulus. rewrite Z.mod_small by lia.
  unfold store.
  destruct ((0 <=? cell hll hash) && (cell hll hash <? Z.of_nat (length (data hll))))
    eqn:E; [reflexivity|].
  apply andb_false_iff in E. destruct E as [E|E];
    [apply Z.leb_gt in E|apply Z.ltb_ge in E]; lia.
Qed.

Lemma nth_error_written {A} (d : list A) k x :
  (k < length d)%nat ->
  nth_error (firstn k d ++ x :: skipn (S k) d) k = Some x.
Proof.
  revert d. induction k as [|k IH]; intros [|a d] H; cbn in *; try lia.
  - reflexivity.
  - apply IH. lia.
Qed.

Lemma nth_error_not_written {A} (d : list A) k x i :
  (k < length d)%nat -> i <> k ->
  nth_error (firstn k d ++ x :: skipn (S k) d) i = nth_error d i.
Proof.
  revert d i. induction k as [|k IH]; intros [|a d] i H Hi; cbn in *; try lia.
  - destruct i; [lia|reflexivity].
  - destruct i; [reflexivity|]. cbn. apply IH; lia.
Qed.

Lemma length_written {A} (d : list A) k x :
  (k < length d)%nat ->
  length (firstn k d ++ x :: skipn (S k) d) = length d.
Proof.
  intros H. rewrite length_app, length_firstn. cbn [length].
  rewrite length_skipn. lia.
Qed.

(** X2.  On a sketch laid out as [hyperloglog_init] does, an insert
    never writes outside the array: it stores the time stamp in the cell
    of register [hash mod data_size] and of the rank of [hash], and
    changes nothing else. *)
Theorem insert_stays_in_array (hll : hyperloglog) (hash current_time : Z) :
  laid_out hll ->
  0 <= hash < 2 ^ 32 ->
  exists hll',
    hyperloglog_insert hll hash current_time = Some hll'
    /\ laid_out hll'
    /\ 0 <= cell hll hash < data_size hll * max_bit_position hll
    /\ nth_error (data hll') (Z.to_nat (cell hll hash)) = Some current_time
    /\ forall i, i <> Z.to_nat (cell hll hash) ->
                 nth_error (data hll') i = nth_error (data hll) i.
Proof.
  intros Hl Hh. pose proof (cell_in_register hll hash Hl Hh) as (Hb & Hr & Hc & H32).
  eexists. split; [apply insert_writes_cell; assumption|].
  cbn [data]. split; [|split; [|split]].
  - destruct Hl as (Hlog & Hsize & Hmax & Hlen).
    unfold laid_out. cbn [data_size_log2 data_size max_bit_position data].
    rewrite length_written by lia. auto.
  - destruct Hl as (_ & _ & _ & Hlen). lia.
  - apply nth_error_written. lia.
  - intros i Hi. apply nth_error_not_written; [lia|assumption].
Qed.

(** The hash [0x00A00000] at time 1000 in a sketch of four registers:
    register 0, rank 19. *)
Lemma insert_stays_in_array_witness :
  exists hll',
    hyperloglog_insert four_registers 10485760 1000 = Some hll'
    /\ laid_out hll'
    /\ 0 <= cell four_registers 10485760
       < data_size four_registers * max_bit_position four_registers
    /\ nth_error (data hll') (Z.to_nat (cell four_registers 10485760))
       = Some 1000
    /\ forall i, i <> Z.to_nat (cell four_registers 10485760) ->
                 nth_error (data hll') i = nth_error (data four_registers) i.
Proof.
  apply (insert_stays_in_array four_registers 10485760 1000).
  - repeat split; vm_compute; first [reflexivity | discriminate].
  - lia.
Defined.

(** ** The scan of a query *)

Lemma scan_register_agree d d' i mbp since :
  forall j,
    (forall n, 0 <= Z.of_nat n < Z.of_nat j ->
               nth_error d' (Z.to_nat ((i * mbp + Z.of_nat n) mod uint_modulus))
               = nth_error d (Z.to_nat ((i * mbp + Z.of_nat n) mod uint_modulus))) ->
    scan_register d' i mbp j since = scan_register d i mbp j since.
Proof.
  induction j as [|j IH]; intros Hsame; [reflexivity|].
  cbn [scan_register].
  replace (i * mbp + Z.of_nat (S j) - 1) with (i * mbp + Z.of_nat j) by lia.
  rewrite (Hsame j) by lia.
  destruct (nth_error d _) as [seen|]; [|reflexivity].
  destruct (since <? seen); [reflexivity|].
  apply IH. intros n Hn. apply Hsame. lia.
Qed.

(** A register with a time stamp after [since_time] at rank [r] is
    reported at [r + 1] or higher. *)
Lemma scan_register_seen d i mbp since r t :
  forall j,
    (forall n, (n < j)%nat ->
               nth_error d (Z.to_nat ((i * mbp + Z.of_nat n) mod uint_modulus))
               <> None) ->
    (r < j)%nat ->
    nth_error d (Z.to_nat ((i * mbp + Z.of_nat r) mod uint_modulus)) = Some t ->
    since < t ->
    exists m, scan_register d i mbp j since = Some m
              /\ Z.of_nat r + 1 <= m <= Z.of_nat j.
Proof.
  induction j as [|j IH]; intros Hread Hr Hcell Ht; [lia|].
  cbn [scan_register].
  replace (i * mbp + Z.of_nat (S j) - 1) with (i * mbp + Z.of_nat j) by lia.
  destruct (nth_error d (Z.to_nat ((i * mbp + Z.of_nat j) mod uint_modulus)))
    as [seen|] eqn:E; [|exfalso; apply (Hread j); [lia|exact E]].
  destruct (since <? seen) eqn:Es.
  - exists (Z.of_nat (S j)). split; [reflexivity|lia].
  - assert (r <> j).
    { intros ->. rewrite Hcell in E. injection E as <-.
      apply Z.ltb_ge in Es. lia. }
    destruct IH as (m & Hm & Hb); try assumption; try lia.
    + intros n Hn. apply Hread. lia.
    + exists m. split; [exact Hm|lia].
Qed.

(** X3.  A hash inserted with a time stamp after [since_time] is seen by
    the scan of a query: its register is reported with a rank of at least
    the rank of the hash plus one, and the registers of the other indexes
    are reported as before the insert. *)
Theorem inserted_hash_is_seen (hll hll' : hyperloglog)
  (hash current_time since_time : Z) :
  laid_out hll ->
  0 <= hash < 2 ^ 32 ->
  since_time < current_time ->
  hyperloglog_insert hll hash current_time = Some hll' ->
  (exists m,
      max_valid_index hll' (hash mod data_size hll) since_time = Some m
      /\ find_first_set_bit_after_index hash (data_size_log2 hll) + 1 <= m
         <= max_bit_position hll)
  /\ (forall i, 0 <= i < data_size hll -> i <> hash mod data_size hll ->
                max_valid_index hll' i since_time
                = max_valid_index hll i since_time).
Proof.
  intros Hl Hh Ht Hins.
  rewrite (insert_writes_cell hll hash current_time Hl Hh) in Hins.
  injection Hins as <-.
  pose proof (cell_in_register hll hash Hl Hh) as (Hb & Hr & Hc & H32).
  pose proof (laid_out_size hll Hl) as (Hs & Hm & Hfit).
  assert (Hlen : Z.of_nat (length (data hll))
                 = data_size hll * max_bit_position hll) by apply Hl.
  set (b := hash mod data_size hll) in *.
  set (r := find_first_set_bit_after_index hash (data_size_log2 hll)) in *.
  set (mbp := max_bit_position hll) in *.
  assert (Hsmall : forall i n, 0 <= i < data_size hll -> 0 <= n < mbp ->
                     (i * mbp + n) mod uint_modulus = i * mbp + n
                     /\ 0 <= i * mbp + n < Z.of_nat (length (data hll))).
  { intros i n Hi Hn. split.
    - unfold uint_modulus. apply Z.mod_small. nia.
    - nia. }
  unfold max_valid_index. cbn [data max_bit_position]. fold mbp.
  split.
  - destruct (scan_register_seen
                (firstn (Z.to_nat (cell hll hash)) (data hll)
                 ++ current_time :: skipn (S (Z.to_nat (cell hll hash))) (data hll))
                b mbp since_time (Z.to_nat r) current_time (Z.to_nat mbp))
      as (m & Hscan & Hbound).
    + intros n Hn. destruct (Hsmall b (Z.of_nat n)) as [E Hin]; [lia|lia|].
      rewrite E. apply nth_error_Some. rewrite length_written by lia. lia.
    + lia.
    + destruct (Hsmall b r) as [E _]; [lia|lia|].
      rewrite Z2Nat.id by lia. rewrite E.
      apply nth_error_written. unfold cell in *. fold b r mbp in Hc |- *. lia.
    + exact Ht.
    + exists m. split; [exact Hscan|lia].
  - intros i Hi Hne. apply scan_register_agree. intros n Hn.
    destruct (Hsmall i (Z.of_nat n)) as [E Hin]; [lia|lia|].
    rewrite E. apply nth_error_not_written; [lia|].
    unfold cell. fold b r mbp. intros Heq.
    apply Z2Nat.inj in Heq; [|lia|lia]. nia.
Qed.

(** The hash [0x00A00000] inserted at time 1000 into the sketch of four
    registers, queried since time 999. *)
Lemma inserted_hash_is_seen_witness :
  (exists m,
      max_valid_index
        {| data_size_log2 := 2; data_size := 4; max_bit_position := 31;
           data := repeat 0 19 ++ 1000 :: repeat 0 104 |}
        (10485760 mod data_size four_registers) 999 = Some m
      /\ find_first_set_bit_after_index 10485760
           (data_size_log2 four_registers) + 1 <= m
         <= max_bit_position four_registers)
  /\ (forall i, 0 <= i < data_size four_registers ->
                i <> 10485760 mod data_size four_registers ->
                max_valid_index
                  {| data_size_log2 := 2; data_size := 4;
                     max_bit_position := 31;
                     data := repeat 0 19 ++ 1000 :: repeat 0 104 |}
                  i 999
                = max_valid_index four_registers i 999).
Proof.
  apply (inserted_hash_is_seen four_registers _ 10485760 1000 999).
  - repeat split; vm_compute; first [reflexivity | discriminate].
  - lia.
  - lia.
  - vm_compute. reflexivity.
Defined.

(** ** An empty sketch *)

Lemma scan_register_empty d i mbp since :
  0 <= since ->
  forall j,
    (forall n, (n < j)%nat ->
               nth_error d (Z.to_nat ((i * mbp + Z.of_nat n) mod uint_modulus))
               = Some 0) ->
    scan_register d i mbp j since = Some 32.
Proof.
  intros Hs. induction j as [|j IH]; intros Hzero; [reflexivity|].
  cbn [scan_register].
  replace (i * mbp + Z.of_nat (S j) - 1) with (i * mbp + Z.of_nat j) by lia.
  rewrite (Hzero j) by lia.
  destruct (since <? 0) eqn:E; [apply Z.ltb_lt in E; lia|].
  apply IH. intros n Hn. apply Hzero. lia.
Qed.

Lemma nth_error_repeat {A} (x : A) n i :
  (i < n)%nat -> nth_error (repeat x n) i = Some x.
Proof.
  revert i. induction n as [|n IH]; intros i H; [lia|].
  destruct i; [reflexivity|]. cbn. apply IH. lia.
Qed.

Lemma hyperloglog_init_laid_out : laid_out hyperloglog_init.
Proof. repeat split; vm_compute; first [reflexivity | discriminate]. Qed.

(** With fewer than 31 index bits the 32-bit product of the two sizes is
    the number of elements of the array. *)
Lemma elements_all hll :
  laid_out hll ->
  data_size_log2 hll < 31 ->
  elements (data_size hll) (max_bit_position hll) = length (data hll).
Proof.
  intros (Hlog & Hsize & Hmax & Hlen) Hlt. unfold elements.
  rewrite Z.mod_small; [lia|]. unfold uint_modulus.
  rewrite Hsize, Hmax.
  assert (Hpos : 0 < 2 ^ data_size_log2 hll) by (apply Z.pow_pos_nonneg; lia).
  split; [lia|].
  replace (2 ^ 32)
    with (2 ^ data_size_log2 hll * (2 * 2 ^ (31 - data_size_log2 hll))).
  - apply Z.mul_lt_mono_pos_l; [assumption|].
    pose proof (Z.pow_gt_lin_r 2 (31 - data_size_log2 hll)). lia.
  - rewrite <- (Z.pow_succ_r 2) by lia. rewrite <- Z.pow_add_r by lia.
    f_equal. lia.
Qed.

(** X4.  [hyperloglog_reset] on a sketch laid out as [hyperloglog_init]
    does, with fewer than 31 index bits, stays inside the array and
    leaves every time stamp 0.  A query of the emptied sketch since a
    time that is not negative finds every register empty
    ([count_zero_elements] is [data_size]); since a negative time it finds
    every register at the highest rank, because the stamps 0 are later
    than [since_time].  With 31 index bits the sizes multiply to 0 in 32
    bits, and the call leaves the sketch as it is. *)
Theorem reset_empties_sketch (hll : hyperloglog) (since_time : Z) :
  laid_out hll ->
  (data_size_log2 hll < 31 ->
   exists hll',
     hyperloglog_reset hll = Some hll'
     /\ laid_out hll'
     /\ data hll' = repeat 0 (length (data hll))
     /\ (0 <= since_time ->
         count_zero_elements hll' since_time = Some (data_size hll))
     /\ (since_time < 0 ->
         forall i, 0 <= i < data_size hll ->
                   max_valid_index hll' i since_time
                   = Some (max_bit_position hll)))
  /\ (data_size_log2 hll = 31 -> hyperloglog_reset hll = Some hll).
Proof.
  intros Hl. split; [intros Hlt|intros H31].
  2:{ destruct Hl as (Hlog & Hsize & Hmax & Hlen).
      assert (Hnone : elements (data_size hll) (max_bit_position hll) = 0%nat).
      { unfold elements. rewrite Hsize, Hmax, H31. reflexivity. }
      unfold hyperloglog_reset. rewrite Hnone. cbn. now destruct hll. }
  pose proof (elements_all hll Hl Hlt) as Hall.
  pose proof (laid_out_size hll Hl) as (Hs & Hm & Hfit).
  destruct Hl as (Hlog & Hsize & Hmax & Hlen).
  set (n := length (data hll)).
  assert (Hn : Z.of_nat n = data_size hll * max_bit_position hll)
    by (unfold n; lia).
  unfold hyperloglog_reset. rewrite Hall. fold n. rewrite Nat.leb_refl.
  rewrite (skipn_all2 (data hll)) by (unfold n; lia). rewrite app_nil_r.
  eexists. split; [reflexivity|].
  cbn [data data_size max_bit_position data_size_log2].
  assert (Hread : forall i k, 0 <= i < data_size hll ->
                    (k < Z.to_nat (max_bit_position hll))%nat ->
                    nth_error (repeat 0 n)
                      (Z.to_nat ((i * max_bit_position hll + Z.of_nat k)
                                 mod uint_modulus)) = Some 0).
  { intros i k Hi Hk. unfold uint_modulus. rewrite Z.mod_small by nia.
    apply nth_error_repeat. nia. }
  split; [|split; [reflexivity|split]].
  - unfold laid_out. cbn [data data_size max_bit_position data_size_log2].
    rewrite repeat_length. repeat split; try assumption; lia.
  - intros Hsince. unfold count_zero_elements. cbn [data_size].
    assert (Hcount : forall k, Z.of_nat k <= data_size hll ->
              count_zero_registers
                {| data_size_log2 := data_size_log2 hll;
                   data_size := data_size hll;
                   max_bit_position := max_bit_position hll;
                   data := repeat 0 n |} k since_time = Some (Z.of_nat k)).
    { induction k as [|k IH]; intros Hk; [reflexivity|].
      cbn [count_zero_registers]. rewrite IH by lia.
      unfold max_valid_index. cbn [data max_bit_position].
      rewrite scan_register_empty; [|assumption|].
      - cbn [Z.eqb Pos.eqb]. f_equal. unfold uint_modulus.
        rewrite Z.mod_small; [lia|].
        assert (data_size hll <= 2 ^ 31)
          by (rewrite Hsize; apply Z.pow_le_mono_r; lia).
        lia.
      - intros m Hmlt. apply Hread; lia. }
    rewrite Hcount by lia. f_equal. lia.
  - intros Hsince i Hi. unfold max_valid_index. cbn [data max_bit_position].
    destruct (Z.to_nat (max_bit_position hll)) as [|j] eqn:Ej; [lia|].
    cbn [scan_register].
    replace (i * max_bit_position hll + Z.of_nat (S j) - 1)
      with (i * max_bit_position hll + Z.of_nat j) by lia.
    rewrite Hread by lia.
    assert (E : (since_time <? 0) = true) by (apply Z.ltb_lt; lia).
    rewrite E. f_equal. lia.
Qed.

(** The sketch of four registers, queried since time 5. *)
Lemma reset_empties_sketch_witness :
  (data_size_log2 four_registers < 31 ->
   exists hll',
     hyperloglog_reset four_registers = Some hll'
     /\ laid_out hll'
     /\ data hll' = repeat 0 (length (data four_registers))
     /\ (0 <= 5 -> count_zero_elements hll' 5 = Some (data_size four_registers))
     /\ (5 < 0 ->
         forall i, 0 <= i < data_size four_registers ->
                   max_valid_index hll' i 5
                   = Some (max_bit_position four_registers)))
  /\ (data_size_log2 four_registers = 31 ->
      hyperloglog_reset four_registers = Some four_registers).
Proof.
  apply (reset_empties_sketch four_registers 5).
  repeat split; vm_compute; first [reflexivity | discriminate].
Defined.

End HyperLogLogFacts.

(* ================================================================== *)
(** * What [test_if_number] accepts *)

Module LogNameFacts.
Import LogName.

Section Parse.

Variable my_isdigit : Z -> bool.
Variable wild_many wild_one : Z.
Variable atol : list Z -> Z.
Variable allow_wildcards : bool.

Local Abbreviation numeric := (numeric my_isdigit wild_many wild_one allow_wildcards).
Local Abbreviation skip_numeric :=
  (skip_numeric my_isdigit wild_many wild_one allow_wildcards).
Local Abbreviation test_if_number :=
  (test_if_number my_isdigit wild_many wild_one atol allow_wildcards).
Local Abbreviation number_syntax :=
  (number_syntax my_isdigit wild_many wild_one allow_wildcards).

Lemma skip_spaces_app spaces rest :
  Forall (fun c => c = 32) spaces ->
  skip_spaces (spaces ++ rest) = skip_spaces rest.
Proof.
  induction 1 as [|c spaces -> _ IH]; [reflexivity|]. cbn. exact IH.
Qed.

Lemma skip_spaces_stop rest : deref rest <> 32 -> skip_spaces rest = rest.
Proof.
  destruct rest as [|c rest]; [reflexivity|]. cbn. intros H.
  destruct (c =? 32) eqn:E; [apply Z.eqb_eq in E; contradiction|reflexivity].
Qed.

Lemma skip_spaces_split str :
  exists spaces,
    str = spaces ++ skip_spaces str
    /\ Forall (fun c => c = 32) spaces
    /\ deref (skip_spaces str) <> 32.
Proof.
  induction str as [|c str (spaces & Hs & Hall & Hstop)].
  - exists []. cbn. repeat split; [constructor|discriminate].
  - cbn [skip_spaces]. destruct (c =? 32) eqn:E.
    + apply Z.eqb_eq in E. subst c. exists (32 :: spaces).
      split; [cbn; congruence|]. split; [now constructor|assumption].
    + apply Z.eqb_neq in E. exists []. repeat split; [constructor|exact E].
Qed.

Lemma skip_numeric_app digits rest flag :
  Forall (fun c => numeric c = true) digits ->
  skip_numeric (digits ++ rest) flag
  = skip_numeric rest (flag || nonempty digits).
Proof.
  intros H. revert flag. induction H as [|c digits Hc _ IH]; intros flag.
  - cbn. now rewrite orb_false_r.
  - cbn [app LogName.skip_numeric]. rewrite Hc, IH. cbn.
    now rewrite orb_true_r.
Qed.

Lemma skip_numeric_stop rest flag :
  numeric (deref rest) = false -> skip_numeric rest flag = Some (rest, flag).
Proof.
  destruct rest as [|c rest]; cbn; intros ->; reflexivity.
Qed.

Lemma skip_numeric_split str flag :
  numeric 0 = false ->
  exists digits rest,
    skip_numeric str flag = Some (rest, flag || nonempty digits)
    /\ str = digits ++ rest
    /\ Forall (fun c => numeric c = true) digits
    /\ numeric (deref rest) = false.
Proof.
  intros H0. revert flag. induction str as [|c str IH]; intros flag.
  - exists [], []. cbn. rewrite H0, orb_false_r. repeat split; auto.
  - cbn [LogName.skip_numeric]. destruct (numeric c) eqn:E.
    + destruct (IH true) as (digits & rest & Hrun & Hs & Hall & Hstop).
      exists (c :: digits), rest. rewrite Hrun. cbn. rewrite orb_true_r.
      repeat split; [congruence|now constructor|assumption].
    + exists [], (c :: str). cbn. rewrite orb_false_r. repeat split; auto.
Qed.

Hypothesis numeric_0 : numeric 0 = false.
Hypothesis numeric_space : numeric 32 = false.
Hypothesis numeric_minus : numeric 45 = false.
Hypothesis numeric_plus : numeric 43 = false.
Hypothesis numeric_dot : numeric 46 = false.

Lemma numeric_not c x : numeric x = false -> numeric c = true -> c <> x.
Proof. intros Hx Hc ->. congruence. Qed.

Lemma accepted str :
  number_syntax str -> test_if_number str = Some (Some (atol str)).
Proof.
  intros (spaces & sign & int & frac & Hstr & Hsp & Hsign & Hint & Hfrac & Hflag).
  assert (Hs1 : skip_spaces str = skip_spaces (sign ++ int ++ frac))
    by (rewrite Hstr; now apply skip_spaces_app).
  unfold LogName.test_if_number. cbv zeta. rewrite Hs1. clear Hs1.
  (* what [int ++ frac] starts with *)
  assert (Hhead : deref (int ++ frac) <> 32 /\ deref (int ++ frac) <> 45
                  /\ deref (int ++ frac) <> 43).
  { destruct Hint as [|c int Hc _].
    - destruct Hfrac as [->|(f & -> & _)]; cbn; repeat split; discriminate.
    - cbn. repeat split; eapply numeric_not; eauto. }
  destruct Hhead as (H32 & H45 & H43).
  assert (Hsigned :
    (if (deref (skip_spaces (sign ++ int ++ frac)) =? 45)
        || (deref (skip_spaces (sign ++ int ++ frac)) =? 43)
     then tl (skip_spaces (sign ++ int ++ frac))
     else skip_spaces (sign ++ int ++ frac)) = int ++ frac).
  { destruct Hsign as [->|[->| ->]]; cbn [app].
    - rewrite skip_spaces_stop by assumption.
      apply Z.eqb_neq in H45, H43. now rewrite H45, H43.
    - reflexivity.
    - reflexivity. }
  rewrite Hsigned.
  rewrite skip_numeric_app by assumption. cbn [orb].
  destruct Hfrac as [->|(f & -> & Hf)].
  - cbn. rewrite numeric_0. cbn.
    destruct Hflag as [Hne|(c & f & Hc)]; [|discriminate].
    destruct int; [contradiction|]. reflexivity.
  - cbn [LogName.skip_numeric]. rewrite numeric_dot. cbn [deref Z.eqb Pos.eqb tl].
    rewrite <- (app_nil_r f), skip_numeric_app by assumption.
    cbn [LogName.skip_numeric]. rewrite numeric_0. cbn [deref Z.eqb negb orb].
    assert (Hset : nonempty int || nonempty f = true).
    { destruct Hflag as [Hne|(c & f' & Hc)].
      - destruct int; [contradiction|reflexivity].
      - injection Hc as ->. cbn. apply orb_true_r. }
    rewrite Hset. reflexivity.
Qed.

Lemma accepted_only str :
  Forall (fun c => c <> 0) str ->
  exists result,
    test_if_number str = Some result
    /\ (result <> None -> number_syntax str).
Proof.
  intros Hnz. unfold LogName.test_if_number.
  destruct (skip_spaces_split str) as (spaces & Hstr & Hsp & Hstop).
  set (s1 := skip_spaces str) in *.
  (* the sign *)
  assert (Hsign : exists sign s2,
    (if (deref s1 =? 45) || (deref s1 =? 43) then tl s1 else s1) = s2
    /\ s1 = sign ++ s2
    /\ (sign = [] \/ sign = [45] \/ sign = [43])).
  { destruct ((deref s1 =? 45) || (deref s1 =? 43)) eqn:E.
    - destruct s1 as [|c s1']; [discriminate|]. cbn in E.
      apply orb_true_iff in E. destruct E as [E|E]; apply Z.eqb_eq in E; subst c.
      + exists [45], s1'. auto.
      + exists [43], s1'. auto.
    - exists [], s1. auto. }
  destruct Hsign as (sign & s2 & -> & Hs1 & Hsign).
  destruct (skip_numeric_split s2 false numeric_0)
    as (int & s3 & -> & Hs2 & Hint & Hstop3).
  cbn [orb].
  assert (Hnz3 : Forall (fun c => c <> 0) s3).
  { rewrite Hstr, Hs1, Hs2 in Hnz.
    apply Forall_app in Hnz. destruct Hnz as [_ Hnz].
    apply Forall_app in Hnz. destruct Hnz as [_ Hnz].
    apply Forall_app in Hnz. apply Hnz. }
  destruct (deref s3 =? 46) eqn:Edot.
  - destruct s3 as [|c s3']; [discriminate|]. cbn in Edot.
    apply Z.eqb_eq in Edot. subst c. cbn [tl].
    destruct (skip_numeric_split s3' (nonempty int) numeric_0)
      as (f & s4 & -> & Hs3 & Hf & Hstop4).
    destruct (negb (deref s4 =? 0) || negb (nonempty int || nonempty f)) eqn:E.
    + exists None. split; [reflexivity|congruence].
    + eexists. split; [reflexivity|]. intros _.
      apply orb_false_iff in E. destruct E as [E0 Eflag].
      apply negb_false_iff in E0, Eflag. apply Z.eqb_eq in E0.
      assert (s4 = []).
      { destruct s4 as [|c s4]; [reflexivity|]. cbn in E0. subst c.
        apply Forall_inv_tail in Hnz3. rewrite Hs3 in Hnz3.
        apply Forall_app in Hnz3. destruct Hnz3 as [_ Hnz3].
        apply Forall_inv in Hnz3. contradiction. }
      subst s4. rewrite app_nil_r in Hs3. subst s3'.
      exists spaces, sign, int, (46 :: f).
      split; [congruence|]. split; [assumption|]. split; [assumption|].
      split; [assumption|]. split; [right; eauto|].
      apply orb_true_iff in Eflag. destruct Eflag as [E|E].
      * left. destruct int; [discriminate|discriminate].
      * right. destruct f as [|c f]; [discriminate|eauto].
  - destruct (negb (deref s3 =? 0) || negb (nonempty int)) eqn:E.
    + exists None. split; [reflexivity|congruence].
    + eexists. split; [reflexivity|]. intros _.
      apply orb_false_iff in E. destruct E as [E0 Eflag].
      apply negb_false_iff in E0, Eflag. apply Z.eqb_eq in E0.
      assert (s3 = []).
      { destruct s3 as [|c s3]; [reflexivity|]. cbn in E0. subst c.
        apply Forall_inv in Hnz3. contradiction. }
      subst s3. exists spaces, sign, int, [].
      split; [congruence|]. split; [assumption|]. split; [assumption|].
      split; [assumption|]. split; [now left|].
      left. destruct int; [discriminate|discriminate].
Qed.

(** X5.  [test_if_number] accepts exactly the strings made of spaces, an
    optional sign, digits, and optionally a dot with digits, with at least
    one digit before or after the dot; it then stores [atol] of the whole
    string.  Every other string is refused (the empty string, a lone sign
    or dot, a string with any other character), and the scan never runs
    past the end of the string. *)
Theorem test_if_number_syntax (str : list Z) :
  Forall (fun c => c <> 0) str ->
  (number_syntax str -> test_if_number str = Some (Some (atol str)))
  /\ (~ number_syntax str -> test_if_number str = Some None).
Proof.
  intros Hnz. split; [apply accepted|].
  intros Hno. destruct (accepted_only str Hnz) as (result & Hrun & Hyes).
  rewrite Hrun. destruct result as [n|]; [|reflexivity].
  exfalso. apply Hno, Hyes. discriminate.
Qed.

End Parse.

(** With the digits of ASCII and no wildcards, on the extension
    [000012]. *)
Lemma test_if_number_syntax_witness :
  (number_syntax ascii_digit 37 95 false extension_000012 ->
   test_if_number ascii_digit 37 95 decimal_atol false extension_000012
   = Some (Some (decimal_atol extension_000012)))
  /\ (~ number_syntax ascii_digit 37 95 false extension_000012 ->
      test_if_number ascii_digit 37 95 decimal_atol false extension_000012
      = Some None).
Proof.
  apply (test_if_number_syntax ascii_digit 37 95 decimal_atol false);
    try reflexivity.
  repeat constructor; discriminate.
Defined.

Section Names.

Variable my_isdigit : Z -> bool.
Variable wild_many wild_one : Z.
Variable atol : list Z -> Z.
Variable sprintf_06ld : Z -> Z * list Z.

Local Abbreviation is_number := (number_syntax my_isdigit wild_many wild_one false).
Local Abbreviation largest_number :=
  (largest_number my_isdigit wild_many wild_one atol).

Hypothesis digit_0 : my_isdigit 0 = false.
Hypothesis digit_space : my_isdigit 32 = false.
Hypothesis digit_minus : my_isdigit 45 = false.
Hypothesis digit_plus : my_isdigit 43 = false.
Hypothesis digit_dot : my_isdigit 46 = false.

Lemma not_numeric c :
  my_isdigit c = false -> numeric my_isdigit wild_many wild_one false c = false.
Proof. intros H. unfold numeric. now rewrite H. Qed.

Lemma number_test ext :
  Forall (fun c => c <> 0) ext ->
  (is_number ext
   /\ test_if_number my_isdigit wild_many wild_one atol false ext
      = Some (Some (atol ext)))
  \/ (~ is_number ext
      /\ test_if_number my_isdigit wild_many wild_one atol false ext
         = Some None).
Proof.
  intros Hnz.
  destruct (accepted_only my_isdigit wild_many wild_one atol false
              (not_numeric 0 digit_0) ext Hnz) as (result & Hrun & Hyes).
  destruct result as [n|].
  - left. assert (Hnum : is_number ext) by (apply Hyes; discriminate).
    split; [exact Hnum|].
    apply accepted; auto using not_numeric.
  - right. split; [|exact Hrun]. intros Hnum.
    rewrite (accepted my_isdigit wild_many wild_one atol false) in Hrun;
      auto using not_numeric. discriminate.
Qed.

Lemma starts_with_app start name :
  starts_with start name = true <-> exists ext, name = start ++ ext.
Proof.
  revert name. induction start as [|c start IH]; intros name.
  - cbn. split; [eauto|reflexivity].
  - destruct name as [|d name]; cbn.
    + split; [discriminate|intros (ext & H); discriminate].
    + rewrite andb_true_iff, Z.eqb_eq, IH. split.
      * intros (-> & ext & ->). eauto.
      * intros (ext & H). injection H as -> ->. eauto.
Qed.

Lemma skipn_start {A} (start ext : list A) :
  skipn (length start) (start ++ ext) = ext.
Proof. induction start; cbn; auto. Qed.

(** The loop keeps the largest number seen among the entries
    [start.number]. *)
Lemma largest_number_spec start entries :
  Forall (Forall (fun c => c <> 0)) entries ->
  (forall ext, In (start ++ 46 :: ext) entries -> is_number ext ->
               0 <= atol ext < 2 ^ 63 - 1) ->
  forall max_found,
    0 <= max_found < 2 ^ 63 - 1 ->
    exists largest,
      largest_number (start ++ [46]) entries max_found = Some largest
      /\ max_found <= largest < 2 ^ 63 - 1
      /\ (forall ext, In (start ++ 46 :: ext) entries -> is_number ext ->
                      atol ext <= largest)
      /\ (largest = max_found
          \/ exists ext, In (start ++ 46 :: ext) entries /\ is_number ext
                         /\ largest = atol ext).
Proof.
  induction entries as [|name entries IH]; intros Hnz Hrange max_found Hmax.
  - exists max_found. cbn. repeat split; try lia; auto; try (intros ext []).
  - pose proof (Forall_inv Hnz) as Hname. apply Forall_inv_tail in Hnz.
    assert (Hrange' : forall ext, In (start ++ 46 :: ext) entries ->
              is_number ext -> 0 <= atol ext < 2 ^ 63 - 1).
    { intros ext Hin. apply Hrange. now right. }
    cbn [LogName.largest_number].
    destruct (starts_with (start ++ [46]) name) eqn:Estart.
    + apply starts_with_app in Estart. destruct Estart as (ext0 & Ename).
      assert (Ename' : name = start ++ 46 :: ext0)
        by (rewrite Ename, <- app_assoc; reflexivity).
      assert (Hnz0 : Forall (fun c => c <> 0) ext0).
      { rewrite Ename in Hname. apply Forall_app in Hname. apply Hname. }
      assert (Hsame : forall ext, name = start ++ 46 :: ext -> ext = ext0).
      { intros ext Hin. rewrite Ename' in Hin. apply app_inv_head in Hin.
        now injection Hin. }
      replace (skipn (length (start ++ [46])) name) with ext0
        by (rewrite Ename; symmetry; apply skipn_start).
      destruct (number_test ext0 Hnz0) as [[Hnum ->]|[Hnum ->]].
      * assert (Hr0 : 0 <= atol ext0 < 2 ^ 63 - 1).
        { apply Hrange; [left; exact Ename'|exact Hnum]. }
        unfold ulong_modulus. rewrite Z.mod_small by lia.
        destruct (IH Hnz Hrange' (Z.max max_found (atol ext0)))
          as (largest & Hrun & Hb & Hall & Hwhich); [lia|].
        exists largest. split; [exact Hrun|]. split; [lia|]. split.
        -- intros ext [Hin|Hin] Hn; [|now apply Hall].
           rewrite (Hsame ext Hin). lia.
        -- destruct Hwhich as [Heq|(ext & Hin & Hn & Heq)].
           ++ destruct (Z.max_spec max_found (atol ext0)) as [[_ E]|[_ E]];
                rewrite E in Heq.
              ** right. exists ext0. split; [left; exact Ename'|]. auto.
              ** now left.
           ++ right. exists ext. split; [now right|]. auto.
      * destruct (IH Hnz Hrange' max_found Hmax)
          as (largest & Hrun & Hb & Hall & Hwhich).
        exists largest. split; [exact Hrun|]. split; [lia|]. split.
        -- intros ext [Hin|Hin] Hn; [|now apply Hall].
           rewrite (Hsame ext Hin) in Hn. contradiction.
        -- destruct Hwhich as [Heq|(ext & Hin & Hn & Heq)]; [now left|].
           right. exists ext. split; [now right|]. auto.
    + destruct (IH Hnz Hrange' max_found Hmax)
        as (largest & Hrun & Hb & Hall & Hwhich).
      exists largest. split; [exact Hrun|]. split; [lia|]. split.
      * intros ext [Hin|Hin] Hn; [|now apply Hall].
        exfalso. assert (starts_with (start ++ [46]) name = true).
        { apply starts_with_app. exists ext. rewrite Hin, <- app_assoc. reflexivity. }
        congruence.
      * destruct Hwhich as [Heq|(ext & Hin & Hn & Heq)]; [now left|].
        right. exists ext. split; [now right|]. auto.
Qed.

(** X6.  [find_uniq_filename] numbers the new file one above the largest
    number among the directory entries named [start.number] (numbers as
    [test_if_number] accepts them, from 0 up to [LONG_MAX - 2]), and 1 when
    there is none: the number is above that of every such entry, and
    entries with another name or extension do not count.  The name
    becomes [start], a dot and what [%06ld] prints for that number. *)
Theorem find_uniq_filename_next_number (start : list Z)
  (entries : list (list Z)) :
  Forall (Forall (fun c => c <> 0)) entries ->
  (forall ext, In (start ++ 46 :: ext) entries -> is_number ext ->
               0 <= atol ext < 2 ^ 63 - 1) ->
  exists number,
    find_uniq_filename my_isdigit wild_many wild_one atol sprintf_06ld
                       start (Some entries)
    = Some (if fst (sprintf_06ld number) <? 0 then 1 else 0,
            start ++ 46 :: snd (sprintf_06ld number))
    /\ (forall ext, In (start ++ 46 :: ext) entries -> is_number ext ->
                    atol ext < number)
    /\ (number = 1
        \/ exists ext, In (start ++ 46 :: ext) entries /\ is_number ext
                       /\ number = atol ext + 1).
Proof.
  intros Hnz Hrange.
  destruct (largest_number_spec start entries Hnz Hrange 0)
    as (largest & Hrun & Hb & Hall & Hwhich); [lia|].
  exists (largest + 1). unfold find_uniq_filename. rewrite Hrun.
  assert (Hlong : to_long ((largest + 1) mod ulong_modulus) = largest + 1).
  { unfold to_long, ulong_modulus. rewrite (Z.mod_small (largest + 1)) by lia.
    rewrite Z.mod_small by lia. lia. }
  rewrite Hlong. destruct (sprintf_06ld (largest + 1)) as [written text].
  cbn [fst snd app]. split; [reflexivity|]. split.
  - intros ext Hin Hn. specialize (Hall ext Hin Hn). lia.
  - destruct Hwhich as [->|(ext & Hin & Hn & ->)]; [now left|].
    right. exists ext. auto.
Qed.

End Names.

(** The next file of the log [bin] in the example directory. *)
Lemma find_uniq_filename_witness :
  exists number,
    find_uniq_filename ascii_digit 37 95 decimal_atol print_06ld
                       bin (Some directory)
    = Some (if fst (print_06ld number) <? 0 then 1 else 0,
            bin ++ 46 :: snd (print_06ld number))
    /\ (forall ext, In (bin ++ 46 :: ext) directory ->
                    number_syntax ascii_digit 37 95 false ext ->
                    decimal_atol ext < number)
    /\ (number = 1
        \/ exists ext, In (bin ++ 46 :: ext) directory
                       /\ number_syntax ascii_digit 37 95 false ext
                       /\ number = decimal_atol ext + 1).
Proof.
  apply (find_uniq_filename_next_number ascii_digit 37 95 decimal_atol
           print_06ld); try reflexivity.
  - repeat constructor; discriminate.
  - intros ext Hin _. cbn in Hin.
    destruct Hin as [H|[H|[H|[H|[]]]]];
      first [discriminate H
            | injection H as <-; vm_compute; split; [discriminate|reflexivity]].
Defined.

End LogNameFacts.

(* ================================================================== *)
(** * [write_cache] only appends *)

Module WriteCacheAppends.
Import Cache WriteCache.

Lemma appended_refl f : appended f f.
Proof.
  repeat split; auto. exists []. now rewrite app_nil_r.
Qed.

Lemma appended_trans f1 f2 f3 :
  appended f1 f2 -> appended f2 f3 -> appended f1 f3.
Proof.
  intros (E1 & (x1 & C1) & R1) (E2 & (x2 & C2) & R2). split; [congruence|].
  split.
  - exists (x1 ++ x2). now rewrite C2, C1, app_assoc.
  - intros H. rewrite E1 in R2. apply R2. now apply R1.
Qed.

Lemma my_b_write_appends f buf f' :
  my_b_write f buf = Some f' -> appended f f'.
Proof.
  unfold my_b_write. destruct (end_of_file f <? _) eqn:E; [discriminate|].
  intros H. injection H as <-. apply Z.ltb_ge in E.
  repeat split; cbn; eauto.
  intros _. unfold my_b_tell in *. cbn. rewrite length_app. lia.
Qed.

Lemma write_segment_appends group f buf L h carry header s st' :
  write_segment group f buf L h carry header = Some (s, st') ->
  appended f (log_file st').
Proof.
  unfold write_segment.
  destruct (if 0 <? L then _ else _) as [[[[[b len] h'] c'] hd']|];
    [|discriminate].
  destruct (my_b_write f (bytes_at b 0 len)) as [f'|] eqn:E; intros H;
    injection H as <- <-; cbn.
  - now apply my_b_write_appends in E.
  - apply appended_refl.
Qed.

Lemma copy_segment_appends group buf st s st' :
  copy_segment group buf st = Some (s, st') ->
  appended (log_file st) (log_file st').
Proof.
  unfold copy_segment. destruct (0 <? carry st).
  - destruct (Z.of_nat (length buf) <? _); [discriminate|].
    destruct (my_b_write (log_file st) _) as [f|] eqn:E.
    + intros H. apply write_segment_appends in H.
      apply my_b_write_appends in E. eapply appended_trans; eauto.
    + intros H. injection H as <- <-. apply appended_refl.
  - apply write_segment_appends.
Qed.

Lemma copy_loop_appends group fills :
  forall buf st s st',
    copy_loop group buf fills st = Some (s, st') ->
    appended (log_file st) (log_file st').
Proof.
  induction fills as [|next fills IH]; intros buf st s st'; cbn [copy_loop];
    destruct (copy_segment group buf st) as [[[|] st1]|] eqn:E;
    try discriminate;
    apply copy_segment_appends in E.
  - intros H. now injection H as <- <-.
  - intros H. now injection H as <- <-.
  - destruct next as [|b next].
    + intros H. now injection H as <- <-.
    + intros H. apply IH in H. eapply appended_trans; eauto.
  - intros H. now injection H as <- <-.
Qed.

(** ** On every read *)

Lemma write_segment_in_appends fuel group f buf L h carry header s st' :
  write_segment_in fuel group f buf L h carry header = Some (s, st') ->
  appended f (log_file st').
Proof.
  unfold write_segment_in.
  destruct (if 0 <? L then _ else _) as [[[[[b len] h'] c'] hd']|];
    [|discriminate].
  destruct (my_b_write f (bytes_at b 0 len)) as [f'|] eqn:E; intros H;
    injection H as <- <-; cbn.
  - now apply my_b_write_appends in E.
  - apply appended_refl.
Qed.

Lemma copy_segment_in_appends fuel group segment st s st' :
  copy_segment_in fuel group segment st = Some (s, st') ->
  appended (log_file st) (log_file st').
Proof.
  unfold copy_segment_in. destruct (0 <? carry st).
  - destruct (Z.of_nat (length (fst segment ++ snd segment)) <? _);
      [discriminate|].
    destruct (my_b_write (log_file st) _) as [f|] eqn:E.
    + intros H. apply write_segment_in_appends in H.
      apply my_b_write_appends in E. eapply appended_trans; eauto.
    + intros H. injection H as <- <-. apply appended_refl.
  - apply write_segment_in_appends.
Qed.

Lemma copy_loop_in_appends fuel group fills :
  forall segment st s st',
    copy_loop_in fuel group segment fills st = Some (s, st') ->
    appended (log_file st) (log_file st').
Proof.
  induction fills as [|next fills IH]; intros segment st s st';
    cbn [copy_loop_in];
    destruct (copy_segment_in fuel group segment st) as [[[|] st1]|] eqn:E;
    try discriminate;
    apply copy_segment_in_appends in E.
  - intros H. now injection H as <- <-.
  - intros H. now injection H as <- <-.
  - destruct (fst next) as [|b rest].
    + intros H. now injection H as <- <-.
    + intros H. apply IH in H. eapply appended_trans; eauto.
  - intros H. now injection H as <- <-.
Qed.

(** ** The reads of [write_cache] are among them *)

Lemma fix_headers_more_fuel group :
  forall fuel buf L h carry header r,
    fix_headers fuel group buf L h carry header = Some r ->
    forall fuel', (fuel <= fuel')%nat ->
                  fix_headers fuel' group buf L h carry header = Some r.
Proof.
  induction fuel as [|fuel IH]; intros buf L h carry header r;
    [discriminate|].
  intros H [|fuel'] Hle; [lia|]. revert H. cbn [fix_headers].
  destruct (h <? L); [|auto].
  destruct (L <? _).
  - intros H. eapply IH; [exact H|lia].
  - destruct (_ <? _); [discriminate|].
    intros H. eapply IH; [exact H|lia].
Qed.

Lemma write_segment_in_covers group f buf L h carry header r :
  write_segment group f buf L h carry header = Some r ->
  forall fuel, (S (S (length buf)) <= fuel)%nat ->
               write_segment_in fuel group f buf L h carry header = Some r.
Proof.
  unfold write_segment, write_segment_in. intros H fuel Hle.
  destruct (0 <? L); [|exact H].
  destruct (fix_headers (S (S (length buf))) group buf L h carry header)
    as [r1|] eqn:E; [|discriminate].
  now rewrite (fix_headers_more_fuel _ _ _ _ _ _ _ _ E fuel Hle).
Qed.

Lemma copy_segment_in_covers group buf st r :
  copy_segment group buf st = Some r ->
  exists enough,
    forall fuel, (enough <= fuel)%nat ->
                 copy_segment_in fuel group (delivered_only buf) st = Some r.
Proof.
  unfold copy_segment, copy_segment_in, delivered_only. cbn [fst snd].
  rewrite app_nil_r.
  destruct (0 <? carry st).
  - destruct (Z.of_nat (length buf) <? _); [discriminate|].
    destruct (my_b_write (log_file st) _) as [f|].
    + intros H. eexists. intros fuel Hle.
      eapply write_segment_in_covers; [exact H|exact Hle].
    + intros H. exists 0%nat. intros fuel _. exact H.
  - intros H. eexists. intros fuel Hle.
    eapply write_segment_in_covers; [exact H|exact Hle].
Qed.

Lemma copy_loop_in_covers group fills :
  forall buf st r,
    copy_loop group buf fills st = Some r ->
    exists enough,
      forall fuel, (enough <= fuel)%nat ->
                   copy_loop_in fuel group (delivered_only buf) (map delivered_only fills) st
                   = Some r.
Proof.
  induction fills as [|next fills IH]; intros buf st r;
    cbn [copy_loop copy_loop_in map];
    destruct (copy_segment group buf st) as [[[|] st1]|] eqn:E;
    try discriminate;
    apply copy_segment_in_covers in E; destruct E as (n1 & E).
  - intros H. exists n1. intros fuel Hle. now rewrite (E fuel Hle).
  - intros H. exists n1. intros fuel Hle. now rewrite (E fuel Hle).
  - destruct next as [|b next]; cbn [delivered_only fst].
    + intros H. exists n1. intros fuel Hle. now rewrite (E fuel Hle).
    + intros H. apply IH in H. destruct H as (n2 & H).
      exists (Nat.max n1 n2). intros fuel Hle.
      rewrite (E fuel) by lia. apply H. lia.
  - intros H. exists n1. intros fuel Hle. now rewrite (E fuel Hle).
Qed.

(** Whatever [write_cache] returns on a read, [write_cache_in] returns
    on the same read with nothing behind the segments, once the bound of
    the header loop is large enough. *)
Lemma write_cache_in_covers reinit_fails cache_error in_cache fills log r :
  write_cache reinit_fails cache_error in_cache fills log = Some r ->
  exists enough,
    forall fuel, (enough <= fuel)%nat ->
                 write_cache_in fuel reinit_fails cache_error (delivered_only in_cache)
                                (map delivered_only fills) log = Some r.
Proof.
  unfold write_cache, write_cache_in. destruct reinit_fails.
  - intros H. exists 0%nat. intros fuel _. exact H.
  - destruct (copy_loop _ _ _ _) as [r1|] eqn:E; [|discriminate].
    apply copy_loop_in_covers in E. destruct E as (n & E).
    intros H. exists n. intros fuel Hle. now rewrite (E fuel Hle).
Qed.

(** X7.  Whenever [write_cache] returns, whatever the cache delivered
    (well-formed events or not, segments that end inside a header or are
    too short for the rest of one, with whatever the read buffer holds
    behind them), however long its header loop ran, and whether the copy
    ended well or with [ER_ERROR_ON_WRITE], the bytes that were in the log
    file are where they were: the file only got bytes added at its end,
    its limit [end_of_file] stayed, and it was not written past that
    limit. *)
Theorem write_cache_only_appends
  (fuel : nat) (reinit_fails cache_error : bool)
  (in_cache : list byte * list byte) (fills : list (list byte * list byte))
  (log log' : IO_CACHE) (s : status) :
  write_cache_in fuel reinit_fails cache_error in_cache fills log
  = Some (s, log') ->
  end_of_file log' = end_of_file log
  /\ (exists extra, contents log' = contents log ++ extra)
  /\ (my_b_tell log <= end_of_file log -> my_b_tell log' <= end_of_file log).
Proof.
  unfold write_cache_in. destruct reinit_fails.
  - intros H. injection H as <- <-. apply appended_refl.
  - destruct (copy_loop_in _ _ _ _ _) as [[[|] st]|] eqn:E; [| |discriminate];
      apply copy_loop_in_appends in E; cbn [log_file] in E;
      intros H; injection H as <- <-; exact E.
Qed.

(** The cache of the example, read with a fill too short for the split
    header. *)
Lemma write_cache_only_appends_witness :
  exists log' s,
    write_cache_in 100 false false
                   (WriteCacheExamples.in_cache, [])
                   WriteCacheExamples.short_fills WriteCacheExamples.log
    = Some (s, log')
    /\ end_of_file log' = end_of_file WriteCacheExamples.log
    /\ (exists extra,
           contents log' = contents WriteCacheExamples.log ++ extra)
    /\ (my_b_tell WriteCacheExamples.log <= end_of_file WriteCacheExamples.log ->
        my_b_tell log' <= end_of_file WriteCacheExamples.log).
Proof.
  do 2 eexists. split; [vm_compute; reflexivity|].
  apply (write_cache_only_appends 100 false false
           (WriteCacheExamples.in_cache, []) WriteCacheExamples.short_fills
           WriteCacheExamples.log _ OK).
  vm_compute. reflexivity.
Defined.

End WriteCacheAppends.

(* ================================================================== *)
(** * The recovery scan: unfinished transactions and the xid set *)

Module RecoveryScanFacts.
Import Recovery RecoveryScan.

Lemma recover_loop_app pre rest s s1 :
  Forall (fun r => is_valid r = true) pre ->
  recover_loop pre s = (false, s1) ->
  recover_loop (pre ++ rest) s = recover_loop rest s1.
Proof.
  intros Hvalid. revert s. induction Hvalid as [|r pre Hr _ IH]; intros s.
  - cbn. intros H. now injection H as <-.
  - cbn [app recover_loop]. rewrite Hr.
    destruct (recover_event r s) as [s'|]; [apply IH|discriminate].
Qed.

Lemma recover_loop_inside body :
  Forall inside_transaction body ->
  forall s, in_transaction s = true ->
            recover_loop body s = (false, s).
Proof.
  induction 1 as [|r body (Hvalid & Hcommit & Hxid) _ IH]; intros s Hin;
    [reflexivity|].
  cbn [recover_loop]. rewrite Hvalid.
  assert (Hstep : recover_event r s = Some s).
  { unfold recover_event. rewrite Hcommit, Hin.
    unfold xid_of in Hxid.
    assert (Hflag : (if is_query (ev r) "BEGIN" then true
                     else true) = true) by (destruct (is_query (ev r) "BEGIN"); reflexivity).
    rewrite Hflag.
    replace (match ev r with
             | Xid_log_event x =>
                 if insert_fails r then None else Some (false, xids s ++ [x])
             | _ => Some (true, xids s)
             end) with (Some (true, xids s))
      by (destruct (ev r); try reflexivity; discriminate).
    cbn [negb]. rewrite andb_false_r.
    destruct s; cbn in *; now subst. }
  rewrite Hstep. now apply IH.
Qed.

(** X8.  A transaction that the log does not finish (a [BEGIN] followed
    by events among which there is neither a [COMMIT] nor an XID event)
    leaves [valid_pos] and the xid set as they were before its [BEGIN],
    whatever the offsets of its events: recovery cuts the file where the
    transaction began. *)
Theorem unfinished_transaction_is_cut (pre body : list read) (begin : read)
  (s s1 : scan) :
  Forall (fun r => is_valid r = true) pre ->
  recover_loop pre s = (false, s1) ->
  is_valid begin = true ->
  ev begin = Query_log_event "BEGIN" ->
  Forall inside_transaction body ->
  recover_loop (pre ++ begin :: body) s
  = (false, {| in_transaction := true; xids := xids s1;
               valid_pos := valid_pos s1 |}).
Proof.
  intros Hpre Hrun Hvalid Hbegin Hbody.
  rewrite (recover_loop_app pre (begin :: body) s s1 Hpre Hrun).
  cbn [recover_loop]. rewrite Hvalid.
  unfold recover_event. rewrite Hbegin.
  change (is_query (Query_log_event "BEGIN") "BEGIN") with true.
  change (is_query (Query_log_event "BEGIN") "COMMIT") with false.
  cbn [negb]. rewrite andb_false_r.
  now apply recover_loop_inside.
Qed.

(** A finished transaction, then [BEGIN] and one more event. *)
Lemma unfinished_transaction_witness :
  recover_loop
    (finished ++ a_read (Query_log_event "BEGIN") 270
              :: [a_read Other_log_event 330]) start_of_scan
  = (false, {| in_transaction := true; xids := [42]; valid_pos := 200 |}).
Proof.
  apply (unfinished_transaction_is_cut finished [a_read Other_log_event 330]
           (a_read (Query_log_event "BEGIN") 270) start_of_scan
           {| in_transaction := false; xids := [42]; valid_pos := 200 |}).
  - repeat constructor.
  - reflexivity.
  - reflexivity.
  - reflexivity.
  - repeat constructor.
Defined.

(** X9.  When the scan reaches the end of the log without an error, the
    xid set it hands to the engines is what it started with followed by
    the xids of all XID events read, in log order and with repetitions;
    no other event adds to it. *)
Theorem recover_collects_xids (reads : list read) (s s' : scan) :
  Forall (fun r => is_valid r = true) reads ->
  recover_loop reads s = (false, s') ->
  xids s' = xids s ++ flat_map xid_of reads.
Proof.
  intros Hvalid. revert s. induction Hvalid as [|r reads Hr _ IH]; intros s.
  - cbn. intros H. injection H as <-. now rewrite app_nil_r.
  - cbn [recover_loop flat_map]. rewrite Hr.
    destruct (recover_event r s) as [s1|] eqn:E; [|discriminate].
    intros H. rewrite (IH s1 H), app_assoc. f_equal.
    unfold recover_event, xid_of in *.
    destruct (is_query (ev r) "COMMIT") eqn:Ec.
    + injection E as <-. cbn. destruct (ev r); try discriminate.
      now rewrite app_nil_r.
    + destruct (ev r); try (injection E as <-; cbn; now rewrite app_nil_r).
      destruct (insert_fails r); [discriminate|]. now injection E as <-.
Qed.

Lemma recover_collects_xids_witness :
  xids {| in_transaction := false; xids := [42]; valid_pos := 200 |}
  = xids start_of_scan ++ flat_map xid_of finished.
Proof.
  apply (recover_collects_xids finished start_of_scan
           {| in_transaction := false; xids := [42]; valid_pos := 200 |}).
  - repeat constructor.
  - reflexivity.
Defined.

End RecoveryScanFacts.

(* ================================================================== *)
(** * The files of the log only grow *)

Module BinlogFilesFacts.
Import Cache Binlog BinlogHooks.

Lemma same_files_refl l : same_files l l.
Proof. repeat split. Qed.

Lemma same_files_trans l1 l2 l3 :
  same_files l1 l2 -> same_files l2 l3 -> same_files l1 l3.
Proof.
  intros (a & b & c & p) (a' & b' & c' & p'). repeat split; congruence.
Qed.

Lemma extended_refl l : extended l l.
Proof. repeat split. exists []. now rewrite app_nil_r. Qed.

Lemma same_files_extended l l' : same_files l l' -> extended l l'.
Proof.
  intros (a & b & c & p). repeat split; auto. exists [].
  now rewrite a, app_nil_r.
Qed.

Lemma extended_trans l1 l2 l3 :
  extended l1 l2 -> extended l2 l3 -> extended l1 l3.
Proof.
  intros (p & a & b & x & c) (p' & a' & b' & x' & c').
  repeat split; try congruence.
  exists (x ++ x'). now rewrite c', c, app_assoc.
Qed.

Lemma purged_more_refl l : purged_more l l.
Proof.
  repeat split; auto. exists []. now rewrite app_nil_r.
Qed.

Lemma purged_more_trans l1 l2 l3 :
  purged_more l1 l2 -> purged_more l2 l3 -> purged_more l1 l3.
Proof.
  intros ((m & a) & b & c) ((m' & a') & b' & c').
  repeat split; try lia; auto.
  exists (m ++ m'). now rewrite a', a, app_assoc.
Qed.

Lemma same_files_purged_more l l' : same_files l l' -> purged_more l l'.
Proof.
  intros (_ & _ & c & p). unfold purged_more. rewrite c, p.
  repeat split; auto. exists []. now rewrite app_nil_r.
Qed.

Lemma extended_purged_more l l' : extended l l' -> purged_more l l'.
Proof.
  intros (p & _ & c & _). unfold purged_more. rewrite c, p.
  repeat split; auto. exists []. now rewrite app_nil_r.
Qed.

Lemma grown_refl cfg l : grown cfg l l.
Proof.
  split; [|apply purged_more_refl].
  destruct (log_state l); auto. left. exact (proj2 (extended_refl l)).
Qed.

Lemma extended_grown cfg l l' :
  is_open l = true -> extended l l' -> grown cfg l l'.
Proof.
  intros Ho Hx. split; [|now apply extended_purged_more].
  revert Ho. unfold is_open. destruct (log_state l); try discriminate; auto.
  intros _. left. exact (proj2 Hx).
Qed.

Lemma same_files_grown cfg l l' : same_files l l' -> grown cfg l l'.
Proof.
  intros Hs. split; [|now apply same_files_purged_more].
  destruct Hs as (f & s & c & _).
  destruct (log_state l) eqn:E; [left| |exact I]; repeat split;
    try congruence.
  exists []. now rewrite f, app_nil_r.
Qed.

Lemma grown_trans cfg l1 l2 l3 :
  grown cfg l1 l2 -> grown cfg l2 l3 -> grown cfg l1 l3.
Proof.
  unfold grown. intros [H12 P12] [H23 P23].
  split; [|eapply purged_more_trans; eauto]. clear P12 P23.
  revert H12 H23. destruct (log_state l1) eqn:E1; auto.
  - intros [(s & c & x & Hx)|(Hs & x & later & Hc)].
    + rewrite s, E1.
      intros [(s' & c' & x' & Hx')|(Hs' & x' & later' & Hc')].
      * left. repeat split; try congruence.
        exists (x ++ x'). now rewrite Hx', Hx, app_assoc.
      * right. split; [assumption|]. exists (x ++ x'), later'.
        now rewrite Hc', c, Hx, app_assoc.
    + destruct (log_state l2) eqn:E2; [| |contradiction].
      * intros [(s' & c' & x' & Hx')|(Hs' & x' & later' & Hc')]; right.
        -- split; [congruence|]. exists x, later. congruence.
        -- split; [assumption|].
           exists x, (later ++ closed_file cfg (contents (log_file l2) ++ x')
                        :: later').
           rewrite Hc', Hc, <- app_assoc. reflexivity.
      * intros (f' & s' & c'). right. split; [congruence|].
        exists x, later. congruence.
  - intros (f & s & c). rewrite s. intros (f' & s' & c').
    repeat split; congruence.
Qed.

Lemma rgrown_weaken {A} cfg l l1 (r : result (A * MYSQL_BIN_LOG * THD)) :
  grown cfg l l1 -> rgrown cfg l1 r -> rgrown cfg l r.
Proof.
  intros H. destruct r as [[[a l2] thd2]| |]; cbn; eauto using grown_trans.
Qed.

Lemma rgrown_bind {A B} cfg l (r : result (A * MYSQL_BIN_LOG * THD))
  (k : A * MYSQL_BIN_LOG * THD -> result (B * MYSQL_BIN_LOG * THD)) :
  rgrown cfg l r ->
  (forall a l1 thd1, rgrown cfg l1 (k (a, l1, thd1))) ->
  rgrown cfg l (bind r k).
Proof.
  intros Hr Hk. destruct r as [[[a l1] thd1]| |]; cbn in *; auto.
  eapply rgrown_weaken; eauto.
Qed.

(** Closes a goal [same_files l l'] where [l'] is [l] with other fields
    updated. *)
Ltac same_fields :=
  cbv zeta;
  repeat match goal with
         | |- context [if ?b then _ else _] => destruct b
         end;
  cbn [fst snd]; repeat split; reflexivity.

Section Files.

Variable cfg : sys_vars.
Variable env : Env.
Variable event_image : Log_event -> Z -> list byte.
Variable write_cache : IO_CACHE -> IO_CACHE -> Z * IO_CACHE.

(** The byte-level copy adds to the log file and does nothing else to
    it. *)
Hypothesis write_cache_appends :
  forall cache f,
    exists extra, contents (snd (write_cache cache f)) = contents f ++ extra.

Lemma same_files_order_for_group_commit l thd ht :
  same_files l (snd (fst (order_for_group_commit cfg env l thd ht))).
Proof. unfold order_for_group_commit. same_fields. Qed.

Lemma same_files_flush_and_sync l thd async ht pending :
  same_files l (snd (fst (flush_and_sync cfg env l thd async ht pending))).
Proof.
  unfold flush_and_sync.
  destruct (flush_io_cache_fails env); [apply same_files_refl|].
  destruct async; [apply same_files_refl|].
  set (l0 := upd_sync_binlog_counter _ l).
  assert (H0 : same_files l l0) by (repeat split; reflexivity).
  destruct (_ && _); [|exact H0].
  pose proof (same_files_order_for_group_commit l0 thd ht) as Ho.
  destruct (order_for_group_commit cfg env l0 thd ht) as [[r l1] thd1].
  cbn [fst snd] in Ho.
  assert (Hl : same_files l l1) by exact (same_files_trans _ _ _ H0 Ho).
  clear H0 Ho. clearbody l0.
  eapply same_files_trans; [exact Hl|]. same_fields.
Qed.

Lemma same_files_increment l thd :
  same_files l (fst (increment_group_commit_ticket cfg l thd)).
Proof. unfold increment_group_commit_ticket. same_fields. Qed.

Lemma same_files_wait_loop wakeups thd : forall l,
  match wait_loop cfg wakeups l thd with
  | Ret l' => same_files l l'
  | Wait _ l' => same_files l l'
  | Fault => True
  end.
Proof.
  induction wakeups as [|w ws IH]; intros l; cbn [wait_loop].
  - destruct (_ && _); apply same_files_refl.
  - destruct (_ && _); [|apply same_files_refl].
    match goal with
    | |- context [wait_loop cfg ws ?l0 thd] =>
        specialize (IH l0);
        assert (H0 : same_files l l0) by same_fields;
        destruct (wait_loop cfg ws l0 thd)
    end; try exact I; exact (same_files_trans _ _ _ H0 IH).
Qed.

Lemma Log_event_write_extends e l :
  extended l (upd_log_file (snd (Log_event_write event_image e (log_file l))) l).
Proof.
  repeat split. unfold Log_event_write. destruct (_ <? _); cbn.
  - exists []. now rewrite app_nil_r.
  - eauto.
Qed.

Lemma extended_write_incident_unlocked l :
  extended l (snd (write_incident_unlocked event_image l)).
Proof.
  unfold write_incident_unlocked.
  destruct (negb (is_open l)); [apply extended_refl|].
  pose proof (Log_event_write_extends
                (Incident_log_event "error writing to the binary log") l) as H.
  destruct (Log_event_write _ _ _) as [e f]. exact H.
Qed.

Lemma extended_is_open l l' : extended l l' -> is_open l' = is_open l.
Proof. intros (_ & s & _). unfold is_open. now rewrite s. Qed.

Lemma same_files_added l l' : same_files l l' -> added l l'.
Proof. intros H. exact (proj2 (same_files_extended l l' H)). Qed.

(** Rotation: the old file is finished and put away, whether or not the
    new one could be opened. *)
Lemma files_new_file_impl l :
  match new_file_impl cfg env event_image l with
  | Ret (_, l') | Wait _ l' =>
      match log_state l with
      | LOG_OPENED => added l l' \/ rotated cfg l l'
      | LOG_CLOSED =>
          log_file l' = log_file l
          /\ log_state l' = log_state l
          /\ closed_logs l' = closed_logs l
      | LOG_TO_BE_OPENED => True
      end
  | Fault => True
  end.
Proof.
  destruct (log_state l) eqn:Es.
  - (* the log is open *)
    unfold new_file_impl, is_open. rewrite Es. cbn [negb].
    destruct (stop_new_xids l); [left; apply same_files_added; same_fields|].
    destruct (negb (prepared_xids _ =? 0));
      [left; apply same_files_added; same_fields|].
    destruct (negb (generate_new_name_error env =? 0)) eqn:Eg.
    { cbn. left. apply same_files_added. same_fields. }
    assert (Hrot : forall f : IO_CACHE,
               (exists extra, contents f = contents (log_file l) ++ extra) ->
               forall l1, log_file l1 = f -> log_state l1 = LOG_OPENED ->
                          closed_logs l1 = closed_logs l ->
               match (let '(error, l2) := reopen cfg env (close cfg true l1) in
                      let l3 := pthread_cond_broadcast COND_stop_xids
                                  (upd_stop_new_xids false l2) in
                      Ret (error,
                           if negb (error =? 0) && negb (error =? 0)
                           then sql_print_error
                                  "Could not open log file for logging"
                                  (close cfg false l3)
                           else l3)) with
               | Ret (_, l') => added l l' \/ rotated cfg l l'
               | Wait _ l' => added l l' \/ rotated cfg l l'
               | Fault => True
               end).
    { intros f (extra & Hf) l1 E1 S1 C1.
      unfold reopen, close. rewrite S1. cbn.
      destruct (negb (open_index_file_error env =? 0)) eqn:Ei; cbn.
      - rewrite Ei. cbn. right. split; [discriminate|].
        exists extra, []. now rewrite C1, E1, Hf.
      - destruct (negb (open_error env =? 0)) eqn:Eo; cbn.
        + rewrite Eo. cbn. right. split; [discriminate|].
          exists extra, []. now rewrite C1, E1, Hf.
        + right. split; [discriminate|].
          exists extra, []. now rewrite C1, E1, Hf. }
    destruct (log_type_is_LOG_BIN cfg).
    + destruct (negb (no_auto_events cfg)).
      * pose proof (Log_event_write_extends
                      (Rotate_log_event (new_log_name cfg))
                      (upd_stop_new_xids true l)) as (_ & _ & _ & Hx).
        cbn [log_file upd_stop_new_xids upd_log_file] in Hx.
        destruct (Log_event_write _ _ _) as [e f]. cbn [snd] in Hx.
        destruct e.
        -- cbn. right. unfold close. cbn. rewrite Es. cbn.
           split; [discriminate|]. exists [], []. now rewrite app_nil_r.
        -- change (negb (0 =? 0)) with false. cbv iota.
           apply (Hrot f Hx); [reflexivity|exact Es|reflexivity].
      * change (negb (0 =? 0)) with false. cbv iota.
        apply (Hrot (log_file l)); [|reflexivity|exact Es|reflexivity].
        exists []. now rewrite app_nil_r.
    + change (negb (0 =? 0)) with false. cbv iota.
      apply (Hrot (log_file l)); [|reflexivity|exact Es|reflexivity].
      exists []. now rewrite app_nil_r.
  - (* the log is closed *)
    unfold new_file_impl, is_open. rewrite Es. cbn. now rewrite Es.
  - destruct (new_file_impl _ _ _ _) as [[a l']| |]; exact I.
Qed.

(** No closed file is deleted, and the closed files stay where they are
    among those of [l']. *)
Lemma more_closed_refl l :
  purged_logs l = purged_logs l
  /\ exists more, closed_logs l = closed_logs l ++ more.
Proof. split; [reflexivity|]. exists []. now rewrite app_nil_r. Qed.

Lemma more_closed_trans l1 l2 l3 :
  (purged_logs l2 = purged_logs l1
   /\ exists more, closed_logs l2 = closed_logs l1 ++ more) ->
  (purged_logs l3 = purged_logs l2
   /\ exists more, closed_logs l3 = closed_logs l2 ++ more) ->
  purged_logs l3 = purged_logs l1
  /\ exists more, closed_logs l3 = closed_logs l1 ++ more.
Proof.
  intros (p & m & c) (p' & m' & c'). split; [congruence|].
  exists (m ++ m'). now rewrite c', c, app_assoc.
Qed.

Lemma more_closed_same l l' :
  purged_logs l' = purged_logs l -> closed_logs l' = closed_logs l ->
  purged_logs l' = purged_logs l
  /\ exists more, closed_logs l' = closed_logs l ++ more.
Proof.
  intros p c. split; [exact p|]. exists []. now rewrite c, app_nil_r.
Qed.

Lemma more_closed_close b l :
  purged_logs (close cfg b l) = purged_logs l
  /\ exists more, closed_logs (close cfg b l) = closed_logs l ++ more.
Proof.
  unfold close. destruct (log_state l); cbn;
    (split; [reflexivity|]); eauto;
    exists []; now rewrite app_nil_r.
Qed.

Lemma more_closed_reopen l :
  purged_logs (snd (reopen cfg env l)) = purged_logs l
  /\ exists more, closed_logs (snd (reopen cfg env l)) = closed_logs l ++ more.
Proof.
  unfold reopen. repeat (destruct (negb _)); cbn; apply more_closed_refl.
Qed.

(** [new_file_impl] deletes nothing, and closes at most the current
    file. *)
Lemma purged_new_file_impl l :
  match new_file_impl cfg env event_image l with
  | Ret (_, l') | Wait _ l' => purged_more l l'
  | Fault => True
  end.
Proof.
  assert (Hmore : forall l',
             purged_logs l' = purged_logs l
             /\ (exists more, closed_logs l' = closed_logs l ++ more) ->
             purged_more l l').
  { intros l' (Hp & more & Hc). unfold purged_more.
    rewrite Hp, Hc, length_app. repeat split; eauto; lia. }
  unfold new_file_impl.
  destruct (negb (is_open l)); [apply purged_more_refl|].
  destruct (stop_new_xids l);
    [apply Hmore, more_closed_same; reflexivity|].
  set (l0 := upd_stop_new_xids true l).
  assert (H0 : purged_logs l0 = purged_logs l
               /\ exists more, closed_logs l0 = closed_logs l ++ more)
    by (apply more_closed_same; reflexivity).
  clearbody l0.
  destruct (negb (prepared_xids l0 =? 0)); [apply Hmore, H0|].
  assert (Hfin : forall (b : bool) l1,
            (purged_logs l1 = purged_logs l0
             /\ exists more, closed_logs l1 = closed_logs l0 ++ more) ->
            purged_more l
              (if b
               then sql_print_error "Could not open log file for logging"
                      (close cfg false
                         (pthread_cond_broadcast COND_stop_xids
                            (upd_stop_new_xids false l1)))
               else pthread_cond_broadcast COND_stop_xids
                      (upd_stop_new_xids false l1))).
  { intros b l1 H1. apply Hmore.
    eapply more_closed_trans; [exact H0|].
    eapply more_closed_trans; [exact H1|].
    destruct b; [|apply more_closed_same; reflexivity].
    set (l2 := pthread_cond_broadcast COND_stop_xids
                 (upd_stop_new_xids false l1)).
    apply more_closed_trans with (l2 := close cfg false l2);
      [|apply more_closed_same; reflexivity].
    apply more_closed_trans with (l2 := l2);
      [apply more_closed_same; reflexivity|apply more_closed_close]. }
  destruct (negb (generate_new_name_error env =? 0)).
  { cbv beta zeta. apply Hfin. apply more_closed_refl. }
  assert (Hopen : forall l1,
             (purged_logs l1 = purged_logs l0
              /\ exists more, closed_logs l1 = closed_logs l0 ++ more) ->
             match (let '(error, l2) := reopen cfg env (close cfg true l1) in
                    Ret (error,
                         if negb (error =? 0) && negb (error =? 0)
                         then sql_print_error
                                "Could not open log file for logging"
                                (close cfg false
                                   (pthread_cond_broadcast COND_stop_xids
                                      (upd_stop_new_xids false l2)))
                         else pthread_cond_broadcast COND_stop_xids
                                (upd_stop_new_xids false l2))) with
             | Ret (_, l') | Wait _ l' => purged_more l l'
             | Fault => True
             end).
  { intros l1 H1.
    pose proof (more_closed_reopen (close cfg true l1)) as Hr.
    destruct (reopen _ _ _) as [err l5]. cbn [snd] in Hr.
    apply Hfin. eapply more_closed_trans; [exact H1|].
    eapply more_closed_trans; [apply more_closed_close|exact Hr]. }
  destruct (log_type_is_LOG_BIN cfg).
  - destruct (negb (no_auto_events cfg)).
    + destruct (Log_event_write _ _ _) as [e f]. destruct e; cbn [negb Z.eqb].
      * cbv beta zeta. apply Hfin. apply more_closed_refl.
      * change (negb (0 =? 0)) with false. cbv iota.
        apply Hopen. apply more_closed_same; reflexivity.
    + change (negb (0 =? 0)) with false. cbv iota.
      apply Hopen. apply more_closed_same; reflexivity.
  - change (negb (0 =? 0)) with false. cbv iota.
    apply Hopen. apply more_closed_refl.
Qed.

Lemma grown_new_file_impl l :
  rgrown_log cfg l (new_file_impl cfg env event_image l).
Proof.
  pose proof (files_new_file_impl l) as Hf.
  pose proof (purged_new_file_impl l) as Hp.
  unfold rgrown_log, grown.
  destruct (new_file_impl cfg env event_image l) as [[a l']|c l'|]; auto.
Qed.


Lemma rgrown_bind_log {A B} l (r : result (A * MYSQL_BIN_LOG))
  (k : A * MYSQL_BIN_LOG -> result (B * MYSQL_BIN_LOG * THD)) :
  rgrown_log cfg l r ->
  (forall a l1, rgrown cfg l1 (k (a, l1))) ->
  rgrown cfg l (bind r k).
Proof.
  intros Hr Hk. destruct r as [[a l1]| |]; cbn in *; auto.
  eapply rgrown_weaken; eauto.
Qed.

Lemma rgrown_bind_thd {B} l thd0 (r : result THD)
  (k : THD -> result (B * MYSQL_BIN_LOG * THD)) :
  rspec_thd thd0 r ->
  (forall thd1, rgrown cfg l (k thd1)) ->
  rgrown cfg l (bind r k).
Proof.
  intros Hr Hk. destruct r as [thd1| |]; cbn in *; auto. contradiction.
Qed.

Lemma grown_write_incident_unlocked l :
  grown cfg l (snd (write_incident_unlocked event_image l)).
Proof.
  pose proof (extended_write_incident_unlocked l) as H.
  unfold write_incident_unlocked in *.
  destruct (negb (is_open l)) eqn:Eo; [apply grown_refl|].
  apply extended_grown; [|exact H].
  now destruct (is_open l).
Qed.

Lemma flush_and_sync_files l thd async ht pending e l' thd' :
  flush_and_sync cfg env l thd async ht pending = (e, l', thd') ->
  same_files l l'.
Proof.
  intros H. pose proof (same_files_flush_and_sync l thd async ht pending) as Hf.
  now rewrite H in Hf.
Qed.

(** The purge deletes the oldest closed files that are left, writes none,
    and does not touch the current file. *)
Lemma grown_purge_logs_before_date t l :
  grown cfg l (purge_logs_before_date env t l).
Proof.
  split.
  - change (log_state l)
      with (log_state (purge_logs_before_date env t l)) at 1.
    unfold purge_logs_before_date. cbn [log_state upd_purged_logs].
    destruct (log_state l) eqn:E; [left| |exact I]; repeat split; try exact E.
    exists []. now rewrite app_nil_r.
  - unfold purged_more, purge_logs_before_date.
    cbn [purged_logs closed_logs upd_purged_logs].
    repeat split; try lia. exists []. now rewrite app_nil_r.
Qed.

Lemma rgrown_rotate_and_purge l thd flags log_maybe_full :
  rgrown cfg l (rotate_and_purge cfg env event_image l thd flags log_maybe_full).
Proof.
  unfold rotate_and_purge.
  destruct (_ && _); [apply grown_refl|].
  destruct (stop_new_xids l); [apply grown_refl|].
  destruct (_ || _); [|apply grown_refl].
  eapply rgrown_bind_log; [apply grown_new_file_impl|].
  intros error l1.
  destruct (negb (error =? 0));
    [|destruct (_ && _);
      [apply grown_purge_logs_before_date|apply grown_refl]].
  pose proof (grown_write_incident_unlocked l1) as Hi.
  destruct (write_incident_unlocked event_image l1) as [e l2]. cbn [snd] in Hi.
  destruct (negb e); [|exact Hi].
  destruct (flush_and_sync cfg env l2 thd false false 0) as [[e' l3] thd3] eqn:Ef.
  apply flush_and_sync_files in Ef.
  cbn. eapply grown_trans; [exact Hi|]. now apply same_files_grown.
Qed.

Lemma rgrown_write_incident l thd lock :
  rgrown cfg l (write_incident cfg env event_image l thd lock).
Proof.
  unfold write_incident.
  destruct (negb (is_open l)); [apply grown_refl|].
  pose proof (grown_write_incident_unlocked l) as Hi.
  destruct (write_incident_unlocked event_image l) as [e l2]. cbn [snd] in Hi.
  destruct lock; [|exact Hi].
  destruct (negb e); [|exact Hi].
  destruct (flush_and_sync cfg env l2 thd false false 0) as [[e' l3] thd3] eqn:Ef.
  apply flush_and_sync_files in Ef.
  assert (H3 : grown cfg l l3)
    by (eapply grown_trans; [exact Hi|now apply same_files_grown]).
  destruct (negb e'); [|exact H3].
  eapply rgrown_weaken; [|apply rgrown_rotate_and_purge].
  eapply grown_trans; [exact H3|]. apply same_files_grown. same_fields.
Qed.

Lemma same_files_set_write_error l thd :
  same_files l (fst (set_write_error l thd)).
Proof. unfold set_write_error. same_fields. Qed.

Lemma rgrown_fail l l1 thd :
  grown cfg l l1 ->
  rgrown cfg (A := bool) l
    (let '(l, thd) := set_write_error l1 thd in Ret (true, l, thd)).
Proof.
  intros H. pose proof (same_files_set_write_error l1 thd) as Hs.
  destruct (set_write_error l1 thd) as [l2 thd2]. cbn in *.
  eapply grown_trans; [exact H|]. now apply same_files_grown.
Qed.

Lemma rgrown_fail_Z l l1 thd :
  grown cfg l l1 ->
  rgrown cfg (A := Z) l
    (let '(l, thd) := set_write_error l1 thd in Ret (1, l, thd)).
Proof.
  intros H. pose proof (same_files_set_write_error l1 thd) as Hs.
  destruct (set_write_error l1 thd) as [l2 thd2]. cbn in *.
  eapply grown_trans; [exact H|]. now apply same_files_grown.
Qed.

Lemma rgrown_flush_and_set_pending_rows_event l thd event :
  is_open l = true ->
  rgrown cfg l (flush_and_set_pending_rows_event cfg env event_image l thd event).
Proof.
  intros Ho. unfold flush_and_set_pending_rows_event.
  destruct (ha_data thd) as [trx_data|] eqn:E; [|exact I].
  destruct (pending trx_data) as [pending_ev|].
  - destruct (_ || _).
    + destruct (Log_event_write _ _ _) as [e f]. destruct e.
      * apply rgrown_fail_Z, grown_refl.
      * eapply rgrown_bind_thd;
          [apply (BinlogFacts.rspec_thd_set_pending cfg env)|].
        intros thd1. apply grown_refl.
    + pose proof (Log_event_write_extends (Rows_event pending_ev) l) as Hx.
      destruct (Log_event_write _ _ _) as [e f]. cbn [snd] in Hx. destruct e.
      * apply rgrown_fail_Z, grown_refl.
      * destruct (flush_and_sync cfg env (upd_log_file f l) thd false false 0)
          as [[e' l3] thd3] eqn:Ef.
        apply flush_and_sync_files in Ef.
        assert (H3 : grown cfg l l3).
        { eapply grown_trans; [apply extended_grown; [exact Ho|exact Hx]|].
          now apply same_files_grown. }
        eapply rgrown_weaken; [exact H3|].
        eapply rgrown_bind.
        -- destruct (negb e'); [|apply grown_refl].
           eapply rgrown_weaken; [|apply rgrown_rotate_and_purge].
           apply same_files_grown. same_fields.
        -- intros error l4 thd4. cbn beta iota.
           eapply rgrown_bind_thd;
             [apply (BinlogFacts.rspec_thd_set_pending cfg env)|].
           intros thd5. apply grown_refl.
  - eapply rgrown_bind_thd;
      [apply (BinlogFacts.rspec_thd_set_pending cfg env)|].
    intros thd1. apply grown_refl.
Qed.

Lemma rgrown_binlog_flush_pending_rows_event l thd stmt_end :
  rgrown cfg l (binlog_flush_pending_rows_event cfg env event_image l thd stmt_end).
Proof.
  unfold binlog_flush_pending_rows_event.
  destruct (negb (is_open l)) eqn:Eo; [apply grown_refl|].
  destruct (ha_data thd) as [trx_data|]; [|apply grown_refl].
  destruct (pending trx_data) as [pending_ev|]; [|apply grown_refl].
  apply rgrown_flush_and_set_pending_rows_event. now destruct (is_open l).
Qed.

Lemma extended_write_to file ev l thd :
  match write_to event_image file ev l thd with
  | Ret (_, l', _) => extended l l'
  | Wait _ _ => False
  | Fault => True
  end.
Proof.
  unfold write_to. destruct file.
  - pose proof (Log_event_write_extends ev l) as Hx.
    destruct (Log_event_write _ _ _) as [e f]. exact Hx.
  - destruct (ha_data thd) as [trx_data|]; [|exact I].
    destruct (Log_event_write _ _ _) as [e f]. apply extended_refl.
Qed.

Lemma extended_write_all_to file evs : forall l thd,
  match write_all_to event_image file evs l thd with
  | Ret (_, l', _) => extended l l'
  | Wait _ _ => False
  | Fault => True
  end.
Proof.
  induction evs as [|e evs IH]; intros l thd; cbn [write_all_to].
  - apply extended_refl.
  - pose proof (extended_write_to file e l thd) as Hw.
    destruct (write_to event_image file e l thd) as [[[err l1] thd1]| |];
      cbn [bind]; auto.
    destruct err; [exact Hw|].
    specialize (IH l1 thd1).
    destruct (write_all_to event_image file evs l1 thd1) as [[[err' l2] thd2]| |];
      auto.
    eapply extended_trans; eauto.
Qed.

Lemma rgrown_write l thd event_info :
  rgrown cfg l (write cfg env event_image l thd event_info).
Proof.
  unfold write.
  destruct (do_union thd); [apply grown_refl|].
  eapply rgrown_bind; [apply rgrown_binlog_flush_pending_rows_event|].
  intros e l1 thd1. cbn beta iota.
  destruct (negb (e =? 0)); [apply grown_refl|].
  destruct (negb (is_open l1)) eqn:Eo; [apply grown_refl|].
  assert (Ho : is_open l1 = true) by now destruct (is_open l1).
  destruct (_ || _); [apply grown_refl|].
  pose proof (BinlogFacts.kept_cache_or_disk cfg env thd1 event_info) as Hc.
  destruct (cache_or_disk cfg env thd1 event_info)
    as [[[setup_failed file] thd3]| |]; cbn [bind]; [|contradiction|exact I].
  destruct setup_failed; [apply rgrown_fail, grown_refl|].
  assert (H4 : match (if negb (current_stmt_binlog_row_based (ctx thd3))
                      then write_all_to event_image file
                             (run_environment (ctx thd3)) l1 thd3
                      else Ret (false, l1, thd3)) with
               | Ret (_, l', _) => extended l1 l'
               | Wait _ _ => False
               | Fault => True
               end).
  { destruct (negb (current_stmt_binlog_row_based (ctx thd3)));
      [apply extended_write_all_to|apply extended_refl]. }
  destruct (if negb (current_stmt_binlog_row_based (ctx thd3)) then _ else _)
    as [[[e4 l4] thd4]| |]; cbn [bind]; [|contradiction|exact I].
  destruct e4; [apply rgrown_fail, extended_grown; assumption|].
  pose proof (extended_write_to file event_info l4 thd4) as H5.
  destruct (write_to event_image file event_info l4 thd4)
    as [[[e5 l5] thd5]| |]; cbn [bind]; [|contradiction|exact I].
  assert (G5 : grown cfg l1 l5).
  { apply extended_grown; [exact Ho|]. eapply extended_trans; eauto. }
  destruct e5; [apply rgrown_fail; assumption|].
  destruct file; [|exact G5].
  destruct (flush_and_sync cfg env l5 thd5 false false 0)
    as [[e6 l6] thd6] eqn:Ef.
  apply flush_and_sync_files in Ef.
  assert (G6 : grown cfg l1 l6).
  { eapply grown_trans; [exact G5|]. now apply same_files_grown. }
  destruct e6; [apply rgrown_fail; assumption|].
  eapply rgrown_weaken; [exact G6|].
  eapply rgrown_bind.
  { eapply rgrown_weaken; [|apply rgrown_rotate_and_purge].
    apply same_files_grown. same_fields. }
  intros e7 l7 thd7. cbn beta iota.
  destruct (negb (e7 =? 0)); [apply rgrown_fail|]; apply grown_refl.
Qed.

Lemma rgrown_err {A} (x : A) l thd :
  rgrown cfg l (Ret (x,
                 (if write_error l then l
                  else sql_print_error "Error writing file"
                         (upd_write_error true l)),
                 thd)).
Proof. cbn. apply same_files_grown. same_fields. Qed.

Lemma rgrown_write_cached l thd cache commit_event incident async ht pending :
  rgrown cfg l (write_cached cfg env event_image write_cache l thd cache
                         commit_event incident async ht pending).
Proof.
  unfold write_cached.
  destruct (_ && stop_new_xids l); [apply grown_refl|].
  destruct (is_open l) eqn:Eo; [|apply grown_refl].
  eapply rgrown_bind.
  - destruct (0 <? my_b_tell cache); [|apply grown_refl].
    pose proof (Log_event_write_extends
                  (Query_log_event "BEGIN" true true None) l) as H1.
    destruct (Log_event_write _ _ (log_file l)) as [e1 f1]. cbn [snd] in H1.
    destruct e1; [apply grown_refl|].
    pose proof (write_cache_appends cache (log_file (upd_log_file f1 l))) as H2.
    destruct (write_cache cache _) as [code f2]. cbn [snd] in H2.
    set (l2 := upd_write_error _ (upd_log_file f2 _)).
    assert (X2 : extended l l2).
    { eapply extended_trans; [exact H1|]. repeat split. exact H2. }
    clearbody l2.
    destruct (negb (code =? 0)); [now apply extended_grown|].
    assert (X3 : extended l2
                   (upd_log_file
                      (snd match commit_event with
                           | Some ev => Log_event_write event_image ev (log_file l2)
                           | None => (false, log_file l2)
                           end) l2)).
    { destruct commit_event; [apply Log_event_write_extends|].
      apply same_files_extended. repeat split. }
    match goal with
    | |- context [let '(_, _) := ?x in _] => destruct x as [e3 f3]
    end.
    cbn [snd] in X3.
    destruct e3; [now apply extended_grown|].
    set (l3 := upd_log_file f3 l2) in *.
    assert (X3' : extended l l3) by (eapply extended_trans; eauto).
    clearbody l3.
    assert (X4 : extended l (snd (if incident
                                  then write_incident_unlocked event_image l3
                                  else (false, l3)))).
    { destruct incident; [|exact X3'].
      eapply extended_trans; [exact X3'|].
      apply extended_write_incident_unlocked. }
    destruct (if incident then _ else _) as [e4 l4]. cbn [snd] in X4.
    destruct e4; [now apply extended_grown|].
    destruct (flush_and_sync cfg env l4 thd async ht pending)
      as [[e5 l5] thd5] eqn:Ef.
    apply flush_and_sync_files, same_files_extended in Ef.
    assert (X5 : extended l l5) by (eapply extended_trans; eauto).
    destruct e5; [now apply extended_grown|].
    destruct (cache_read_error env); cbn; apply extended_grown; auto;
      (eapply extended_trans; [exact X5|]);
      apply same_files_extended; same_fields.
  - intros failed l1 thd1. cbn beta iota.
    destruct failed; [apply rgrown_err|].
    destruct (match commit_event with Some e => is_xid_event e | None => false end).
    + cbn. apply same_files_grown. same_fields.
    + eapply rgrown_bind; [apply rgrown_rotate_and_purge|].
      intros error l2 thd2. cbn beta iota.
      destruct (negb (error =? 0)); [apply rgrown_err|apply grown_refl].
Qed.

Lemma rgrown_binlog_end_trans l thd end_ev all async ht pending :
  rgrown cfg l (binlog_end_trans cfg env event_image write_cache l thd end_ev all
                             async ht pending).
Proof.
  unfold binlog_end_trans. destruct end_ev as [ev|].
  - eapply rgrown_bind; [apply rgrown_binlog_flush_pending_rows_event|].
    intros e l1 thd1. cbn beta iota.
    destruct (negb (e =? 0)); [apply grown_refl|].
    destruct (ha_data thd1); [|exact I].
    eapply rgrown_bind; [apply rgrown_write_cached|].
    intros error l2 thd2. cbn beta iota.
    destruct (ha_data thd2); [apply grown_refl|exact I].
  - assert (Hrem : exists r, binlog_remove_pending_rows_event l thd = r
                              /\ forall c l0, r <> Wait c l0).
    { eexists; split; [reflexivity|]. unfold binlog_remove_pending_rows_event.
      destruct (negb (is_open l)); [discriminate|].
      destruct (ha_data thd); discriminate. }
    destruct Hrem as (r & -> & Hr).
    destruct r as [thd1|c l0|]; cbn [bind];
      [|now destruct (Hr c l0)|exact I].
    destruct (ha_data thd1) as [d|]; [|exact I].
    destruct (_ || _); [|apply grown_refl].
    eapply rgrown_bind.
    + destruct (has_incident d); [|apply grown_refl].
      apply rgrown_write_incident.
    + intros error l2 thd2. cbn beta iota.
      destruct (ha_data thd2); [apply grown_refl|exact I].
Qed.

Lemma rgrown_binlog_rollback l thd all :
  rgrown cfg l (binlog_rollback cfg env event_image write_cache l thd all).
Proof.
  unfold binlog_rollback.
  destruct (ha_data thd) as [d|]; [|exact I].
  destruct (empty d); [apply grown_refl|].
  eapply rgrown_bind.
  - destruct (check_write_error thd); [apply rgrown_binlog_end_trans|].
    unfold trans_has_no_stmt_committed.
    destruct (ha_data thd); cbn [bind]; [|exact I].
    destruct (_ || _); [apply rgrown_binlog_end_trans|].
    destruct (_ || _); [apply rgrown_binlog_end_trans|apply grown_refl].
  - intros error l1 thd1. cbn beta iota.
    destruct (negb all); [|apply grown_refl].
    destruct (ha_data thd1); [apply grown_refl|exact I].
Qed.

Lemma rgrown_binlog_commit l thd all :
  rgrown cfg l (binlog_commit cfg env event_image write_cache l thd all).
Proof.
  unfold binlog_commit.
  destruct (ha_data thd) as [d|] eqn:E; [|exact I].
  destruct (empty d); [apply grown_refl|].
  assert (Hflush : exists flush,
             (if ending_trans thd all then Ret true
              else
                do no_stmt_committed <- trans_has_no_stmt_committed thd all;
                Ret (no_stmt_committed
                     && negb (stmt_has_updated_trans_table thd)
                     && stmt_has_updated_non_trans_table thd))
             = Ret flush).
  { destruct (ending_trans thd all); [eauto|].
    unfold trans_has_no_stmt_committed. rewrite E. cbn. eauto. }
  destruct Hflush as (flush & ->). cbn [bind].
  eapply rgrown_bind.
  - destruct flush; [apply rgrown_binlog_end_trans|apply grown_refl].
  - intros error l1 thd1. cbn beta iota.
    destruct (ha_data thd1); [apply grown_refl|exact I].
Qed.

Lemma rgrown_log_xid l thd xid async ht pending :
  rgrown cfg l (log_xid cfg env event_image write_cache l thd xid async ht pending).
Proof.
  unfold log_xid. eapply rgrown_bind; [apply rgrown_binlog_end_trans|].
  intros error l1 thd1. apply grown_refl.
Qed.

Lemma rgrown_unlog l thd log_was_full :
  rgrown cfg l (unlog cfg env event_image l thd log_was_full).
Proof.
  unfold unlog. eapply rgrown_weaken; [|apply rgrown_rotate_and_purge].
  apply same_files_grown. unfold unlog_prepared_xid. same_fields.
Qed.

Lemma rgrown_binlog_savepoint_rollback l thd sv :
  rgrown cfg l (binlog_savepoint_rollback cfg env event_image l thd sv).
Proof.
  unfold binlog_savepoint_rollback.
  destruct (_ || _).
  - destruct (alloc_fails env); [apply grown_refl|].
    eapply rgrown_bind; [apply rgrown_write|].
    intros e l1 thd1. apply grown_refl.
  - unfold binlog_trans_log_truncate.
    destruct (ha_data thd); cbn; auto using grown_refl.
Qed.

Lemma grown_binlog_savepoint_set l thd :
  match binlog_savepoint_set cfg env event_image l thd with
  | Ret (_, _, l', _) => grown cfg l l'
  | Wait _ l' => grown cfg l l'
  | Fault => True
  end.
Proof.
  unfold binlog_savepoint_set.
  pose proof (BinlogFacts.rspec_thd_savepos cfg env thd) as Hs.
  destruct (binlog_trans_log_savepos cfg env thd) as [[sv thd1]| |];
    cbn [bind]; [|contradiction|exact I].
  destruct (alloc_fails env); [apply grown_refl|].
  match goal with
  | |- context [write cfg env event_image l thd1 ?q] =>
      pose proof (rgrown_write l thd1 q) as H;
      destruct (write cfg env event_image l thd1 q) as [[[e l1] thd2]| |]
  end; cbn in *; auto.
Qed.

End Files.

(** Every call leaves the files grown. *)
Lemma perform_grown cfg event_image write_cache c l :
  (forall cache f,
      exists extra, contents (snd (write_cache cache f)) = contents f ++ extra) ->
  grown cfg l (perform cfg event_image write_cache c l).
Proof.
  intros Happ.
  destruct c as [env thd ht|thd|wakeups thd|msg|env thd async ht pend
                |env thd flags log_maybe_full|env thd event_info
                |env thd xid async ht pend|env thd log_was_full|env thd all
                |env thd|env thd sv]; cbn [perform].
  - apply same_files_grown, same_files_order_for_group_commit.
  - apply same_files_grown, same_files_increment.
  - unfold wait_for_group_commit_order.
    destruct (ticket thd =? 0); [apply same_files_grown; same_fields|].
    pose proof (same_files_wait_loop cfg wakeups thd l) as Hw.
    destruct (wait_loop cfg wakeups l thd);
      auto using same_files_grown, grown_refl.
  - apply same_files_grown. same_fields.
  - apply same_files_grown, same_files_flush_and_sync.
  - pose proof (rgrown_rotate_and_purge cfg env event_image l thd flags
                                        log_maybe_full) as Hr.
    destruct (rotate_and_purge _ _ _ _ _ _ _) as [[[a l1] t1]| |];
      cbn in *; auto using grown_refl.
  - pose proof (rgrown_write cfg env event_image l thd event_info) as Hr.
    destruct (write _ _ _ _ _ _) as [[[a l1] t1]| |];
      cbn in *; auto using grown_refl.
  - pose proof (rgrown_log_xid cfg env event_image write_cache Happ l thd xid
                               async ht pend) as Hr.
    destruct (log_xid _ _ _ _ _ _ _ _ _ _) as [[[a l1] t1]| |];
      cbn in *; auto using grown_refl.
  - pose proof (rgrown_unlog cfg env event_image l thd log_was_full) as Hr.
    destruct (unlog _ _ _ _ _ _) as [[[a l1] t1]| |];
      cbn in *; auto using grown_refl.
  - pose proof (rgrown_binlog_rollback cfg env event_image write_cache Happ
                                       l thd all) as Hr.
    destruct (binlog_rollback _ _ _ _ _ _ _) as [[[a l1] t1]| |];
      cbn in *; auto using grown_refl.
  - pose proof (grown_binlog_savepoint_set cfg env event_image l thd) as Hr.
    destruct (binlog_savepoint_set _ _ _ _ _) as [[[[a sv] l1] t1]| |];
      cbn in *; auto using grown_refl.
  - pose proof (rgrown_binlog_savepoint_rollback cfg env event_image l thd sv)
      as Hr.
    destruct (binlog_savepoint_rollback _ _ _ _ _ _) as [[[a l1] t1]| |];
      cbn in *; auto using grown_refl.
Qed.

(** The copy of the examples adds to the log file. *)
Lemma copy_appends cache f :
  exists extra, contents (snd (Examples.copy cache f)) = contents f ++ extra.
Proof.
  unfold Examples.copy, WriteCache.write_cache.
  destruct (WriteCache.copy_loop _ _ _ _) as [[[|] st]|] eqn:E; cbn [snd];
    try (exists []; now rewrite app_nil_r);
    apply WriteCacheAppends.copy_loop_appends in E;
    destruct E as (_ & Hx & _); exact Hx.
Qed.

(** X10.  Whatever calls are made on the log object, one after the other
    and with whatever sessions and failures, the bytes once written to
    the binary log are not rewritten.  An open log either is still on the
    same file, which holds its earlier bytes followed by what was added,
    or that file was finished as [close] does it (in-use flag cleared for
    a binary log on a [WRITE_CACHE], left as it is otherwise), with its
    earlier bytes at its start, and stands right behind the files closed
    before.  A closed log is never written again.  In every state the
    files closed before stay as they were closed, in the same order;
    the only thing that happens to them is that the purge of expired
    logs deletes some, the oldest that are left first, never a file that
    was not closed: the closed files that are there afterwards are those
    that were there, followed by the files closed since, less the
    first of them.  The byte-level copy of a cache is taken to add to the
    file, which is what [write_cache] does whenever it returns. *)
Theorem log_files_only_grow
  (cfg : sys_vars) (event_image : Log_event -> Z -> list byte)
  (write_cache : IO_CACHE -> IO_CACHE -> Z * IO_CACHE)
  (calls : list call) (l : MYSQL_BIN_LOG) :
  (forall cache f,
      exists extra, contents (snd (write_cache cache f)) = contents f ++ extra) ->
  let l' := perform_all cfg event_image write_cache calls l in
  (log_state l = LOG_OPENED ->
   (log_state l' = LOG_OPENED
    /\ closed_logs l' = closed_logs l
    /\ exists extra, contents (log_file l') = contents (log_file l) ++ extra)
   \/ (log_state l' <> LOG_TO_BE_OPENED
       /\ exists extra later,
            closed_logs l'
            = closed_logs l
              ++ closed_file cfg (contents (log_file l) ++ extra) :: later))
  /\ (log_state l = LOG_CLOSED ->
      log_state l' = LOG_CLOSED
      /\ log_file l' = log_file l
      /\ closed_logs l' = closed_logs l)
  /\ (exists more, closed_logs l' = closed_logs l ++ more)
  /\ (purged_logs l <= purged_logs l')%nat
  /\ ((purged_logs l <= length (closed_logs l))%nat ->
      (purged_logs l' <= length (closed_logs l'))%nat
      /\ exists deleted more,
           remaining_logs l ++ more = deleted ++ remaining_logs l').
Proof.
  intros Happ.
  assert (Hall : grown cfg l (perform_all cfg event_image write_cache calls l)).
  { revert l. induction calls as [|c calls IH]; intros l; cbn [perform_all].
    - apply grown_refl.
    - eapply grown_trans; [|apply IH]. now apply perform_grown. }
  cbv zeta. destruct Hall as [Hfiles Hpurge].
  split; [|split]; [intros Es; rewrite Es in Hfiles..|].
  3:{ destruct Hpurge as ((more & Hc) & Hle & Hb).
      split; [eauto|]. split; [exact Hle|]. intros Hp.
      split; [auto|].
      exists (firstn (purged_logs
                        (perform_all cfg event_image write_cache calls l)
                      - purged_logs l)
                     (skipn (purged_logs l) (closed_logs l ++ more))), more.
      unfold remaining_logs. rewrite Hc.
      replace (skipn (purged_logs l) (closed_logs l) ++ more)
        with (skipn (purged_logs l) (closed_logs l ++ more)).
      - rewrite <- (firstn_skipn
                      (purged_logs
                         (perform_all cfg event_image write_cache calls l)
                       - purged_logs l)
                      (skipn (purged_logs l) (closed_logs l ++ more))) at 1.
        f_equal. rewrite skipn_skipn. f_equal. lia.
      - rewrite skipn_app.
        replace (purged_logs l - length (closed_logs l))%nat with 0%nat by lia.
        reflexivity. }
  - destruct Hfiles as [(s & c & x)|Hrot]; [left|right; exact Hrot].
    rewrite s. auto.
  - destruct Hfiles as (f & s & c). rewrite s, f, c. auto.
Qed.

(** A statement, a commit, a forced rotation and another commit on the
    example log. *)
Lemma log_files_only_grow_witness :
  let l' := perform_all Examples.cfg Examples.image Examples.copy
                        calls_with_rotation Examples.open_log in
  (log_state Examples.open_log = LOG_OPENED ->
   (log_state l' = LOG_OPENED
    /\ closed_logs l' = closed_logs Examples.open_log
    /\ exists extra,
         contents (log_file l')
         = contents (log_file Examples.open_log) ++ extra)
   \/ (log_state l' <> LOG_TO_BE_OPENED
       /\ exists extra later,
            closed_logs l'
            = closed_logs Examples.open_log
              ++ closed_file Examples.cfg
                   (contents (log_file Examples.open_log) ++ extra) :: later))
  /\ (log_state Examples.open_log = LOG_CLOSED ->
      log_state l' = LOG_CLOSED
      /\ log_file l' = log_file Examples.open_log
      /\ closed_logs l' = closed_logs Examples.open_log)
  /\ (exists more, closed_logs l' = closed_logs Examples.open_log ++ more)
  /\ (purged_logs Examples.open_log <= purged_logs l')%nat
  /\ ((purged_logs Examples.open_log
       <= length (closed_logs Examples.open_log))%nat ->
      (purged_logs l' <= length (closed_logs l'))%nat
      /\ exists deleted more,
           remaining_logs Examples.open_log ++ more
           = deleted ++ remaining_logs l').
Proof.
  apply (log_files_only_grow Examples.cfg Examples.image Examples.copy
           calls_with_rotation Examples.open_log).
  exact copy_appends.
Defined.

End BinlogFilesFacts.

(* ================================================================== *)
(** * The end of a transaction: the cache is emptied *)

Module BinlogHooksFacts.
Import Cache Binlog BinlogHooks.

Section Hooks.

Variable cfg : sys_vars.
Variable env : Env.
Variable event_image : Log_event -> Z -> list byte.
Variable write_cache : IO_CACHE -> IO_CACHE -> Z * IO_CACHE.

Lemma reset_emptied d : emptied cfg (reset (max_binlog_cache_size cfg) d).
Proof.
  unfold emptied, reset, empty, pending, has_incident, position, my_b_tell.
  destruct (m_pending d) eqn:Ep; cbn.
  - repeat split.
  - destruct (Z.of_nat (length (contents (trans_log d))) =? 0) eqn:E; cbn.
    + rewrite Ep. repeat split.
      apply Z.eqb_eq in E. destruct (contents (trans_log d)); [reflexivity|].
      cbn in E. lia.
    + repeat split.
Qed.

(** Ending a transaction with an end event empties the cache unless the
    pending rows event could not be flushed. *)
Lemma end_event_empties l thd ev all async ht pend error l' thd' :
  binlog_end_trans cfg env event_image write_cache l thd (Some ev) all async
                   ht pend = Ret (error, l', thd') ->
  error = 0 \/ (exists d, ha_data thd = Some d /\ pending d = None) ->
  exists d', ha_data thd' = Some d' /\ emptied cfg d'.
Proof.
  unfold binlog_end_trans. intros Hrun Hwhy.
  destruct (binlog_flush_pending_rows_event cfg env event_image l thd true)
    as [[[e l1] thd1]| |] eqn:Ef; cbn [bind] in Hrun; try discriminate.
  destruct (negb (e =? 0)) eqn:Ee.
  - injection Hrun as <- <- <-. exfalso.
    destruct Hwhy as [?|(d & Hd & Hp)]; [discriminate|].
    rewrite (BinlogFacts.flush_pending_none cfg env event_image l thd true d
               Hd Hp) in Ef.
    injection Ef as <- <- <-. discriminate.
  - destruct (ha_data thd1) as [d1|]; [|discriminate].
    destruct (write_cached _ _ _ _ _ _ _ _ _ _ _ _) as [[[err l2] thd2]| |];
      cbn [bind] in Hrun; try discriminate.
    destruct (ha_data thd2) as [d2|]; [|discriminate].
    injection Hrun as <- <- <-. eexists. split; [reflexivity|].
    apply reset_emptied.
Qed.

(** Ending a whole transaction without an end event empties the cache. *)
Lemma no_event_empties l thd error l' thd' :
  binlog_end_trans cfg env event_image write_cache l thd None true false
                   false 0 = Ret (error, l', thd') ->
  exists d', ha_data thd' = Some d' /\ emptied cfg d'.
Proof.
  unfold binlog_end_trans. intros Hrun.
  destruct (binlog_remove_pending_rows_event l thd) as [thd1| |];
    cbn [bind] in Hrun; try discriminate.
  destruct (ha_data thd1) as [d1|]; [|discriminate].
  cbn [orb] in Hrun.
  destruct (if has_incident d1 then _ else _) as [[[err l2] thd2]| |];
    cbn [bind] in Hrun; try discriminate.
  destruct (ha_data thd2) as [d2|]; [|discriminate].
  injection Hrun as <- <- <-. eexists. split; [reflexivity|].
  apply reset_emptied.
Qed.

End Hooks.

(** X11.  When [binlog_commit] or [binlog_rollback] is called for a whole
    transaction ([all] set) and returns, the session's cache is empty
    afterwards (no bytes, no pending rows event, the incident flag
    cleared, [before_stmt_pos] undefined, the size limit back at
    [max_binlog_cache_size]) in every case but one: the call returned an
    error and there was a pending rows event, which could not be
    flushed. *)
Theorem end_of_transaction_empties_cache
  (cfg : sys_vars) (env : Env) (event_image : Log_event -> Z -> list byte)
  (write_cache : IO_CACHE -> IO_CACHE -> Z * IO_CACHE)
  (h : hook) (l l' : MYSQL_BIN_LOG) (thd thd' : THD) (error : Z) :
  end_hook cfg env event_image write_cache h l thd true
  = Ret (error, l', thd') ->
  error = 0 \/ (exists d, ha_data thd = Some d /\ pending d = None) ->
  exists d',
    ha_data thd' = Some d'
    /\ contents (trans_log d') = []
    /\ end_of_file (trans_log d') = max_binlog_cache_size cfg
    /\ pending d' = None
    /\ has_incident d' = false
    /\ before_stmt_pos d' = MY_OFF_T_UNDEF.
Proof.
  intros Hrun Hwhy.
  enough (H : exists d', ha_data thd' = Some d' /\ emptied cfg d') by exact H.
  destruct h; cbn [end_hook] in Hrun.
  - (* binlog_commit *)
    unfold binlog_commit in Hrun.
    destruct (ha_data thd) as [d|] eqn:Ed; [|discriminate].
    destruct (empty d).
    { injection Hrun as <- <- <-. eexists. split; [reflexivity|].
      apply reset_emptied. }
    change (ending_trans thd true) with true in Hrun. cbn [bind] in Hrun.
    destruct (binlog_end_trans _ _ _ _ _ _ _ _ _ _ _) as [[[e l1] thd1]| |] eqn:Ee;
      cbn [bind] in Hrun; try discriminate.
    destruct (ha_data thd1) as [d1|] eqn:E1; [|discriminate].
    injection Hrun as <- <- <-.
    apply end_event_empties in Ee.
    + destruct Ee as (d' & Hd' & Hc & Hl & Hp & Hi & Hb).
      rewrite E1 in Hd'. injection Hd' as <-.
      eexists. split; [reflexivity|]. repeat split; assumption.
    + destruct Hwhy as [?|(d0 & Hd0 & Hp)]; [now left|right].
      exists d0. now rewrite Ed.
  - (* binlog_rollback *)
    unfold binlog_rollback in Hrun.
    destruct (ha_data thd) as [d|] eqn:Ed; [|discriminate].
    destruct (empty d).
    { injection Hrun as <- <- <-. eexists. split; [reflexivity|].
      apply reset_emptied. }
    assert (Hend : exists e l1 thd1,
               Ret (e, l1, thd1) = Ret (error, l', thd')
               /\ exists d1, ha_data thd1 = Some d1 /\ emptied cfg d1).
    { destruct (check_write_error thd).
      - destruct (binlog_end_trans _ _ _ _ _ _ None _ _ _ _)
          as [[[e l1] thd1]| |] eqn:Ee; cbn [bind negb] in Hrun;
          try discriminate.
        apply no_event_empties in Ee. eauto.
      - unfold trans_has_no_stmt_committed in Hrun. rewrite Ed in Hrun.
        cbn [bind] in Hrun.
        change (ending_trans thd true) with true in Hrun.
        cbn [andb orb negb] in Hrun.
        destruct (trans_has_updated_non_trans_table thd
                  || OPTION_KEEP_LOG (ctx thd)).
        + cbn [orb] in Hrun.
          destruct (binlog_end_trans _ _ _ _ _ _ (Some _) _ _ _ _)
            as [[[e l1] thd1]| |] eqn:Ee; cbn [bind negb] in Hrun;
            try discriminate.
          exists e, l1, thd1. split; [exact Hrun|].
          apply end_event_empties in Ee; [exact Ee|].
          injection Hrun as -> _ _.
          destruct Hwhy as [?|(d0 & Hd0 & Hp)]; [now left|right].
          exists d0. now rewrite Ed.
        + cbn [orb] in Hrun.
          destruct (binlog_end_trans _ _ _ _ _ _ None _ _ _ _)
            as [[[e l1] thd1]| |] eqn:Ee; cbn [bind negb] in Hrun;
            try discriminate.
          apply no_event_empties in Ee. eauto. }
    destruct Hend as (e & l1 & thd1 & Heq & Hd1).
    injection Heq as -> -> ->. exact Hd1.
Qed.

(** The commit of the example session's transaction. *)
Lemma end_of_transaction_witness :
  exists d',
    ha_data
      (match binlog_commit Examples.cfg Examples.env Examples.image
               Examples.copy Examples.open_log
               (Examples.session false false Examples.one_insert) true with
       | Ret (_, _, thd') => thd'
       | _ => Examples.session false false Examples.one_insert
       end) = Some d'
    /\ contents (trans_log d') = []
    /\ end_of_file (trans_log d') = max_binlog_cache_size Examples.cfg
    /\ pending d' = None
    /\ has_incident d' = false
    /\ before_stmt_pos d' = MY_OFF_T_UNDEF.
Proof.
  eapply (end_of_transaction_empties_cache Examples.cfg Examples.env
            Examples.image Examples.copy Commit Examples.open_log _
            (Examples.session false false Examples.one_insert) _ 0).
  - vm_compute. reflexivity.
  - left. reflexivity.
Defined.

End BinlogHooksFacts.

(* ================================================================== *)
(** * Group-commit tickets: who waits and who is woken *)

Module TicketFacts.
Import Cache Binlog.

(** X12.  A session holding a ticket leaves
    [wait_for_group_commit_order] only when its turn has come
    ([current_ticket] has reached its ticket) or group commit is disabled;
    as long as neither holds it goes back to sleep, on the condition
    variable of its own slot, [ticket % NUM_BINLOG_COMMIT_COND]. *)
Theorem wait_for_group_commit_order_exit
  (cfg : sys_vars) (wakeups : list wakeup) (l : MYSQL_BIN_LOG) (thd : THD) :
  ticket thd <> 0 ->
  match wait_for_group_commit_order cfg wakeups l thd with
  | Ret l' =>
      group_commit_allowed l' = false \/ ticket thd <= current_ticket l'
  | Wait c l' =>
      c = binlog_commit_cond (ticket thd mod NUM_BINLOG_COMMIT_COND cfg)
      /\ group_commit_allowed l' = true
      /\ current_ticket l' < ticket thd
  | Fault => False
  end.
Proof.
  intros Hticket. unfold wait_for_group_commit_order.
  destruct (ticket thd =? 0) eqn:E; [apply Z.eqb_eq in E; contradiction|].
  clear E. revert l.
  induction wakeups as [|w ws IH]; intros l; cbn [wait_loop].
  - destruct (group_commit_allowed l) eqn:Eg; cbn [andb]; [|now left].
    destruct (current_ticket l <? ticket thd) eqn:Et.
    + apply Z.ltb_lt in Et. auto.
    + apply Z.ltb_ge in Et. now right.
  - destruct (group_commit_allowed l) eqn:Eg; cbn [andb]; [|now left].
    destruct (current_ticket l <? ticket thd) eqn:Et.
    + apply IH.
    + apply Z.ltb_ge in Et. now right.
Qed.

Lemma wait_for_group_commit_order_witness :
  match wait_for_group_commit_order Examples.cfg []
          (upd_next_ticket 4 Examples.open_log)
          (upd_ticket 3 (Examples.session false false Examples.one_insert)) with
  | Ret l' =>
      group_commit_allowed l' = false
      \/ ticket (upd_ticket 3 (Examples.session false false Examples.one_insert))
         <= current_ticket l'
  | Wait c l' =>
      c = binlog_commit_cond
            (ticket (upd_ticket 3 (Examples.session false false
                                     Examples.one_insert))
             mod NUM_BINLOG_COMMIT_COND Examples.cfg)
      /\ group_commit_allowed l' = true
      /\ current_ticket l'
         < ticket (upd_ticket 3 (Examples.session false false
                                   Examples.one_insert))
  | Fault => False
  end.
Proof.
  apply (wait_for_group_commit_order_exit Examples.cfg []
           (upd_next_ticket 4 Examples.open_log)
           (upd_ticket 3 (Examples.session false false Examples.one_insert))).
  vm_compute. discriminate.
Defined.

(** X13.  Two sessions that ask for tickets one after the other, when
    nobody else is queued, commit in that order: they get consecutive
    tickets; the first passes [wait_for_group_commit_order] at once while
    the second sleeps on the condition variable of its slot; the
    [increment_group_commit_ticket] of the first broadcasts exactly that
    condition variable and gives its ticket back, and after it the second
    passes, with group commit still allowed. *)
Theorem tickets_order_two_sessions
  (cfg : sys_vars) (env : Env) (l : MYSQL_BIN_LOG) (a b : THD)
  (wakeups : list wakeup) :
  group_commit_allowed l = true ->
  force_binlog_order cfg = true ->
  is_ordered_commit env = true ->
  ticket a = 0 -> ticket b = 0 ->
  0 < current_ticket l ->
  next_ticket l = current_ticket l ->
  current_ticket l + 2 < ulonglong_modulus ->
  let '(r1, l1, a1) := order_for_group_commit cfg env l a true in
  let '(r2, l2, b1) := order_for_group_commit cfg env l1 b true in
  let '(l3, a2) := increment_group_commit_ticket cfg l2 a1 in
  let slot := binlog_commit_cond (ticket b1 mod NUM_BINLOG_COMMIT_COND cfg) in
  r1 = 0 /\ r2 = 0
  /\ ticket a1 = current_ticket l /\ ticket b1 = current_ticket l + 1
  /\ wait_for_group_commit_order cfg wakeups l2 a1 = Ret l2
  /\ wait_for_group_commit_order cfg [] l2 b1 = Wait slot l2
  /\ broadcasts l3 = broadcasts l2 ++ [slot]
  /\ ticket a2 = 0
  /\ wait_for_group_commit_order cfg wakeups l3 b1 = Ret l3
  /\ group_commit_allowed l3 = true.
Proof.
  intros Hg Hf Ho Ha Hb Hpos Hnext Hroom.
  unfold ulonglong_modulus in Hroom.
  set (t := current_ticket l) in *.
  assert (M1 : (t + 1) mod ulonglong_modulus = t + 1)
    by (apply Z.mod_small; unfold ulonglong_modulus; lia).
  assert (M2 : (t + 1 + 1) mod ulonglong_modulus = t + 1 + 1)
    by (apply Z.mod_small; unfold ulonglong_modulus; lia).
  assert (N0 : forall x, 0 < x -> (x =? 0) = false)
    by (intros x Hx; apply Z.eqb_neq; lia).
  assert (E1 : order_for_group_commit cfg env l a true
               = (0, upd_next_ticket (t + 1) l, upd_ticket t a)).
  { unfold order_for_group_commit.
    rewrite Ha, Hg, Hf, Ho. cbn [Z.eqb negb orb].
    cbn [ticket upd_ticket]. rewrite Hnext, M1, N0 by lia. reflexivity. }
  rewrite E1.
  assert (E2 : order_for_group_commit cfg env (upd_next_ticket (t + 1) l) b true
               = (0, upd_next_ticket (t + 1 + 1) (upd_next_ticket (t + 1) l),
                  upd_ticket (t + 1) b)).
  { unfold order_for_group_commit.
    rewrite Hb. cbn [Z.eqb negb orb].
    cbn [group_commit_allowed upd_next_ticket next_ticket].
    rewrite Hg, Hf, Ho.
    cbn [negb orb ticket upd_ticket]. rewrite M2, N0 by lia. reflexivity. }
  rewrite E2.
  set (l2 := upd_next_ticket (t + 1 + 1) (upd_next_ticket (t + 1) l)).
  assert (C2 : current_ticket l2 = t) by reflexivity.
  assert (G2 : group_commit_allowed l2 = true) by exact Hg.
  assert (E3 : increment_group_commit_ticket cfg l2 (upd_ticket t a)
               = (pthread_cond_broadcast
                    (binlog_commit_cond ((t + 1) mod NUM_BINLOG_COMMIT_COND cfg))
                    (upd_current_ticket (t + 1) l2),
                  upd_ticket 0 (upd_ticket t a))).
  { unfold increment_group_commit_ticket. cbn [ticket upd_ticket].
    rewrite N0 by lia. rewrite C2, Z.eqb_refl. cbn [negb].
    replace (1 + t) with (t + 1) by lia. rewrite C2, M1. reflexivity. }
  rewrite E3. cbv zeta. cbn [ticket upd_ticket].
  unfold wait_for_group_commit_order. cbn [ticket upd_ticket].
  rewrite !N0 by lia.
  assert (W : forall ws l0 thd,
             current_ticket l0 = ticket thd ->
             wait_loop cfg ws l0 thd = Ret l0).
  { intros ws l0 thd Hc. destruct ws; cbn [wait_loop];
      rewrite Hc, Z.ltb_irrefl, andb_false_r; reflexivity. }
  repeat split.
  - now apply W.
  - cbn [wait_loop]. rewrite G2, C2. cbn [ticket upd_ticket andb].
    replace (t <? t + 1) with true by (symmetry; apply Z.ltb_lt; lia).
    reflexivity.
  - now apply W.
  - exact Hg.
Qed.

Lemma tickets_order_witness :
  let '(r1, l1, a1) :=
    order_for_group_commit Examples.cfg Examples.env Examples.open_log
      (Examples.session false false Examples.one_insert) true in
  let '(r2, l2, b1) :=
    order_for_group_commit Examples.cfg Examples.env l1
      (Examples.session true false Examples.one_insert) true in
  let '(l3, a2) := increment_group_commit_ticket Examples.cfg l2 a1 in
  let slot :=
    binlog_commit_cond (ticket b1 mod NUM_BINLOG_COMMIT_COND Examples.cfg) in
  r1 = 0 /\ r2 = 0
  /\ ticket a1 = current_ticket Examples.open_log
  /\ ticket b1 = current_ticket Examples.open_log + 1
  /\ wait_for_group_commit_order Examples.cfg [] l2 a1 = Ret l2
  /\ wait_for_group_commit_order Examples.cfg [] l2 b1 = Wait slot l2
  /\ broadcasts l3 = broadcasts l2 ++ [slot]
  /\ ticket a2 = 0
  /\ wait_for_group_commit_order Examples.cfg [] l3 b1 = Ret l3
  /\ group_commit_allowed l3 = true.
Proof.
  apply (tickets_order_two_sessions Examples.cfg Examples.env Examples.open_log
           (Examples.session false false Examples.one_insert)
           (Examples.session true false Examples.one_insert) []);
    vm_compute; reflexivity.
Defined.

End TicketFacts.

(* ================================================================== *)
(** * Transactional events go to the cache *)

Module CachedWriteFacts.
Import Cache Binlog BinlogHooks.

Section Cached.

Variable cfg : sys_vars.
Variable env : Env.
Variable event_image : Log_event -> Z -> list byte.

Lemma start_trans_and_stmt_cache thd d :
  ha_data thd = Some d ->
  exists thd1 d1,
    binlog_start_trans_and_stmt cfg env thd = Ret thd1
    /\ ha_data thd1 = Some d1
    /\ trans_log d1 = trans_log d.
Proof.
  intros Hd. unfold binlog_start_trans_and_stmt. rewrite Hd.
  destruct (_ =? _); [|eauto].
  unfold binlog_set_stmt_begin, binlog_trans_log_savepos. rewrite Hd.
  cbv zeta. rewrite Hd. cbn [bind]. rewrite Hd.
  eexists. eexists. split; [reflexivity|].
  split; reflexivity.
Qed.

Lemma write_all_to_cache evs : forall l thd d,
  ha_data thd = Some d ->
  exists e thd1 d1 extra,
    write_all_to event_image To_trans_log evs l thd = Ret (e, l, thd1)
    /\ ha_data thd1 = Some d1
    /\ contents (trans_log d1) = contents (trans_log d) ++ extra.
Proof.
  induction evs as [|ev evs IH]; intros l thd d Hd; cbn [write_all_to].
  - exists false, thd, d, []. now rewrite app_nil_r.
  - unfold write_to. rewrite Hd.
    pose proof (BinlogFacts.Log_event_write_appends event_image ev (trans_log d))
      as (x & Hx).
    destruct (Log_event_write _ _ _) as [e f]. cbn [snd] in Hx. cbn [bind].
    destruct e.
    + do 4 eexists. split; [reflexivity|]. split; [reflexivity|]. exact Hx.
    + destruct (IH l (upd_ha_data (Some (upd_trans_log f d)) thd)
                  (upd_trans_log f d) eq_refl)
        as (e' & thd1 & d1 & x' & Hrun & Hd1 & Hx').
      exists e', thd1, d1, (x ++ x'). split; [exact Hrun|].
      split; [exact Hd1|]. cbn in Hx'. now rewrite Hx', Hx, app_assoc.
Qed.

End Cached.

(** X14.  [MYSQL_BIN_LOG::write] of an event built with [using_trans]
    set, for a session that has a cache and no pending rows event and whose
    statement is not filtered out, never touches the files of the log: the
    log file, the closed files and the state of the log are as before
    whether the call succeeds or not.  When it succeeds the cache holds what
    it held, then whatever run-environment events were written, then the
    image of the event at the offset it was written at.  The call neither
    waits nor faults. *)
Theorem transactional_event_is_cached
  (cfg : sys_vars) (env : Env) (event_image : Log_event -> Z -> list byte)
  (l : MYSQL_BIN_LOG) (thd : THD) (d : binlog_trx_data) (ev : Log_event) :
  do_union thd = false ->
  ha_data thd = Some d ->
  pending d = None ->
  opt_using_transactions cfg = true ->
  OPTION_BIN_LOG (ctx thd) = true ->
  db_ok (ctx thd) = true ->
  get_cache_stmt ev = true ->
  exists err l' thd',
    write cfg env event_image l thd ev = Ret (err, l', thd')
    /\ log_file l' = log_file l
    /\ log_state l' = log_state l
    /\ closed_logs l' = closed_logs l
    /\ (err = false ->
        exists run_environment_events,
          cache_bytes thd'
          = (cache_bytes thd ++ run_environment_events)
            ++ event_image ev
                 (Z.of_nat (length (cache_bytes thd ++ run_environment_events)))).
Proof.
  intros Hu Hd Hp Ht Hb Hdb Hc. unfold write. rewrite Hu.
  rewrite (BinlogFacts.flush_pending_none cfg env event_image l thd _ d Hd Hp).
  cbn [bind]. change (negb (0 =? 0)) with false. cbv iota.
  destruct (negb (is_open l)).
  { exists true, l, thd. repeat split. discriminate. }
  rewrite Hb, Hdb. cbn [negb orb]. rewrite andb_false_r.
  unfold cache_or_disk, binlog_setup_trx_data. rewrite Ht, Hd.
  change (negb (0 =? 0)) with false. cbv iota. rewrite Hd, Hc. cbn [orb].
  destruct (start_trans_and_stmt_cache cfg env thd d Hd)
    as (thd1 & d1 & -> & Hd1 & Hl1).
  cbn [bind].
  assert (Hfail : forall l0 thd0,
             exists err l' thd',
               (let '(l, thd) := set_write_error l0 thd0 in Ret (true, l, thd))
               = Ret (err, l', thd')
               /\ log_file l' = log_file l0
               /\ log_state l' = log_state l0
               /\ closed_logs l' = closed_logs l0
               /\ (err = false ->
                   exists run_environment_events,
                     cache_bytes thd'
                     = (cache_bytes thd ++ run_environment_events)
                       ++ event_image ev
                            (Z.of_nat
                               (length (cache_bytes thd
                                        ++ run_environment_events))))).
  { intros l0 thd0. unfold set_write_error.
    destruct (check_write_error thd0); [|destruct (my_errno_is_EFBIG _)];
      do 3 eexists; (split; [reflexivity|]); repeat split; discriminate. }
  assert (Henv : exists e4 thd4 d4 extra,
             (if negb (current_stmt_binlog_row_based (ctx thd1))
              then write_all_to event_image To_trans_log
                     (run_environment (ctx thd1)) l thd1
              else Ret (false, l, thd1)) = Ret (e4, l, thd4)
             /\ ha_data thd4 = Some d4
             /\ contents (trans_log d4) = contents (trans_log d) ++ extra).
  { destruct (negb _).
    - destruct (write_all_to_cache event_image (run_environment (ctx thd1))
                  l thd1 d1 Hd1) as (e4 & thd4 & d4 & x & Hrun & Hd4 & Hx).
      exists e4, thd4, d4, x. rewrite <- Hl1. auto.
    - exists false, thd1, d1, []. rewrite Hl1, app_nil_r. auto. }
  destruct Henv as (e4 & thd4 & d4 & extra & -> & Hd4 & Hx4). cbn [bind].
  destruct e4; [apply Hfail|].
  unfold write_to. rewrite Hd4.
  unfold Log_event_write.
  destruct (end_of_file (trans_log d4) <? _); cbn [bind]; [apply Hfail|].
  do 3 eexists. split; [reflexivity|]. repeat split.
  intros _. exists extra. unfold cache_bytes. rewrite Hd. cbn.
  unfold my_b_tell. now rewrite Hx4.
Qed.

(** The session of the examples writes one more statement of its
    transaction. *)
Lemma transactional_event_witness :
  exists err l' thd',
    write Examples.cfg Examples.env Examples.image Examples.open_log
          (Examples.session false false Examples.one_insert)
          (Query_log_event "UPDATE t SET a = 2" true false None)
    = Ret (err, l', thd')
    /\ log_file l' = log_file Examples.open_log
    /\ log_state l' = log_state Examples.open_log
    /\ closed_logs l' = closed_logs Examples.open_log
    /\ (err = false ->
        exists run_environment_events,
          cache_bytes thd'
          = (cache_bytes (Examples.session false false Examples.one_insert)
             ++ run_environment_events)
            ++ Examples.image
                 (Query_log_event "UPDATE t SET a = 2" true false None)
                 (Z.of_nat
                    (length
                       (cache_bytes
                          (Examples.session false false Examples.one_insert)
                        ++ run_environment_events)))).
Proof.
  apply (transactional_event_is_cached Examples.cfg Examples.env Examples.image
           Examples.open_log (Examples.session false false Examples.one_insert)
           Examples.one_insert);
    reflexivity.
Defined.

End CachedWriteFacts.

(* ================================================================== *)
(** * Rotation of the log file *)

Module RotateFacts.
Import Cache Binlog BinlogHooks.

(** X15.  [rotate_and_purge], called after a write with [LOCK_log] held,
    leaves a log file below [max_size] alone.  Once the file has reached
    [max_size], and no transaction is prepared, no other rotation is under
    way, the new name and the files can be made and the rotate event fits,
    it switches files: the old file gets a rotate event naming the new
    file at its end, is finished as [close] does it (for a binary log on
    a [WRITE_CACHE]: its in-use flag is cleared) and becomes the last of
    the closed files; the new file holds the header; [stop_new_xids] is
    down again, and the readers of the log and the sessions held back are
    woken, in this order.  The purge of expired logs that may follow
    changes none of this. *)
Theorem rotate_and_purge_at_max_size
  (cfg : sys_vars) (env : Env) (event_image : Log_event -> Z -> list byte)
  (l : MYSQL_BIN_LOG) (thd : THD) :
  log_state l = LOG_OPENED ->
  stop_new_xids l = false ->
  prepared_xids l = 0 ->
  generate_new_name_error env = 0 ->
  open_index_file_error env = 0 ->
  open_error env = 0 ->
  log_type_is_LOG_BIN cfg = true ->
  no_auto_events cfg = false ->
  let rotate_event :=
    event_image (Rotate_log_event (new_log_name cfg)) (my_b_tell (log_file l)) in
  my_b_tell (log_file l) + Z.of_nat (length rotate_event)
  <= end_of_file (log_file l) ->
  (my_b_tell (log_file l) < max_size cfg ->
   rotate_and_purge cfg env event_image l thd already_locked true
   = Ret (0, l, thd))
  /\ (max_size cfg <= my_b_tell (log_file l) ->
      exists l',
        rotate_and_purge cfg env event_image l thd already_locked true
        = Ret (0, l', thd)
        /\ closed_logs l'
           = closed_logs l
             ++ [closed_file cfg (contents (log_file l) ++ rotate_event)]
        /\ contents (log_file l') = new_log_header cfg
        /\ log_state l' = LOG_OPENED
        /\ stop_new_xids l' = false
        /\ prepared_xids l' = 0
        /\ broadcasts l' = broadcasts l ++ [update_cond; COND_stop_xids]).
Proof.
  intros Hs Hstop Hprep Hname Hindex Hopen Hbin Hauto rotate_event Hfits.
  unfold rotate_and_purge, already_locked.
  cbn [RP_LOCK_LOG_IS_ALREADY_LOCKED RP_FORCE_ROTATE negb andb orb].
  rewrite Hstop. split; intros Hsize.
  - replace (max_size cfg <=? my_b_tell (log_file l)) with false
      by (symmetry; apply Z.leb_gt; lia).
    reflexivity.
  - replace (max_size cfg <=? my_b_tell (log_file l)) with true
      by (symmetry; apply Z.leb_le; lia).
    unfold new_file_impl, is_open. rewrite Hs, Hstop. cbn [negb].
    cbn [prepared_xids upd_stop_new_xids]. rewrite Hprep, Hname, Hbin, Hauto.
    cbn [Z.eqb negb]. unfold Log_event_write.
    cbn [log_file upd_stop_new_xids]. fold rotate_event.
    replace (end_of_file (log_file l)
             <? my_b_tell (log_file l) + Z.of_nat (length rotate_event))
      with false by (symmetry; apply Z.ltb_ge; lia).
    cbn [Z.eqb negb]. unfold reopen, close.
    cbn [log_state signal_update pthread_cond_broadcast upd_broadcasts
         upd_log_file upd_stop_new_xids].
    rewrite Hs. cbv iota.
    rewrite Hindex, Hopen. cbn [Z.eqb negb andb bind].
    destruct (negb (expire_logs_days cfg =? 0) && (0 <=? purge_time cfg env));
      (eexists; split; [reflexivity|]; cbn;
       rewrite Hprep, <- app_assoc; repeat split).
Qed.

(** The example log under a limit of 4 bytes, which its header has
    reached. *)
Lemma rotate_and_purge_witness :
  let cfg :=
    {| max_binlog_cache_size := 4096; max_size := 4;
       no_auto_events := false; log_type_is_LOG_BIN := true;
       io_cache_type_is_WRITE_CACHE := true; expire_logs_days := 0;
       opt_using_transactions := true; force_binlog_order := true;
       sync_binlog_period := 1; group_commit_min_size := 2;
       group_commit_hang_disable_usecs := 10000000;
       NUM_BINLOG_COMMIT_COND := 4;
       new_log_name := "binlog.000002";
       new_log_header := [254; 98; 105; 110] |} in
  let l := Examples.open_log in
  let thd := Examples.session false false Examples.one_insert in
  let rotate_event :=
    Examples.image (Rotate_log_event (new_log_name cfg))
                   (my_b_tell (log_file l)) in
  (my_b_tell (log_file l) < max_size cfg ->
   rotate_and_purge cfg Examples.env Examples.image l thd already_locked true
   = Ret (0, l, thd))
  /\ (max_size cfg <= my_b_tell (log_file l) ->
      exists l',
        rotate_and_purge cfg Examples.env Examples.image l thd already_locked
                         true
        = Ret (0, l', thd)
        /\ closed_logs l'
           = closed_logs l
             ++ [closed_file cfg (contents (log_file l) ++ rotate_event)]
        /\ contents (log_file l') = new_log_header cfg
        /\ log_state l' = LOG_OPENED
        /\ stop_new_xids l' = false
        /\ prepared_xids l' = 0
        /\ broadcasts l' = broadcasts l ++ [update_cond; COND_stop_xids]).
Proof.
  intros cfg l thd.
  apply (rotate_and_purge_at_max_size cfg Examples.env Examples.image l thd);
    try reflexivity.
  vm_compute. discriminate.
Defined.

(** X16.  While a rotation waits for the prepared transactions, no
    further XID gets into the old file.  With a transaction prepared,
    [new_file_impl] raises [stop_new_xids] and sleeps on [COND_prep_xids]
    with the files untouched; a [log_xid] of a session with a non-empty
    cache that comes then goes to sleep on [COND_stop_xids] without
    writing a byte or counting itself; and the [unlog] that takes
    [prepared_xids] to 0 broadcasts [COND_prep_xids]. *)
Theorem rotation_holds_back_commits
  (cfg : sys_vars) (env : Env) (event_image : Log_event -> Z -> list byte)
  (write_cache : IO_CACHE -> IO_CACHE -> Z * IO_CACHE)
  (l : MYSQL_BIN_LOG) (thd : THD) (d : binlog_trx_data)
  (xid : Z) (async ht : bool) (pending_commits : Z) :
  is_open l = true ->
  stop_new_xids l = false ->
  prepared_xids l <> 0 ->
  ha_data thd = Some d ->
  pending d = None ->
  0 < position d ->
  exists l1,
    new_file_impl cfg env event_image l = Wait COND_prep_xids l1
    /\ stop_new_xids l1 = true
    /\ same_files l l1
    /\ prepared_xids l1 = prepared_xids l
    /\ log_xid cfg env event_image write_cache l1 thd xid async ht
               pending_commits
       = Wait COND_stop_xids l1
    /\ (prepared_xids l = 1 ->
        prepared_xids (unlog_prepared_xid l1) = 0
        /\ broadcasts (unlog_prepared_xid l1)
           = broadcasts l1 ++ [COND_prep_xids]).
Proof.
  intros Ho Hstop Hprep Hd Hp Hpos.
  exists (upd_stop_new_xids true l).
  split.
  { unfold new_file_impl. rewrite Ho, Hstop. cbn [negb].
    cbn [prepared_xids upd_stop_new_xids].
    apply Z.eqb_neq in Hprep. now rewrite Hprep. }
  split; [reflexivity|]. split; [repeat split|]. split; [reflexivity|].
  split.
  - unfold log_xid, binlog_end_trans.
    rewrite (BinlogFacts.flush_pending_none cfg env event_image _ thd true d
               Hd Hp).
    cbn [bind]. change (negb (0 =? 0)) with false. cbv iota. rewrite Hd.
    unfold write_cached. cbn [is_xid_event].
    assert (Ho' : is_open (upd_stop_new_xids true l) = true) by exact Ho.
    rewrite Ho'. unfold position in Hpos.
    apply Z.ltb_lt in Hpos. rewrite Hpos. reflexivity.
  - intros H1. unfold unlog_prepared_xid.
    cbn [prepared_xids upd_prepared_xids upd_stop_new_xids]. rewrite H1.
    split; reflexivity.
Qed.

(** A rotation of the example log after the commit of the example
    session, with the same session committing once more. *)
Lemma rotation_holds_back_commits_witness :
  exists l1,
    new_file_impl Examples.cfg Examples.env Examples.image
                  Examples.log_after_commit = Wait COND_prep_xids l1
    /\ stop_new_xids l1 = true
    /\ same_files Examples.log_after_commit l1
    /\ prepared_xids l1 = prepared_xids Examples.log_after_commit
    /\ log_xid Examples.cfg Examples.env Examples.image Examples.copy l1
               (Examples.session false false Examples.one_insert) 43 false true 1
       = Wait COND_stop_xids l1
    /\ (prepared_xids Examples.log_after_commit = 1 ->
        prepared_xids (unlog_prepared_xid l1) = 0
        /\ broadcasts (unlog_prepared_xid l1)
           = broadcasts l1 ++ [COND_prep_xids]).
Proof.
  apply (rotation_holds_back_commits Examples.cfg Examples.env Examples.image
           Examples.copy Examples.log_after_commit
           (Examples.session false false Examples.one_insert)
           Examples.one_insert 43 false true 1);
    try reflexivity; vm_compute; try reflexivity; discriminate.
Defined.

End RotateFacts.

(* ================================================================== *)
(** * Unioned events and the rollback of a statement *)

Module SessionFacts.
Import Cache Binlog BinlogHooks.

Lemma write_each_unioned cfg env event_image evs : forall l thd,
  do_union thd = true ->
  exists thd',
    write_each cfg env event_image evs l thd = Ret (false, l, thd')
    /\ do_union thd' = true
    /\ unioned_events thd'
       = (unioned_events thd || match evs with [] => false | _ => true end)
    /\ unioned_events_trans thd'
       = (unioned_events_trans thd || existsb get_cache_stmt evs)
    /\ ha_data thd' = ha_data thd
    /\ da_is_error thd' = da_is_error thd.
Proof.
  induction evs as [|e evs IH]; intros l thd Hu; cbn [write_each].
  - exists thd. now rewrite !orb_false_r.
  - unfold write. rewrite Hu. cbn [bind].
    destruct (IH l (upd_unioned_events_trans
                      (unioned_events_trans thd || get_cache_stmt e)
                      (upd_unioned_events true thd)) Hu)
      as (thd' & -> & Hu' & He & Ht & Hd & Hda).
    exists thd'. split; [reflexivity|]. split; [exact Hu'|].
    cbn in He, Ht, Hd, Hda. rewrite He, Ht, Hd, Hda.
    cbn [existsb]. rewrite orb_true_r, orb_assoc. repeat split.
Qed.

(** X17.  Between [start_union_events] and [stop_union_events] the
    events handed to [MYSQL_BIN_LOG::write] are dropped: each call returns
    0, the log object and the session's cache are untouched (also on a
    closed log or for a session without a cache), and the session
    remembers that an event was dropped and whether one of the dropped
    events was transactional. *)
Theorem unioned_events_are_dropped
  (cfg : sys_vars) (env : Env) (event_image : Log_event -> Z -> list byte)
  (evs : list Log_event) (l : MYSQL_BIN_LOG) (thd : THD) :
  exists thd',
    write_each cfg env event_image evs l (start_union_events thd)
    = Ret (false, l, thd')
    /\ unioned_events (stop_union_events thd')
       = match evs with [] => false | _ => true end
    /\ unioned_events_trans (stop_union_events thd')
       = existsb get_cache_stmt evs
    /\ do_union (stop_union_events thd') = false
    /\ ha_data (stop_union_events thd') = ha_data thd
    /\ da_is_error (stop_union_events thd') = da_is_error thd.
Proof.
  destruct (write_each_unioned cfg env event_image evs l
              (start_union_events thd) eq_refl)
    as (thd' & Hrun & Hu & He & Ht & Hd & Hda).
  exists thd'. split; [exact Hrun|].
  cbn in He, Ht, Hd, Hda. cbn. rewrite He, Ht, Hd, Hda. repeat split.
Qed.

(** X18.  Rolling back a statement inside a transaction gives back the
    cache of the moment the statement began.  The statement is begun with
    [binlog_start_trans_and_stmt], then writes any bytes to the cache and
    may leave a pending rows event and the incident flag behind; when it
    has not touched a non-transactional table and [OPTION_KEEP_LOG] is
    off, [binlog_rollback] for the statement ([all] false) returns 0,
    leaves the log object as it is, and cuts the cache back to the bytes
    it held when the statement began, with no pending rows event and
    [before_stmt_pos] undefined again. *)
Theorem statement_rollback_restores_cache
  (cfg : sys_vars) (env : Env) (event_image : Log_event -> Z -> list byte)
  (write_cache : IO_CACHE -> IO_CACHE -> Z * IO_CACHE)
  (l : MYSQL_BIN_LOG) (thd : THD) (d : binlog_trx_data)
  (written : list byte) (limit : Z) (committed flagged : bool)
  (rows : option Rows_log_event) :
  ha_data thd = Some d ->
  before_stmt_pos d = MY_OFF_T_UNDEF ->
  OPTION_BEGIN (ctx thd) = true ->
  OPTION_KEEP_LOG (ctx thd) = false ->
  stmt_modified_non_trans_table (ctx thd) = false ->
  exists thd1 d1,
    binlog_start_trans_and_stmt cfg env thd = Ret thd1
    /\ ha_data thd1 = Some d1
    /\ let during :=
         upd_ha_data
           (Some {| trans_log := {| contents := contents (trans_log d1) ++ written;
                                    end_of_file := limit |};
                    at_least_one_stmt_committed := committed;
                    incident := flagged;
                    m_pending := rows;
                    before_stmt_pos := before_stmt_pos d1 |}) thd1 in
       exists thd' d',
         binlog_rollback cfg env event_image write_cache l during false
         = Ret (0, l, thd')
         /\ ha_data thd' = Some d'
         /\ contents (trans_log d') = contents (trans_log d)
         /\ pending d' = None
         /\ before_stmt_pos d' = MY_OFF_T_UNDEF.
Proof.
  intros Hd Hundef Hbegin Hkeep Hnon.
  unfold binlog_start_trans_and_stmt. rewrite Hd, Hundef, Z.eqb_refl.
  unfold binlog_set_stmt_begin, binlog_trans_log_savepos. rewrite Hd.
  cbv zeta. rewrite Hd. cbn [bind]. rewrite Hd.
  eexists. eexists. split; [reflexivity|]. split; [reflexivity|].
  cbn [trans_log before_stmt_pos].
  set (d2 := {| trans_log := {| contents := contents (trans_log d) ++ written;
                                end_of_file := limit |};
                at_least_one_stmt_committed := committed;
                incident := flagged;
                m_pending := rows;
                before_stmt_pos := position d |}).
  set (thd2 := upd_ha_data (Some d2) _).
  assert (Hctx : ctx thd2 = ctx thd) by reflexivity.
  assert (Hd2 : ha_data thd2 = Some d2) by reflexivity.
  assert (Hcut : forall p,
             contents (trans_log (truncate (max_binlog_cache_size cfg)
                                           (position d) (set_pending p d2)))
             = contents (trans_log d)).
  { intros p. unfold truncate, position, my_b_tell, reinit_write_cache. cbn.
    rewrite Nat2Z.id, firstn_app, firstn_all, Nat.sub_diag, length_app.
    cbn. rewrite app_nil_r.
    replace (length (contents (trans_log d))
             - (length (contents (trans_log d)) + length written))%nat
      with 0%nat by lia.
    cbn. now rewrite app_nil_r. }
  (* what [binlog_end_trans] without an end event does for the statement *)
  assert (Hend : forall thd3 : THD,
             ctx thd3 = ctx thd ->
             (exists d3, ha_data thd3 = Some d3
                         /\ before_stmt_pos d3 = position d
                         /\ trans_log d3 = trans_log d2) ->
             exists thd4 d4,
               binlog_end_trans cfg env event_image write_cache l thd3 None
                                false false false 0 = Ret (0, l, thd4)
               /\ ha_data thd4 = Some d4
               /\ contents (trans_log d4) = contents (trans_log d)
               /\ pending d4 = None).
  { intros thd3 Hc3 (d3 & Hd3 & Hb3 & Hl3).
    unfold binlog_end_trans, binlog_remove_pending_rows_event.
    assert (Hcut3 : forall d5,
               trans_log d5 = trans_log d2 ->
               contents (trans_log (truncate (max_binlog_cache_size cfg)
                                             (position d) d5))
               = contents (trans_log d)).
    { intros d5 H5. rewrite <- (Hcut None).
      unfold truncate, set_pending. cbn [trans_log]. now rewrite H5. }
    destruct (negb (is_open l)); cbn [bind].
    - rewrite Hd3, Hc3, Hbegin. cbn [orb negb].
      do 2 eexists. split; [reflexivity|]. split; [reflexivity|].
      rewrite Hb3. split; [apply Hcut3; exact Hl3|reflexivity].
    - rewrite Hd3. cbn [bind]. cbn [ha_data upd_ha_data ctx].
      rewrite Hc3, Hbegin. cbn [orb negb].
      do 2 eexists. split; [reflexivity|]. split; [reflexivity|].
      cbn [before_stmt_pos set_pending]. rewrite Hb3.
      split; [apply Hcut3; exact Hl3|reflexivity]. }
  unfold binlog_rollback. rewrite Hd2.
  destruct (empty d2) eqn:Eempty.
  { (* nothing in the cache: the statement began on an empty cache *)
    unfold empty, pending in Eempty. cbn [m_pending d2] in Eempty.
    destruct rows; [discriminate|].
    unfold position, my_b_tell in Eempty. cbn [trans_log contents d2] in Eempty.
    assert (Hnil : contents (trans_log d) ++ written = []).
    { apply Z.eqb_eq in Eempty.
      destruct (contents (trans_log d) ++ written); [reflexivity|].
      cbn in Eempty. lia. }
    apply app_eq_nil in Hnil. destruct Hnil as [Hnil Hw].
    do 2 eexists. split; [reflexivity|]. split; [reflexivity|].
    unfold reset, empty, pending, position, my_b_tell. cbn.
    rewrite Eempty. cbn. rewrite Hnil, Hw. repeat split. }
  assert (Hfin : forall thd4 d4,
             ha_data thd4 = Some d4 ->
             contents (trans_log d4) = contents (trans_log d) ->
             pending d4 = None ->
             exists thd' d',
               (do (error, l0, thd0) <- Ret (0, l, thd4);
                if negb false
                then match ha_data thd0 with
                     | None => Fault
                     | Some trx_data =>
                         Ret (error, l0,
                              upd_ha_data
                                (Some (upd_before_stmt_pos MY_OFF_T_UNDEF
                                                           trx_data)) thd0)
                     end
                else Ret (error, l0, thd0))
               = Ret (0, l, thd')
               /\ ha_data thd' = Some d'
               /\ contents (trans_log d') = contents (trans_log d)
               /\ pending d' = None
               /\ before_stmt_pos d' = MY_OFF_T_UNDEF).
  { intros thd4 d4 Hd4 Hc4 Hp4. cbn [bind negb]. rewrite Hd4.
    do 2 eexists. split; [reflexivity|]. split; [reflexivity|].
    cbn. auto. }
  destruct (check_write_error thd2).
  - cbv zeta. destruct (rollback_sets_incident thd2).
    + destruct (Hend (upd_ha_data (Some (set_incident d2)) thd2) eq_refl
                  (ex_intro _ (set_incident d2)
                     (conj eq_refl (conj eq_refl eq_refl))))
        as (thd4 & d4 & -> & Hd4 & Hc4 & Hp4).
      apply (Hfin thd4 d4); assumption.
    + destruct (Hend thd2 eq_refl (ex_intro _ d2 (conj eq_refl (conj eq_refl eq_refl))))
        as (thd4 & d4 & -> & Hd4 & Hc4 & Hp4).
      apply (Hfin thd4 d4); assumption.
  - unfold trans_has_no_stmt_committed. rewrite Hd2. cbn [bind].
    unfold ending_trans, stmt_has_updated_non_trans_table.
    rewrite Hctx, Hbegin, Hkeep, Hnon.
    cbn [negb orb andb]. rewrite !andb_false_r. cbn [orb andb].
    destruct (Hend thd2 eq_refl (ex_intro _ d2 (conj eq_refl (conj eq_refl eq_refl))))
      as (thd4 & d4 & -> & Hd4 & Hc4 & Hp4).
    apply (Hfin thd4 d4); assumption.
Qed.

(** The example session runs one more statement, which is rolled back. *)
Lemma statement_rollback_witness :
  exists thd1 d1,
    binlog_start_trans_and_stmt Examples.cfg Examples.env
      (Examples.session false false Examples.one_insert) = Ret thd1
    /\ ha_data thd1 = Some d1
    /\ let during :=
         upd_ha_data
           (Some {| trans_log := {| contents := contents (trans_log d1) ++ [1; 2; 3];
                                    end_of_file := 4096 |};
                    at_least_one_stmt_committed := true;
                    incident := false;
                    m_pending := None;
                    before_stmt_pos := before_stmt_pos d1 |}) thd1 in
       exists thd' d',
         binlog_rollback Examples.cfg Examples.env Examples.image Examples.copy
                         Examples.open_log during false
         = Ret (0, Examples.open_log, thd')
         /\ ha_data thd' = Some d'
         /\ contents (trans_log d') = contents (trans_log Examples.one_insert)
         /\ pending d' = None
         /\ before_stmt_pos d' = MY_OFF_T_UNDEF.
Proof.
  apply (statement_rollback_restores_cache Examples.cfg Examples.env
           Examples.image Examples.copy Examples.open_log
           (Examples.session false false Examples.one_insert)
           Examples.one_insert [1; 2; 3] 4096 true false None);
    reflexivity.
Defined.

End SessionFacts.

(* ================================================================== *)
(** * Entries of the index file are found in order *)

Module IndexFileFacts.
Import IndexFile.

Lemma bytes_eqb_eq a : forall b, bytes_eqb a b = true <-> a = b.
Proof.
  induction a as [|x a IH]; intros [|y b]; cbn; split; try discriminate; auto.
  - intros H. apply andb_prop in H. destruct H as [Hx Hab].
    apply Z.eqb_eq in Hx. apply IH in Hab. congruence.
  - intros H. injection H as -> ->. rewrite Z.eqb_refl. cbn. now apply IH.
Qed.

Section Index.

Variable LOG_INFO_EOF LOG_INFO_IO : Z.
Variable my_b_gets : Z -> list byte * Z * bool.

Local Abbreviation find_log_pos_loop :=
  (find_log_pos_loop LOG_INFO_EOF LOG_INFO_IO my_b_gets).
Local Abbreviation holds_entries := (holds_entries my_b_gets).

Lemma line_length (entry : list byte) :
  entry <> [] ->
  Z.of_nat (length entry) + 1 < uint_modulus ->
  Z.of_nat (length (entry ++ [10])) mod uint_modulus
  = Z.of_nat (length entry) + 1
  /\ 1 < Z.of_nat (length entry) + 1.
Proof.
  intros Hne Hlt. rewrite length_app. cbn [length].
  rewrite Nat2Z.inj_add. change (Z.of_nat 1) with 1.
  rewrite Z.mod_small by lia. split; [reflexivity|].
  destruct entry; [contradiction|cbn [length]; lia].
Qed.

(** An entry read into [fname] matches the name asked for exactly when
    they are equal. *)
Lemma entry_matches_iff (name entry : list byte) :
  entry <> [] ->
  Z.of_nat (length entry) + 1 < uint_modulus ->
  Z.of_nat (length name) < uint_modulus ->
  entry_matches (Some name) (entry ++ [10]) (Z.of_nat (length entry) + 1)
  = true <-> entry = name.
Proof.
  intros Hne Hlt Hname. unfold entry_matches.
  rewrite (Z.mod_small (Z.of_nat (length name))) by lia.
  replace (Z.of_nat (length entry) + 1 - 1) with (Z.of_nat (length entry))
    by lia.
  rewrite (Z.mod_small (Z.of_nat (length entry))) by lia.
  rewrite Nat2Z.id. split.
  - intros H. apply andb_prop in H. destruct H as [H Heq].
    apply andb_prop in H. destruct H as [Hlen _].
    apply Z.eqb_eq, Nat2Z.inj in Hlen.
    apply bytes_eqb_eq in Heq.
    rewrite Hlen, firstn_app, firstn_all, Nat.sub_diag in Heq.
    cbn in Heq. rewrite app_nil_r in Heq.
    rewrite <- Hlen, firstn_all in Heq. congruence.
  - intros <-. rewrite Z.eqb_refl, app_nth2, Nat.sub_diag by lia. cbn.
    apply bytes_eqb_eq.
    now rewrite firstn_app, firstn_all, Nat.sub_diag, app_nil_r.
Qed.

(** The entry handed back: [fname] with its line feed cut off. *)
Lemma entry_cut (entry : list byte) :
  firstn (Z.to_nat (Z.of_nat (length entry) + 1 - 1)) (entry ++ [10]) = entry.
Proof.
  replace (Z.of_nat (length entry) + 1 - 1) with (Z.of_nat (length entry))
    by lia.
  now rewrite Nat2Z.id, firstn_app, firstn_all, Nat.sub_diag, app_nil_r.
Qed.

(** The loop passes the entries that differ from the name. *)
Lemma loop_skips (name : list byte) (before : list (list byte)) :
  forall rest offset linfo fuel,
    holds_entries (before ++ rest) offset ->
    ~ In name before ->
    Z.of_nat (length name) < uint_modulus ->
    exists fname,
      find_log_pos_loop (length before + fuel) linfo (Some name) offset
      = find_log_pos_loop fuel
          {| log_file_name := fname;
             index_file_offset := index_file_offset linfo;
             index_file_start_offset := index_file_start_offset linfo |}
          (Some name) (offset + size_of before)
      /\ holds_entries rest (offset + size_of before).
Proof.
  induction before as [|entry before IH]; intros rest offset linfo fuel Hfile
    Hnot Hname.
  - exists (log_file_name linfo). cbn [length size_of fold_right Nat.add].
    rewrite Z.add_0_r. split; [now destruct linfo|exact Hfile].
  - cbn [app IndexFile.holds_entries] in Hfile.
    destruct Hfile as (Hne & Hlt & Hread & Hrest).
    destruct (line_length entry Hne Hlt) as [Hlen Hlong].
    cbn [length Nat.add IndexFile.find_log_pos_loop]. rewrite Hread, Hlen.
    replace (Z.of_nat (length entry) + 1 <=? 1) with false
      by (symmetry; apply Z.leb_gt; lia).
    destruct (entry_matches (Some name) (entry ++ [10])
                (Z.of_nat (length entry) + 1)) eqn:Em.
    { apply entry_matches_iff in Em; try assumption.
      exfalso. apply Hnot. now left. }
    destruct (IH rest (offset + Z.of_nat (length entry) + 1)
                {| log_file_name := entry ++ [10];
                   index_file_offset := index_file_offset linfo;
                   index_file_start_offset := index_file_start_offset linfo |}
                fuel Hrest) as (fname & Hrun & Hafter).
    + intros Hin. apply Hnot. now right.
    + exact Hname.
    + exists fname. cbn [index_file_offset index_file_start_offset] in Hrun.
      cbn [size_of fold_right]. fold (size_of before).
      replace (offset + (Z.of_nat (length entry) + 1 + size_of before))
        with (offset + Z.of_nat (length entry) + 1 + size_of before) by lia.
      split; [exact Hrun|exact Hafter].
Qed.

(** X20.  On an index file that holds one entry to a line,
    [find_log_pos] finds the first entry equal to the name asked for and
    hands back its offset and the offset of the line after it, from which
    [find_next_log] goes on to the entry that follows, or reports
    [LOG_INFO_EOF] after the last one; for a name that is no entry of the
    file [find_log_pos] reports [LOG_INFO_EOF]; a null name finds the
    first entry. *)
Theorem find_log_pos_finds_first_entry
  (entries : list (list byte)) (name : list byte) (linfo : LOG_INFO)
  (fuel : nat) :
  holds_entries entries 0 ->
  Z.of_nat (length name) < uint_modulus ->
  (length entries < fuel)%nat ->
  (forall before after,
      entries = before ++ name :: after ->
      ~ In name before ->
      let found :=
        {| log_file_name := name;
           index_file_offset := size_of before + Z.of_nat (length name) + 1;
           index_file_start_offset := size_of before |} in
      find_log_pos LOG_INFO_EOF LOG_INFO_IO my_b_gets fuel linfo (Some name)
      = Some (0, found)
      /\ match after with
         | [] =>
             fst (find_next_log LOG_INFO_EOF LOG_INFO_IO my_b_gets found)
             = LOG_INFO_EOF
         | next :: _ =>
             find_next_log LOG_INFO_EOF LOG_INFO_IO my_b_gets found
             = (0, {| log_file_name := next;
                      index_file_offset :=
                        index_file_offset found + Z.of_nat (length next) + 1;
                      index_file_start_offset := index_file_offset found |})
         end)
  /\ (~ In name entries ->
      exists fname,
        find_log_pos LOG_INFO_EOF LOG_INFO_IO my_b_gets fuel linfo (Some name)
        = Some (LOG_INFO_EOF,
                {| log_file_name := fname;
                   index_file_offset := index_file_offset linfo;
                   index_file_start_offset := index_file_start_offset linfo |}))
  /\ (forall first others,
        entries = first :: others ->
        find_log_pos LOG_INFO_EOF LOG_INFO_IO my_b_gets fuel linfo None
        = Some (0, {| log_file_name := first;
                      index_file_offset := Z.of_nat (length first) + 1;
                      index_file_start_offset := 0 |})).
Proof.
  intros Hfile Hname Hfuel. unfold find_log_pos. split; [|split].
  - intros before after -> Hnot.
    rewrite length_app in Hfuel. cbn [length] in Hfuel.
    destruct (loop_skips name before (name :: after) 0 linfo
                (fuel - length before) Hfile Hnot Hname)
      as (fname & Hrun & Hrest).
    replace (length before + (fuel - length before))%nat with fuel in Hrun
      by lia.
    rewrite Hrun. clear Hrun. rewrite Z.add_0_l in *.
    cbn [IndexFile.holds_entries] in Hrest.
    destruct Hrest as (Hne & Hlt & Hread & Hafter).
    destruct (line_length name Hne Hlt) as [Hlen Hlong].
    destruct (fuel - length before)%nat as [|more] eqn:Ef; [lia|].
    cbn [IndexFile.find_log_pos_loop]. rewrite Hread, Hlen.
    replace (Z.of_nat (length name) + 1 <=? 1) with false
      by (symmetry; apply Z.leb_gt; lia).
    assert (Em : entry_matches (Some name) (name ++ [10])
                   (Z.of_nat (length name) + 1) = true)
      by now apply entry_matches_iff.
    rewrite Em, entry_cut. split; [reflexivity|].
    unfold find_next_log. cbn [index_file_offset].
    destruct after as [|next after]; cbn [IndexFile.holds_entries] in Hafter.
    + destruct Hafter as [Hnone Herr].
      destruct (my_b_gets (size_of before + Z.of_nat (length name) + 1))
        as [[bytes tell] error].
      cbn in Hnone, Herr. subst bytes error. reflexivity.
    + destruct Hafter as (Hne' & Hlt' & Hread' & _).
      destruct (line_length next Hne' Hlt') as [Hlen' Hlong'].
      rewrite Hread', Hlen'.
      replace (Z.of_nat (length next) + 1 <=? 1) with false
        by (symmetry; apply Z.leb_gt; lia).
      now rewrite entry_cut.
  - intros Hnot.
    destruct (loop_skips name entries [] 0 linfo (fuel - length entries))
      as (fname & Hrun & Hrest); try assumption.
    { now rewrite app_nil_r. }
    replace (length entries + (fuel - length entries))%nat with fuel in Hrun
      by lia.
    rewrite Hrun. clear Hrun.
    destruct (fuel - length entries)%nat as [|more] eqn:Ef; [lia|].
    cbn [IndexFile.find_log_pos_loop IndexFile.holds_entries] in *.
    destruct Hrest as [Hnone Herr].
    destruct (my_b_gets (0 + size_of entries)) as [[bytes tell] error].
    cbn in Hnone, Herr. subst bytes error. cbn. eauto.
  - intros first others ->. cbn [IndexFile.holds_entries] in Hfile.
    destruct Hfile as (Hne & Hlt & Hread & _).
    destruct (line_length first Hne Hlt) as [Hlen Hlong].
    destruct fuel as [|fuel]; [cbn in Hfuel; lia|].
    cbn [IndexFile.find_log_pos_loop]. rewrite Hread, Hlen.
    replace (Z.of_nat (length first) + 1 <=? 1) with false
      by (symmetry; apply Z.leb_gt; lia).
    cbn [entry_matches]. now rewrite entry_cut.
Qed.

End Index.

(** The index file with the lines [a.1] and [a.2], asked for [a.2]. *)
Lemma find_log_pos_witness :
  (forall before after,
      two_entries = before ++ [97; 46; 50] :: after ->
      ~ In [97; 46; 50] before ->
      let found :=
        {| log_file_name := [97; 46; 50];
           index_file_offset := size_of before + Z.of_nat 3 + 1;
           index_file_start_offset := size_of before |} in
      find_log_pos (-1) (-2) (gets_from index_of_two) 3 no_info
                   (Some [97; 46; 50])
      = Some (0, found)
      /\ match after with
         | [] => fst (find_next_log (-1) (-2) (gets_from index_of_two) found)
                 = -1
         | next :: _ =>
             find_next_log (-1) (-2) (gets_from index_of_two) found
             = (0, {| log_file_name := next;
                      index_file_offset :=
                        index_file_offset found + Z.of_nat (length next) + 1;
                      index_file_start_offset := index_file_offset found |})
         end)
  /\ (~ In [97; 46; 50] two_entries ->
      exists fname,
        find_log_pos (-1) (-2) (gets_from index_of_two) 3 no_info
                     (Some [97; 46; 50])
        = Some (-1,
                {| log_file_name := fname;
                   index_file_offset := index_file_offset no_info;
                   index_file_start_offset := index_file_start_offset no_info |}))
  /\ (forall first others,
        two_entries = first :: others ->
        find_log_pos (-1) (-2) (gets_from index_of_two) 3 no_info None
        = Some (0, {| log_file_name := first;
                      index_file_offset := Z.of_nat (length first) + 1;
                      index_file_start_offset := 0 |})).
Proof.
  apply (find_log_pos_finds_first_entry (-1) (-2) (gets_from index_of_two)
           two_entries [97; 46; 50] no_info 3).
  - cbn. repeat split; try discriminate; reflexivity.
  - reflexivity.
  - cbn. lia.
Defined.

End IndexFileFacts.

(* ================================================================== *)
(** * Without log tables the logs go to files *)

Module LoggerFacts.
Import Logger.

Lemma call_handlers_spec log handlers : forall error,
  call_handlers log handlers error
  = (existsb log handlers || error, handlers).
Proof.
  induction handlers as [|h hs IH]; intros error; cbn [call_handlers existsb].
  - reflexivity.
  - rewrite IH. f_equal.
    destruct (log h), (existsb log hs), error; reflexivity.
Qed.

Section Flags.

Variable LOG_NONE LOG_FILE LOG_TABLE : Z.

(** [LOG_NONE] is a bit of its own. *)
Hypothesis none_not_table : Z.land LOG_NONE LOG_TABLE = 0.
Hypothesis file_not_none : Z.land LOG_FILE LOG_NONE = 0.

Local Abbreviation file_instead_of_table :=
  (file_instead_of_table LOG_FILE LOG_TABLE).

Lemma disjoint_bits a b n :
  Z.land a b = 0 -> Z.testbit a n = true -> Z.testbit b n = false.
Proof.
  intros H Ha. destruct (Z.testbit b n) eqn:Eb; [|reflexivity].
  assert (Hn : Z.testbit (Z.land a b) n = true)
    by now rewrite Z.land_spec, Ha, Eb.
  rewrite H, Z.bits_0 in Hn. discriminate.
Qed.

Lemma file_instead_of_table_bit printer n :
  0 <= n ->
  Z.testbit (file_instead_of_table printer) n
  = (Z.testbit printer n && negb (Z.testbit LOG_TABLE n))
    || Z.testbit LOG_FILE n.
Proof.
  intros Hn. unfold Logger.file_instead_of_table.
  now rewrite Z.lor_spec, Z.land_spec, Z.lnot_spec.
Qed.

(** A printer that names the file, the table or both becomes the file. *)
Lemma table_becomes_file printer :
  printer = LOG_FILE \/ printer = LOG_TABLE
  \/ printer = Z.lor LOG_TABLE LOG_FILE ->
  file_instead_of_table printer = LOG_FILE.
Proof.
  intros H. apply Z.bits_inj'. intros n Hn.
  rewrite file_instead_of_table_bit by assumption.
  destruct (Z.testbit LOG_FILE n) eqn:Ef.
  - apply orb_true_r.
  - rewrite orb_false_r.
    destruct H as [->| [->| ->]].
    + rewrite Ef. reflexivity.
    + apply andb_negb_r.
    + rewrite Z.lor_spec, Ef, orb_false_r. apply andb_negb_r.
Qed.

(** A printer with the [LOG_NONE] bit keeps it. *)
Lemma none_stays printer :
  Z.land printer LOG_NONE <> 0 ->
  Z.land (file_instead_of_table printer) LOG_NONE <> 0.
Proof.
  intros H Hz. apply H. apply Z.bits_inj'. intros n Hn.
  rewrite Z.bits_0, Z.land_spec.
  destruct (Z.testbit LOG_NONE n) eqn:En; [|apply andb_false_r].
  rewrite andb_true_r.
  assert (Hbit : Z.testbit (Z.land (file_instead_of_table printer) LOG_NONE) n
                 = false) by now rewrite Hz, Z.bits_0.
  rewrite Z.land_spec, En, andb_true_r, file_instead_of_table_bit in Hbit
    by assumption.
  rewrite (disjoint_bits LOG_NONE LOG_TABLE n none_not_table En) in Hbit.
  cbn [negb] in Hbit. rewrite andb_true_r in Hbit.
  apply orb_false_elim in Hbit. tauto.
Qed.

(** X21.  When the log tables could not be initialised and the slow or
    the general log is configured to go to a table, [set_handlers] falls
    back to files for both: it prints the error line, a log configured for
    the file, the table or both gets the file handler alone, a log
    configured with [LOG_NONE] gets no handler; so a slow query and a
    statement of the general log are never handed to the table handler,
    and are handed to the file handler exactly when the log is configured
    and switched on (and, for the slow log, the session is no replication
    thread or [opt_log_slow_slave_statements] is set). *)
Theorem set_handlers_falls_back_to_files
  (error_log_printer slow_log_printer general_log_printer : Z) (lg : LOGGER)
  (slave_thread opt_log_slow_slave_statements opt_slow_log opt_log : bool)
  (log_slow log_general : Log_event_handler -> bool) :
  is_log_tables_initialized lg = false ->
  printer_ok LOG_NONE LOG_FILE LOG_TABLE slow_log_printer ->
  printer_ok LOG_NONE LOG_FILE LOG_TABLE general_log_printer ->
  Z.land slow_log_printer LOG_TABLE <> 0
  \/ Z.land general_log_printer LOG_TABLE <> 0 ->
  let lg' := set_handlers LOG_NONE LOG_FILE LOG_TABLE error_log_printer
                          slow_log_printer general_log_printer lg in
  let to_file (printer : Z) :=
    if Z.land printer LOG_NONE =? 0 then [file_log_handler] else [] in
  printed lg'
  = printed lg
    ++ ["Failed to initialize log tables. Falling back to the old-fashioned logs"%string]
  /\ slow_log_handler_list lg' = to_file slow_log_printer
  /\ general_log_handler_list lg' = to_file general_log_printer
  /\ slow_log_print slave_thread opt_log_slow_slave_statements opt_slow_log
                    log_slow lg'
     = (if (Z.land slow_log_printer LOG_NONE =? 0)
           && negb (slave_thread && negb opt_log_slow_slave_statements)
           && opt_slow_log
        then (log_slow file_log_handler, [file_log_handler])
        else (false, []))
  /\ general_log_write opt_log log_general lg'
     = (if (Z.land general_log_printer LOG_NONE =? 0) && opt_log
        then (log_general file_log_handler, [file_log_handler])
        else (false, [])).
Proof.
  intros Hinit Hslow Hgeneral Htable. cbv zeta.
  (* what the two init functions do with a printer that fell back *)
  assert (Hfile : forall printer,
             printer_ok LOG_NONE LOG_FILE LOG_TABLE printer ->
             (Z.land printer LOG_NONE =? 0) = true ->
             (Z.land (file_instead_of_table printer) LOG_NONE =? 0) = true
             /\ (file_instead_of_table printer =? LOG_FILE) = true).
  { intros printer [Hn|Hp] Hz.
    - apply Z.eqb_eq in Hz. contradiction.
    - rewrite (table_becomes_file printer Hp), Z.eqb_refl.
      now rewrite file_not_none. }
  assert (Hnone : forall printer,
             printer_ok LOG_NONE LOG_FILE LOG_TABLE printer ->
             (Z.land printer LOG_NONE =? 0) = false ->
             (Z.land (file_instead_of_table printer) LOG_NONE =? 0) = false).
  { intros printer _ Hz. apply Z.eqb_neq. apply none_stays.
    now apply Z.eqb_neq. }
  assert (Hfall : (negb (Z.land slow_log_printer LOG_TABLE =? 0)
                   || negb (Z.land general_log_printer LOG_TABLE =? 0))
                  && negb (is_log_tables_initialized lg) = true).
  { rewrite Hinit. cbn [negb]. rewrite andb_true_r.
    destruct Htable as [H|H]; apply Z.eqb_neq in H; rewrite H; cbn;
      [reflexivity|apply orb_true_r]. }
  unfold set_handlers. rewrite Hfall.
  match goal with
  | |- context [init_error_log _ _ _ ?l] =>
      set (lg1 := init_error_log LOG_NONE LOG_FILE error_log_printer l);
      assert (Hprinted : printed lg1 = printed l)
        by (unfold lg1, init_error_log;
            destruct (negb (Z.land error_log_printer LOG_NONE =? 0));
            [reflexivity|];
            destruct (error_log_printer =? LOG_FILE); reflexivity)
  end.
  cbn [printed] in Hprinted. clearbody lg1.
  assert (Hsides : forall (b c : bool) (log : Log_event_handler -> bool),
             (if b then (false, [])
              else if negb c then (false, [])
                   else (log file_log_handler || false, [file_log_handler]))
             = (if negb b && c then (log file_log_handler, [file_log_handler])
                else (false, []))).
  { intros b c log. destruct b, c; cbn; rewrite ?orb_false_r; reflexivity. }
  assert (Hside : forall (c : bool) (log : Log_event_handler -> bool),
             (if negb c then (false, [])
              else (log file_log_handler || false, [file_log_handler]))
             = (if c then (log file_log_handler, [file_log_handler])
                else (false, []))).
  { intros c log. destruct c; cbn; rewrite ?orb_false_r; reflexivity. }
  unfold slow_log_print, general_log_write, init_general_log, init_slow_log.
  destruct (Z.land slow_log_printer LOG_NONE =? 0) eqn:Es;
    destruct (Z.land general_log_printer LOG_NONE =? 0) eqn:Eg;
    try (destruct (Hfile _ Hslow Es) as [-> ->]);
    try (destruct (Hfile _ Hgeneral Eg) as [-> ->]);
    try rewrite (Hnone _ Hslow Es);
    try rewrite (Hnone _ Hgeneral Eg);
    cbn; rewrite ?Hsides, ?Hside;
    repeat split; try exact Hprinted;
    repeat match goal with
           | |- context [if ?b then _ else _] => destruct b
           end; reflexivity.
Qed.

End Flags.

(** The slow log asked to go to the table and the file, the general log
    to nothing, with the flags 1, 2 and 4. *)
Lemma set_handlers_witness :
  let lg' := set_handlers 1 2 4 2 6 1 early_logger in
  let to_file (printer : Z) :=
    if Z.land printer 1 =? 0 then [file_log_handler] else [] in
  printed lg'
  = printed early_logger
    ++ ["Failed to initialize log tables. Falling back to the old-fashioned logs"%string]
  /\ slow_log_handler_list lg' = to_file 6
  /\ general_log_handler_list lg' = to_file 1
  /\ slow_log_print false false true (fun _ => false) lg'
     = (if (Z.land 6 1 =? 0) && negb (false && negb false) && true
        then (false, [file_log_handler])
        else (false, []))
  /\ general_log_write true (fun _ => false) lg'
     = (if (Z.land 1 1 =? 0) && true
        then (false, [file_log_handler])
        else (false, [])).
Proof.
  apply (set_handlers_falls_back_to_files 1 2 4 eq_refl eq_refl
           2 6 1 early_logger false false true true
           (fun _ => false) (fun _ => false)).
  - reflexivity.
  - right. right. right. reflexivity.
  - left. discriminate.
  - left. discriminate.
Defined.

End LoggerFacts.

(* ================================================================== *)
(** * What was written with success is in the log *)

Module InTheLogFacts.
Import Cache Binlog BinlogHooks.

(** Bytes at the start of the current file are still at the start of a
    file after whatever made the files grow. *)
Lemma grown_keeps_start cfg l l' bytes :
  log_state l = LOG_OPENED ->
  grown cfg l l' ->
  (exists after, contents (log_file l) = bytes ++ after) ->
  file_starts_with cfg l' bytes.
Proof.
  unfold grown. intros -> [[(_ & _ & x & Hx)|(_ & x & later & Hc)] _]
                       (after & Ha).
  - left. exists (after ++ x). now rewrite Hx, Ha, app_assoc.
  - right. exists (after ++ x). rewrite Hc, Ha, <- app_assoc.
    apply in_or_app. right. now left.
Qed.

Section InTheLog.

Variable cfg : sys_vars.
Variable env : Env.
Variable event_image : Log_event -> Z -> list byte.
Variable write_cache : IO_CACHE -> IO_CACHE -> Z * IO_CACHE.

(** What [rotate_and_purge] leaves of the start of the file. *)
Lemma rotate_keeps_start l thd flags log_maybe_full bytes error l' thd' :
  log_state l = LOG_OPENED ->
  (exists after, contents (log_file l) = bytes ++ after) ->
  rotate_and_purge cfg env event_image l thd flags log_maybe_full
  = Ret (error, l', thd') ->
  file_starts_with cfg l' bytes.
Proof.
  intros Hs Hb Hrun.
  pose proof (BinlogFilesFacts.rgrown_rotate_and_purge cfg env event_image
                l thd flags log_maybe_full) as Hg.
  rewrite Hrun in Hg. cbn in Hg. eapply grown_keeps_start; eauto.
Qed.

Lemma write_all_to_log evs : forall l thd e l' thd',
  write_all_to event_image To_log_file evs l thd = Ret (e, l', thd') ->
  extended l l' /\ thd' = thd.
Proof.
  induction evs as [|ev evs IH]; intros l thd e l' thd'; cbn [write_all_to].
  - intros H. injection H as <- <- <-. split; [apply BinlogFilesFacts.extended_refl|reflexivity].
  - unfold write_to.
    pose proof (BinlogFilesFacts.Log_event_write_extends event_image ev l) as Hx.
    destruct (Log_event_write _ _ _) as [err f]. cbn [snd bind] in *.
    destruct err.
    + intros H. injection H as <- <- <-. split; [exact Hx|reflexivity].
    + intros H. apply IH in H. destruct H as [H ->].
      split; [|reflexivity]. eapply BinlogFilesFacts.extended_trans; eauto.
Qed.

End InTheLog.

(** A failed [write] does not return 0. *)
Ltac failed_write H :=
  exfalso; revert H; unfold set_write_error;
  repeat match goal with
         | |- context [if ?b then _ else _] => destruct b
         end; discriminate.

(** X22.  An event that is not transactional, written with
    [MYSQL_BIN_LOG::write] by a session whose cache is empty (or that has
    none) and that has no pending rows event, goes straight to the log
    file: when the call returns 0 on an open log, for a statement that is
    not filtered out, the image of the event is in the binary log, in the
    current file or in the file just rotated cfg away, right behind the bytes
    the file held and the run-environment events, at the offset that was
    the end of the file. *)
Theorem direct_write_is_in_the_log
  (cfg : sys_vars) (env : Env) (event_image : Log_event -> Z -> list byte)
  (l l' : MYSQL_BIN_LOG) (thd thd' : THD) (ev : Log_event) :
  log_state l = LOG_OPENED ->
  do_union thd = false ->
  OPTION_BIN_LOG (ctx thd) = true ->
  db_ok (ctx thd) = true ->
  get_cache_stmt ev = false ->
  stmt_has_updated_trans_table thd = false ->
  (forall d, ha_data thd = Some d -> pending d = None /\ position d = 0) ->
  write cfg env event_image l thd ev = Ret (false, l', thd') ->
  exists run_environment_events,
    file_starts_with cfg l'
      ((contents (log_file l) ++ run_environment_events)
       ++ event_image ev
            (Z.of_nat (length (contents (log_file l) ++ run_environment_events)))).
Proof.
  intros Hs Hu Hb Hdb Hc Htrans Hcache. unfold write. rewrite Hu.
  assert (Hflush : binlog_flush_pending_rows_event cfg env event_image l thd
                     (prelocked_mode (ctx thd)
                      && lex_requires_prelocking (ctx thd))
                   = Ret (0, l, thd)).
  { destruct (ha_data thd) as [d|] eqn:Ed.
    - apply (BinlogFacts.flush_pending_none cfg env event_image l thd _ d Ed).
      now apply Hcache.
    - unfold binlog_flush_pending_rows_event. rewrite Ed.
      now destruct (negb (is_open l)). }
  rewrite Hflush. cbn [bind]. change (negb (0 =? 0)) with false. cbv iota.
  assert (Ho : is_open l = true) by (unfold is_open; now rewrite Hs).
  rewrite Ho, Hb, Hdb. cbn [negb orb]. rewrite andb_false_r.
  (* the event is for the log file *)
  assert (Hfile : exists thd3,
             cache_or_disk cfg env thd ev = Ret (true, To_log_file, thd3)
             \/ cache_or_disk cfg env thd ev = Ret (false, To_log_file, thd3)).
  { unfold cache_or_disk, binlog_setup_trx_data.
    destruct (opt_using_transactions cfg); [|eauto].
    unfold stmt_has_updated_trans_table in *.
    destruct (ha_data thd) as [d|] eqn:Ed.
    - change (negb (0 =? 0)) with false. cbv iota. rewrite Ed, Hc, Htrans.
      destruct (Hcache d eq_refl) as [_ Hpos]. unfold position in Hpos.
      rewrite Hpos. cbn. rewrite andb_false_r. eauto.
    - destruct (alloc_fails env); cbn; [eauto|].
      rewrite Hc, Htrans. cbn. rewrite andb_false_r. eauto. }
  destruct Hfile as (thd3 & [-> | ->]); cbn [bind].
  { intros H. failed_write H. }
  destruct (if negb (current_stmt_binlog_row_based (ctx thd3))
            then write_all_to event_image To_log_file
                   (run_environment (ctx thd3)) l thd3
            else Ret (false, l, thd3)) as [[[e4 l4] thd4]| |] eqn:E4;
    cbn [bind]; try discriminate.
  assert (X4 : extended l l4).
  { destruct (negb (current_stmt_binlog_row_based (ctx thd3))).
    - now apply write_all_to_log in E4.
    - injection E4 as <- <- <-. apply BinlogFilesFacts.extended_refl. }
  destruct e4; [intros H; failed_write H|].
  unfold write_to.
  destruct (Log_event_write event_image ev (log_file l4)) as [e5 f5] eqn:E5.
  cbn [bind]. destruct e5; [intros H; failed_write H|].
  apply BinlogFacts.Log_event_write_ok in E5.
  destruct (flush_and_sync cfg env (upd_log_file f5 l4) thd4 false false 0)
    as [[e6 l6] thd6] eqn:E6.
  apply BinlogFilesFacts.flush_and_sync_files in E6.
  destruct e6; [intros H; failed_write H|].
  destruct (rotate_and_purge cfg env event_image (signal_update l6) thd6
              already_locked true) as [[[e7 l7] thd7]| |] eqn:E7;
    cbn [bind]; try discriminate.
  destruct (negb (e7 =? 0)); [intros H; failed_write H|].
  intros H. injection H as <- <-.
  destruct X4 as (_ & S4 & C4 & x4 & Hx4).
  destruct E6 as (F6 & S6 & C6).
  exists x4. rewrite <- Hx4.
  eapply rotate_keeps_start; [| |exact E7].
  - cbn. rewrite S6. cbn. now rewrite S4.
  - exists []. cbn. rewrite F6. cbn. unfold my_b_tell in E5.
    now rewrite app_nil_r.
Qed.

(** A statement outside a transaction on the example log. *)
Lemma direct_write_witness :
  exists l' thd',
    write Examples.cfg Examples.env Examples.image Examples.open_log
          (autocommit_session None 0)
          (Query_log_event "CREATE TABLE t (a INT)" false false None)
    = Ret (false, l', thd')
    /\ exists run_environment_events,
         file_starts_with Examples.cfg l'
           ((contents (log_file Examples.open_log) ++ run_environment_events)
            ++ Examples.image
                 (Query_log_event "CREATE TABLE t (a INT)" false false None)
                 (Z.of_nat
                    (length (contents (log_file Examples.open_log)
                             ++ run_environment_events)))).
Proof.
  do 2 eexists. split; [vm_compute; reflexivity|].
  eapply (direct_write_is_in_the_log Examples.cfg Examples.env Examples.image
            Examples.open_log _ (autocommit_session None 0));
    try reflexivity; try (intros d Hd; discriminate);
    vm_compute; reflexivity.
Defined.

(** X23.  A transaction is in the log in one piece.  When
    [MYSQL_BIN_LOG::write] for a non-empty cache and a commit event
    returns 0 on an open log, then the [BEGIN] event was written at the end
    of the file, [write_cache] copied the cache behind it and returned 0,
    the commit event stands right behind the copy, and the file that holds
    the three is the current log file or the file just rotated cfg away. *)
Theorem committed_transaction_is_in_the_log
  (cfg : sys_vars) (env : Env) (event_image : Log_event -> Z -> list byte)
  (write_cache : IO_CACHE -> IO_CACHE -> Z * IO_CACHE)
  (l l' : MYSQL_BIN_LOG) (thd thd' : THD) (cache : IO_CACHE)
  (commit_event : Log_event) (incident async ht : bool) (pending_commits : Z) :
  log_state l = LOG_OPENED ->
  0 < my_b_tell cache ->
  write_cached cfg env event_image write_cache l thd cache (Some commit_event)
               incident async ht pending_commits = Ret (false, l', thd') ->
  let begin :=
    event_image (Query_log_event "BEGIN" true true None)
                (my_b_tell (log_file l)) in
  let with_begin := {| contents := contents (log_file l) ++ begin;
                       end_of_file := end_of_file (log_file l) |} in
  let copied := snd (write_cache cache with_begin) in
  fst (write_cache cache with_begin) = 0
  /\ file_starts_with cfg l'
       (contents copied ++ event_image commit_event (my_b_tell copied)).
Proof.
  intros Hs Hpos. unfold write_cached.
  assert (Ho : is_open l = true) by (unfold is_open; now rewrite Hs).
  rewrite Ho. apply Z.ltb_lt in Hpos. rewrite Hpos. cbn [andb].
  destruct (is_xid_event commit_event && stop_new_xids l); [discriminate|].
  assert (Herr : forall (l0 : MYSQL_BIN_LOG) (thd0 : THD) (P : Prop),
             Ret (true,
                  (if write_error l0 then l0
                   else sql_print_error "Error writing file"
                          (upd_write_error true l0)), thd0)
             = Ret (false, l', thd') -> P) by discriminate.
  unfold Log_event_write at 1.
  destruct (end_of_file (log_file l) <? _); cbn [bind]; [apply Herr|].
  cbn [log_file upd_log_file].
  set (with_begin := {| contents := _; end_of_file := _ |}).
  destruct (write_cache cache with_begin) as [code copied] eqn:Ecopy.
  cbn [fst snd].
  destruct (negb (code =? 0)) eqn:Ecode; cbn [bind]; [apply Herr|].
  apply negb_false_iff, Z.eqb_eq in Ecode.
  destruct (Log_event_write event_image commit_event _) as [e3 f3] eqn:E3.
  destruct e3; cbn [bind]; [apply Herr|].
  apply BinlogFacts.Log_event_write_ok in E3.
  cbn [log_file upd_log_file upd_write_error] in E3.
  set (l3 := upd_log_file f3 _).
  assert (S3 : log_state l3 = LOG_OPENED) by exact Hs.
  assert (B3 : contents (log_file l3)
               = contents copied ++ event_image commit_event (my_b_tell copied))
    by exact E3.
  clearbody l3.
  assert (X4 : extended l3 (snd (if incident
                                 then write_incident_unlocked event_image l3
                                 else (false, l3)))).
  { destruct incident; [|apply BinlogFilesFacts.extended_refl].
    apply BinlogFilesFacts.extended_write_incident_unlocked. }
  destruct (if incident then _ else _) as [e4 l4]. cbn [snd] in X4.
  destruct e4; cbn [bind]; [apply Herr|].
  destruct (flush_and_sync cfg env l4 thd async ht pending_commits)
    as [[e5 l5] thd5] eqn:E5.
  apply BinlogFilesFacts.flush_and_sync_files in E5.
  destruct e5; cbn [bind]; [apply Herr|].
  destruct (cache_read_error env); cbn [bind]; [apply Herr|].
  destruct X4 as (_ & S4 & C4 & x4 & Hx4). destruct E5 as (F5 & S5 & C5).
  assert (Hstart : exists after,
             contents (log_file (signal_update l5))
             = (contents copied
                ++ event_image commit_event (my_b_tell copied)) ++ after).
  { exists x4. cbn. now rewrite F5, Hx4, B3. }
  assert (Hstate : log_state (signal_update l5) = LOG_OPENED).
  { cbn. now rewrite S5, S4. }
  destruct (is_xid_event commit_event).
  - intros H. injection H as <- <-. split; [exact Ecode|]. left. exact Hstart.
  - destruct (rotate_and_purge cfg env event_image (signal_update l5) thd5
                already_locked true) as [[[e7 l7] thd7]| |] eqn:E7;
      cbn [bind]; try discriminate.
    destruct (negb (e7 =? 0)); [apply Herr|].
    intros H. injection H as <- <-. split; [exact Ecode|].
    eapply rotate_keeps_start; eauto.
Qed.

(** The cache of the example session committed with xid 42. *)
Lemma committed_transaction_witness :
  exists l' thd',
    write_cached Examples.cfg Examples.env Examples.image Examples.copy
                 Examples.open_log
                 (Examples.session false false Examples.one_insert)
                 (trans_log Examples.one_insert) (Some (Xid_log_event 42))
                 false false true 1
    = Ret (false, l', thd')
    /\ let begin :=
         Examples.image (Query_log_event "BEGIN" true true None)
                        (my_b_tell (log_file Examples.open_log)) in
       let with_begin :=
         {| contents := contents (log_file Examples.open_log) ++ begin;
            end_of_file := end_of_file (log_file Examples.open_log) |} in
       let copied :=
         snd (Examples.copy (trans_log Examples.one_insert) with_begin) in
       fst (Examples.copy (trans_log Examples.one_insert) with_begin) = 0
       /\ file_starts_with Examples.cfg l'
            (contents copied
             ++ Examples.image (Xid_log_event 42) (my_b_tell copied)).
Proof.
  do 2 eexists. split; [vm_compute; reflexivity|].
  eapply (committed_transaction_is_in_the_log Examples.cfg Examples.env
            Examples.image Examples.copy Examples.open_log _
            (Examples.session false false Examples.one_insert) _
            (trans_log Examples.one_insert) (Xid_log_event 42)
            false false true 1);
    try reflexivity; vm_compute; reflexivity.
Defined.

End InTheLogFacts.

(* ================================================================== *)
(** * The sketch: one hash in the window of a query *)

Module HyperLogLogWindow.
Import HyperLogLog HyperLogLogFacts.

(** A register none of whose stamps is later than [since] is empty. *)
Lemma scan_register_none d i mbp since :
  forall j,
    (forall n, (n < j)%nat ->
               exists stamp,
                 nth_error d (Z.to_nat ((i * mbp + Z.of_nat n) mod uint_modulus))
                 = Some stamp /\ stamp <= since) ->
    scan_register d i mbp j since = Some 32.
Proof.
  induction j as [|j IH]; intros Hold; [reflexivity|].
  cbn [scan_register].
  replace (i * mbp + Z.of_nat (S j) - 1) with (i * mbp + Z.of_nat j) by lia.
  destruct (Hold j) as (stamp & -> & Hs); [lia|].
  replace (since <? stamp) with false by (symmetry; apply Z.ltb_ge; lia).
  apply IH. intros n Hn. apply Hold. lia.
Qed.

(** A register whose stamps above rank [r] are not later than [since] and
    whose stamp at rank [r] is: the scan stops at [r]. *)
Lemma scan_register_at d i mbp since r :
  forall j,
    (r < j)%nat ->
    (forall n, (r < n < j)%nat ->
               exists stamp,
                 nth_error d (Z.to_nat ((i * mbp + Z.of_nat n) mod uint_modulus))
                 = Some stamp /\ stamp <= since) ->
    (exists stamp,
        nth_error d (Z.to_nat ((i * mbp + Z.of_nat r) mod uint_modulus))
        = Some stamp /\ since < stamp) ->
    scan_register d i mbp j since = Some (Z.of_nat r + 1).
Proof.
  induction j as [|j IH]; intros Hr Hold Hnew; [lia|].
  cbn [scan_register].
  replace (i * mbp + Z.of_nat (S j) - 1) with (i * mbp + Z.of_nat j) by lia.
  destruct (Nat.eq_dec r j) as [->|Hne].
  - destruct Hnew as (stamp & -> & Hs).
    replace (since <? stamp) with true by (symmetry; apply Z.ltb_lt; lia).
    f_equal. lia.
  - destruct (Hold j) as (stamp & -> & Hs); [lia|].
    replace (since <? stamp) with false by (symmetry; apply Z.ltb_ge; lia).
    apply IH; [lia| |exact Hnew]. intros n Hn. apply Hold. lia.
Qed.

(** A cell belongs to one register and one rank. *)
Lemma cell_unique mbp i n i' n' :
  0 <= n < mbp -> 0 <= n' < mbp ->
  i * mbp + n = i' * mbp + n' -> i = i' /\ n = n'.
Proof.
  intros Hn Hn' E.
  assert (Hi : i = i').
  { destruct (Z.lt_trichotomy i i') as [H|[H|H]]; [exfalso|assumption|exfalso].
    - assert (Hm : (i + 1) * mbp <= i' * mbp)
        by (apply Z.mul_le_mono_nonneg_r; lia).
      rewrite Z.mul_add_distr_r in Hm. lia.
    - assert (Hm : (i' + 1) * mbp <= i * mbp)
        by (apply Z.mul_le_mono_nonneg_r; lia).
      rewrite Z.mul_add_distr_r in Hm. lia. }
  subst i'. split; [reflexivity|lia].
Qed.

(** The count of empty registers when every register but one is empty. *)
Lemma count_all_but_one hll since idx m :
  0 <= idx ->
  data_size hll <= 2 ^ 31 ->
  (forall i, 0 <= i < data_size hll -> i <> idx ->
             max_valid_index hll i since = Some 32) ->
  max_valid_index hll idx since = Some m ->
  forall n,
    Z.of_nat n <= data_size hll ->
    count_zero_registers hll n since
    = Some (Z.of_nat n
            - if (idx <? Z.of_nat n) && negb (m =? 32) then 1 else 0).
Proof.
  intros Hidx Hsize Hothers Hone.
  induction n as [|n IH]; intros Hn; cbn [count_zero_registers].
  - replace (idx <? Z.of_nat 0) with false
      by (symmetry; apply Z.ltb_ge; cbn; lia).
    reflexivity.
  - rewrite IH by lia.
    destruct (Z.eq_dec (Z.of_nat n) idx) as [E|E].
    + rewrite E, Hone.
      replace (idx <? idx) with false by (symmetry; apply Z.ltb_irrefl).
      replace (idx <? Z.of_nat (S n)) with true
        by (symmetry; apply Z.ltb_lt; lia).
      cbn [andb]. unfold uint_modulus.
      destruct (m =? 32); cbn [negb]; f_equal;
        [rewrite Z.mod_small|]; lia.
    + rewrite Hothers by lia. cbn [Z.eqb Pos.eqb].
      replace (idx <? Z.of_nat (S n)) with (idx <? Z.of_nat n)
        by (destruct (idx <? Z.of_nat n) eqn:A;
            [apply Z.ltb_lt in A; symmetry; apply Z.ltb_lt; lia
            |apply Z.ltb_ge in A; symmetry; apply Z.ltb_ge; lia]).
      unfold uint_modulus. f_equal.
      destruct ((idx <? Z.of_nat n) && negb (m =? 32));
        rewrite Z.mod_small; lia.
Qed.

(** X24.  One hash in an empty sketch, seen through the window of a
    query.  After [hyperloglog_insert] of a hash at a time [t > 0] into a
    sketch whose stamps are all 0, a query since a time before [t] finds
    the register of the hash at exactly the rank of the hash plus one and
    every other register empty, so [count_zero_elements] is [data_size - 1]
    (unless rank plus one is 32, the value the scan uses for an empty
    register); a query since [t] or later has forgotten the hash and finds
    all [data_size] registers empty. *)
Theorem one_hash_in_the_window (hll hll' : hyperloglog)
  (hash current_time since_time : Z) :
  laid_out hll ->
  data hll = repeat 0 (Z.to_nat (data_size hll * max_bit_position hll)) ->
  0 <= hash < 2 ^ 32 ->
  0 < current_time ->
  0 <= since_time ->
  hyperloglog_insert hll hash current_time = Some hll' ->
  let rank := find_first_set_bit_after_index hash (data_size_log2 hll) in
  (since_time < current_time ->
   max_valid_index hll' (hash mod data_size hll) since_time = Some (rank + 1)
   /\ (forall i, 0 <= i < data_size hll -> i <> hash mod data_size hll ->
                 max_valid_index hll' i since_time = Some 32)
   /\ (rank + 1 <> 32 ->
       count_zero_elements hll' since_time = Some (data_size hll - 1)))
  /\ (current_time <= since_time ->
      count_zero_elements hll' since_time = Some (data_size hll)).
Proof.
  intros Hl Hzero Hh Ht Hs Hins rank.
  pose proof (cell_in_register hll hash Hl Hh) as (Hb & Hr & Hc & H32).
  pose proof (laid_out_size hll Hl) as (Hsz & Hm & Hfit).
  rewrite (insert_writes_cell hll hash current_time Hl Hh) in Hins.
  injection Hins as <-.
  destruct Hl as (Hlog & Hsize & Hmax & Hlen).
  fold rank in Hr.
  set (idx := hash mod data_size hll) in *.
  set (mbp := max_bit_position hll) in *.
  assert (Hpow : data_size hll <= 2 ^ 31).
  { rewrite Hsize. apply Z.pow_le_mono_r; lia. }
  (* where the cells of a register are *)
  assert (Hpos : forall i n, 0 <= i < data_size hll -> (n < Z.to_nat mbp)%nat ->
             (i * mbp + Z.of_nat n) mod uint_modulus = i * mbp + Z.of_nat n
             /\ 0 <= i * mbp + Z.of_nat n < Z.of_nat (length (data hll))).
  { intros i n Hi Hn.
    assert (0 <= i * mbp + Z.of_nat n < data_size hll * mbp) by nia.
    split; [apply Z.mod_small; unfold uint_modulus|]; lia. }
  (* the stamps after the insert *)
  assert (Hold : forall i n, 0 <= i < data_size hll -> (n < Z.to_nat mbp)%nat ->
             (i <> idx \/ Z.of_nat n <> rank) ->
             nth_error
               (firstn (Z.to_nat (cell hll hash)) (data hll)
                ++ current_time :: skipn (S (Z.to_nat (cell hll hash))) (data hll))
               (Z.to_nat ((i * mbp + Z.of_nat n) mod uint_modulus))
             = Some 0).
  { intros i n Hi Hn Hother. destruct (Hpos i n Hi Hn) as [-> Hin].
    rewrite nth_error_not_written.
    - rewrite Hzero. apply nth_error_repeat.
      rewrite Hzero, repeat_length in Hin. fold mbp. lia.
    - lia.
    - unfold cell. fold idx mbp rank. intros E. apply Z2Nat.inj in E; [|lia|lia].
      apply cell_unique in E; [|lia|lia].
      destruct Hother as [Hi'|Hn']; [apply Hi'|apply Hn']; tauto. }
  assert (Hnew : nth_error
                   (firstn (Z.to_nat (cell hll hash)) (data hll)
                    ++ current_time
                       :: skipn (S (Z.to_nat (cell hll hash))) (data hll))
                   (Z.to_nat ((idx * mbp + Z.of_nat (Z.to_nat rank))
                              mod uint_modulus))
                 = Some current_time).
  { destruct (Hpos idx (Z.to_nat rank)) as [-> _]; [lia|lia|].
    rewrite Z2Nat.id by lia.
    change (idx * mbp + rank) with (cell hll hash).
    apply nth_error_written. lia. }
  assert (Hothers : forall i, 0 <= i < data_size hll -> i <> idx ->
             max_valid_index
               {| data_size_log2 := data_size_log2 hll;
                  data_size := data_size hll;
                  max_bit_position := max_bit_position hll;
                  data := firstn (Z.to_nat (cell hll hash)) (data hll)
                          ++ current_time
                             :: skipn (S (Z.to_nat (cell hll hash))) (data hll) |}
               i since_time = Some 32).
  { intros i Hi Hne. unfold max_valid_index. cbn [data max_bit_position].
    apply scan_register_none. intros n Hn.
    exists 0. split; [apply Hold; auto|lia]. }
  unfold count_zero_elements. cbn [data_size].
  split.
  - intros Hwindow.
    assert (Hmine : max_valid_index
               {| data_size_log2 := data_size_log2 hll;
                  data_size := data_size hll;
                  max_bit_position := max_bit_position hll;
                  data := firstn (Z.to_nat (cell hll hash)) (data hll)
                          ++ current_time
                             :: skipn (S (Z.to_nat (cell hll hash))) (data hll) |}
               idx since_time = Some (rank + 1)).
    { unfold max_valid_index. cbn [data max_bit_position].
      replace (rank + 1) with (Z.of_nat (Z.to_nat rank) + 1)
        by (rewrite Z2Nat.id; lia).
      apply scan_register_at.
      - fold mbp. lia.
      - intros n Hn. exists 0. split; [|lia].
        apply Hold; [lia|fold mbp; lia|right; lia].
      - exists current_time. split; [exact Hnew|lia]. }
    split; [exact Hmine|]. split; [exact Hothers|].
    intros H32'.
    rewrite (count_all_but_one _ since_time idx (rank + 1)); cbn [data_size];
      try assumption; try lia.
    rewrite Z2Nat.id by lia.
    replace (idx <? data_size hll) with true by (symmetry; apply Z.ltb_lt; lia).
    replace (rank + 1 =? 32) with false by (symmetry; apply Z.eqb_neq; lia).
    reflexivity.
  - intros Hlate.
    assert (Hmine : max_valid_index
               {| data_size_log2 := data_size_log2 hll;
                  data_size := data_size hll;
                  max_bit_position := max_bit_position hll;
                  data := firstn (Z.to_nat (cell hll hash)) (data hll)
                          ++ current_time
                             :: skipn (S (Z.to_nat (cell hll hash))) (data hll) |}
               idx since_time = Some 32).
    { unfold max_valid_index. cbn [data max_bit_position].
      apply scan_register_none. intros n Hn.
      destruct (Z.eq_dec (Z.of_nat n) rank) as [E|E].
      - exists current_time. split; [|lia].
        rewrite <- Hnew. now rewrite <- E, Nat2Z.id.
      - exists 0. split; [|lia]. apply Hold; [lia|exact Hn|now right]. }
    rewrite (count_all_but_one _ since_time idx 32); cbn [data_size];
      try assumption; try lia.
    rewrite Z2Nat.id by lia. cbn [Z.eqb Pos.eqb negb].
    rewrite andb_false_r. f_equal. lia.
Qed.

(** The hash 10485760 at time 1000 in the sketch of four registers, asked
    about since time 999. *)
Lemma one_hash_in_the_window_witness :
  let hll' := {| data_size_log2 := 2; data_size := 4; max_bit_position := 31;
                 data := repeat 0 19 ++ 1000 :: repeat 0 104 |} in
  let rank :=
    find_first_set_bit_after_index 10485760 (data_size_log2 four_registers) in
  (999 < 1000 ->
   max_valid_index hll' (10485760 mod data_size four_registers) 999
   = Some (rank + 1)
   /\ (forall i, 0 <= i < data_size four_registers ->
                 i <> 10485760 mod data_size four_registers ->
                 max_valid_index hll' i 999 = Some 32)
   /\ (rank + 1 <> 32 ->
       count_zero_elements hll' 999 = Some (data_size four_registers - 1)))
  /\ (1000 <= 999 ->
      count_zero_elements hll' 999 = Some (data_size four_registers)).
Proof.
  apply (one_hash_in_the_window four_registers _ 10485760 1000 999).
  - repeat split; vm_compute; first [reflexivity | discriminate].
  - reflexivity.
  - lia.
  - lia.
  - lia.
  - vm_compute. reflexivity.
Defined.

End HyperLogLogWindow.

(* ================================================================== *)
(** * An incident flagged in the cache reaches the log *)

Module IncidentFacts.
Import Cache Binlog BinlogHooks.

Section Incident.

Variable cfg : sys_vars.
Variable env : Env.
Variable event_image : Log_event -> Z -> list byte.
Variable write_cache : IO_CACHE -> IO_CACHE -> Z * IO_CACHE.

(** [write_incident_unlocked] that succeeds on an open log has put the
    event at the end of the file. *)
Lemma write_incident_unlocked_ok l l1 :
  is_open l = true ->
  write_incident_unlocked event_image l = (false, l1) ->
  log_state l1 = log_state l
  /\ contents (log_file l1)
     = contents (log_file l)
       ++ event_image (Incident_log_event "error writing to the binary log")
                      (Z.of_nat (length (contents (log_file l)))).
Proof.
  intros Ho. unfold write_incident_unlocked. rewrite Ho. cbn [negb].
  destruct (Log_event_write _ _ _) as [e f] eqn:E. intros H.
  injection H as -> <-. apply BinlogFacts.Log_event_write_ok in E.
  split; [reflexivity|exact E].
Qed.

(** The end of a transaction without an end event. *)
Lemma incident_without_end_event l thd d l' thd' :
  log_state l = LOG_OPENED ->
  ha_data thd = Some d ->
  has_incident d = true ->
  binlog_end_trans cfg env event_image write_cache l thd None true false
                   false 0 = Ret (0, l', thd') ->
  exists before,
    file_starts_with cfg l'
      (before ++ event_image (Incident_log_event "error writing to the binary log")
                             (Z.of_nat (length before))).
Proof.
  intros Hs Hd Hi.
  assert (Ho : is_open l = true) by (unfold is_open; now rewrite Hs).
  unfold binlog_end_trans, binlog_remove_pending_rows_event.
  rewrite Ho, Hd. cbn [negb bind ha_data upd_ha_data orb].
  replace (has_incident (set_pending None d)) with true by (symmetry; exact Hi).
  unfold write_incident. rewrite Ho. cbn [negb].
  destruct (write_incident_unlocked event_image l) as [e1 l1] eqn:E1.
  destruct e1; cbn [negb bind];
    [unfold upd_ha_data; cbn [ha_data]; discriminate|].
  apply write_incident_unlocked_ok in E1; [|exact Ho].
  destruct E1 as (S1 & B1).
  destruct (flush_and_sync cfg env l1 _ false false 0)
    as [[e2 l2] thd2] eqn:E2.
  apply BinlogFilesFacts.flush_and_sync_files in E2.
  destruct E2 as (F2 & S2 & C2).
  destruct e2; cbn [negb bind]; [destruct (ha_data thd2); discriminate|].
  destruct (rotate_and_purge cfg env event_image (signal_update l2) thd2
              already_locked true) as [[[e3 l3] thd3]| |] eqn:E3;
    cbn [bind]; try discriminate.
  destruct (ha_data thd3); [|discriminate].
  intros H. injection H as -> <- <-.
  exists (contents (log_file l)).
  eapply InTheLogFacts.rotate_keeps_start; [| |exact E3].
  - cbn. now rewrite S2, S1.
  - exists []. cbn. rewrite F2, B1, app_nil_r. reflexivity.
Qed.

(** The end of a transaction with an end event and bytes in the cache. *)
Lemma incident_with_end_event l thd d ev l' thd' :
  log_state l = LOG_OPENED ->
  ha_data thd = Some d ->
  pending d = None ->
  0 < position d ->
  has_incident d = true ->
  binlog_end_trans cfg env event_image write_cache l thd (Some ev) true false
                   false 0 = Ret (0, l', thd') ->
  exists before,
    file_starts_with cfg l'
      (before ++ event_image (Incident_log_event "error writing to the binary log")
                             (Z.of_nat (length before))).
Proof.
  intros Hs Hd Hp Hpos Hi.
  assert (Ho : is_open l = true) by (unfold is_open; now rewrite Hs).
  unfold binlog_end_trans.
  rewrite (BinlogFacts.flush_pending_none cfg env event_image l thd true d
             Hd Hp).
  cbn [bind]. change (negb (0 =? 0)) with false. cbv iota. rewrite Hd, Hi.
  destruct (write_cached cfg env event_image write_cache l thd (trans_log d)
              (Some ev) true false false 0) as [[[err l2] thd2]| |] eqn:Ew;
    cbn [bind]; try discriminate.
  destruct (ha_data thd2); [|discriminate].
  destruct err; [discriminate|].
  intros H. injection H as <- _. clear thd'.
  revert Ew. unfold write_cached. rewrite Ho.
  unfold position in Hpos. apply Z.ltb_lt in Hpos. rewrite Hpos. cbn [andb].
  destruct (is_xid_event ev && stop_new_xids l); [discriminate|].
  assert (Herr : forall (l0 : MYSQL_BIN_LOG) (thd0 : THD) (P : Prop),
             Ret (true,
                  (if write_error l0 then l0
                   else sql_print_error "Error writing file"
                          (upd_write_error true l0)), thd0)
             = Ret (false, l2, thd2) -> P) by discriminate.
  destruct (Log_event_write event_image _ (log_file l)) as [e1 f1].
  destruct e1; cbn [bind]; [apply Herr|].
  destruct (write_cache (trans_log d) (log_file (upd_log_file f1 l)))
    as [code f2].
  destruct (negb (code =? 0)); cbn [bind]; [apply Herr|].
  destruct (Log_event_write event_image ev _) as [e3 f3].
  destruct e3; cbn [bind]; [apply Herr|].
  set (l3 := upd_log_file f3 _).
  assert (S3 : log_state l3 = LOG_OPENED) by exact Hs.
  assert (O3 : is_open l3 = true) by exact Ho.
  clearbody l3.
  destruct (write_incident_unlocked event_image l3) as [e4 l4] eqn:E4.
  destruct e4; cbn [bind]; [apply Herr|].
  apply write_incident_unlocked_ok in E4; [|exact O3].
  destruct E4 as (S4 & B4).
  destruct (flush_and_sync cfg env l4 thd false false 0)
    as [[e5 l5] thd5] eqn:E5.
  apply BinlogFilesFacts.flush_and_sync_files in E5.
  destruct E5 as (F5 & S5 & C5).
  destruct e5; cbn [bind]; [apply Herr|].
  destruct (cache_read_error env); cbn [bind]; [apply Herr|].
  assert (Hstart : exists after,
             contents (log_file (signal_update l5))
             = (contents (log_file l3)
                ++ event_image
                     (Incident_log_event "error writing to the binary log")
                     (Z.of_nat (length (contents (log_file l3))))) ++ after).
  { exists []. cbn. rewrite F5, B4, app_nil_r. reflexivity. }
  assert (Hstate : log_state (signal_update l5) = LOG_OPENED).
  { cbn. now rewrite S5, S4. }
  destruct (is_xid_event ev).
  - intros H. injection H as <- <-.
    exists (contents (log_file l3)). left. exact Hstart.
  - destruct (rotate_and_purge cfg env event_image (signal_update l5) thd5
                already_locked true) as [[[e7 l7] thd7]| |] eqn:E7;
      cbn [bind]; try discriminate.
    destruct (negb (e7 =? 0)); [apply Herr|].
    intros H. injection H as <- <-.
    exists (contents (log_file l3)).
    eapply InTheLogFacts.rotate_keeps_start; eauto.
Qed.

End Incident.

(** X25.  An incident flagged in a cache that holds bytes is not
    forgotten: when the commit or the rollback of the whole transaction
    ([all] set) returns 0 on an open log, for a session without a pending
    rows event, the incident event is in the binary log, in the current file
    or in the file just rotated cfg away, at the offset that was the end of the
    file when it was written. *)
Theorem flagged_incident_is_logged
  (cfg : sys_vars) (env : Env) (event_image : Log_event -> Z -> list byte)
  (write_cache : IO_CACHE -> IO_CACHE -> Z * IO_CACHE)
  (h : hook) (l l' : MYSQL_BIN_LOG) (thd thd' : THD) (d : binlog_trx_data) :
  log_state l = LOG_OPENED ->
  ha_data thd = Some d ->
  pending d = None ->
  0 < position d ->
  has_incident d = true ->
  end_hook cfg env event_image write_cache h l thd true = Ret (0, l', thd') ->
  exists before,
    file_starts_with cfg l'
      (before ++ event_image (Incident_log_event "error writing to the binary log")
                             (Z.of_nat (length before))).
Proof.
  intros Hs Hd Hp Hpos Hi.
  assert (He : empty d = false).
  { unfold empty. rewrite Hp. apply Z.eqb_neq. lia. }
  destruct h; cbn [end_hook].
  - unfold binlog_commit. rewrite Hd, He.
    unfold ending_trans. cbn [orb bind].
    destruct (binlog_end_trans cfg env event_image write_cache l thd
                (Some (Query_log_event "COMMIT" true true None)) true false
                false 0) as [[[e1 l1] thd1]| |] eqn:E1;
      cbn [bind]; try discriminate.
    destruct (ha_data thd1); [|discriminate].
    intros H. injection H as -> -> _.
    eapply incident_with_end_event; eauto.
  - unfold binlog_rollback. rewrite Hd, He.
    destruct (check_write_error thd).
    + set (thd0 := if rollback_sets_incident thd then _ else thd).
      destruct (binlog_end_trans cfg env event_image write_cache l thd0 None
                  true false false 0) as [[[e1 l1] thd1]| |] eqn:E1;
        cbn [bind negb]; try discriminate.
      intros H. injection H as -> -> _.
      subst thd0. destruct (rollback_sets_incident thd).
      * eapply (incident_without_end_event cfg env event_image write_cache
                  l (upd_ha_data (Some (set_incident d)) thd)
                  (set_incident d)); [exact Hs|reflexivity|reflexivity|].
        exact E1.
      * eapply incident_without_end_event; eauto.
    + unfold ending_trans. cbn [orb andb].
      destruct (trans_has_no_stmt_committed thd true) as [n| |];
        cbn [bind]; try discriminate.
      destruct (_ || _).
      * destruct (binlog_end_trans cfg env event_image write_cache l thd
                    (Some _) true false false 0) as [[[e1 l1] thd1]| |] eqn:E1;
          cbn [bind negb]; try discriminate.
        intros H. injection H as -> -> _.
        eapply incident_with_end_event; eauto.
      * destruct (binlog_end_trans cfg env event_image write_cache l thd None
                    true false false 0) as [[[e1 l1] thd1]| |] eqn:E1;
          cbn [bind negb]; try discriminate.
        intros H. injection H as -> -> _.
        eapply incident_without_end_event; eauto.
Qed.

(** The rollback of the example transaction after a statement that failed
    with a write error and flagged the incident. *)
Lemma flagged_incident_witness :
  exists l' thd',
    end_hook Examples.cfg Examples.env Examples.image Examples.copy Rollback
             Examples.open_log
             (Examples.session true true (set_incident Examples.one_insert))
             true
    = Ret (0, l', thd')
    /\ exists before,
         file_starts_with Examples.cfg l'
           (before ++ Examples.image
                        (Incident_log_event "error writing to the binary log")
                        (Z.of_nat (length before))).
Proof.
  do 2 eexists. split; [vm_compute; reflexivity|].
  eapply (flagged_incident_is_logged Examples.cfg Examples.env Examples.image
            Examples.copy Rollback Examples.open_log _
            (Examples.session true true (set_incident Examples.one_insert)) _
            (set_incident Examples.one_insert));
    try reflexivity; vm_compute; reflexivity.
Defined.

(** X26.  The incident of a transaction's first statement is dropped.
    When a statement inside a transaction ([OPTION_BEGIN]) that began at
    offset 0 of the cache fails with a write error after it updated a
    non-transactional table (or under [OPTION_KEEP_LOG]), its rollback
    flags the incident, truncates the cache to nothing, and returns 0 with
    the log untouched; the commit or rollback that follows then finds the
    cache empty, clears the flag and returns 0, again with the log
    untouched: no incident event is written. *)
Theorem incident_of_first_statement_is_dropped
  (cfg : sys_vars) (env : Env) (event_image : Log_event -> Z -> list byte)
  (write_cache : IO_CACHE -> IO_CACHE -> Z * IO_CACHE)
  (l : MYSQL_BIN_LOG) (thd : THD) (d : binlog_trx_data)
  (h : hook) (all : bool) :
  ha_data thd = Some d ->
  empty d = false ->
  rollback_sets_incident thd = true ->
  OPTION_BEGIN (ctx thd) = true ->
  before_stmt_pos d = 0 ->
  exists thd1 d1,
    binlog_rollback cfg env event_image write_cache l thd false
    = Ret (0, l, thd1)
    /\ ha_data thd1 = Some d1
    /\ has_incident d1 = true
    /\ exists thd2 d2,
         end_hook cfg env event_image write_cache h l thd1 all
         = Ret (0, l, thd2)
         /\ ha_data thd2 = Some d2
         /\ has_incident d2 = false.
Proof.
  intros Hd He Hset Hbegin Hpos.
  assert (Hcheck : check_write_error thd = true).
  { unfold rollback_sets_incident in Hset. now apply andb_true_iff in Hset. }
  set (d1 := upd_before_stmt_pos MY_OFF_T_UNDEF
               (truncate (max_binlog_cache_size cfg) 0 (set_incident d))).
  assert (Hd1 : empty d1 = true).
  { unfold d1, empty, pending, position, my_b_tell. cbn.
    destruct (contents (trans_log d)); reflexivity. }
  exists (upd_ha_data (Some d1) thd), d1.
  split; [|split; [reflexivity|split; [reflexivity|]]].
  - unfold binlog_rollback. rewrite Hd, He, Hcheck, Hset.
    unfold binlog_end_trans, binlog_remove_pending_rows_event.
    destruct (negb (is_open l)); cbn [bind ha_data upd_ha_data ctx orb];
      rewrite Hbegin; cbn [orb negb bind ha_data upd_ha_data].
    + cbn [before_stmt_pos set_incident]. rewrite Hpos. reflexivity.
    + cbn [before_stmt_pos set_incident set_pending]. rewrite Hpos.
      reflexivity.
  - exists (upd_ha_data (Some (reset (max_binlog_cache_size cfg) d1)) thd),
           (reset (max_binlog_cache_size cfg) d1).
    split; [|split; reflexivity].
    destruct h; cbn [end_hook]; unfold binlog_commit, binlog_rollback;
      cbn [ha_data upd_ha_data]; rewrite Hd1; reflexivity.
Qed.

(** The failed first statement of the example transaction, then its
    commit. *)
Lemma incident_of_first_statement_witness :
  exists thd1 d1,
    binlog_rollback Examples.cfg Examples.env Examples.image Examples.copy
                    Examples.open_log Examples.failed_statement false
    = Ret (0, Examples.open_log, thd1)
    /\ ha_data thd1 = Some d1
    /\ has_incident d1 = true
    /\ exists thd2 d2,
         end_hook Examples.cfg Examples.env Examples.image Examples.copy
                  Commit Examples.open_log thd1 true
         = Ret (0, Examples.open_log, thd2)
         /\ ha_data thd2 = Some d2
         /\ has_incident d2 = false.
Proof.
  apply (incident_of_first_statement_is_dropped Examples.cfg Examples.env
           Examples.image Examples.copy Examples.open_log
           Examples.failed_statement (upd_before_stmt_pos 0 Examples.one_insert)
           Commit true); reflexivity.
Defined.

End IncidentFacts.

(* ================================================================== *)
(** * Rollback to a savepoint: the record or the truncation *)

Module SavepointFacts.
Import Cache Binlog BinlogHooks.

(** A failed [write] does not return 0. *)
Ltac write_failed :=
  unfold set_write_error;
  repeat match goal with
         | |- context [if ?b then _ else _] => destruct b
         end; discriminate.

Section Savepoint.

Variable cfg : sys_vars.
Variable env : Env.
Variable event_image : Log_event -> Z -> list byte.

(** ** The statement context is only read *)

Lemma ctx_set_write_error l thd :
  ctx (snd (set_write_error l thd)) = ctx thd.
Proof.
  unfold set_write_error, my_error.
  repeat match goal with
         | |- context [if ?b then _ else _] => destruct b
         end; reflexivity.
Qed.

Lemma ctx_set_pending thd ev thd' :
  binlog_set_pending_rows_event cfg env thd ev = Ret thd' ->
  ctx thd' = ctx thd.
Proof.
  unfold binlog_set_pending_rows_event, binlog_setup_trx_data.
  destruct (ha_data thd) eqn:E.
  - rewrite E. intros H. now injection H as <-.
  - destruct (alloc_fails env); cbn; [rewrite E; discriminate|].
    intros H. now injection H as <-.
Qed.

Lemma ctx_flush_and_sync l thd async ht pending :
  ctx (snd (flush_and_sync cfg env l thd async ht pending)) = ctx thd.
Proof.
  unfold flush_and_sync, order_for_group_commit.
  repeat match goal with
         | |- context [if ?b then _ else _] => destruct b
         end; reflexivity.
Qed.

Lemma ctx_rotate_and_purge l thd flags log_maybe_full e l' thd' :
  rotate_and_purge cfg env event_image l thd flags log_maybe_full
  = Ret (e, l', thd') ->
  ctx thd' = ctx thd.
Proof.
  unfold rotate_and_purge.
  destruct (_ && _); [intros H; now injection H as _ _ <-|].
  destruct (stop_new_xids l); [discriminate|].
  destruct (_ || _); [|intros H; now injection H as _ _ <-].
  destruct (new_file_impl cfg env event_image l) as [[error l1]| |];
    cbn [bind]; try discriminate.
  destruct (negb (error =? 0)).
  - destruct (write_incident_unlocked event_image l1) as [e1 l2].
    destruct (negb e1); [|intros H; now injection H as _ _ <-].
    pose proof (ctx_flush_and_sync l2 thd false false 0) as Hf.
    destruct (flush_and_sync cfg env l2 thd false false 0) as [[e2 l3] thd3].
    intros H. now injection H as _ _ <-.
  - destruct (_ && _); intros H; now injection H as _ _ <-.
Qed.

Lemma ctx_flush_and_set_pending l thd event e l' thd' :
  flush_and_set_pending_rows_event cfg env event_image l thd event
  = Ret (e, l', thd') ->
  ctx thd' = ctx thd.
Proof.
  unfold flush_and_set_pending_rows_event.
  destruct (ha_data thd) as [d|]; [|discriminate].
  destruct (pending d) as [p|].
  - destruct (_ || _).
    + destruct (Log_event_write _ _ _) as [e1 f]. destruct e1.
      * pose proof (ctx_set_write_error l thd) as Hs.
        destruct (set_write_error l thd) as [l1 thd1].
        intros H. now injection H as _ _ <-.
      * destruct (binlog_set_pending_rows_event _ _ _ _) as [thd1| |] eqn:E;
          cbn [bind]; try discriminate.
        apply ctx_set_pending in E.
        intros H. now injection H as _ _ <-.
    + destruct (Log_event_write _ _ _) as [e1 f]. destruct e1.
      * pose proof (ctx_set_write_error l thd) as Hs.
        destruct (set_write_error l thd) as [l1 thd1].
        intros H. now injection H as _ _ <-.
      * pose proof (ctx_flush_and_sync (upd_log_file f l) thd false false 0)
          as Hf.
        destruct (flush_and_sync cfg env (upd_log_file f l) thd false false 0)
          as [[e2 l2] thd2]. cbn [snd] in Hf.
        assert (Hrot : forall r l3 thd3,
                   (if negb e2
                    then rotate_and_purge cfg env event_image
                           (signal_update l2) thd2 already_locked true
                    else Ret (1, l2, thd2)) = Ret (r, l3, thd3) ->
                   ctx thd3 = ctx thd).
        { intros r l3 thd3. destruct (negb e2).
          - intros H. apply ctx_rotate_and_purge in H. congruence.
          - intros H. injection H as _ _ <-. exact Hf. }
        destruct (if negb e2 then _ else _) as [[[r l3] thd3]| |];
          cbn [bind]; try discriminate.
        specialize (Hrot r l3 thd3 eq_refl).
        destruct (binlog_set_pending_rows_event _ _ _ _) as [thd4| |] eqn:E;
          cbn [bind]; try discriminate.
        apply ctx_set_pending in E.
        intros H. injection H as _ _ <-. congruence.
  - destruct (binlog_set_pending_rows_event _ _ _ _) as [thd1| |] eqn:E;
      cbn [bind]; try discriminate.
    apply ctx_set_pending in E. intros H. now injection H as _ _ <-.
Qed.

Lemma ctx_binlog_flush_pending l thd stmt_end e l' thd' :
  binlog_flush_pending_rows_event cfg env event_image l thd stmt_end
  = Ret (e, l', thd') ->
  ctx thd' = ctx thd.
Proof.
  unfold binlog_flush_pending_rows_event.
  destruct (negb (is_open l)); [intros H; now injection H as _ _ <-|].
  destruct (ha_data thd) as [d|]; [|intros H; now injection H as _ _ <-].
  destruct (pending d) as [p|]; [|intros H; now injection H as _ _ <-].
  intros H. apply ctx_flush_and_set_pending in H. exact H.
Qed.

(** ** An event that [write] does not skip is written *)

(** An open log that has grown and is not closed is open. *)
Lemma grown_open l l' :
  log_state l = LOG_OPENED ->
  grown cfg l l' ->
  is_open l' = true ->
  log_state l' = LOG_OPENED.
Proof.
  unfold grown, is_open. intros Es [Hg _]. rewrite Es in Hg.
  destruct Hg as [(s & _)|(Hs & _)].
  - intros _. congruence.
  - destruct (log_state l'); congruence.
Qed.

(** [MYSQL_BIN_LOG::write] of an event that asks for the cache, when it
    returns 0 for a session that is logging: with transactions in use the
    image of the event is the end of the session's cache, behind the bytes
    the cache held; without, it is in the log file. *)
Lemma cached_event_is_written l thd ev l' thd' :
  get_cache_stmt ev = true ->
  do_union thd = false ->
  OPTION_BIN_LOG (ctx thd) = true ->
  lex_sql_command (ctx thd) <> SQLCOM_OTHER \/ db_ok (ctx thd) = true ->
  write cfg env event_image l thd ev = Ret (false, l', thd') ->
  (opt_using_transactions cfg = true ->
   exists before,
     cache_bytes thd' = before ++ event_image ev (Z.of_nat (length before))
     /\ exists earlier, before = cache_bytes thd ++ earlier)
  /\ (opt_using_transactions cfg = false ->
      log_state l = LOG_OPENED ->
      exists before,
        file_starts_with cfg l'
          (before ++ event_image ev (Z.of_nat (length before)))).
Proof.
  intros Hev Hu Hb Hfilter. unfold write. rewrite Hu.
  pose proof (BinlogFacts.rspec_binlog_flush_pending_rows_event cfg env
                event_image l thd
                (prelocked_mode (ctx thd) && lex_requires_prelocking (ctx thd)))
    as Hk1.
  pose proof (BinlogFilesFacts.rgrown_binlog_flush_pending_rows_event cfg env
                event_image l thd
                (prelocked_mode (ctx thd) && lex_requires_prelocking (ctx thd)))
    as Hg1.
  destruct (binlog_flush_pending_rows_event cfg env event_image l thd _)
    as [[[e1 l1] thd1]| |] eqn:E1; cbn [bind]; try discriminate.
  apply ctx_binlog_flush_pending in E1.
  cbn in Hk1, Hg1. destruct Hk1 as [_ Hk1].
  destruct (negb (e1 =? 0)); [discriminate|].
  destruct (negb (is_open l1)) eqn:Ho1; [discriminate|].
  apply negb_false_iff in Ho1.
  rewrite E1, Hb. cbn [negb orb].
  replace (match lex_sql_command (ctx thd) with
           | SQLCOM_OTHER => true
           | _ => false
           end && negb (db_ok (ctx thd))) with false.
  2:{ destruct Hfilter as [Hc| ->]; [|now rewrite andb_false_r].
      destruct (lex_sql_command (ctx thd)); try reflexivity. congruence. }
  unfold cache_or_disk.
  destruct (opt_using_transactions cfg) eqn:Et.
  - (* to the cache *)
    pose proof (BinlogFacts.kept_setup cfg env thd1) as Hk2.
    destruct (binlog_setup_trx_data cfg env thd1) as [e2 thd2].
    cbn [snd] in Hk2.
    destruct (negb (e2 =? 0)); cbn [bind]; [write_failed|].
    destruct (ha_data thd2) as [d2|]; [|discriminate].
    rewrite Hev. cbn [orb].
    pose proof (BinlogFacts.rspec_thd_start_trans_and_stmt cfg env thd2) as Hk3.
    destruct (binlog_start_trans_and_stmt cfg env thd2) as [thd3| |];
      cbn [bind]; try discriminate.
    cbn in Hk3.
    assert (Hk4 : forall e4 l4 thd4,
               (if negb (current_stmt_binlog_row_based (ctx thd3))
                then write_all_to event_image To_trans_log
                       (run_environment (ctx thd3)) l1 thd3
                else Ret (false, l1, thd3)) = Ret (e4, l4, thd4) ->
               kept thd3 thd4).
    { intros e4 l4 thd4. destruct (negb _).
      - pose proof (BinlogFacts.rspec_write_all_to event_image To_trans_log
                      (run_environment (ctx thd3)) l1 thd3) as Hw.
        intros H. rewrite H in Hw. apply Hw.
      - intros H. injection H as _ _ <-. apply BinlogFacts.kept_refl. }
    destruct (if negb (current_stmt_binlog_row_based (ctx thd3)) then _ else _)
      as [[[e4 l4] thd4]| |]; cbn [bind]; try discriminate.
    specialize (Hk4 e4 l4 thd4 eq_refl).
    destruct e4; [write_failed|].
    unfold write_to.
    destruct (ha_data thd4) as [d4|] eqn:Ed4; [|discriminate].
    destruct (Log_event_write event_image ev (trans_log d4)) as [e5 f5] eqn:E5.
    cbn [bind]. destruct e5; [write_failed|].
    apply BinlogFacts.Log_event_write_ok in E5.
    intros H. injection H as _ <-. split; [|discriminate].
    intros _. exists (cache_bytes thd4). split.
    + unfold cache_bytes. cbn [ha_data upd_ha_data]. rewrite Ed4.
      exact E5.
    + destruct (BinlogFacts.kept_trans _ _ _ Hk1
                  (BinlogFacts.kept_trans _ _ _ Hk2
                     (BinlogFacts.kept_trans _ _ _ Hk3 Hk4))) as [x Hx].
      now exists x.
  - (* to the log file *)
    cbn [bind].
    assert (X4 : forall e4 l4 thd4,
               (if negb (current_stmt_binlog_row_based (ctx thd1))
                then write_all_to event_image To_log_file
                       (run_environment (ctx thd1)) l1 thd1
                else Ret (false, l1, thd1)) = Ret (e4, l4, thd4) ->
               extended l1 l4).
    { intros e4 l4 thd4. destruct (negb _).
      - intros H. now apply InTheLogFacts.write_all_to_log in H.
      - intros H. injection H as _ <- _. apply BinlogFilesFacts.extended_refl. }
    destruct (if negb (current_stmt_binlog_row_based (ctx thd1)) then _ else _)
      as [[[e4 l4] thd4]| |]; cbn [bind]; try discriminate.
    specialize (X4 e4 l4 thd4 eq_refl).
    destruct e4; [write_failed|].
    unfold write_to.
    destruct (Log_event_write event_image ev (log_file l4)) as [e5 f5] eqn:E5.
    cbn [bind]. destruct e5; [write_failed|].
    apply BinlogFacts.Log_event_write_ok in E5.
    destruct (flush_and_sync cfg env (upd_log_file f5 l4) thd4 false false 0)
      as [[e6 l6] thd6] eqn:E6.
    apply BinlogFilesFacts.flush_and_sync_files in E6.
    destruct e6; [write_failed|].
    destruct (rotate_and_purge cfg env event_image (signal_update l6) thd6
                already_locked true) as [[[e7 l7] thd7]| |] eqn:E7;
      cbn [bind]; try discriminate.
    destruct (negb (e7 =? 0)); [write_failed|].
    intros H. injection H as <- _. split; [discriminate|].
    intros _ Hs.
    assert (S1 : log_state l1 = LOG_OPENED) by (eapply grown_open; eauto).
    destruct X4 as (_ & S4 & _ & _). destruct E6 as (F6 & S6 & _).
    exists (contents (log_file l4)).
    eapply InTheLogFacts.rotate_keeps_start; [| |exact E7].
    + cbn. rewrite S6. cbn. congruence.
    + exists []. cbn. rewrite F6. cbn. unfold my_b_tell in E5.
      now rewrite app_nil_r.
Qed.

End Savepoint.

(** C6, amended.  [binlog_savepoint_rollback] on a session whose
    transaction has updated a non-transactional table, or with
    [OPTION_KEEP_LOG] set, keeps every byte of the cache; and when it
    returns 0 for a session that is logging to the binary log
    ([OPTION_BIN_LOG] set, not collecting the events of a stored function,
    the statement a savepoint statement or its database accepted by the
    filter), the record [ROLLBACK TO `name`] is written: it is the end of
    the cache, or, with transactions not in use, it is in the open log
    file.  Otherwise the hook truncates the cache to the saved position:
    for an offset saved by [binlog_savepoint_set] on a cache that has only
    grown since, the bytes and the write position are those of the time of
    the savepoint, and no rows event is pending. *)
Theorem savepoint_rollback_keeps_or_truncates
  (cfg : sys_vars) (env : Env) (event_image : Log_event -> Z -> list byte)
  (l : MYSQL_BIN_LOG) (thd : THD) (sv : Z) (d : binlog_trx_data) :
  ha_data thd = Some d ->
  let rollback_to :=
    Query_log_event (savepoint_query "ROLLBACK TO " thd) true true
      (query_error_code thd
         match killed (ctx thd) with NOT_KILLED => true | _ => false end) in
  (trans_has_updated_non_trans_table thd || OPTION_KEEP_LOG (ctx thd) = true ->
   (forall r l' thd',
       binlog_savepoint_rollback cfg env event_image l thd sv = Ret (r, l', thd') ->
       kept thd thd')
   /\ (forall l' thd',
       binlog_savepoint_rollback cfg env event_image l thd sv = Ret (0, l', thd') ->
       do_union thd = false ->
       OPTION_BIN_LOG (ctx thd) = true ->
       lex_sql_command (ctx thd) <> SQLCOM_OTHER \/ db_ok (ctx thd) = true ->
       (opt_using_transactions cfg = true ->
        exists before,
          cache_bytes thd'
          = before ++ event_image rollback_to (Z.of_nat (length before))
          /\ exists earlier, before = cache_bytes thd ++ earlier)
       /\ (opt_using_transactions cfg = false ->
           log_state l = LOG_OPENED ->
           exists before,
             file_starts_with cfg l'
               (before ++ event_image rollback_to (Z.of_nat (length before))))))
  /\ (trans_has_updated_non_trans_table thd || OPTION_KEEP_LOG (ctx thd) = false ->
      binlog_savepoint_rollback cfg env event_image l thd sv
      = Ret (0, l, upd_ha_data
                     (Some (truncate (max_binlog_cache_size cfg) sv d)) thd)
      /\ (forall env0 l0 thd0 d0 r l1 thd1,
          ha_data thd0 = Some d0 ->
          binlog_savepoint_set cfg env0 event_image l0 thd0 = Ret (r, sv, l1, thd1) ->
          kept thd0 thd ->
          let d' := truncate (max_binlog_cache_size cfg) sv d in
          contents (trans_log d') = contents (trans_log d0)
          /\ position d' = position d0
          /\ Cache.pending d' = None)).
Proof.
  intros Hd rollback_to. split.
  - intros Hbranch.
    assert (Hdef : forall r l' thd',
               binlog_savepoint_rollback cfg env event_image l thd sv
               = Ret (r, l', thd') ->
               (r = 1 /\ l' = l /\ thd' = thd)
               \/ exists e,
                   write cfg env event_image l thd rollback_to = Ret (e, l', thd')
                   /\ r = if (e : bool) then 1 else 0).
    { intros r l' thd'. unfold binlog_savepoint_rollback. rewrite Hbranch.
      destruct (alloc_fails env).
      - intros H. injection H as <- <- <-. now left.
      - fold rollback_to.
        destruct (write cfg env event_image l thd rollback_to)
          as [[[e l1] thd1]| |]; cbn [bind]; try discriminate.
        intros H. injection H as <- <- <-. right. now exists e. }
    split.
    + intros r l' thd' Hr.
      destruct (Hdef r l' thd' Hr) as [(_ & _ & ->)|(e & Hw & _)].
      * apply BinlogFacts.kept_refl.
      * pose proof (BinlogFacts.rspec_write cfg env event_image l thd
                      rollback_to) as Hs.
        rewrite Hw in Hs. apply Hs.
    + intros l' thd' Hr Hunion Hbin Hfilter.
      destruct (Hdef 0 l' thd' Hr) as [(H01 & _)|(e & Hw & He)];
        [discriminate|].
      destruct e; [discriminate|].
      apply (SavepointFacts.cached_event_is_written cfg env event_image l thd
               rollback_to l' thd'); auto.
  - intros Hbranch.
    split.
    + unfold binlog_savepoint_rollback, binlog_trans_log_truncate.
      now rewrite Hbranch, Hd.
    + intros env0 l0 thd0 d0 r l1 thd1 Hd0 Hset [extra Hkept] d'.
      apply (BinlogFacts.savepoint_set_position _ _ _ _ _ _ _ _ _ _ Hd0)
        in Hset.
      unfold cache_bytes in Hkept. rewrite Hd, Hd0 in Hkept.
      subst d'. unfold truncate, position, Cache.pending.
      cbn [trans_log m_pending set_pending contents].
      assert (Hc : contents (reinit_write_cache (trans_log d) sv)
                   = contents (trans_log d0)).
      { rewrite CacheFacts.reinit_write_cache_prefix.
        - rewrite Hkept, Hset. unfold position, my_b_tell.
          rewrite Nat2Z.id, firstn_app, firstn_all, Nat.sub_diag.
          cbn. apply app_nil_r.
        - rewrite Hset. unfold position, my_b_tell. rewrite Hkept, length_app. lia. }
      split; [exact Hc|]. split; [|reflexivity].
      unfold my_b_tell. cbn [contents]. now rewrite Hc.
Qed.

(** Both branches on the example session: with a non-transactional update
    the 35-byte record is appended to the 43 bytes of the cache; without,
    the cache is cut back to the saved offset 0. *)
Lemma savepoint_rollback_witness :
  (exists l' thd',
     binlog_savepoint_rollback Examples.cfg Examples.env Examples.image
       Examples.open_log (Examples.session true false Examples.one_insert) 0
     = Ret (0, l', thd')
     /\ exists before,
          cache_bytes thd'
          = before
            ++ Examples.image
                 (Query_log_event "ROLLBACK TO `s1`" true true None)
                 (Z.of_nat (length before))
          /\ exists earlier,
               before
               = cache_bytes (Examples.session true false Examples.one_insert)
                 ++ earlier)
  /\ binlog_savepoint_rollback Examples.cfg Examples.env Examples.image
       Examples.open_log (Examples.session false false Examples.one_insert) 0
     = Ret (0, Examples.open_log,
            upd_ha_data (Some (truncate 4096 0 Examples.one_insert))
                        (Examples.session false false Examples.one_insert)).
Proof.
  split.
  - destruct (savepoint_rollback_keeps_or_truncates Examples.cfg Examples.env
                Examples.image Examples.open_log
                (Examples.session true false Examples.one_insert) 0
                Examples.one_insert eq_refl) as [H _].
    destruct (H eq_refl) as (_ & H2).
    assert (E : exists l' thd',
               binlog_savepoint_rollback Examples.cfg Examples.env
                 Examples.image Examples.open_log
                 (Examples.session true false Examples.one_insert) 0
               = Ret (0, l', thd'))
      by (do 2 eexists; vm_compute; reflexivity).
    destruct E as (l' & thd' & E). exists l', thd'. split; [exact E|].
    apply (proj1 (H2 l' thd' E eq_refl eq_refl
                     (or_introl (fun H => eq_ind SQLCOM_ROLLBACK_TO_SAVEPOINT
                                   (fun c => match c with
                                             | SQLCOM_OTHER => False
                                             | _ => True
                                             end) I _ H)))).
    reflexivity.
  - destruct (savepoint_rollback_keeps_or_truncates Examples.cfg Examples.env
                Examples.image Examples.open_log
                (Examples.session false false Examples.one_insert) 0
                Examples.one_insert eq_refl) as [_ H].
    destruct (H eq_refl) as [Hr _]. exact Hr.
Defined.

(** C6, as stated, fails: [MYSQL_BIN_LOG::write] returns 0 without
    writing for a session that collects the events of a stored function
    ([do_union]), for one with [OPTION_BIN_LOG] off and for an event its
    filter rejects, and the hook returns 1 when the text of the record
    cannot be built.  In each case the transaction has updated a
    non-transactional table, and neither the cache nor the log file gets a
    record. *)
Lemma savepoint_rollback_without_record :
  (forall thd,
      In thd [upd_do_union true (Examples.savepoint_session true
                                   SQLCOM_ROLLBACK_TO_SAVEPOINT true);
              Examples.savepoint_session false SQLCOM_ROLLBACK_TO_SAVEPOINT true;
              Examples.savepoint_session true SQLCOM_OTHER false] ->
      trans_has_updated_non_trans_table thd = true
      /\ exists thd',
           binlog_savepoint_rollback Examples.cfg Examples.env Examples.image
             Examples.open_log thd 0
           = Ret (0, Examples.open_log, thd')
           /\ cache_bytes thd' = cache_bytes thd)
  /\ binlog_savepoint_rollback Examples.cfg Examples.no_memory Examples.image
       Examples.open_log
       (Examples.savepoint_session true SQLCOM_ROLLBACK_TO_SAVEPOINT true) 0
     = Ret (1, Examples.open_log,
            Examples.savepoint_session true SQLCOM_ROLLBACK_TO_SAVEPOINT true).
Proof.
  split; [|reflexivity].
  intros thd [<-|[<-|[<-|[]]]]; (split; [reflexivity|]);
    eexists; (split; [vm_compute; reflexivity|reflexivity]).
Qed.

End SavepointFacts.
